(** * wix-blog-export: image acquisition, content rewriting, export and report

    A shallow embedding of the TypeScript sources
      lib/types.ts, lib/utils.ts, lib/image-downloader.ts,
      lib/exporters.ts and lib/report-generator.ts
    together with the properties their specification states about them,
    and of lib/credentials.ts, lib/wix-api.ts and lib/zip-bundler.ts,
    with further properties that the code of all of them has.

    Conventions.
    - A JavaScript string is a Rocq [string]; each character stands for one
      UTF-16 code unit in the range 0..255.  [String.length] is [.length].
    - A JavaScript [number] that the program computes itself as a count
      (a length, an index, a total, a field of a date) is a [Z]; template
      literals print it in decimal.  A [number] that is data (the number
      fields of a post, the numbers of a JSON value) is an IEEE 754 double,
      [Number.number], printed by [Number.toString] and read by
      [Number.parse].
    - An optional property [f?: T] is an [option T]; [None] is [undefined].
    - [Map<string,string>] is a [gmap string string]; arrays are lists.
    - Functions of the Node.js runtime that the sources call but do not
      define (WHATWG URL parsing, the MD5 digest, the path module) are the
      fields of the class [Platform]. *)

From Stdlib Require Import ZArith List Ascii String Sorted Permutation Lia Bool.
From Stdlib Require Import DecimalString DecimalZ.
From stdpp Require Import base option list gmap strings.

Set Warnings "-register-all".

Local Open Scope string_scope.
Local Open Scope Z_scope.

(** ** JavaScript strings *)

Module JS.

(** [!s] is true for the empty string only. *)
Definition falsy (s : string) : bool :=
  match s with EmptyString => true | _ => false end.

(** [o || d] for an optional string [o]: [undefined] and the empty
    string are falsy. *)
Definition or_else (o : option string) (d : string) : string :=
  match o with
  | Some s => if falsy s then d else s
  | None => d
  end.

(** [arr.join(sep)] *)
Fixpoint join (sep : string) (l : list string) : string :=
  match l with
  | [] => ""
  | [x] => x
  | x :: rest => x +:+ sep +:+ join sep rest
  end.

(** [s.replace(/c/g, rep)] for a pattern that is the single literal
    character [c] and a replacement string without [$]. *)
Fixpoint replace_char (c : ascii) (rep : string) (s : string) : string :=
  match s with
  | EmptyString => EmptyString
  | String a rest =>
      if Ascii.eqb a c then rep +:+ replace_char c rep rest
      else String a (replace_char c rep rest)
  end.

(** [s.startsWith(p)] *)
Definition startsWith (p s : string) : bool := String.prefix p s.

(** [s.substring(0, n)] *)
Definition substring0 (n : nat) (s : string) : string := String.substring 0 n s.

(** [String(n)] for an integer [n]: decimal digits, with a minus
    sign for a negative number. *)
Definition Number_toString (n : Z) : string :=
  NilEmpty.string_of_int (Z.to_int n).

Definition LF : ascii := "010"%char.
Definition DQUOTE : ascii := "034"%char.

(** The replacement text of the quote-doubling [replace]: two quotes. *)
Definition DQUOTE2 : string := String DQUOTE (String DQUOTE EmptyString).

End JS.

(** ** JavaScript numbers *)

Module Number.

(** A [number] is an IEEE 754 double: not a number, an infinity, or
    [(-1)^negative * m * 2^e] with [m] below [2^53].  The values of the
    runtime are the triples [is_double] accepts: [m] has its leading bit at
    position 52, or [e] is the least exponent (the subnormal numbers and
    the two zeros). *)
Inductive number :=
| NaN
| Infinity (negative : bool)
| Finite (negative : bool) (m e : Z).

Definition emin : Z := -1074.
Definition emax : Z := 971.

Definition is_double (x : number) : bool :=
  match x with
  | Finite _ m e =>
      (0 <=? m) && (m <? 2 ^ 53) && (emin <=? e) && (e <=? emax)
      && ((2 ^ 52 <=? m) || (e =? emin))
  | _ => true
  end.

(** [Number.isFinite(x)] *)
Definition isFinite (x : number) : bool :=
  match x with Finite _ _ _ => true | _ => false end.

Definition zero (negative : bool) : number := Finite negative 0 emin.

Definition eqb (x y : number) : bool :=
  match x, y with
  | NaN, NaN => true
  | Infinity s, Infinity s' => Bool.eqb s s'
  | Finite s m e, Finite s' m' e' => Bool.eqb s s' && (m =? m') && (e =? e')
  | _, _ => false
  end.

(** *** Rounding to the nearest double *)

(** [floor (log2 (a / b))] for positive [a] and [b]. *)
Definition ilog2 (a b : Z) : Z :=
  let k := Z.log2 b + 1 in Z.log2 (a * 2 ^ k / b) - k.

(** [p / q] rounded to the nearest integer, a tie to the even one. *)
Definition round_half_even (p q : Z) : Z :=
  let f := p / q in
  let r := p mod q in
  if 2 * r <? q then f
  else if q <? 2 * r then f + 1
  else if Z.even f then f else f + 1.

(** The Number value of the rational [a / b], for positive [a] and [b]:
    the double nearest to it, a tie going to the one with the even
    significand, and an infinity beyond the largest double. *)
Definition round_rational (negative : bool) (a b : Z) : number :=
  let e := Z.max emin (ilog2 a b - 52) in
  let m := if 0 <=? e then round_half_even a (b * 2 ^ e)
           else round_half_even (a * 2 ^ (- e)) b in
  let '(m, e) := if m =? 2 ^ 53 then (2 ^ 52, e + 1) else (m, e) in
  if emax <? e then Infinity negative else Finite negative m e.

(** The Number value of [d * 10^q] for [d >= 0].  The two tests on [q]
    only spare the computation of a huge power: a value of at least
    [10^401] is beyond every double, and one below [10^(-400)] is nearer
    to zero than to any other double. *)
Definition round_decimal (negative : bool) (d q : Z) : number :=
  if d =? 0 then zero negative
  else if 400 <? q then Infinity negative
  else if Z.log2 d + 1 + q <? -400 then zero negative
  else if 0 <=? q then round_rational negative (d * 10 ^ q) 1
  else round_rational negative d (10 ^ (- q)).

(** [Number(z)] for an integer [z]. *)
Definition of_Z (z : Z) : number := round_decimal (z <? 0) (Z.abs z) 0.

(** *** Decimal digits *)

Definition digit_char (d : Z) : ascii := ascii_of_N (Z.to_N (48 + d)).

Definition is_digit (c : ascii) : bool :=
  let n := N_of_ascii c in ((48 <=? n) && (n <=? 57))%N.

Definition digit_value (c : ascii) : Z := Z.of_N (N_of_ascii c) - 48.

(** The digits of [n], most significant first, put before [acc]. *)
Fixpoint digits_aux (fuel : nat) (n : Z) (acc : string) : string :=
  match fuel with
  | O => acc
  | S fuel' =>
      let acc' := String (digit_char (n mod 10)) acc in
      if n <? 10 then acc' else digits_aux fuel' (n / 10) acc'
  end.

(** The decimal digits of [n >= 0]. *)
Definition digits (n : Z) : string :=
  digits_aux (S (Z.to_nat (Z.log2 n))) n EmptyString.

(** The number a string of digits denotes, after the digits read
    already, which denote [acc]. *)
Fixpoint read_digits (acc : Z) (s : string) : Z :=
  match s with
  | EmptyString => acc
  | String c rest => read_digits (10 * acc + digit_value c) rest
  end.

Fixpoint zeros (n : nat) : string :=
  match n with
  | O => EmptyString
  | S k => String "0" (zeros k)
  end.

(** *** Number::toString *)

(** The exact value [m * 2^e] as a fraction. *)
Definition exact (m e : Z) : Z * Z :=
  if 0 <=? e then (m * 2 ^ e, 1) else (m, 2 ^ (- e)).

(** The [n] with [10^(n-1) <= num / den < 10^n]. *)
Definition decimal_exponent (num den : Z) : Z :=
  if den <=? num then Z.of_nat (String.length (digits (num / den)))
  else
    let d := Z.of_nat (String.length (digits (den / num))) in
    if num * 10 ^ (d - 1) =? den then 2 - d else 1 - d.

(** The decimal with [k] digits nearest to the value [num / den] of [x],
    if it denotes [x]: its digits [s], as a number, and the exponent [q]
    with which [s * 10^q] is the decimal.  [n] is the decimal exponent of
    the value. *)
Definition candidate (x : number) (negative : bool) (num den n k : Z)
    : option (Z * Z) :=
  let q := n - k in
  let '(rnum, rden) := if q <=? 0 then (num * 10 ^ (- q), den)
                       else (num, den * 10 ^ q) in
  let lo := rnum / rden in
  let hi := lo + 1 in
  let '(hs, hq) := if hi =? 10 ^ k then (10 ^ (k - 1), q + 1) else (hi, q) in
  let ok_lo := (0 <? lo) && eqb (round_decimal negative lo q) x in
  let ok_hi := eqb (round_decimal negative hs hq) x in
  let r := rnum mod rden in
  if ok_lo && ok_hi then
    if 2 * r <? rden then Some (lo, q)
    else if rden <? 2 * r then Some (hs, hq)
    else if Z.even lo then Some (lo, q) else Some (hs, hq)
  else if ok_lo then Some (lo, q)
  else if ok_hi then Some (hs, hq)
  else None.

(** The first [k], from [k] on, for which there is such a decimal. *)
Fixpoint shortest_from (fuel : nat) (x : number) (negative : bool)
    (num den n k : Z) : option (Z * Z) :=
  match fuel with
  | O => None
  | S fuel' =>
      match candidate x negative num den n k with
      | Some sq => Some sq
      | None => shortest_from fuel' x negative num den n (k + 1)
      end
  end.

(** The digits [s] and the exponent [q] of the shortest decimal
    [s * 10^q] that denotes the positive double [m * 2^e].  Seventeen
    digits always suffice; the bound of the search is the length of the
    longest exact expansion of a double, with which it cannot fail. *)
Definition shortest (negative : bool) (m e : Z) : option (Z * Z) :=
  let '(num, den) := exact m e in
  shortest_from 1200 (Finite negative m e) negative num den
    (decimal_exponent num den) 1.

(** The first [n] characters of [s], and the others. *)
Fixpoint take (n : nat) (s : string) : string :=
  match n, s with
  | S n', String c rest => String c (take n' rest)
  | _, _ => EmptyString
  end.

Fixpoint drop (n : nat) (s : string) : string :=
  match n, s with
  | S n', String _ rest => drop n' rest
  | _, _ => s
  end.

(** The text of the decimal [s * 10^q], [s > 0], as Number::toString
    writes it: [k] is the number of digits, and [n] the number of digits
    before the decimal point. *)
Definition format (s q : Z) : string :=
  let D := digits s in
  let k := Z.of_nat (String.length D) in
  let n := k + q in
  if (k <=? n) && (n <=? 21) then D +:+ zeros (Z.to_nat (n - k))
  else if (0 <? n) && (n <=? 21) then
    take (Z.to_nat n) D +:+ "." +:+ drop (Z.to_nat n) D
  else if (-6 <? n) && (n <=? 0) then "0." +:+ zeros (Z.to_nat (- n)) +:+ D
  else
    (if k =? 1 then D else take 1 D +:+ "." +:+ drop 1 D)
    +:+ "e" +:+ (if 0 <=? n - 1 then "+" else "-") +:+ digits (Z.abs (n - 1)).

(** [String(x)], [x.toString()] and [`${x}`].  The last branch is never
    taken for a double ([shortest_total] below). *)
Definition toString (x : number) : string :=
  match x with
  | NaN => "NaN"
  | Infinity false => "Infinity"
  | Infinity true => "-Infinity"
  | Finite negative m e =>
      if m <=? 0 then "0"
      else
        match shortest negative m e with
        | Some (s, q) => (if negative then "-" else "") +:+ format s q
        | None => "NaN"
        end
  end.

(** *** Number literals of JSON *)

Fixpoint span_digits (s : string) : string * string :=
  match s with
  | EmptyString => (EmptyString, EmptyString)
  | String c rest =>
      if is_digit c then let '(run, tail) := span_digits rest in (String c run, tail)
      else (EmptyString, s)
  end.

(** An optional fraction at the start of [s]: its digits and what
    follows; [None] when the point is not followed by a digit. *)
Definition fraction (s : string) : option (string * string) :=
  match s with
  | String c rest =>
      if Ascii.eqb c "." then
        let '(frac, tail) := span_digits rest in
        match frac with EmptyString => None | _ => Some (frac, tail) end
      else Some (EmptyString, s)
  | EmptyString => Some (EmptyString, EmptyString)
  end.

(** An optional exponent part at the start of [s]: its value and what
    follows; [None] when no digit follows the letter and the sign. *)
Definition exponent (s : string) : option (Z * string) :=
  match s with
  | String c rest =>
      if Ascii.eqb c "e" || Ascii.eqb c "E" then
        let '(sign, rest1) :=
          match rest with
          | String c1 rest' =>
              if Ascii.eqb c1 "+" then (1, rest')
              else if Ascii.eqb c1 "-" then (-1, rest')
              else (1, rest)
          | EmptyString => (1, rest)
          end in
        let '(ds, tail) := span_digits rest1 in
        match ds with
        | EmptyString => None
        | _ => Some (sign * read_digits 0 ds, tail)
        end
      else Some (0, s)
  | EmptyString => Some (0, EmptyString)
  end.

(** The integer part, which has no leading zero: a single [0], or a
    run of digits that starts with another digit. *)
Definition integer_part (s : string) : option (string * string) :=
  match s with
  | String c rest =>
      if Ascii.eqb c "0" then Some ("0", rest)
      else if is_digit c then Some (span_digits s)
      else None
  | EmptyString => None
  end.

(** A number literal without its sign at the start of [s]. *)
Definition parse_unsigned (negative : bool) (s : string) : option (number * string) :=
  match integer_part s with
  | None => None
  | Some (int, s2) =>
      match fraction s2 with
      | None => None
      | Some (frac, s3) =>
          match exponent s3 with
          | None => None
          | Some (ex, s4) =>
              Some (round_decimal negative (read_digits 0 (int +:+ frac))
                      (ex - Z.of_nat (String.length frac)),
                    s4)
          end
      end
  end.

(** A number literal of JSON at the start of [s]: the Number value it
    denotes and the rest of the input. *)
Definition parse (s : string) : option (number * string) :=
  match s with
  | String c rest =>
      if Ascii.eqb c "-" then parse_unsigned true rest else parse_unsigned false s
  | EmptyString => None
  end.

(** A number the JSON text of which is read back as the same number: a
    finite double other than negative zero. *)
Definition reads_back (x : number) : bool :=
  match x with
  | Finite negative m e => is_double x && negb (negative && (m =? 0))
  | _ => false
  end.

End Number.

(** ** lib/types.ts *)

Module Types.

(** [any]: the JSON-shaped data the blog API attaches to a post. *)
Inductive json : Type :=
| JNull
| JBool (b : bool)
| JNumber (x : Number.number)
| JString (s : string)
| JArray (items : list json)
| JObject (props : list (string * json)).

Record Image := {
  image_url : string;
  altText : option string;
  height : option Number.number;
  width : option Number.number
}.

Record WixMedia := { image : option Image }.

Record Media := {
  wixMedia : option WixMedia;
  displayed : bool
}.

Record WixBlogPost := {
  id : string;
  title : string;
  excerpt : string;
  contentText : option string;
  url : option string;
  firstPublishedDate : string;
  lastPublishedDate : string;
  status : option string;
  slug : string;
  featured : bool;
  categoryIds : list string;
  tagIds : list string;
  relatedPostIds : list string;
  membersOnly : option bool;
  hashtags : list string;
  commentingEnabled : bool;
  minutesToRead : Number.number;
  viewCount : option Number.number;
  likeCount : option Number.number;
  language : string;
  media : option Media;
  seoData : option json;
  localImagePaths : option (list string);
  coverImageLocalPath : option string
}.

Inductive ExportFormat := FmtMarkdown | FmtJson | FmtCsv | FmtAll.

Record ExportOptions := {
  format : ExportFormat;
  includeContent : bool;
  includeImages : bool;
  downloadImages : bool;
  outputDir : string;
  filename : option string;
  customer : option string;
  bundleTitle : option string;
  bundleZip : bool;
  concurrency : nat;
  retry : nat;
  timeoutMs : Z;
  dryRun : bool
}.

Record ImageDownloadResult := {
  postId : string;
  originalUrl : string;
  localPath : option string;
  success : bool;
  error : option string
}.

Record Counts := {
  total : Z;
  published : Z;
  draft : Z;
  scheduled : Z
}.

Record ImageStats := {
  attempted : Z;
  downloaded : Z;
  failed : Z
}.

Record FailedDownload := {
  fd_postId : string;
  fd_url : string;
  fd_error : string
}.

Record SummaryReport := {
  rep_customer : string;
  counts : Counts;
  images : ImageStats;
  tagsTop10 : list (string * Z);
  failures : list FailedDownload
}.

(** [post.media?.wixMedia?.image] *)
Definition cover_image (p : WixBlogPost) : option Image :=
  m ← media p; w ← wixMedia m; image w.

(** [post.media?.wixMedia?.image?.url] *)
Definition cover_url (p : WixBlogPost) : option string :=
  image_url <$> cover_image p.

End Types.

(** ** lib/report-generator.ts *)

Module ReportGenerator.
Import Types.

(** [p => p.status === 'PUBLISHED' || !p.status] *)
Definition is_published (p : WixBlogPost) : bool :=
  match status p with
  | Some s => String.eqb s "PUBLISHED" || JS.falsy s
  | None => true
  end.

(** [p => p.status === 'DRAFT'] *)
Definition is_draft (p : WixBlogPost) : bool :=
  match status p with
  | Some s => String.eqb s "DRAFT"
  | None => false
  end.

(** [p => p.status === 'SCHEDULED'] *)
Definition is_scheduled (p : WixBlogPost) : bool :=
  match status p with
  | Some s => String.eqb s "SCHEDULED"
  | None => false
  end.

(** A [Map<string, number>] keeps its keys in insertion order, and that
    order is what [Array.from(map.entries())] returns. *)
Definition TagMap := list (string * Z).

(** [map.get(k)] *)
Fixpoint map_get (k : string) (m : TagMap) : option Z :=
  match m with
  | [] => None
  | (k', v) :: rest => if String.eqb k' k then Some v else map_get k rest
  end.

(** [map.set(k, v)]: an existing key keeps its position. *)
Fixpoint map_set (k : string) (v : Z) (m : TagMap) : TagMap :=
  match m with
  | [] => [(k, v)]
  | (k', v') :: rest =>
      if String.eqb k' k then (k', v) :: rest else (k', v') :: map_set k v rest
  end.

(** [tagCounts.set(tag, (tagCounts.get(tag) || 0) + 1)] *)
Definition count_tag (m : TagMap) (tag : string) : TagMap :=
  map_set tag (default 0 (map_get tag m) + 1) m.

(** The two nested [forEach] loops over posts and their hashtags. *)
Definition count_tags (posts : list WixBlogPost) : TagMap :=
  fold_left (fun m post => fold_left count_tag (hashtags post) m) posts [].

(** [Array.prototype.sort(cmp)].  The sort is stable; for a comparator
    that orders the elements consistently the result is fixed by the
    language and is the one insertion from the right computes. *)
Fixpoint sort_insert {A} (cmp : A -> A -> Z) (x : A) (l : list A) : list A :=
  match l with
  | [] => [x]
  | y :: rest =>
      if cmp x y <=? 0 then x :: y :: rest else y :: sort_insert cmp x rest
  end.

Definition Array_sort {A} (cmp : A -> A -> Z) (l : list A) : list A :=
  fold_right (sort_insert cmp) [] l.

(** [(a, b) => b[1] - a[1]] *)
Definition by_count_desc (a b : string * Z) : Z := snd b - snd a.

Definition failure_of (r : ImageDownloadResult) : FailedDownload :=
  {| fd_postId := postId r;
     fd_url := originalUrl r;
     fd_error := JS.or_else (error r) "Unknown error" |}.

(** [generateSummaryReport]; the time stamp and the per-year table, which
    need the runtime's clock and date parser, are left out of the record. *)
Definition generateSummaryReport
    (posts : list WixBlogPost) (customer : string)
    (imageResults : list ImageDownloadResult) : SummaryReport :=
  {| rep_customer := customer;
     counts :=
       {| total := Z.of_nat (length posts);
          published := Z.of_nat (length (List.filter is_published posts));
          draft := Z.of_nat (length (List.filter is_draft posts));
          scheduled := Z.of_nat (length (List.filter is_scheduled posts)) |};
     images :=
       {| attempted := Z.of_nat (length imageResults);
          downloaded := Z.of_nat (length (List.filter success imageResults));
          failed :=
            Z.of_nat (length (List.filter (fun r => negb (success r)) imageResults)) |};
     tagsTop10 := take 10 (Array_sort by_count_desc (count_tags posts));
     failures :=
       List.map failure_of (List.filter (fun r => negb (success r)) imageResults) |}.

End ReportGenerator.

(** ** The Node.js runtime *)

(** What [new URL(s)] exposes of a parsed URL. *)
Record URL := { protocol : string; pathname : string }.

(** Runtime functions the sources call and do not define. *)
Class Platform := {
  (** [new URL(s)]; [None] when the constructor throws. *)
  URL_parse : string -> option URL;
  (** [crypto.createHash('md5').update(b).digest('hex')] *)
  md5_hex : list Byte.byte -> string;
  (** the UTF-8 bytes [update(s)] hashes for a string argument *)
  utf8_encode : string -> list Byte.byte;
  (** [path.join(...parts)] *)
  path_join : list string -> string;
  (** [path.normalize(p)] *)
  path_normalize : string -> string;
  (** [path.extname(p)] *)
  path_extname : string -> string
}.

(** ** lib/utils.ts *)

Module Utils.

Definition code (c : ascii) : N := N_of_ascii c.

(** The class [\s] on code units below 256: TAB, LF, VT, FF, CR, space
    and the no-break space. *)
Definition is_space (c : ascii) : bool :=
  let n := code c in
  ((9 <=? n) && (n <=? 13) || (n =? 32) || (n =? 160))%N.

(** The characters [.] does not match: LF and CR. *)
Definition is_line_terminator (c : ascii) : bool :=
  let n := code c in ((n =? 10) || (n =? 13))%N.

(** [toLowerCase] on one code unit below 256. *)
Definition lower_char (c : ascii) : ascii :=
  let n := code c in
  if ((65 <=? n) && (n <=? 90) || (192 <=? n) && (n <=? 222) && negb (n =? 215))%N
  then ascii_of_N (n + 32) else c.

Fixpoint toLowerCase (s : string) : string :=
  match s with
  | EmptyString => EmptyString
  | String c rest => String (lower_char c) (toLowerCase rest)
  end.

(** [.replace(/\s+/g, '-')]; [in_run] tells that the previous character
    was part of the run already replaced. *)
Fixpoint dash_whitespace (in_run : bool) (s : string) : string :=
  match s with
  | EmptyString => EmptyString
  | String c rest =>
      if is_space c
      then (if in_run then dash_whitespace true rest
            else String "-" (dash_whitespace true rest))
      else String c (dash_whitespace false rest)
  end.

(** The class [[a-z0-9\-_.]] *)
Definition is_safe_char (c : ascii) : bool :=
  let n := code c in
  ((97 <=? n) && (n <=? 122) || (48 <=? n) && (n <=? 57)
   || (n =? 45) || (n =? 95) || (n =? 46))%N.

(** [.replace(/[^a-z0-9\-_.]/g, '')] *)
Fixpoint keep_safe (s : string) : string :=
  match s with
  | EmptyString => EmptyString
  | String c rest =>
      if is_safe_char c then String c (keep_safe rest) else keep_safe rest
  end.

Definition is_dash (c : ascii) : bool := Ascii.eqb c "-".

(** [.replace(/-+/g, '-')] *)
Fixpoint collapse_dashes (in_run : bool) (s : string) : string :=
  match s with
  | EmptyString => EmptyString
  | String c rest =>
      if is_dash c
      then (if in_run then collapse_dashes true rest
            else String "-" (collapse_dashes true rest))
      else String c (collapse_dashes false rest)
  end.

Fixpoint strip_leading_dashes (s : string) : string :=
  match s with
  | EmptyString => EmptyString
  | String c rest => if is_dash c then strip_leading_dashes rest else s
  end.

Fixpoint strip_trailing_dashes (s : string) : string :=
  match s with
  | EmptyString => EmptyString
  | String c rest =>
      let rest' := strip_trailing_dashes rest in
      if is_dash c && JS.falsy rest' then EmptyString else String c rest'
  end.

(** [.replace(/^-+|-+$/g, '')] *)
Definition trim_dashes (s : string) : string :=
  strip_trailing_dashes (strip_leading_dashes s).

Definition sanitizeFilename (input : string) : string :=
  trim_dashes
    (collapse_dashes false
       (keep_safe (dash_whitespace false (toLowerCase input)))).

Definition sanitizeCustomerSlug (customer : string) : string :=
  let sanitized := sanitizeFilename customer in
  if JS.falsy sanitized then "unknown" else sanitized.

Section WithPlatform.
Context `{Platform}.

(** A [Buffer] is truthy even when empty, so [if (content)] tests
    presence only. *)
Definition generateImageHash (url : string) (content : option (list Byte.byte)) : string :=
  match content with
  | Some buffer => JS.substring0 8 (md5_hex buffer)
  | None => JS.substring0 8 (md5_hex (utf8_encode url))
  end.

Definition validExts : list string :=
  [".jpg"; ".jpeg"; ".png"; ".gif"; ".webp"; ".svg"; ".bmp"].

Definition includes (x : string) (l : list string) : bool :=
  existsb (String.eqb x) l.

Definition getFileExtensionFromUrl (url : string) : string :=
  match URL_parse url with
  | Some urlObj =>
      let ext := toLowerCase (path_extname (pathname urlObj)) in
      if includes ext validExts then ext else ".jpg"
  | None => ".jpg"
  end.

Definition isValidImageUrl (url : string) : bool :=
  match URL_parse url with
  | Some urlObj =>
      String.eqb (protocol urlObj) "http:" || String.eqb (protocol urlObj) "https:"
  | None => false
  end.

Definition createSafePath (parts : list string) : string :=
  path_normalize (path_join parts).

End WithPlatform.

(** *** The two image-reference patterns *)

(** The class [[^\s)]] *)
Definition is_url_char (c : ascii) : bool :=
  negb (is_space c) && negb (Ascii.eqb c ")").

(** Longest prefix of characters satisfying [f], and what follows it:
    how a greedy [*] or [+] over a character class consumes input when
    the character after the run decides the rest of the match. *)
Fixpoint span (f : ascii -> bool) (s : string) : string * string :=
  match s with
  | EmptyString => (EmptyString, EmptyString)
  | String c rest =>
      if f c then let '(run, tail) := span f rest in (String c run, tail)
      else (EmptyString, s)
  end.

(** [s] with the literal prefix [p] removed. *)
Fixpoint strip_prefix (p s : string) : option string :=
  match p, s with
  | EmptyString, _ => Some s
  | String a p', String b s' => if Ascii.eqb a b then strip_prefix p' s' else None
  | String _ _, EmptyString => None
  end.

(** [https?:\/\/] at the start of [s]: the scheme text and the rest. *)
Definition match_scheme (s : string) : option (string * string) :=
  match strip_prefix "https://" s with
  | Some rest => Some ("https://", rest)
  | None =>
      match strip_prefix "http://" s with
      | Some rest => Some ("http://", rest)
      | None => None
      end
  end.

(** [\]\((https?:\/\/[^\s)]+)\)] at the start of [s]: the captured URL
    and the number of characters matched. *)
Definition match_target (s : string) : option (string * nat) :=
  match strip_prefix "](" s with
  | None => None
  | Some s1 =>
      match match_scheme s1 with
      | None => None
      | Some (scheme, s2) =>
          let '(host, s3) := span is_url_char s2 in
          if JS.falsy host then None
          else
            match strip_prefix ")" s3 with
            | None => None
            | Some _ =>
                let url := scheme +:+ host in
                Some (url, (String.length url + 3)%nat)
            end
      end
  end.

(** The pattern of [rewriteMarkdownImageUrls] at the start of [s]: the
    literal [!\[], a greedy run of characters other than [\]] (the alt
    text, captured), then the target.  Yields alt text, URL and length
    of the match. *)
Definition match_rewrite_ref (s : string) : option (string * string * nat) :=
  match strip_prefix "![" s with
  | None => None
  | Some s1 =>
      let '(alt, s2) := span (fun c => negb (Ascii.eqb c "]")) s1 in
      match match_target s2 with
      | None => None
      | Some (url, n) => Some (alt, url, (2 + String.length alt + n)%nat)
      end
  end.

(** The lazy [.*?] followed by the target: the first position, reached
    over characters other than line terminators, where the target
    matches.  [n] counts the characters consumed so far. *)
Fixpoint match_lazy_alt (n : nat) (s : string) : option (string * nat) :=
  match match_target s with
  | Some (url, k) => Some (url, (n + k)%nat)
  | None =>
      match s with
      | EmptyString => None
      | String c rest =>
          if is_line_terminator c then None else match_lazy_alt (S n) rest
      end
  end.

(** [/!\[.*?\]\((https?:\/\/[^\s)]+)\)/] at the start of [s]: URL and
    length of the match. *)
Definition match_extract_ref (s : string) : option (string * nat) :=
  match strip_prefix "![" s with
  | None => None
  | Some s1 => match_lazy_alt 2 s1
  end.

(** The [while ((match = imageRegex.exec(markdown)) !== null)] loop.
    [skip] is the distance from the current position to [lastIndex]:
    the characters of a match already found are not searched again. *)
Fixpoint exec_all (skip : nat) (s : string) : list string :=
  match s with
  | EmptyString => []
  | String _ rest =>
      match skip with
      | S k => exec_all k rest
      | O =>
          match match_extract_ref s with
          | Some (url, len) =>
              if JS.startsWith "data:" url then exec_all (len - 1) rest
              else url :: exec_all (len - 1) rest
          | None => exec_all 0 rest
          end
      end
  end.

(** [Array.from(new Set(urls))]: first occurrences, in order. *)
Fixpoint unique (seen : list string) (l : list string) : list string :=
  match l with
  | [] => []
  | x :: rest =>
      if includes x seen then unique seen rest else x :: unique (x :: seen) rest
  end.

Definition extractInlineImageUrls (markdown : string) : list string :=
  unique [] (exec_all 0 markdown).

(** The replacer callback of [rewriteMarkdownImageUrls]; [matched] is
    the text of the match. *)
Definition replacer (urlToLocalPath : gmap string string)
    (matched altText url : string) : string :=
  match urlToLocalPath !! url with
  | Some localPath =>
      if JS.falsy localPath then matched
      else "![" +:+ altText +:+ "](" +:+ localPath +:+ ")"
  | None => matched
  end.

(** [markdown.replace(imageRegex, callback)] with a global pattern;
    [skip] as in [exec_all]. *)
Fixpoint replace_all (urlToLocalPath : gmap string string)
    (skip : nat) (s : string) : string :=
  match s with
  | EmptyString => EmptyString
  | String c rest =>
      match skip with
      | S k => replace_all urlToLocalPath k rest
      | O =>
          match match_rewrite_ref s with
          | Some (alt, url, len) =>
              replacer urlToLocalPath (JS.substring0 len s) alt url
              +:+ replace_all urlToLocalPath (len - 1) rest
          | None => String c (replace_all urlToLocalPath 0 rest)
          end
      end
  end.

Definition rewriteMarkdownImageUrls (markdown : string)
    (urlToLocalPath : gmap string string) : string :=
  replace_all urlToLocalPath 0 markdown.

End Utils.

(** ** The JSON object of the runtime *)

Module JSON.
Import Types.

Definition code (c : ascii) : N := N_of_ascii c.

Definition BACKSLASH : ascii := "092"%char.

(** Lower-case hexadecimal digit. *)
Definition hex_digit (n : N) : ascii :=
  ascii_of_N (if (n <? 10)%N then 48 + n else 87 + n).

(** What [QuoteJSONString] writes for one code unit below 256. *)
Definition quote_char (c : ascii) : string :=
  let n := code c in
  if (n =? 8)%N then "\b"
  else if (n =? 9)%N then "\t"
  else if (n =? 10)%N then "\n"
  else if (n =? 12)%N then "\f"
  else if (n =? 13)%N then "\r"
  else if (n =? 34)%N then String BACKSLASH (String JS.DQUOTE EmptyString)
  else if (n =? 92)%N then "\\"
  else if (n <? 32)%N
       then "\u00" +:+ String (hex_digit (n / 16)) (String (hex_digit (n mod 16)) EmptyString)
  else String c EmptyString.

Fixpoint quote_body (s : string) : string :=
  match s with
  | EmptyString => EmptyString
  | String c rest => quote_char c +:+ quote_body rest
  end.

(** [QuoteJSONString] *)
Definition quote (s : string) : string :=
  String JS.DQUOTE (quote_body s +:+ String JS.DQUOTE EmptyString).

(** The indentation of nesting level [n] for a gap of two spaces. *)
Fixpoint indent (n : nat) : string :=
  match n with
  | O => EmptyString
  | S k => "  " +:+ indent k
  end.

Definition NL : string := String JS.LF EmptyString.

(** A non-empty array or object: the opening bracket, the parts one per
    line at the inner indentation, and the closing bracket on a line of
    its own at the outer one. *)
Definition block (lvl : nat) (open close : string) (parts : list string) : string :=
  open +:+ NL +:+ indent (S lvl)
  +:+ JS.join ("," +:+ NL +:+ indent (S lvl)) parts
  +:+ NL +:+ indent lvl +:+ close.

(** [JSON.stringify(value, null, 2)] from nesting level [lvl].  A number
    that is not finite is written as [null]. *)
Fixpoint stringify (lvl : nat) (v : json) : string :=
  match v with
  | JNull => "null"
  | JBool true => "true"
  | JBool false => "false"
  | JNumber x => if Number.isFinite x then Number.toString x else "null"
  | JString s => quote s
  | JArray [] => "[]"
  | JArray items => block lvl "[" "]" (List.map (stringify (S lvl)) items)
  | JObject [] => "{}"
  | JObject props =>
      block lvl "{" "}"
        (List.map (fun kv => quote (fst kv) +:+ ": " +:+ stringify (S lvl) (snd kv)) props)
  end.

(** JSON white space: space, tab, line feed, carriage return. *)
Definition is_ws (c : ascii) : bool :=
  let n := code c in ((n =? 32) || (n =? 9) || (n =? 10) || (n =? 13))%N.

Fixpoint skip_ws (s : string) : string :=
  match s with
  | EmptyString => EmptyString
  | String c rest => if is_ws c then skip_ws rest else s
  end.

Definition hex_value (c : ascii) : option N :=
  let n := code c in
  if ((48 <=? n) && (n <=? 57))%N then Some (n - 48)%N
  else if ((97 <=? n) && (n <=? 102))%N then Some (n - 87)%N
  else if ((65 <=? n) && (n <=? 70))%N then Some (n - 55)%N
  else None.

(** The code unit of a [\u] escape; [None] for a malformed escape and
    for a code unit above 255, which a string of this model cannot hold. *)
Definition unicode_escape (h1 h2 h3 h4 : ascii) : option ascii :=
  match hex_value h1, hex_value h2, hex_value h3, hex_value h4 with
  | Some a, Some b, Some c, Some d =>
      let n := (((a * 16 + b) * 16 + c) * 16 + d)%N in
      if (n <? 256)%N then Some (ascii_of_N n) else None
  | _, _, _, _ => None
  end.

(** The character a simple escape stands for. *)
Definition simple_escape (e : ascii) : option ascii :=
  let n := code e in
  if (n =? 34)%N then Some JS.DQUOTE
  else if (n =? 92)%N then Some BACKSLASH
  else if (n =? 47)%N then Some "/"%char
  else if (n =? 98)%N then Some "008"%char
  else if (n =? 102)%N then Some "012"%char
  else if (n =? 110)%N then Some "010"%char
  else if (n =? 114)%N then Some "013"%char
  else if (n =? 116)%N then Some "009"%char
  else None.

(** The characters of a string literal after its opening quote, up to
    and including the closing quote: the string denoted and the rest of
    the input. *)
Fixpoint parse_chars (s : string) : option (string * string) :=
  match s with
  | EmptyString => None
  | String c rest =>
      if Ascii.eqb c JS.DQUOTE then Some (EmptyString, rest)
      else if Ascii.eqb c BACKSLASH then
        match rest with
        | EmptyString => None
        | String e rest1 =>
            if Ascii.eqb e "u" then
              match rest1 with
              | String h1 (String h2 (String h3 (String h4 rest2))) =>
                  match unicode_escape h1 h2 h3 h4, parse_chars rest2 with
                  | Some a, Some (str, r) => Some (String a str, r)
                  | _, _ => None
                  end
              | _ => None
              end
            else
              match simple_escape e, parse_chars rest1 with
              | Some a, Some (str, r) => Some (String a str, r)
              | _, _ => None
              end
        end
      else if (code c <? 32)%N then None
      else
        match parse_chars rest with
        | Some (str, r) => Some (String c str, r)
        | None => None
        end
  end.

(** [CreateDataProperty]: a key already present keeps its place and
    takes the new value.  (The runtime moves integer-like keys to the
    front; that reordering is not modelled.) *)
Fixpoint set_property (k : string) (v : json) (props : list (string * json))
    : list (string * json) :=
  match props with
  | [] => [(k, v)]
  | (k', v') :: rest =>
      if String.eqb k' k then (k', v) :: rest else (k', v') :: set_property k v rest
  end.

Definition build_object (members : list (string * json)) : list (string * json) :=
  fold_left (fun props kv => set_property (fst kv) (snd kv) props) members [].

(** *** Recursive descent over the JSON grammar

    The three mutually recursive parsers are written as one step each,
    over the parsers they call. *)

Section Steps.
Variable value : string -> option (json * string).
Variable elements : string -> option (list json * string).
Variable members : string -> option (list (string * json) * string).

(** One value, after optional white space. *)
Definition value_step (s : string) : option (json * string) :=
  match skip_ws s with
  | EmptyString => None
  | String c rest as s' =>
      if Ascii.eqb c JS.DQUOTE then
        match parse_chars rest with
        | Some (str, r) => Some (JString str, r)
        | None => None
        end
      else if Ascii.eqb c "[" then
        match skip_ws rest with
        | String c1 r1 as rest' =>
            if Ascii.eqb c1 "]" then Some (JArray [], r1)
            else
              match elements rest' with
              | Some (items, r) => Some (JArray items, r)
              | None => None
              end
        | EmptyString => None
        end
      else if Ascii.eqb c "{" then
        match skip_ws rest with
        | String c1 r1 as rest' =>
            if Ascii.eqb c1 "}" then Some (JObject [], r1)
            else
              match members rest' with
              | Some (ms, r) => Some (JObject (build_object ms), r)
              | None => None
              end
        | EmptyString => None
        end
      else
        match Utils.strip_prefix "null" s' with
        | Some r => Some (JNull, r)
        | None =>
            match Utils.strip_prefix "true" s' with
            | Some r => Some (JBool true, r)
            | None =>
                match Utils.strip_prefix "false" s' with
                | Some r => Some (JBool false, r)
                | None =>
                    match Number.parse s' with
                    | Some (x, r) => Some (JNumber x, r)
                    | None => None
                    end
                end
            end
        end
  end.

(** The elements of an array up to and including the closing bracket. *)
Definition elements_step (s : string) : option (list json * string) :=
  match value s with
  | None => None
  | Some (v, r) =>
      match skip_ws r with
      | String c r1 =>
          if Ascii.eqb c "," then
            match elements r1 with
            | Some (vs, r2) => Some (v :: vs, r2)
            | None => None
            end
          else if Ascii.eqb c "]" then Some ([v], r1)
          else None
      | EmptyString => None
      end
  end.

(** The members of an object up to and including the closing brace. *)
Definition members_step (s : string) : option (list (string * json) * string) :=
  match skip_ws s with
  | String q r0 =>
      if Ascii.eqb q JS.DQUOTE then
        match parse_chars r0 with
        | None => None
        | Some (k, r1) =>
            match skip_ws r1 with
            | String colon r2 =>
                if Ascii.eqb colon ":" then
                  match value r2 with
                  | None => None
                  | Some (v, r3) =>
                      match skip_ws r3 with
                      | String c r4 =>
                          if Ascii.eqb c "," then
                            match members r4 with
                            | Some (ms, r5) => Some ((k, v) :: ms, r5)
                            | None => None
                            end
                          else if Ascii.eqb c "}" then Some ([(k, v)], r4)
                          else None
                      | EmptyString => None
                      end
                  end
                else None
            | EmptyString => None
            end
        end
      else None
  | EmptyString => None
  end.

End Steps.

(** [fuel] bounds the nesting; [parse] below supplies enough of it for
    any input. *)
Fixpoint parse_value (fuel : nat) (s : string) {struct fuel} : option (json * string) :=
  match fuel with
  | O => None
  | S fuel' => value_step (parse_elements fuel') (parse_members fuel') s
  end

with parse_elements (fuel : nat) (s : string) {struct fuel}
    : option (list json * string) :=
  match fuel with
  | O => None
  | S fuel' => elements_step (parse_value fuel') (parse_elements fuel') s
  end

with parse_members (fuel : nat) (s : string) {struct fuel}
    : option (list (string * json) * string) :=
  match fuel with
  | O => None
  | S fuel' => members_step (parse_value fuel') (parse_members fuel') s
  end.

(** [JSON.parse(text)]; [None] is a [SyntaxError]. *)
Definition parse (text : string) : option json :=
  match parse_value (S (String.length text)) text with
  | Some (v, rest) => if JS.falsy (skip_ws rest) then Some v else None
  | None => None
  end.

End JSON.

(** ** lib/image-downloader.ts *)

Module ImageDownloader.
Import Types.

Inductive ImageType := cover | inline.

(** One element of the [imageDownloads] array. *)
Record ImageTask := {
  task_postId : string;
  task_postSlug : string;
  task_url : string;
  task_type : ImageType
}.

(** What the outside world does to one attempt. *)
Inductive BodyOutcome :=
| BodyThrows (message : string)          (* [response.arrayBuffer()] rejects *)
| BodyBytes (buffer : list Byte.byte).

Inductive FetchOutcome :=
| FetchThrows (message : string)         (* network error, or abort at the deadline *)
| FetchResponds (ok : bool) (status : Z) (statusText : string) (body : BodyOutcome).

Inductive DiskOutcome :=
| DiskOk
| MkdirThrows (message : string)
| WriteThrows (message : string).

Record AttemptEnv := { fetched : FetchOutcome; disk : DiskOutcome }.

(** The outcome of attempt [attempt] (counted from 1) of the task at
    position [task] of the task list. *)
Definition Network := nat -> nat -> AttemptEnv.

Inductive Event :=
| EvFetch (task : nat) (url : string) (attempt : nat)
| EvSleep (ms : Z)
| EvMkdir (dir : string)
| EvWrite (file : string).

(** Files and directories on disk, and the effects performed so far
    (most recent last). *)
Record World := {
  files : gmap string (list Byte.byte);
  dirs : gset string;
  trace : list Event
}.

Definition emit (e : Event) (w : World) : World :=
  {| files := files w; dirs := dirs w; trace := trace w ++ [e] |}.

(** [fs.existsSync(p)] *)
Definition existsSync (p : string) (w : World) : bool :=
  bool_decide (p ∈ dirs w) || bool_decide (is_Some (files w !! p)).

(** [fs.mkdirSync(p, { recursive: true })] *)
Definition mkdirSync (p : string) (w : World) : World :=
  emit (EvMkdir p) {| files := files w; dirs := {[ p ]} ∪ dirs w; trace := trace w |}.

(** [fs.writeFileSync(p, buffer)] *)
Definition writeFileSync (p : string) (buffer : list Byte.byte) (w : World) : World :=
  emit (EvWrite p) {| files := <[ p := buffer ]> (files w); dirs := dirs w; trace := trace w |}.

Definition prefix_of (type : ImageType) : string :=
  match type with cover => "cover" | inline => "image" end.

Section WithPlatform.
Context `{Platform}.
Variable options : ExportOptions.
Variable net : Network.

(** [`${prefix}-${hash}${extension}`] *)
Definition image_filename (type : ImageType) (url : string)
    (buffer : list Byte.byte) : string :=
  prefix_of type +:+ "-" +:+ Utils.generateImageHash url (Some buffer)
  +:+ Utils.getFileExtensionFromUrl url.

(** The part of the [try] block after the body has been read: make
    the post directory, name the file, write it.  [inl message] is an
    exception caught by the [catch] clause, [inr relativePath] the
    normal completion. *)
Definition save_image (t : ImageTask) (imagesDir : string)
    (buffer : list Byte.byte) (d : DiskOutcome) (w : World) : (string + string) * World :=
  let postDir := Utils.createSafePath [imagesDir; task_postSlug t] in
  let made :=
    if existsSync postDir w then inr w
    else match d with
         | MkdirThrows message => inl message
         | _ => inr (mkdirSync postDir w)
         end in
  match made with
  | inl message => (inl message, w)
  | inr w1 =>
      let filename := image_filename (task_type t) (task_url t) buffer in
      let localPath := Utils.createSafePath [postDir; filename] in
      match d with
      | WriteThrows message => (inl message, w1)
      | _ =>
          (inr ("images/" +:+ task_postSlug t +:+ "/" +:+ filename),
           writeFileSync localPath buffer w1)
      end
  end.

(** The body of the [try] block for one attempt. *)
Definition try_attempt (ix : nat) (t : ImageTask) (imagesDir : string)
    (attempt : nat) (w : World) : (string + string) * World :=
  let env := net ix attempt in
  let w0 := emit (EvFetch ix (task_url t) attempt) w in
  match fetched env with
  | FetchThrows message => (inl message, w0)
  | FetchResponds ok status statusText body =>
      if negb ok
      then (inl ("HTTP " +:+ JS.Number_toString status +:+ ": " +:+ statusText), w0)
      else
        match body with
        | BodyThrows message => (inl message, w0)
        | BodyBytes buffer =>
            if (length buffer =? 0)%nat then (inl "Empty response body", w0)
            else save_image t imagesDir buffer (disk env) w0
        end
  end.

(** The loop [for (attempt = 1; attempt <= retry; attempt++)] from the
    iteration numbered [attempt] on, with [remaining] iterations to
    go, followed by the two statements after the loop. *)
Fixpoint retry_loop (ix : nat) (t : ImageTask) (imagesDir : string)
    (remaining attempt : nat) (lastError : string) (w : World)
    : ImageDownloadResult * World :=
  match remaining with
  | O =>
      ({| postId := task_postId t; originalUrl := task_url t;
          localPath := None; success := false; error := Some lastError |}, w)
  | S remaining' =>
      match try_attempt ix t imagesDir attempt w with
      | (inr relativePath, w1) =>
          ({| postId := task_postId t; originalUrl := task_url t;
              localPath := Some relativePath; success := true; error := None |}, w1)
      | (inl message, w1) =>
          if (attempt =? retry options)%nat
          then retry_loop ix t imagesDir remaining' (S attempt) message w1
          else retry_loop ix t imagesDir remaining' (S attempt) message
                 (emit (EvSleep (2 ^ Z.of_nat attempt * 1000)) w1)
      end
  end.

Definition downloadSingleImage (ix : nat) (t : ImageTask) (imagesDir : string)
    (w : World) : ImageDownloadResult * World :=
  retry_loop ix t imagesDir (retry options) 1 "" w.

(** The tasks one post contributes: its cover, then the inline images
    of its content. *)
Definition tasks_of_post (post : WixBlogPost) : list ImageTask :=
  let postSlug :=
    Utils.sanitizeFilename (if JS.falsy (slug post) then id post else slug post) in
  let mk url type :=
    {| task_postId := id post; task_postSlug := postSlug;
       task_url := url; task_type := type |} in
  let covers :=
    match cover_url post with
    | Some coverUrl =>
        if JS.falsy coverUrl then []
        else if Utils.isValidImageUrl coverUrl then [mk coverUrl cover] else []
    | None => []
    end in
  let inlines :=
    match contentText post with
    | Some text =>
        if JS.falsy text then []
        else
          List.map (fun url => mk url inline)
            (List.filter Utils.isValidImageUrl (Utils.extractInlineImageUrls text))
    | None => []
    end in
  covers ++ inlines.

Definition collect_tasks (posts : list WixBlogPost) : list ImageTask :=
  concat (List.map tasks_of_post posts).

(** The downloader object: its ledger [downloadResults]. *)
Definition Ledger := list ImageDownloadResult.

(** Runs the tasks from position [ix] on.  Each task's promise settles
    with the result of [downloadSingleImage]; [Promise.allSettled]
    returns the results in task order. *)
Fixpoint run_tasks (ix : nat) (tasks : list ImageTask) (imagesDir : string)
    (w : World) : list ImageDownloadResult * World :=
  match tasks with
  | [] => ([], w)
  | t :: rest =>
      let '(r, w1) := downloadSingleImage ix t imagesDir w in
      let '(rs, w2) := run_tasks (S ix) rest imagesDir w1 in
      (r :: rs, w2)
  end.

(** The loop over the settled results: what it adds to the mapping. *)
Definition record_result (m : gmap string string) (r : ImageDownloadResult)
    : gmap string string :=
  match localPath r with
  | Some p =>
      if success r && negb (JS.falsy p) then <[ originalUrl r := p ]> m else m
  | None => m
  end.

(** [downloadAllImages]: the mapping returned, the ledger and the
    world afterwards. *)
Definition downloadAllImages (posts : list WixBlogPost) (outputDir : string)
    (ledger : Ledger) (w : World) : gmap string string * Ledger * World :=
  if negb (downloadImages options) || dryRun options then (∅, ledger, w)
  else
    let imagesDir := Utils.createSafePath [outputDir; "images"] in
    let w1 := if existsSync imagesDir w then w else mkdirSync imagesDir w in
    let imageDownloads := collect_tasks posts in
    if (length imageDownloads =? 0)%nat then (∅, ledger, w1)
    else
      let '(results, w2) := run_tasks 0 imageDownloads imagesDir w1 in
      (fold_left record_result results ∅, (ledger ++ results)%list, w2).

End WithPlatform.

(** [getDownloadStats] *)
Definition getDownloadStats (downloadResults : list ImageDownloadResult) : ImageStats :=
  let attempted := Z.of_nat (length downloadResults) in
  let successful := Z.of_nat (length (List.filter success downloadResults)) in
  let failed := attempted - successful in
  {| attempted := attempted; downloaded := successful; failed := failed |}.

(** [getFailedDownloads] *)
Definition getFailedDownloads (downloadResults : list ImageDownloadResult)
    : list FailedDownload :=
  List.map
    (fun r => {| fd_postId := postId r; fd_url := originalUrl r;
                 fd_error := JS.or_else (error r) "Unknown error" |})
    (List.filter (fun r => negb (success r)) downloadResults).

End ImageDownloader.

(** ** lib/exporters.ts *)

Module Exporters.
Import Types.

(** The result of [categorizePosts]. *)
Record Categorized := {
  cat_published : list WixBlogPost;
  cat_drafts : list WixBlogPost;
  cat_scheduled : list WixBlogPost
}.

(** [p => p.status === 'PUBLISHED' || !p.status] *)
Definition in_published (p : WixBlogPost) : bool :=
  match status p with
  | Some s => String.eqb s "PUBLISHED" || JS.falsy s
  | None => true
  end.

(** [p => p.status === 'DRAFT'] *)
Definition in_drafts (p : WixBlogPost) : bool :=
  match status p with
  | Some s => String.eqb s "DRAFT"
  | None => false
  end.

(** [p => p.status === 'SCHEDULED'] *)
Definition in_scheduled (p : WixBlogPost) : bool :=
  match status p with
  | Some s => String.eqb s "SCHEDULED"
  | None => false
  end.

Definition categorizePosts (posts : list WixBlogPost) : Categorized :=
  {| cat_published := List.filter in_published posts;
     cat_drafts := List.filter in_drafts posts;
     cat_scheduled := List.filter in_scheduled posts |}.

(** The private copy of the extraction loop kept by [PostExporter]. *)
Definition extractInlineImageUrls (markdown : string) : list string :=
  Utils.unique [] (Utils.exec_all 0 markdown).

(** [processedPost.coverImageLocalPath = localPath] *)
Definition set_coverImageLocalPath (v : string) (p : WixBlogPost) : WixBlogPost :=
  {| id := id p; title := title p; excerpt := excerpt p;
     contentText := contentText p; url := url p;
     firstPublishedDate := firstPublishedDate p;
     lastPublishedDate := lastPublishedDate p; status := status p;
     slug := slug p; featured := featured p; categoryIds := categoryIds p;
     tagIds := tagIds p; relatedPostIds := relatedPostIds p;
     membersOnly := membersOnly p; hashtags := hashtags p;
     commentingEnabled := commentingEnabled p;
     minutesToRead := minutesToRead p; viewCount := viewCount p;
     likeCount := likeCount p; language := language p; media := media p;
     seoData := seoData p; localImagePaths := localImagePaths p;
     coverImageLocalPath := Some v |}.

(** [processedPost.localImagePaths = localPaths] *)
Definition set_localImagePaths (v : list string) (p : WixBlogPost) : WixBlogPost :=
  {| id := id p; title := title p; excerpt := excerpt p;
     contentText := contentText p; url := url p;
     firstPublishedDate := firstPublishedDate p;
     lastPublishedDate := lastPublishedDate p; status := status p;
     slug := slug p; featured := featured p; categoryIds := categoryIds p;
     tagIds := tagIds p; relatedPostIds := relatedPostIds p;
     membersOnly := membersOnly p; hashtags := hashtags p;
     commentingEnabled := commentingEnabled p;
     minutesToRead := minutesToRead p; viewCount := viewCount p;
     likeCount := likeCount p; language := language p; media := media p;
     seoData := seoData p; localImagePaths := Some v;
     coverImageLocalPath := coverImageLocalPath p |}.

(** [urlToLocalPath.get(url)] when the value is truthy. *)
Definition truthy_path (m : gmap string string) (u : string) : option string :=
  match m !! u with
  | Some p => if JS.falsy p then None else Some p
  | None => None
  end.

Definition processPost (urlToLocalPath : gmap string string)
    (post : WixBlogPost) : WixBlogPost :=
  let p1 :=
    match cover_url post with
    | Some u =>
        if JS.falsy u then post
        else match truthy_path urlToLocalPath u with
             | Some localPath => set_coverImageLocalPath localPath post
             | None => post
             end
    | None => post
    end in
  match contentText post with
  | Some text =>
      if JS.falsy text then p1
      else
        let localPaths := omap (truthy_path urlToLocalPath) (extractInlineImageUrls text) in
        if (0 <? length localPaths)%nat then set_localImagePaths localPaths p1 else p1
  | None => p1
  end.

Definition processPostsWithLocalImages (posts : list WixBlogPost)
    (urlToLocalPath : gmap string string) : list WixBlogPost :=
  List.map (processPost urlToLocalPath) posts.

(** *** CSV *)

Definition csv_headers (options : ExportOptions) : list string :=
  ["id"; "slug"; "title"; "status"; "firstPublishedDate"; "lastPublishedDate";
   "featured"; "url"; "tags"; "categoryIds"; "readingTime"; "coverImageUrl";
   "coverImageLocalPath"; "contentLength"; "excerptLength"]
  ++ (if includeContent options then ["content"] else []).

(** [`"${x}"`] *)
Definition quoted (x : string) : string :=
  String JS.DQUOTE x +:+ String JS.DQUOTE EmptyString.

(** [`${n || 0}`] for a length: [0] and [undefined] both print as [0]. *)
Definition length_or_0 (o : option string) : string :=
  match o with
  | Some s => JS.Number_toString (Z.of_nat (String.length s))
  | None => "0"
  end.

(** [arr?.join('|') || ''] *)
Definition piped (l : list string) : string := JS.join "|" l.

(** The [row] array built for one post. *)
Definition csv_row (options : ExportOptions) (post : WixBlogPost) : list string :=
  [ quoted (id post);
    quoted (slug post);
    quoted (JS.replace_char JS.DQUOTE JS.DQUOTE2 (title post));
    quoted (JS.or_else (status post) "PUBLISHED");
    quoted (firstPublishedDate post);
    quoted (lastPublishedDate post);
    quoted (if featured post then "true" else "false");
    quoted (JS.or_else (url post) "");
    quoted (piped (hashtags post));
    quoted (piped (categoryIds post));
    quoted (Number.toString (minutesToRead post));
    quoted (JS.or_else (cover_url post) "");
    quoted (JS.or_else (coverImageLocalPath post) "");
    quoted (length_or_0 (contentText post));
    quoted (JS.Number_toString (Z.of_nat (String.length (excerpt post)))) ]
  ++ (if includeContent options
      then [ quoted (JS.replace_char JS.LF "\n"
                      (JS.replace_char JS.DQUOTE JS.DQUOTE2 (JS.or_else (contentText post) ""))) ]
      else []).

Definition NL : string := String JS.LF EmptyString.

(** The text [exportCSV] hands to [fs.writeFileSync]. *)
Definition csv_text (options : ExportOptions) (posts : list WixBlogPost) : string :=
  fold_left (fun csv post => csv +:+ JS.join "," (csv_row options post) +:+ NL)
    posts (JS.join "," (csv_headers options) +:+ NL).

(** *** JSON *)

Definition strings (l : list string) : json := JArray (List.map JString l).

(** The own properties of an object in order; a property whose value is
    [undefined] is there but is not serialized. *)
Fixpoint defined (props : list (string * option json)) : list (string * json) :=
  match props with
  | [] => []
  | (k, Some v) :: rest => (k, v) :: defined rest
  | (_, None) :: rest => defined rest
  end.

Definition image_object (i : Image) : json :=
  JObject (defined
    [("url", Some (JString (image_url i)));
     ("altText", JString <$> altText i);
     ("height", JNumber <$> height i);
     ("width", JNumber <$> width i)]).

Definition wixMedia_object (w : WixMedia) : json :=
  JObject (defined [("image", image_object <$> image w)]).

Definition media_object (m : Media) : json :=
  JObject (defined
    [("wixMedia", wixMedia_object <$> wixMedia m);
     ("displayed", Some (JBool (displayed m)))]).

(** A post as the object [JSON.stringify] sees: the properties of the
    interface, then the two that [processPost] adds. *)
Definition post_object (p : WixBlogPost) : json :=
  JObject (defined
    [("id", Some (JString (id p)));
     ("title", Some (JString (title p)));
     ("excerpt", Some (JString (excerpt p)));
     ("contentText", JString <$> contentText p);
     ("url", JString <$> url p);
     ("firstPublishedDate", Some (JString (firstPublishedDate p)));
     ("lastPublishedDate", Some (JString (lastPublishedDate p)));
     ("status", JString <$> status p);
     ("slug", Some (JString (slug p)));
     ("featured", Some (JBool (featured p)));
     ("categoryIds", Some (strings (categoryIds p)));
     ("tagIds", Some (strings (tagIds p)));
     ("relatedPostIds", Some (strings (relatedPostIds p)));
     ("membersOnly", JBool <$> membersOnly p);
     ("hashtags", Some (strings (hashtags p)));
     ("commentingEnabled", Some (JBool (commentingEnabled p)));
     ("minutesToRead", Some (JNumber (minutesToRead p)));
     ("viewCount", JNumber <$> viewCount p);
     ("likeCount", JNumber <$> likeCount p);
     ("language", Some (JString (language p)));
     ("media", media_object <$> media p);
     ("seoData", seoData p);
     ("coverImageLocalPath", JString <$> coverImageLocalPath p);
     ("localImagePaths", strings <$> localImagePaths p)]).

(** [JSON.stringify(posts, null, 2)] *)
Definition json_text (posts : list WixBlogPost) : string :=
  JSON.stringify 0 (JArray (List.map post_object posts)).

Section WithPlatform.
Context `{Platform}.

(** [exportCSV]: the path written and its text. *)
Definition exportCSV (options : ExportOptions) (posts : list WixBlogPost)
    (filename outputDir : string) : string * string :=
  (Utils.createSafePath [outputDir; filename], csv_text options posts).

(** [exportJSON]: the path written and its text. *)
Definition exportJSON (posts : list WixBlogPost) (filename outputDir : string)
    : string * string :=
  (Utils.createSafePath [outputDir; filename], json_text posts).

End WithPlatform.

End Exporters.

(** ** lib/credentials.ts *)

Module Credentials.
Import Types.

(** [WixCredentials] of lib/types.ts *)
Record WixCredentials := {
  apiKey : string;
  accountId : string;
  siteId : string
}.

(** [s.split(sep)] for a separator of one character: the pieces between
    the separators, at least one. *)
Fixpoint split (sep : ascii) (s : string) : list string :=
  match s with
  | EmptyString => [EmptyString]
  | String c rest =>
      if Ascii.eqb c sep then EmptyString :: split sep rest
      else match split sep rest with
           | piece :: pieces => String c piece :: pieces
           | [] => [String c EmptyString]
           end
  end.

Fixpoint trim_start (s : string) : string :=
  match s with
  | EmptyString => EmptyString
  | String c rest => if Utils.is_space c then trim_start rest else s
  end.

Fixpoint trim_end (s : string) : string :=
  match s with
  | EmptyString => EmptyString
  | String c rest =>
      let rest' := trim_end rest in
      if Utils.is_space c && JS.falsy rest' then EmptyString else String c rest'
  end.

(** [s.trim()]: white space and line terminators removed at both ends. *)
Definition trim (s : string) : string := trim_end (trim_start s).

(** The object [env] is a [gmap string string]: only the three required
    properties are ever read from it, and an empty object inherits none
    of them. *)

(** The callback of the [forEach] over the lines: [key] and [value] are
    the first two pieces of the line split at the equals signs. *)
Definition parse_line (env : gmap string string) (line : string) : gmap string string :=
  if negb (JS.falsy (trim line)) && negb (JS.startsWith "#" line)
  then
    match split "=" line with
    | key :: value :: _ =>
        if negb (JS.falsy key) && negb (JS.falsy value)
        then <[ trim key := trim value ]> env
        else env
    | _ => env
    end
  else env.

Definition parse_env (envContent : string) : gmap string string :=
  fold_left parse_line (split JS.LF envContent) ∅.

Definition required : list string :=
  ["WIX_API_KEY"; "WIX_ACCOUNT_ID"; "WIX_SITE_ID"].

(** [!env[field]] *)
Definition is_missing (env : gmap string string) (field : string) : bool :=
  match env !! field with
  | Some v => JS.falsy v
  | None => true
  end.

(** [env[field]], where the property is defined. *)
Definition field (env : gmap string string) (name : string) : string :=
  default EmptyString (env !! name).

(** [loadCredentials]; [envFile] is the content of the file [.env.wix]
    of the working directory, [None] when there is no such file.  The
    result is the message of the [CredentialsError] thrown, or the
    credentials returned. *)
Definition loadCredentials (envFile : option string) : string + WixCredentials :=
  match envFile with
  | None => inl "Missing .env.wix file"
  | Some envContent =>
      let env := parse_env envContent in
      let missing := List.filter (is_missing env) required in
      if (0 <? length missing)%nat
      then inl ("Missing required fields: " +:+ JS.join ", " missing)
      else inr {| apiKey := field env "WIX_API_KEY";
                  accountId := field env "WIX_ACCOUNT_ID";
                  siteId := field env "WIX_SITE_ID" |}
  end.

End Credentials.

(** ** lib/wix-api.ts *)

Module WixApi.
Import Types.

(** [WixApiResponse] of lib/types.ts *)
Record MetaData := { md_count : Z; md_offset : Z; md_total : Z }.

Record WixApiResponse := {
  res_posts : list WixBlogPost;
  metaData : MetaData
}.

(** What happens to one request. *)
Inductive Outcome :=
| FetchThrows (message : string)                       (* [fetch] rejects *)
| NotOk (status : Z) (statusText responseText : string) (* a response that is not ok *)
| JsonThrows (message : string)                        (* [response.json()] rejects *)
| Json (response : WixApiResponse).

(** The outcome of the request number [n] (from 0) of a run, made for
    the given offset. *)
Definition Server := nat -> Z -> Outcome.

Inductive Event :=
| EvRequest (offset : Z)
| EvSleep (ms : Z).

(** The message of [new WixApiError(status, statusText, responseText)] *)
Definition WixApiError (status : Z) (statusText responseText : string) : string :=
  "Wix API Error: " +:+ JS.Number_toString status +:+ " " +:+ statusText
  +:+ String JS.LF responseText.

(** [makeRequest]: the message of the error thrown, or the response. *)
Definition makeRequest (o : Outcome) : string + WixApiResponse :=
  match o with
  | FetchThrows message => inl message
  | NotOk status statusText responseText =>
      inl (WixApiError status statusText responseText)
  | JsonThrows message => inl message
  | Json response => inr response
  end.

Definition limit : Z := 100.

(** The [while (hasMore)] loop of [fetchAllPosts] before request number
    [n]; [fuel] bounds the number of iterations, and [None] says that
    the loop has not ended within that bound. *)
Fixpoint fetch_loop (fuel : nat) (server : Server) (n : nat) (offset : Z)
    (allPosts : list WixBlogPost) (trace : list Event)
    : option ((string + list WixBlogPost) * list Event) :=
  match fuel with
  | O => None
  | S fuel' =>
      let trace1 := (trace ++ [EvRequest offset])%list in
      match makeRequest (server n offset) with
      | inl message => Some (inl message, trace1)
      | inr response =>
          let allPosts' := (allPosts ++ res_posts response)%list in
          let offset' := offset + limit in
          let hasMore := offset' <? md_total (metaData response) in
          if hasMore
          then fetch_loop fuel' server (S n) offset' allPosts'
                 (trace1 ++ [EvSleep 500])%list
          else Some (inr allPosts', trace1)
      end
  end.

Definition fetchAllPosts (fuel : nat) (server : Server)
    : option ((string + list WixBlogPost) * list Event) :=
  fetch_loop fuel server 0 0 [] [].

End WixApi.

(** ** The clock and the date functions of the runtime *)

(** What the sources ask of [Date]. *)
Class Clock := {
  (** [new Date().toISOString()] at the time of the export *)
  Date_now_toISOString : string;
  (** [new Date(s).toLocaleDateString()] *)
  Date_toLocaleDateString : string -> string;
  (** [new Date(s).getFullYear()]; [None] is the [NaN] of a text that
      is no date *)
  Date_getFullYear : string -> option Z
}.

(** ** lib/exporters.ts: the Markdown formats *)

Module MarkdownExport.
Import Types.

Definition NL : string := String JS.LF EmptyString.

(** Text of the literals that lies outside Latin-1.  It is kept as the
    bytes that are written to the file for it; nothing below looks into
    it. *)
Definition STAR : string := "⭐".
Definition MEMO : string := "📝".
Definition CLIPBOARD : string := "📋".
Definition CALENDAR : string := "📅".
Definition CHART : string := "📊".

(** [if (s) { ... }] for a string [s]: the text added when [s] is not
    empty. *)
Definition when_nonempty (s : string) (text : string) : string :=
  if JS.falsy s then EmptyString else text.

(** [post.hashtags.map(tag => `#${tag}`).join(' ')] *)
Definition hash_tags (tags : list string) : string :=
  JS.join " " (List.map (fun tag => "#" +:+ tag) tags).

(** [urlToLocalPath.size > 0] *)
Definition has_entries (m : gmap string string) : bool := (0 <? size m)%nat.

(** The content as both formats print it: rewritten when the mapping
    has an entry. *)
Definition content_text (urlToLocalPath : gmap string string) (content : string) : string :=
  if has_entries urlToLocalPath
  then Utils.rewriteMarkdownImageUrls content urlToLocalPath
  else content.

(** [localPath || imageUrl] *)
Definition image_path (urlToLocalPath : gmap string string) (imageUrl : string) : string :=
  JS.or_else (urlToLocalPath !! imageUrl) imageUrl.

Section WithClock.
Context `{Clock}.
Variable options : ExportOptions.

Definition formatSinglePostAsMarkdown (post : WixBlogPost)
    (urlToLocalPath : gmap string string) : string :=
  "# " +:+ title post +:+ NL +:+ NL
  +:+ match url post with
      | Some u => when_nonempty u ("**Original URL:** " +:+ u +:+ NL)
      | None => EmptyString
      end
  +:+ "**Slug:** `" +:+ slug post +:+ "`" +:+ NL
  +:+ "**Status:** " +:+ JS.or_else (status post) "Published" +:+ NL
  +:+ when_nonempty (firstPublishedDate post)
        ("**Published:** " +:+ Date_toLocaleDateString (firstPublishedDate post) +:+ NL)
  +:+ (if negb (JS.falsy (lastPublishedDate post))
          && negb (String.eqb (lastPublishedDate post) (firstPublishedDate post))
       then "**Updated:** " +:+ Date_toLocaleDateString (lastPublishedDate post) +:+ NL
       else EmptyString)
  +:+ "**Reading Time:** " +:+ Number.toString (minutesToRead post) +:+ " minutes" +:+ NL
  +:+ (if featured post then "**Featured:** " +:+ STAR +:+ " Yes" +:+ NL else EmptyString)
  +:+ (if (0 <? length (hashtags post))%nat
       then "**Tags:** " +:+ hash_tags (hashtags post) +:+ NL
       else EmptyString)
  +:+ (if (0 <? length (categoryIds post))%nat
       then "**Categories:** " +:+ JS.join ", " (categoryIds post) +:+ NL
       else EmptyString)
  +:+ NL +:+ "---" +:+ NL +:+ NL
  +:+ match cover_image post with
      | Some image =>
          "![" +:+ JS.or_else (altText image) (title post) +:+ "]("
          +:+ image_path urlToLocalPath (image_url image) +:+ ")" +:+ NL +:+ NL
      | None => EmptyString
      end
  +:+ when_nonempty (excerpt post) ("## Excerpt" +:+ NL +:+ NL +:+ excerpt post +:+ NL +:+ NL)
  +:+ match contentText post with
      | Some content =>
          if includeContent options && negb (JS.falsy content)
          then "## Content" +:+ NL +:+ NL +:+ content_text urlToLocalPath content
               +:+ NL +:+ NL
          else EmptyString
      | None => EmptyString
      end.

Definition formatPostAsMarkdown (post : WixBlogPost)
    (urlToLocalPath : gmap string string) : string :=
  "## " +:+ title post +:+ NL +:+ NL
  +:+ "**Status:** " +:+ JS.or_else (status post) "Published" +:+ NL
  +:+ "**Slug:** `" +:+ slug post +:+ "`" +:+ NL
  +:+ when_nonempty (firstPublishedDate post)
        ("**Published:** " +:+ Date_toLocaleDateString (firstPublishedDate post) +:+ NL)
  +:+ "**Reading Time:** " +:+ Number.toString (minutesToRead post) +:+ " minutes" +:+ NL
  +:+ (if featured post then "**Featured:** " +:+ STAR +:+ " Yes" +:+ NL else EmptyString)
  +:+ (if (0 <? length (hashtags post))%nat
       then "**Tags:** " +:+ hash_tags (hashtags post) +:+ NL
       else EmptyString)
  +:+ match cover_image post with
      | Some image =>
          if includeImages options
          then "**Cover Image:** ![" +:+ title post +:+ "]("
               +:+ image_path urlToLocalPath (image_url image) +:+ ")" +:+ NL
          else EmptyString
      | None => EmptyString
      end
  +:+ NL +:+ "### Excerpt" +:+ NL +:+ NL
  +:+ (if JS.falsy (excerpt post) then "No excerpt available" else excerpt post)
  +:+ NL +:+ NL
  +:+ match contentText post with
      | Some content =>
          if includeContent options && negb (JS.falsy content)
          then "### Content" +:+ NL +:+ NL +:+ content_text urlToLocalPath content
               +:+ NL +:+ NL
          else EmptyString
      | None => EmptyString
      end
  +:+ "---" +:+ NL +:+ NL.

(** [`${list.length}`] *)
Definition count_text (l : list WixBlogPost) : string :=
  JS.Number_toString (Z.of_nat (length l)).

Definition generateMarkdownHeader (categorizedPosts : Exporters.Categorized) : string :=
  let total :=
    (Z.of_nat (length (Exporters.cat_published categorizedPosts))
     + Z.of_nat (length (Exporters.cat_drafts categorizedPosts))
     + Z.of_nat (length (Exporters.cat_scheduled categorizedPosts)))%Z in
  "# Wix Blog Export" +:+ NL +:+ NL
  +:+ "**Export Date:** " +:+ Date_now_toISOString +:+ NL +:+ NL
  +:+ "**Summary:**" +:+ NL
  +:+ "- " +:+ MEMO +:+ " Published: "
      +:+ count_text (Exporters.cat_published categorizedPosts) +:+ NL
  +:+ "- " +:+ CLIPBOARD +:+ " Drafts: "
      +:+ count_text (Exporters.cat_drafts categorizedPosts) +:+ NL
  +:+ "- " +:+ CALENDAR +:+ " Scheduled: "
      +:+ count_text (Exporters.cat_scheduled categorizedPosts) +:+ NL
  +:+ "- " +:+ CHART +:+ " Total: " +:+ JS.Number_toString total +:+ NL +:+ NL
  +:+ "---" +:+ NL +:+ NL.

(** One section of the combined document: its heading and its posts,
    or nothing when the group is empty. *)
Definition section (heading : string) (group : list WixBlogPost)
    (urlToLocalPath : gmap string string) : string :=
  if (0 <? length group)%nat
  then fold_left (fun markdown post => markdown +:+ formatPostAsMarkdown post urlToLocalPath)
         group
         ("# " +:+ heading +:+ " (" +:+ count_text group +:+ ")" +:+ NL +:+ NL)
  else EmptyString.

(** The text [exportMarkdown] writes. *)
Definition markdown_text (posts : list WixBlogPost)
    (urlToLocalPath : gmap string string) : string :=
  let categorizedPosts := Exporters.categorizePosts posts in
  generateMarkdownHeader categorizedPosts
  +:+ section (MEMO +:+ " Published Posts") (Exporters.cat_published categorizedPosts)
        urlToLocalPath
  +:+ section (CLIPBOARD +:+ " Draft Posts") (Exporters.cat_drafts categorizedPosts)
        urlToLocalPath
  +:+ section (CALENDAR +:+ " Scheduled Posts") (Exporters.cat_scheduled categorizedPosts)
        urlToLocalPath.

Context `{Platform}.

(** [exportMarkdown]: the path written and its text. *)
Definition exportMarkdown (posts : list WixBlogPost) (filename outputDir : string)
    (urlToLocalPath : gmap string string) : string * string :=
  (Utils.createSafePath [outputDir; filename], markdown_text posts urlToLocalPath).

(** The file of a post in [exportIndividualMarkdownFiles]. *)
Definition markdown_path (outputDir : string) (post : WixBlogPost) : string :=
  Utils.createSafePath
    [outputDir;
     Utils.sanitizeFilename (if JS.falsy (slug post) then id post else slug post) +:+ ".md"].

(** [exportIndividualMarkdownFiles], when no write fails: one write per
    post, in order, of the UTF-8 bytes of its text. *)
Definition exportIndividualMarkdownFiles (posts : list WixBlogPost) (outputDir : string)
    (urlToLocalPath : gmap string string) (w : ImageDownloader.World)
    : ImageDownloader.World :=
  fold_left
    (fun w post =>
       ImageDownloader.writeFileSync (markdown_path outputDir post)
         (utf8_encode (formatSinglePostAsMarkdown post urlToLocalPath)) w)
    posts w.

End WithClock.

End MarkdownExport.

(** ** lib/report-generator.ts: posts by year *)

Module ReportByYear.
Import Types.

(** A [Map<number, number>] in insertion order, as [entries()] lists
    it.  A key is what [getFullYear] returns, [None] for [NaN], which is
    a key like any other. *)
Fixpoint map_get (k : option Z) (m : list (option Z * Z)) : option Z :=
  match m with
  | [] => None
  | (k', v) :: rest => if bool_decide (k' = k) then Some v else map_get k rest
  end.

Fixpoint map_set (k : option Z) (v : Z) (m : list (option Z * Z)) : list (option Z * Z) :=
  match m with
  | [] => [(k, v)]
  | (k', v') :: rest =>
      if bool_decide (k' = k) then (k', v) :: rest else (k', v') :: map_set k v rest
  end.

(** [(a, b) => a[0] - b[0]]; a difference that is [NaN] counts as 0. *)
Definition by_year_asc (a b : option Z * Z) : Z :=
  match fst a, fst b with
  | Some x, Some y => x - y
  | _, _ => 0
  end.

Section WithClock.
Context `{Clock}.

(** The callback of [posts.forEach] *)
Definition count_year (m : list (option Z * Z)) (post : WixBlogPost)
    : list (option Z * Z) :=
  if JS.falsy (firstPublishedDate post) then m
  else
    let year := Date_getFullYear (firstPublishedDate post) in
    map_set year (default 0 (map_get year m) + 1) m.

Definition count_years (posts : list WixBlogPost) : list (option Z * Z) :=
  fold_left count_year posts [].

(** The [byYear] table of [generateSummaryReport]: year and count. *)
Definition byYear (posts : list WixBlogPost) : list (option Z * Z) :=
  ReportGenerator.Array_sort by_year_asc (count_years posts).

End WithClock.

End ReportByYear.

(** ** lib/utils.ts and lib/zip-bundler.ts: names of bundles *)

Module BundleNames.
Import Types.

(** What [new Date()] reads in UTC: [getUTCFullYear()], [getUTCMonth()]
    (from 0), [getUTCDate()], [getUTCHours()] and [getUTCMinutes()]. *)
Record UtcDate := {
  utcFullYear : Z;
  utcMonth : Z;
  utcDate : Z;
  utcHours : Z;
  utcMinutes : Z
}.

(** [s.padStart(2, '0')] *)
Definition padStart2 (s : string) : string :=
  match String.length s with
  | O => "00"
  | S O => "0" +:+ s
  | _ => s
  end.

(** [createTimestamp] of lib/utils.ts *)
Definition createTimestamp (now : UtcDate) : string :=
  let year := utcFullYear now in
  let month := padStart2 (JS.Number_toString (utcMonth now + 1)) in
  let day := padStart2 (JS.Number_toString (utcDate now)) in
  let hour := padStart2 (JS.Number_toString (utcHours now)) in
  let minute := padStart2 (JS.Number_toString (utcMinutes now)) in
  JS.Number_toString year +:+ month +:+ day +:+ "-" +:+ hour +:+ minute.

(** [getZipFilename] of lib/zip-bundler.ts *)
Definition getZipFilename (options : ExportOptions) (now : UtcDate) : string :=
  if negb (bundleZip options) then EmptyString
  else
    let customerSlug := Utils.sanitizeCustomerSlug (JS.or_else (customer options) "unknown") in
    let timestamp := createTimestamp now in
    let bundleTitle := JS.or_else (bundleTitle options) ("wix-export-" +:+ customerSlug) in
    bundleTitle +:+ "-" +:+ timestamp +:+ ".zip".

End BundleNames.

(** ** lib/zip-bundler.ts *)

Module ZipBundler.
Import Types.

(** What is at a path.  For [fs.statSync]: a file of some size, a
    directory, something that is neither, or nothing it can report on (a
    dangling link, a path it may not look at), in which case it throws.
    For [fs.readdirSync]: the items of a directory, or, for a directory
    it may not list and for everything else, an exception. *)
Inductive Node :=
| File (size : Z)
| Directory (items : list (string * Node))
| Locked
| Other
| Broken.

(** One call [archive.file(sourcePath, { name })]. *)
Record Entry := { entry_source : string; entry_name : string }.

(** The directories of a bundle. *)
Record BundleStructure := {
  postsDir : string;
  markdownDir : string;
  csvDir : string;
  jsonDir : string;
  imagesDir : string;
  reportsDir : string
}.

Section WithPlatform.
Context `{Platform}.

(** [addDirectoryToArchive] for a path that exists and holds [dir]: the
    entries handed to the archive, in order, and whether the call
    returned; [false] stands for an exception, which ends the loop of
    every enclosing call as none of them catches it.  The entries added
    before an exception stay added. *)
Fixpoint add_directory (dir : Node) (sourceDir archivePath : string)
    : list Entry * bool :=
  match dir with
  | Directory items =>
      (fix loop (items : list (string * Node)) : list Entry * bool :=
         match items with
         | [] => ([], true)
         | (item, node) :: rest =>
             let sourcePath := Utils.createSafePath [sourceDir; item] in
             let archiveEntryPath := archivePath +:+ "/" +:+ item in
             match node with
             | Broken => ([], false)
             | File _ =>
                 let '(entries, returned) := loop rest in
                 ({| entry_source := sourcePath; entry_name := archiveEntryPath |}
                  :: entries, returned)
             | Other => loop rest
             | Directory _ | Locked =>
                 let '(below, returned) := add_directory node sourcePath archiveEntryPath in
                 if returned
                 then let '(entries, returned') := loop rest in
                      ((below ++ entries)%list, returned')
                 else (below, false)
             end
         end) items
  | _ => ([], false)
  end.

(** [addDirectoryToArchive]; [root] is what is at [sourceDir], if
    anything.  [fs.existsSync] is false for a path with nothing at it and
    for one it cannot report on; the call then returns at once. *)
Definition addDirectoryToArchive (root : option Node) (sourceDir archivePath : string)
    : list Entry * bool :=
  match root with
  | None | Some Broken => ([], true)
  | Some dir => add_directory dir sourceDir archivePath
  end.

(** [createBundleStructure], when no directory fails to be made: the
    structure returned and the world afterwards. *)
Definition createBundleStructure (baseDir : string) (w : ImageDownloader.World)
    : BundleStructure * ImageDownloader.World :=
  let structure :=
    {| postsDir := Utils.createSafePath [baseDir; "posts"];
       markdownDir := Utils.createSafePath [baseDir; "posts"; "markdown"];
       csvDir := Utils.createSafePath [baseDir; "posts"; "csv"];
       jsonDir := Utils.createSafePath [baseDir; "posts"; "json"];
       imagesDir := Utils.createSafePath [baseDir; "images"];
       reportsDir := Utils.createSafePath [baseDir; "reports"] |} in
  (structure,
   fold_left
     (fun w dir =>
        if ImageDownloader.existsSync dir w then w else ImageDownloader.mkdirSync dir w)
     [postsDir structure; markdownDir structure; csvDir structure;
      jsonDir structure; imagesDir structure; reportsDir structure]
     w).

End WithPlatform.

End ZipBundler.

(** ** A reference runtime

    Executable versions of the runtime functions, used to evaluate the
    model on concrete inputs: the MD5 digest of RFC 1321, the POSIX
    flavour of the path module, UTF-8 encoding of code units below 256,
    and URL parsing for URLs of the plain shape
    [scheme://host/path?query#fragment]. *)

Module NodeRuntime.

Definition mask32 (x : Z) : Z := x mod 2 ^ 32.

Definition rotl32 (x : Z) (c : Z) : Z :=
  mask32 (Z.lor (Z.shiftl x c) (Z.shiftr x (32 - c))).

Definition not32 (x : Z) : Z := mask32 (Z.lnot x).

Definition md5_shifts : list Z :=
  [7; 12; 17; 22; 7; 12; 17; 22; 7; 12; 17; 22; 7; 12; 17; 22;
   5; 9; 14; 20; 5; 9; 14; 20; 5; 9; 14; 20; 5; 9; 14; 20;
   4; 11; 16; 23; 4; 11; 16; 23; 4; 11; 16; 23; 4; 11; 16; 23;
   6; 10; 15; 21; 6; 10; 15; 21; 6; 10; 15; 21; 6; 10; 15; 21].

Definition md5_K : list Z :=
  [0xd76aa478; 0xe8c7b756; 0x242070db; 0xc1bdceee; 0xf57c0faf; 0x4787c62a;
   0xa8304613; 0xfd469501; 0x698098d8; 0x8b44f7af; 0xffff5bb1; 0x895cd7be;
   0x6b901122; 0xfd987193; 0xa679438e; 0x49b40821; 0xf61e2562; 0xc040b340;
   0x265e5a51; 0xe9b6c7aa; 0xd62f105d; 0x02441453; 0xd8a1e681; 0xe7d3fbc8;
   0x21e1cde6; 0xc33707d6; 0xf4d50d87; 0x455a14ed; 0xa9e3e905; 0xfcefa3f8;
   0x676f02d9; 0x8d2a4c8a; 0xfffa3942; 0x8771f681; 0x6d9d6122; 0xfde5380c;
   0xa4beea44; 0x4bdecfa9; 0xf6bb4b60; 0xbebfbc70; 0x289b7ec6; 0xeaa127fa;
   0xd4ef3085; 0x04881d05; 0xd9d4d039; 0xe6db99e5; 0x1fa27cf8; 0xc4ac5665;
   0xf4292244; 0x432aff97; 0xab9423a7; 0xfc93a039; 0x655b59c3; 0x8f0ccc92;
   0xffeff47d; 0x85845dd1; 0x6fa87e4f; 0xfe2ce6e0; 0xa3014314; 0x4e0811a1;
   0xf7537e82; 0xbd3af235; 0x2ad7d2bb; 0xeb86d391].

(** [n] bytes of [x], least significant first. *)
Fixpoint le_bytes (n : nat) (x : Z) : list Z :=
  match n with
  | O => []
  | S n' => x mod 256 :: le_bytes n' (x / 256)
  end.

Fixpoint le_word (bs : list Z) : Z :=
  match bs with
  | [] => 0
  | b :: rest => b + 256 * le_word rest
  end.

(** The message followed by the bit 1, zeros up to 56 modulo 64 bytes,
    and the bit length in 8 bytes. *)
Definition md5_pad (msg : list Z) : list Z :=
  let len := length msg in
  let zeros := ((119 - len mod 64) mod 64)%nat in
  msg ++ [128] ++ repeat 0 zeros ++ le_bytes 8 (8 * Z.of_nat len).

(** The list cut into pieces of [n] elements; [fuel] bounds their number. *)
Fixpoint chunks {A} (fuel n : nat) (l : list A) : list (list A) :=
  match fuel, l with
  | O, _ | _, [] => []
  | S fuel', _ => take n l :: chunks fuel' n (drop n l)
  end.

Definition md5_round (M : list Z) (st : Z * Z * Z * Z) (i : nat) : Z * Z * Z * Z :=
  let '(A, B, C, D) := st in
  let '(F, g) :=
    if (i <? 16)%nat then (Z.lor (Z.land B C) (Z.land (not32 B) D), i)
    else if (i <? 32)%nat then (Z.lor (Z.land D B) (Z.land (not32 D) C), ((5 * i + 1) mod 16)%nat)
    else if (i <? 48)%nat then (Z.lxor (Z.lxor B C) D, ((3 * i + 5) mod 16)%nat)
    else (Z.lxor C (Z.lor B (not32 D)), ((7 * i) mod 16)%nat) in
  let F' := mask32 (F + A + nth i md5_K 0 + nth g M 0) in
  (D, mask32 (B + rotl32 F' (nth i md5_shifts 0)), B, C).

Definition md5_chunk (h : Z * Z * Z * Z) (chunk : list Z) : Z * Z * Z * Z :=
  let M := List.map le_word (chunks 16 4 chunk) in
  let '(a0, b0, c0, d0) := h in
  let '(A, B, C, D) := fold_left (md5_round M) (seq 0 64) h in
  (mask32 (a0 + A), mask32 (b0 + B), mask32 (c0 + C), mask32 (d0 + D)).

Definition hex_digit (n : Z) : ascii :=
  ascii_of_N (Z.to_N (if n <? 10 then 48 + n else 87 + n)).

Fixpoint hex_of_bytes (bs : list Z) : string :=
  match bs with
  | [] => EmptyString
  | b :: rest => String (hex_digit (b / 16)) (String (hex_digit (b mod 16)) (hex_of_bytes rest))
  end.

Definition md5_hex (msg : list Byte.byte) : string :=
  let bytes := List.map (fun b => Z.of_N (Byte.to_N b)) msg in
  let padded := md5_pad bytes in
  let '(a, b, c, d) :=
    fold_left md5_chunk (chunks (length padded) 64 padded)
      (0x67452301, 0xefcdab89, 0x98badcfe, 0x10325476) in
  hex_of_bytes (le_bytes 4 a ++ le_bytes 4 b ++ le_bytes 4 c ++ le_bytes 4 d).

Definition byte_of_Z (z : Z) : Byte.byte :=
  default Byte.x00 (Byte.of_N (Z.to_N z)).

(** UTF-8 of a string of code units below 256. *)
Fixpoint utf8_encode (s : string) : list Byte.byte :=
  match s with
  | EmptyString => []
  | String c rest =>
      let n := Z.of_N (N_of_ascii c) in
      if n <? 128 then byte_of_Z n :: utf8_encode rest
      else byte_of_Z (192 + n / 64) :: byte_of_Z (128 + n mod 64) :: utf8_encode rest
  end.

(** *** POSIX paths *)

Definition is_slash (c : ascii) : bool := Ascii.eqb c "/".

(** The segments between slashes. *)
Fixpoint split_slash (cur : string) (s : string) : list string :=
  match s with
  | EmptyString => [cur]
  | String c rest =>
      if is_slash c then cur :: split_slash EmptyString rest
      else split_slash (cur +:+ String c EmptyString) rest
  end.

(** Resolves [.] and [..] segments; [out] is the stack of kept segments,
    last first. *)
Fixpoint resolve_segments (allowAbove : bool) (out : list string) (segs : list string)
    : list string :=
  match segs with
  | [] => rev out
  | seg :: rest =>
      if String.eqb seg "" || String.eqb seg "." then resolve_segments allowAbove out rest
      else if String.eqb seg ".." then
        match out with
        | top :: out' =>
            if String.eqb top ".." then resolve_segments allowAbove (seg :: out) rest
            else resolve_segments allowAbove out' rest
        | [] =>
            if allowAbove then resolve_segments allowAbove [seg] rest
            else resolve_segments allowAbove [] rest
        end
      else resolve_segments allowAbove (seg :: out) rest
  end.

Fixpoint last_char (s : string) : option ascii :=
  match s with
  | EmptyString => None
  | String c EmptyString => Some c
  | String _ rest => last_char rest
  end.

Definition path_normalize (p : string) : string :=
  match p with
  | EmptyString => "."
  | String c0 _ =>
      let isAbsolute := is_slash c0 in
      let trailing := match last_char p with Some c => is_slash c | None => false end in
      let body := JS.join "/" (resolve_segments (negb isAbsolute) [] (split_slash EmptyString p)) in
      match body with
      | EmptyString => if isAbsolute then "/" else if trailing then "./" else "."
      | _ =>
          let body' := if trailing then body +:+ "/" else body in
          if isAbsolute then "/" +:+ body' else body'
      end
  end.

Definition path_join (parts : list string) : string :=
  let joined := JS.join "/" (List.filter (fun s => negb (JS.falsy s)) parts) in
  match joined with
  | EmptyString => "."
  | _ => path_normalize joined
  end.

(** The text from the last dot of [s] on, if any. *)
Fixpoint from_last_dot (s : string) : option string :=
  match s with
  | EmptyString => None
  | String c rest =>
      match from_last_dot rest with
      | Some e => Some e
      | None => if Ascii.eqb c "." then Some s else None
      end
  end.

Definition path_extname (p : string) : string :=
  let segs := List.filter (fun s => negb (JS.falsy s)) (split_slash EmptyString p) in
  match last segs with
  | None => ""
  | Some base =>
      if String.eqb base ".." then ""
      else
        match base with
        | String c rest =>
            match from_last_dot rest with
            | Some e => e
            | None => ""
            end
        | EmptyString => ""
        end
  end.

(** *** URLs of the plain shape *)

Definition is_host_char (c : ascii) : bool :=
  let n := N_of_ascii c in
  ((97 <=? n) && (n <=? 122) || (n =? 46))%N.

Definition is_path_char (c : ascii) : bool :=
  let n := N_of_ascii c in
  ((97 <=? n) && (n <=? 122) || (65 <=? n) && (n <=? 90) || (48 <=? n) && (n <=? 57)
   || (n =? 45) || (n =? 46) || (n =? 47) || (n =? 95))%N.

Definition has_dot_segment (path : string) : bool :=
  existsb (fun seg => String.eqb seg "." || String.eqb seg "..")
    (split_slash EmptyString path).

(** A parser for the URLs the examples use: [http://] or [https://], a
    host of lower-case letters and dots, then an optional path of
    letters, digits, [-], [.], [_] and [/] without [.] or [..] segments,
    and nothing else.  For these the URL constructor reports the scheme
    with its colon and the path unchanged ([/] when there is none).  Any
    other string is refused here. *)
Definition URL_parse (s : string) : option URL :=
  match Utils.match_scheme s with
  | None => None
  | Some (scheme, rest) =>
      let '(host, after) := Utils.span is_host_char rest in
      if JS.falsy host then None
      else
        let '(path, tail) := Utils.span is_path_char after in
        if negb (JS.falsy tail) then None
        else if negb (JS.falsy path) && negb (JS.startsWith "/" path) then None
        else if JS.startsWith "." host || has_dot_segment path then None
        else
          Some {| protocol := if String.eqb scheme "https://" then "https:" else "http:";
                  pathname := if JS.falsy path then "/" else path |}
  end.

Definition platform : Platform :=
  Build_Platform URL_parse md5_hex utf8_encode path_join path_normalize path_extname.

End NodeRuntime.

(** ** Sample data *)

Module Sample.
Import Types.

(** A post with the given identity, status, tags, content and cover. *)
Definition post (id slug title : string) (status : option string)
    (hashtags : list string) (contentText : option string)
    (coverUrl : option string) : WixBlogPost :=
  {| id := id; title := title; excerpt := "";
     contentText := contentText; url := None;
     firstPublishedDate := "2023-01-15T10:00:00Z";
     lastPublishedDate := "2023-01-15T10:00:00Z";
     status := status; slug := slug; featured := false;
     categoryIds := []; tagIds := []; relatedPostIds := [];
     membersOnly := None; hashtags := hashtags;
     commentingEnabled := true; minutesToRead := Number.of_Z 5;
     viewCount := None; likeCount := None; language := "en";
     media :=
       match coverUrl with
       | Some u =>
           Some {| wixMedia :=
                     Some {| image := Some {| image_url := u; altText := None;
                                              height := None; width := None |} |};
                   displayed := true |}
       | None => None
       end;
     seoData := None; localImagePaths := None; coverImageLocalPath := None |}.

Definition options (downloadImages dryRun includeContent : bool) (retry : nat)
    : ExportOptions :=
  {| format := FmtAll; includeContent := includeContent; includeImages := true;
     downloadImages := downloadImages; outputDir := "/out";
     filename := None; customer := None; bundleTitle := None; bundleZip := false;
     concurrency := 4; retry := retry; timeoutMs := 20000; dryRun := dryRun |}.

Definition empty_world : ImageDownloader.World :=
  {| ImageDownloader.files := ∅; ImageDownloader.dirs := ∅; ImageDownloader.trace := [] |}.

(** A server that answers every request with status 500. *)
Definition always_500 : ImageDownloader.Network :=
  fun _ _ =>
    {| ImageDownloader.fetched :=
         ImageDownloader.FetchResponds false 500 "Internal Server Error"
           (ImageDownloader.BodyBytes []);
       ImageDownloader.disk := ImageDownloader.DiskOk |}.

(** A server that answers every request with the same three bytes. *)
Definition always_bytes : ImageDownloader.Network :=
  fun _ _ =>
    {| ImageDownloader.fetched :=
         ImageDownloader.FetchResponds true 200 "OK"
           (ImageDownloader.BodyBytes [Byte.x01; Byte.x02; Byte.x03]);
       ImageDownloader.disk := ImageDownloader.DiskOk |}.


End Sample.

(** * Properties *)

Import Types.

(** ** Counting with [filter] *)

Lemma filter_split_length {A} (f : A -> bool) (l : list A) :
  (length l = length (List.filter f l) + length (List.filter (fun x => negb (f x)) l))%nat.
Proof.
  induction l as [|x l IH]; simpl; [reflexivity|].
  destruct (f x); simpl; lia.
Qed.

Lemma filter_length_count (l : list ImageDownloadResult) (b : bool) :
  length (List.filter (fun r => Bool.eqb (success r) b) l)
  = count_occ bool_dec (List.map success l) b.
Proof.
  induction l as [|r l IH]; simpl; [reflexivity|].
  destruct (success r), b; simpl; rewrite ?IH; reflexivity.
Qed.

Lemma filter_ext_length {A} (f g : A -> bool) (l : list A) :
  (forall x, f x = g x) -> length (List.filter f l) = length (List.filter g l).
Proof.
  intros E. rewrite (List.filter_ext f g E). reflexivity.
Qed.

(** ** The ledger statistics *)

Section LedgerStats.
Variable ledger : list ImageDownloadResult.

(** Number of ledger entries whose [success] flag is [b]. *)
Definition entries_with (b : bool) : Z :=
  Z.of_nat (count_occ bool_dec (List.map success ledger) b).

Lemma successes_counted :
  Z.of_nat (length (List.filter success ledger)) = entries_with true.
Proof.
  unfold entries_with. rewrite <- filter_length_count.
  apply (f_equal Z.of_nat), filter_ext_length.
  intros r. destruct (success r); reflexivity.
Qed.

Lemma failures_counted :
  Z.of_nat (length (List.filter (fun r => negb (success r)) ledger)) = entries_with false.
Proof.
  unfold entries_with. rewrite <- filter_length_count.
  apply (f_equal Z.of_nat), filter_ext_length.
  intros r. destruct (success r); reflexivity.
Qed.

Lemma entries_total :
  Z.of_nat (length ledger) = entries_with true + entries_with false.
Proof.
  rewrite <- successes_counted, <- failures_counted.
  rewrite (filter_split_length success ledger). lia.
Qed.

(** C10. Whatever the ledger holds, both sets of statistics derived from
    it, the downloader's [getDownloadStats] and the [images] section of the
    summary report, satisfy attempted = downloaded + failed, with
    [downloaded] the number of entries whose success flag is true and
    [failed] the number of entries whose success flag is false. *)
Theorem C10_attempted_is_downloaded_plus_failed
    (posts : list WixBlogPost) (customer : string) :
  let stats := ImageDownloader.getDownloadStats ledger in
  let rep := images (ReportGenerator.generateSummaryReport posts customer ledger) in
  (attempted stats = downloaded stats + failed stats
   /\ downloaded stats = entries_with true
   /\ failed stats = entries_with false)
  /\ (attempted rep = downloaded rep + failed rep
      /\ downloaded rep = entries_with true
      /\ failed rep = entries_with false).
Proof.
  cbn zeta. unfold ImageDownloader.getDownloadStats. simpl.
  pose proof successes_counted as Hs.
  pose proof failures_counted as Hf.
  pose proof entries_total as Ht.
  repeat split; lia.
Qed.

End LedgerStats.

(** ** The status rule *)

(** The statuses the API documents, and the absent one. *)
Definition known_status (p : WixBlogPost) : Prop :=
  status p = None \/ status p = Some "PUBLISHED"
  \/ status p = Some "DRAFT" \/ status p = Some "SCHEDULED".

Lemma status_rule_same (p : WixBlogPost) :
  Exporters.in_published p = ReportGenerator.is_published p
  /\ Exporters.in_drafts p = ReportGenerator.is_draft p
  /\ Exporters.in_scheduled p = ReportGenerator.is_scheduled p.
Proof.
  unfold Exporters.in_published, ReportGenerator.is_published,
    Exporters.in_drafts, ReportGenerator.is_draft,
    Exporters.in_scheduled, ReportGenerator.is_scheduled.
  destruct (status p); auto.
Qed.

(** Under a known status exactly one of the three tests holds. *)
Lemma known_status_one_group (p : WixBlogPost) :
  known_status p ->
  (Exporters.in_published p = true /\ Exporters.in_drafts p = false
   /\ Exporters.in_scheduled p = false)
  \/ (Exporters.in_published p = false /\ Exporters.in_drafts p = true
      /\ Exporters.in_scheduled p = false)
  \/ (Exporters.in_published p = false /\ Exporters.in_drafts p = false
      /\ Exporters.in_scheduled p = true).
Proof.
  unfold known_status, Exporters.in_published, Exporters.in_drafts, Exporters.in_scheduled.
  intros [E|[E|[E|E]]]; rewrite E; simpl; auto.
Qed.

(** No post is ever in two groups, whatever its status. *)
Lemma groups_exclusive (p : WixBlogPost) :
  (Exporters.in_published p && Exporters.in_drafts p = false)
  /\ (Exporters.in_published p && Exporters.in_scheduled p = false)
  /\ (Exporters.in_drafts p && Exporters.in_scheduled p = false).
Proof.
  unfold Exporters.in_published, Exporters.in_drafts, Exporters.in_scheduled.
  destruct (status p) as [s|]; [|auto].
  destruct (String.eqb_spec s "PUBLISHED") as [->|]; [auto|].
  destruct (String.eqb_spec s "DRAFT") as [->|]; [auto|].
  destruct s; simpl; auto using andb_false_r.
Qed.

Lemma three_way_partition (posts : list WixBlogPost) :
  Forall known_status posts ->
  Permutation posts
    (List.filter Exporters.in_published posts
     ++ List.filter Exporters.in_drafts posts
     ++ List.filter Exporters.in_scheduled posts)%list.
Proof.
  induction 1 as [|p l Hp _ IH]; simpl; [constructor|].
  destruct (known_status_one_group p Hp) as [(->&->&->)|[(->&->&->)|(->&->&->)]]; simpl.
  - constructor. exact IH.
  - etransitivity; [apply perm_skip, IH|]. apply Permutation_middle.
  - etransitivity; [apply perm_skip, IH|].
    rewrite (app_assoc (List.filter Exporters.in_published l)).
    etransitivity; [apply Permutation_middle|].
    rewrite <- app_assoc. reflexivity.
Qed.

(** C2. The rule that a post without a status counts as published is the
    same in the exporter's grouping and in the report's counts: the two
    apply the same three tests, a post is in an exporter group exactly
    when the report's test for that status accepts it, each count of the
    report is the size of the exporter's group, a post without status is
    in the published group, no post is in two groups, and when every
    status is PUBLISHED, DRAFT, SCHEDULED or absent the three groups
    together are a rearrangement of the whole collection and the three
    counts add up to the total. *)
Theorem C2_status_rule_is_uniform
    (posts : list WixBlogPost) (customer : string) (ledger : list ImageDownloadResult) :
  let g := Exporters.categorizePosts posts in
  let c := counts (ReportGenerator.generateSummaryReport posts customer ledger) in
  (forall p,
      (In p (Exporters.cat_published g) <-> In p posts /\ ReportGenerator.is_published p = true)
      /\ (In p (Exporters.cat_drafts g) <-> In p posts /\ ReportGenerator.is_draft p = true)
      /\ (In p (Exporters.cat_scheduled g) <-> In p posts /\ ReportGenerator.is_scheduled p = true))
  /\ (published c = Z.of_nat (length (Exporters.cat_published g))
      /\ draft c = Z.of_nat (length (Exporters.cat_drafts g))
      /\ scheduled c = Z.of_nat (length (Exporters.cat_scheduled g)))
  /\ (forall p, In p posts -> status p = None ->
        In p (Exporters.cat_published g) /\ ReportGenerator.is_published p = true)
  /\ (forall p,
        ~ (In p (Exporters.cat_published g) /\ In p (Exporters.cat_drafts g))
        /\ ~ (In p (Exporters.cat_published g) /\ In p (Exporters.cat_scheduled g))
        /\ ~ (In p (Exporters.cat_drafts g) /\ In p (Exporters.cat_scheduled g)))
  /\ (Forall known_status posts ->
        Permutation posts
          (Exporters.cat_published g ++ Exporters.cat_drafts g ++ Exporters.cat_scheduled g)%list
        /\ total c = published c + draft c + scheduled c).
Proof.
  cbn zeta. simpl.
  split; [|split; [|split; [|split]]].
  - intros p. destruct (status_rule_same p) as (<- & <- & <-).
    rewrite !filter_In. tauto.
  - repeat split; do 2 f_equal; apply List.filter_ext; intros p;
      destruct (status_rule_same p) as (E1 & E2 & E3); congruence.
  - intros p Hin Hs. rewrite filter_In.
    unfold Exporters.in_published, ReportGenerator.is_published. rewrite Hs. auto.
  - intros p. rewrite !filter_In.
    destruct (groups_exclusive p) as (X1 & X2 & X3).
    repeat split; intros [[_ A] [_ B]]; rewrite A, B in *; discriminate.
  - intros Hk. pose proof (three_way_partition posts Hk) as P. split; [exact P|].
    apply Permutation_length in P. rewrite !length_app in P.
    assert (forall f g, (forall p : WixBlogPost, f p = g p) ->
              length (List.filter f posts) = length (List.filter g posts)) as X
      by (intros; apply filter_ext_length; assumption).
    rewrite <- (X _ _ (fun p => proj1 (status_rule_same p))).
    rewrite <- (X _ _ (fun p => proj1 (proj2 (status_rule_same p)))).
    rewrite <- (X _ _ (fun p => proj2 (proj2 (status_rule_same p)))).
    lia.
Qed.

(** ** Skipping the download phase *)

Section Acquisition.
Context `{Platform}.
Variable options : ExportOptions.
Variable net : ImageDownloader.Network.

Import ImageDownloader.

(** C4. When downloading is switched off or the run is a dry run,
    [downloadAllImages] returns the empty mapping and leaves the ledger
    and the world as they were: no fetch, no directory, no file, whatever
    the network would have answered.  A new downloader starts with an
    empty ledger, which therefore stays empty. *)
Theorem C4_download_skipped
    (posts : list WixBlogPost) (outputDir : string) (ledger : Ledger) (w : World) :
  downloadImages options = false \/ dryRun options = true ->
  downloadAllImages options net posts outputDir ledger w = (∅, ledger, w)
  /\ downloadAllImages options net posts outputDir [] w = (∅, [], w)
  /\ trace (downloadAllImages options net posts outputDir ledger w).2 = trace w.
Proof.
  intros Hskip.
  assert (negb (downloadImages options) || dryRun options = true) as Hguard.
  { destruct Hskip as [-> | ->]; [reflexivity | apply orb_true_r]. }
  unfold downloadAllImages. rewrite Hguard. auto.
Qed.

(** ** Retries and backoff *)

(** The world [w] after the further effects [evs], none of which touches
    the disk. *)
Definition with_trace (w : World) (evs : list Event) : World :=
  {| files := files w; dirs := dirs w; trace := trace w ++ evs |}.

Lemma emit_with_trace e w : emit e w = with_trace w [e].
Proof. reflexivity. Qed.

Lemma with_trace_app w a b : with_trace (with_trace w a) b = with_trace w (a ++ b).
Proof. unfold with_trace; simpl. now rewrite app_assoc. Qed.

Lemma with_trace_nil w : with_trace w [] = w.
Proof. destruct w; unfold with_trace; simpl. now rewrite app_nil_r. Qed.

(** The description of the error with which the fetch of an attempt
    fails, if it does: a rejected request, a response that is not ok, a
    body that cannot be read, or an empty body. *)
Definition fetch_error (env : AttemptEnv) : option string :=
  match fetched env with
  | FetchThrows message => Some message
  | FetchResponds false status statusText _ =>
      Some ("HTTP " +:+ JS.Number_toString status +:+ ": " +:+ statusText)
  | FetchResponds true _ _ (BodyThrows message) => Some message
  | FetchResponds true _ _ (BodyBytes []) => Some "Empty response body"
  | FetchResponds true _ _ (BodyBytes (_ :: _)) => None
  end.

Variable ix : nat.
Variable t : ImageTask.
Variable imagesDir : string.

Lemma try_attempt_fetch_error attempt w message :
  fetch_error (net ix attempt) = Some message ->
  try_attempt net ix t imagesDir attempt w
  = (inl message, with_trace w [EvFetch ix (task_url t) attempt]).
Proof.
  unfold fetch_error, try_attempt. rewrite emit_with_trace.
  destruct (fetched (net ix attempt)) as [m | [] status text [m | [|b bs]]];
    simpl; intros E; inversion E; subst; reflexivity.
Qed.

(** What the loop does from attempt [a] on when every fetch fails: the
    fetch, then the wait unless the attempt is the last one. *)
Fixpoint events_from (a remaining : nat) : list Event :=
  match remaining with
  | O => []
  | S r =>
      EvFetch ix (task_url t) a
      :: (if (a =? retry options)%nat then [] else [EvSleep (2 ^ Z.of_nat a * 1000)])
      ++ events_from (S a) r
  end.

(** The error description the loop ends with. *)
Fixpoint final_message (a remaining : nat) (lastError : string) : string :=
  match remaining with
  | O => lastError
  | S r => final_message (S a) r (default lastError (fetch_error (net ix a)))
  end.

Definition failure (message : string) : ImageDownloadResult :=
  {| postId := task_postId t; originalUrl := task_url t;
     localPath := None; success := false; error := Some message |}.

Lemma retry_loop_all_fail (remaining : nat) :
  forall a lastError w,
    (forall k, (a <= k < a + remaining)%nat -> is_Some (fetch_error (net ix k))) ->
    retry_loop options net ix t imagesDir remaining a lastError w
    = (failure (final_message a remaining lastError),
       with_trace w (events_from a remaining)).
Proof.
  induction remaining as [|r IH]; intros a lastError w Hfail; simpl.
  - now rewrite with_trace_nil.
  - destruct (Hfail a ltac:(lia)) as [message E].
    rewrite (try_attempt_fetch_error a w message E), E. simpl.
    destruct (a =? retry options)%nat.
    + rewrite IH by (intros k Hk; apply Hfail; lia).
      now rewrite with_trace_app.
    + rewrite emit_with_trace, IH by (intros k Hk; apply Hfail; lia).
      now rewrite !with_trace_app.
Qed.

Lemma final_message_last (remaining : nat) :
  forall (a : nat) lastError message,
    fetch_error (net ix (a + remaining)%nat) = Some message ->
    final_message a (S remaining) lastError = message.
Proof.
  induction remaining as [|r IH]; intros a lastError message E.
  - simpl. rewrite Nat.add_0_r in E. now rewrite E.
  - change (final_message a (S (S r)) lastError)
      with (final_message (S a) (S r) (default lastError (fetch_error (net ix a)))).
    apply IH. now replace (S a + r)%nat with (a + S r)%nat by lia.
Qed.

(** The schedule the specification describes for [R] failing attempts:
    attempt 1, wait 2^1 seconds, attempt 2, wait 2^2 seconds, ..., attempt
    [R], and no wait after it. *)
Definition backoff_schedule (R : nat) : list Event :=
  concat (List.map
    (fun a => EvFetch ix (task_url t) a
              :: (if (a <? R)%nat then [EvSleep (2 ^ Z.of_nat a * 1000)] else []))
    (seq 1 R)).

Lemma events_from_schedule (remaining : nat) :
  forall a : nat, (a + remaining = S (retry options))%nat ->
    events_from a remaining
    = concat (List.map
        (fun a => EvFetch ix (task_url t) a
           :: (if (a <? retry options)%nat then [EvSleep (2 ^ Z.of_nat a * 1000)] else []))
        (seq a remaining)).
Proof.
  induction remaining as [|r IH]; intros a Ha; simpl; [reflexivity|].
  rewrite IH by lia. f_equal.
  destruct (Nat.eqb_spec a (retry options)), (Nat.ltb_spec a (retry options));
    try lia; reflexivity.
Qed.

(** A task all of whose fetches fail ends, in any world, with the failure
    record of its last error, after the backoff schedule and without
    touching the disk. *)
Lemma downloadSingleImage_all_fail w message :
  (forall a, (1 <= a <= retry options)%nat -> is_Some (fetch_error (net ix a))) ->
  fetch_error (net ix (retry options)) = Some message ->
  (1 <= retry options)%nat ->
  downloadSingleImage options net ix t imagesDir w
  = (failure message, with_trace w (backoff_schedule (retry options))).
Proof.
  intros Hfail Hlast HR. unfold downloadSingleImage.
  rewrite retry_loop_all_fail by (intros k Hk; apply Hfail; lia).
  unfold backoff_schedule. rewrite <- events_from_schedule by lia.
  f_equal. f_equal.
  destruct (retry options) as [|r] eqn:ER; [lia|].
  apply final_message_last. exact Hlast.
Qed.

End Acquisition.

(** ** One ledger entry per task *)

Section Ledger.
Context `{Platform}.
Variable options : ExportOptions.
Variable net : ImageDownloader.Network.

Import ImageDownloader.

Lemma run_tasks_length (tasks : list ImageTask) :
  forall ix imagesDir w,
    length (run_tasks options net ix tasks imagesDir w).1 = length tasks.
Proof.
  induction tasks as [|t rest IH]; intros ix imagesDir w; simpl; [reflexivity|].
  destruct (downloadSingleImage options net ix t imagesDir w) as [r w1].
  specialize (IH (S ix) imagesDir w1).
  destruct (run_tasks options net (S ix) rest imagesDir w1) as [rs w2].
  simpl in *. now rewrite IH.
Qed.

(** The result at position [k] is the one [downloadSingleImage] returns for
    the task at position [k], run in the world its predecessors left. *)
Lemma run_tasks_lookup (tasks : list ImageTask) :
  forall ix imagesDir w k t,
    tasks !! k = Some t ->
    exists wk,
      (run_tasks options net ix tasks imagesDir w).1 !! k
      = Some (downloadSingleImage options net (ix + k) t imagesDir wk).1.
Proof.
  induction tasks as [|t0 rest IH]; intros ix imagesDir w k t Hk; [discriminate|].
  simpl.
  destruct (downloadSingleImage options net ix t0 imagesDir w) as [r w1] eqn:E0.
  specialize (IH (S ix) imagesDir w1).
  destruct (run_tasks options net (S ix) rest imagesDir w1) as [rs w2].
  destruct k as [|k]; simpl in *.
  - inversion Hk; subst. exists w. now rewrite Nat.add_0_r, E0.
  - destruct (IH k t Hk) as [wk Ewk]. exists wk.
    now replace (ix + S k)%nat with (S ix + k)%nat by lia.
Qed.











(** C3. A task whose fetch fails on each of the [R >= 1] configured
    attempts gets exactly one ledger entry: the ledger grows by one entry
    per task, in task order, and the entry of this task has success =
    false and carries the description of the error of attempt [R].  The
    export is not aborted: [downloadAllImages] returns normally.  The task
    itself, in whatever world it runs, performs the fetches 1..R with a
    wait of 2^attempt seconds after every attempt but the last, and
    changes nothing on disk. *)
Theorem C3_exhausted_retries_recorded
    (posts : list WixBlogPost) (outputDir : string) (ledger : Ledger) (w : World)
    (ix : nat) (t : ImageTask) :
  downloadImages options = true ->
  dryRun options = false ->
  (1 <= retry options)%nat ->
  collect_tasks posts !! ix = Some t ->
  (forall a, (1 <= a <= retry options)%nat -> is_Some (fetch_error (net ix a))) ->
  exists message,
    fetch_error (net ix (retry options)) = Some message
    /\ (forall imagesDir w0,
          downloadSingleImage options net ix t imagesDir w0
          = (failure t message,
             with_trace w0 (backoff_schedule ix t (retry options))))
    /\ (exists results,
          (downloadAllImages options net posts outputDir ledger w).1.2 = (ledger ++ results)%list
          /\ length results = length (collect_tasks posts)
          /\ results !! ix = Some (failure t message)).
Proof.
  intros Hdl Hdry HR Ht Hfail.
  destruct (Hfail (retry options) ltac:(lia)) as [message Hlast].
  exists message. split; [exact Hlast|].
  assert (forall imagesDir w0,
            downloadSingleImage options net ix t imagesDir w0
            = (failure t message, with_trace w0 (backoff_schedule ix t (retry options))))
    as Hsingle.
  { intros imagesDir w0.
    apply downloadSingleImage_all_fail; assumption. }
  split; [exact Hsingle|].
  unfold downloadAllImages. rewrite Hdl, Hdry. simpl.
  set (imagesDir := Utils.createSafePath [outputDir; "images"]).
  set (w1 := if existsSync imagesDir w then w else mkdirSync imagesDir w).
  destruct (length (collect_tasks posts) =? 0)%nat eqn:Elen.
  { apply Nat.eqb_eq in Elen. apply lookup_lt_Some in Ht. lia. }
  pose proof (run_tasks_length (collect_tasks posts) 0 imagesDir w1) as Hlen.
  destruct (run_tasks_lookup (collect_tasks posts) 0 imagesDir w1 ix t Ht) as [wk Hk].
  destruct (run_tasks options net 0 (collect_tasks posts) imagesDir w1) as [results w2].
  simpl in *. exists results. repeat split; [exact Hlen|].
  rewrite Hk, Hsingle. reflexivity.
Qed.

End Ledger.

(** ** The theorems above at sample inputs *)

(** A post with a cover image, three attempts, a server that always
    answers 500: the single task fails three times, waits two and four
    seconds in between, and is recorded once. *)
Lemma C3_exhausted_retries_witness :
  let options := Sample.options true false true 3 in
  let posts :=
    [Sample.post "p1" "first-post" "First" None [] None
       (Some "https://example.com/a.png")] in
  let t :=
    {| ImageDownloader.task_postId := "p1";
       ImageDownloader.task_postSlug := "first-post";
       ImageDownloader.task_url := "https://example.com/a.png";
       ImageDownloader.task_type := ImageDownloader.cover |} in
  @ImageDownloader.collect_tasks NodeRuntime.platform posts !! 0%nat = Some t
  /\ (@ImageDownloader.downloadAllImages NodeRuntime.platform options
        Sample.always_500 posts "/out" [] Sample.empty_world).1.2
     = [failure t "HTTP 500: Internal Server Error"]
  /\ ImageDownloader.trace
       (@ImageDownloader.downloadSingleImage NodeRuntime.platform options
          Sample.always_500 0 t "/out/images" Sample.empty_world).2
     = [ImageDownloader.EvFetch 0 "https://example.com/a.png" 1;
        ImageDownloader.EvSleep 2000;
        ImageDownloader.EvFetch 0 "https://example.com/a.png" 2;
        ImageDownloader.EvSleep 4000;
        ImageDownloader.EvFetch 0 "https://example.com/a.png" 3].
Proof.
  cbn zeta. split; [vm_compute; reflexivity|].
  destruct (@C3_exhausted_retries_recorded NodeRuntime.platform
              (Sample.options true false true 3) Sample.always_500
              [Sample.post "p1" "first-post" "First" None [] None
                 (Some "https://example.com/a.png")]
              "/out" [] Sample.empty_world 0
              {| ImageDownloader.task_postId := "p1";
                 ImageDownloader.task_postSlug := "first-post";
                 ImageDownloader.task_url := "https://example.com/a.png";
                 ImageDownloader.task_type := ImageDownloader.cover |}
              eq_refl eq_refl ltac:(simpl; lia) ltac:(vm_compute; reflexivity)
              ltac:(intros; eexists; reflexivity))
    as (message & Hmsg & Hsingle & results & Hledger & Hlen & Hix).
  vm_compute in Hmsg. inversion Hmsg; subst message.
  split.
  - rewrite Hledger. vm_compute in Hlen.
    destruct results as [|r [|r' rs]]; try discriminate Hlen.
    simpl in Hix. inversion Hix. reflexivity.
  - rewrite Hsingle. vm_compute. reflexivity.
Defined.

(** Downloading switched off: nothing happens, even with a server that
    would answer. *)
Lemma C4_download_skipped_witness :
  let options := Sample.options false false true 3 in
  let posts :=
    [Sample.post "p1" "first-post" "First" None [] None
       (Some "https://example.com/a.png")] in
  (downloadImages options = false \/ dryRun options = true)
  /\ @ImageDownloader.downloadAllImages NodeRuntime.platform options
       Sample.always_bytes posts "/out" [] Sample.empty_world
     = (∅, [], Sample.empty_world).
Proof.
  cbn zeta. split; [left; reflexivity|].
  apply (@C4_download_skipped NodeRuntime.platform
           (Sample.options false false true 3) Sample.always_bytes
           [Sample.post "p1" "first-post" "First" None [] None
              (Some "https://example.com/a.png")]
           "/out" [] Sample.empty_world (or_introl eq_refl)).
Defined.

(** Four posts, one of each status and one without: one group each for
    the draft and the scheduled post, two posts in the published group. *)
Lemma C2_status_rule_witness :
  let posts :=
    [Sample.post "1" "a" "A" None [] None None;
     Sample.post "2" "b" "B" (Some "DRAFT") [] None None;
     Sample.post "3" "c" "C" (Some "PUBLISHED") [] None None;
     Sample.post "4" "d" "D" (Some "SCHEDULED") [] None None] in
  let c := counts (ReportGenerator.generateSummaryReport posts "customer" []) in
  Forall known_status posts
  /\ Permutation posts
       (Exporters.cat_published (Exporters.categorizePosts posts)
        ++ Exporters.cat_drafts (Exporters.categorizePosts posts)
        ++ Exporters.cat_scheduled (Exporters.categorizePosts posts))%list
  /\ total c = published c + draft c + scheduled c.
Proof.
  cbn zeta.
  assert (Forall known_status
            [Sample.post "1" "a" "A" None [] None None;
             Sample.post "2" "b" "B" (Some "DRAFT") [] None None;
             Sample.post "3" "c" "C" (Some "PUBLISHED") [] None None;
             Sample.post "4" "d" "D" (Some "SCHEDULED") [] None None]) as Hk.
  { unfold known_status.
    apply List.Forall_cons; [left; reflexivity|].
    apply List.Forall_cons; [right; right; left; reflexivity|].
    apply List.Forall_cons; [right; left; reflexivity|].
    apply List.Forall_cons; [right; right; right; reflexivity|].
    apply List.Forall_nil. }
  split; [exact Hk|].
  exact (proj2 (proj2 (proj2 (proj2
    (C2_status_rule_is_uniform _ "customer" [])))) Hk).
Defined.

(** ** Strings *)

Lemma app_cons c s t : String c s +:+ t = String c (s +:+ t).
Proof. reflexivity. Qed.

Lemma app_empty_l t : EmptyString +:+ t = t.
Proof. reflexivity. Qed.

Lemma app_empty_r s : s +:+ EmptyString = s.
Proof. induction s as [|c s IH]; [reflexivity|]. now rewrite app_cons, IH. Qed.

Lemma app_assoc_s (s t u : string) : (s +:+ t) +:+ u = s +:+ (t +:+ u).
Proof. induction s as [|c s IH]; [reflexivity|]. now rewrite !app_cons, IH. Qed.

Lemma length_app_s (s t : string) :
  String.length (s +:+ t) = (String.length s + String.length t)%nat.
Proof. induction s as [|c s IH]; [reflexivity|]. rewrite app_cons. simpl. now rewrite IH. Qed.

(** [c] occurs in [s]. *)
Fixpoint occurs (c : ascii) (s : string) : bool :=
  match s with
  | EmptyString => false
  | String a rest => Ascii.eqb a c || occurs c rest
  end.

Lemma occurs_app c s t : occurs c (s +:+ t) = occurs c s || occurs c t.
Proof.
  induction s as [|a s IH]; [reflexivity|].
  rewrite app_cons. simpl. now rewrite IH, orb_assoc.
Qed.

(** ** CSV *)

Section Csv.
Variable options : ExportOptions.

Import Exporters.

(** The text in which every double quote stands twice. *)
Inductive quotes_doubled : string -> string -> Prop :=
| qd_end : quotes_doubled EmptyString EmptyString
| qd_quote s s' :
    quotes_doubled s s' ->
    quotes_doubled (String JS.DQUOTE s) (String JS.DQUOTE (String JS.DQUOTE s'))
| qd_other c s s' :
    c <> JS.DQUOTE -> quotes_doubled s s' ->
    quotes_doubled (String c s) (String c s').

(** What a CSV reader does inside a quoted field: a pair of quotes
    stands for one quote. *)
Fixpoint undouble (s : string) : string :=
  match s with
  | String a (String b rest as tail) =>
      if Ascii.eqb a JS.DQUOTE && Ascii.eqb b JS.DQUOTE
      then String JS.DQUOTE (undouble rest)
      else String a (undouble tail)
  | _ => s
  end.

Definition escape_quotes (s : string) : string :=
  JS.replace_char JS.DQUOTE JS.DQUOTE2 s.

Lemma escape_quotes_doubled s : quotes_doubled s (escape_quotes s).
Proof.
  unfold escape_quotes.
  induction s as [|c s IH]; simpl; [constructor|].
  destruct (Ascii.eqb_spec c JS.DQUOTE) as [->|Hc].
  - apply qd_quote, IH.
  - apply qd_other; assumption.
Qed.

(** [undouble] steps over a pair of quotes, or over a character that is
    not a quote and is followed by something. *)
Lemma undouble_pair s :
  undouble (String JS.DQUOTE (String JS.DQUOTE s)) = String JS.DQUOTE (undouble s).
Proof. reflexivity. Qed.

Lemma undouble_other c s :
  c <> JS.DQUOTE -> undouble (String c s) = String c (undouble s).
Proof.
  intros Hc. destruct s as [|b s]; [reflexivity|].
  change (undouble (String c (String b s)))
    with (if Ascii.eqb c JS.DQUOTE && Ascii.eqb b JS.DQUOTE
          then String JS.DQUOTE (undouble s) else String c (undouble (String b s))).
  destruct (Ascii.eqb_spec c JS.DQUOTE); [contradiction|reflexivity].
Qed.

Lemma undouble_doubled s s' : quotes_doubled s s' -> undouble s' = s.
Proof.
  induction 1 as [|s s' _ IH|c s s' Hc _ IH].
  - reflexivity.
  - now rewrite undouble_pair, IH.
  - now rewrite undouble_other, IH.
Qed.

Lemma replace_LF_no_LF s : occurs JS.LF (JS.replace_char JS.LF "\n" s) = false.
Proof.
  induction s as [|c s IH]; simpl; [reflexivity|].
  destruct (Ascii.eqb_spec c JS.LF) as [->|Hc].
  - rewrite occurs_app, IH. reflexivity.
  - simpl. rewrite IH. now destruct (Ascii.eqb_spec c JS.LF).
Qed.

Lemma quoted_no_LF s : occurs JS.LF s = false -> occurs JS.LF (quoted s) = false.
Proof.
  intros Hs. unfold quoted. rewrite app_cons. simpl.
  now rewrite occurs_app, Hs.
Qed.

Lemma join_no_LF sep l :
  occurs JS.LF sep = false ->
  Forall (fun s => occurs JS.LF s = false) l ->
  occurs JS.LF (JS.join sep l) = false.
Proof.
  intros Hsep. induction 1 as [|x l Hx Hl IH]; [reflexivity|].
  destruct l as [|y l]; [exact Hx|].
  change (JS.join sep (x :: y :: l)) with (x +:+ sep +:+ JS.join sep (y :: l)).
  now rewrite !occurs_app, Hx, Hsep, IH.
Qed.

(** The rows appended after the header. *)
Definition csv_rows (posts : list WixBlogPost) : string :=
  fold_right (fun post rest => JS.join "," (csv_row options post) +:+ NL +:+ rest)
    EmptyString posts.

Lemma csv_fold (posts : list WixBlogPost) :
  forall init,
    fold_left (fun csv post => csv +:+ JS.join "," (csv_row options post) +:+ NL) posts init
    = init +:+ csv_rows posts.
Proof.
  induction posts as [|p l IH]; intros init; simpl.
  - now rewrite app_empty_r.
  - rewrite IH. now rewrite !app_assoc_s.
Qed.

Lemma header_no_LF : occurs JS.LF (JS.join "," (csv_headers options)) = false.
Proof. unfold csv_headers. destruct (includeContent options); reflexivity. Qed.

(** The text is the header line and the rows. *)
Lemma csv_text_rows (posts : list WixBlogPost) :
  csv_text options posts = JS.join "," (csv_headers options) +:+ NL +:+ csv_rows posts.
Proof. unfold csv_text. rewrite csv_fold. apply app_assoc_s. Qed.

Lemma csv_rows_app (l1 l2 : list WixBlogPost) :
  csv_rows (l1 ++ l2) = csv_rows l1 +:+ csv_rows l2.
Proof.
  induction l1 as [|p l1 IH]; [reflexivity|].
  simpl. now rewrite IH, !app_assoc_s.
Qed.

(** Every field of a row is wrapped in quotes. *)
Lemma csv_row_quoted (post : WixBlogPost) :
  Forall (fun field => exists x, field = quoted x) (csv_row options post).
Proof.
  unfold csv_row.
  repeat (apply List.Forall_cons; [eexists; reflexivity|]).
  change (Forall (fun field => exists x, field = quoted x)
            (if includeContent options
             then [quoted (JS.replace_char JS.LF "\n"
                            (escape_quotes (JS.or_else (contentText post) EmptyString)))]
             else [])).
  destruct (includeContent options);
    [apply List.Forall_cons; [eexists; reflexivity|]|]; apply List.Forall_nil.
Qed.

End Csv.

(** The title of the specification's example. *)
Definition great_title : string :=
  "My " +:+ String JS.DQUOTE "Great" +:+ String JS.DQUOTE " Post".

Lemma great_title_field :
  Exporters.csv_row (Sample.options false false false 3)
    (Sample.post "p1" "great" great_title None [] None None) !! 2%nat
  = Some (String JS.DQUOTE "My "
          +:+ JS.DQUOTE2 +:+ "Great" +:+ JS.DQUOTE2 +:+ " Post"
          +:+ String JS.DQUOTE EmptyString).
Proof. vm_compute. reflexivity. Qed.

(** ** Counting tags *)

Section TagCounts.
Import ReportGenerator.

(** The tags of all posts in the order the two loops visit them. *)
Definition all_tags (posts : list WixBlogPost) : list string :=
  concat (List.map hashtags posts).

(** How often [tag] occurs among [tags]. *)
Definition occurrences (tag : string) (tags : list string) : Z :=
  Z.of_nat (count_occ string_dec tags tag).

(** Position of the first occurrence of [tag] in [tags]. *)
Fixpoint first_index (tag : string) (tags : list string) : nat :=
  match tags with
  | [] => O
  | t :: rest => if String.eqb t tag then O else S (first_index tag rest)
  end.

Lemma count_tags_flat (posts : list WixBlogPost) :
  forall m,
    fold_left (fun m post => fold_left count_tag (hashtags post) m) posts m
    = fold_left count_tag (all_tags posts) m.
Proof.
  unfold all_tags.
  induction posts as [|p l IH]; intros m; simpl; [reflexivity|].
  now rewrite fold_left_app, IH.
Qed.

Lemma includes_In x l : Utils.includes x l = true <-> In x l.
Proof.
  unfold Utils.includes. rewrite existsb_exists. split.
  - intros (y & Hy & E). apply String.eqb_eq in E. now subst.
  - intros Hx. exists x. split; [exact Hx|apply String.eqb_refl].
Qed.

Lemma includes_not_In x l : Utils.includes x l = false <-> ~ In x l.
Proof.
  rewrite <- includes_In. destruct (Utils.includes x l); split; intros; congruence.
Qed.

Lemma includes_cons x y l :
  Utils.includes x (y :: l) = String.eqb x y || Utils.includes x l.
Proof. reflexivity. Qed.

(** [unique] lists, without repetition, the elements of [l] not yet seen. *)
Lemma unique_spec (l : list string) :
  forall seen,
    List.NoDup (Utils.unique seen l)
    /\ (forall x, In x (Utils.unique seen l) <-> In x l /\ ~ In x seen).
Proof.
  induction l as [|y l IH]; intros seen; simpl.
  - split; [constructor|]. intros x. tauto.
  - destruct (Utils.includes y seen) eqn:Ey.
    + apply includes_In in Ey. destruct (IH seen) as [Hnd Hin].
      split; [exact Hnd|]. intros x. rewrite Hin.
      split; [tauto|]. intros [[->|Hx] Hs]; tauto.
    + apply includes_not_In in Ey. destruct (IH (y :: seen)) as [Hnd Hin].
      split.
      * constructor; [|exact Hnd]. rewrite Hin. simpl. tauto.
      * intros x. simpl. rewrite Hin. simpl.
        destruct (string_dec y x) as [->|Hne]; tauto.
Qed.

Lemma unique_snoc (pre : list string) (t : string) :
  forall seen,
    Utils.unique seen (pre ++ [t])
    = (Utils.unique seen pre
       ++ (if Utils.includes t seen || Utils.includes t pre then [] else [t]))%list.
Proof.
  induction pre as [|x pre IH]; intros seen; simpl.
  - rewrite orb_false_r. destruct (Utils.includes t seen); reflexivity.
  - destruct (Utils.includes x seen) eqn:Ex.
    + rewrite IH. f_equal.
      destruct (String.eqb_spec t x) as [->|Hne]; [|reflexivity].
      now rewrite Ex.
    + rewrite IH, includes_cons. simpl. do 2 f_equal.
      destruct (String.eqb t x), (Utils.includes t seen); reflexivity.
Qed.

(** The entry the tally holds for a tag. *)
Definition entries (f : string -> Z) (ks : list string) : TagMap :=
  List.map (fun k => (k, f k)) ks.

Lemma map_get_entries f k ks :
  map_get k (entries f ks) = if Utils.includes k ks then Some (f k) else None.
Proof.
  induction ks as [|x ks IH]; simpl; [reflexivity|].
  rewrite String.eqb_sym.
  destruct (String.eqb_spec k x) as [->|Hne]; [reflexivity|exact IH].
Qed.

Lemma map_set_entries f k v ks :
  List.NoDup ks ->
  map_set k v (entries f ks)
  = if Utils.includes k ks
    then entries (fun x => if String.eqb x k then v else f x) ks
    else (entries f ks ++ [(k, v)])%list.
Proof.
  induction 1 as [|x ks Hx Hnd IH]; simpl; [reflexivity|].
  rewrite (String.eqb_sym k x).
  destruct (String.eqb_spec x k) as [->|Hne]; simpl.
  - f_equal. unfold entries. apply map_ext_in. intros y Hy.
    destruct (String.eqb_spec y k) as [->|]; [contradiction|reflexivity].
  - rewrite IH. destruct (Utils.includes k ks); reflexivity.
Qed.

Lemma occurrences_snoc k pre t :
  occurrences k (pre ++ [t]) = occurrences k pre + (if String.eqb k t then 1 else 0).
Proof.
  unfold occurrences. rewrite count_occ_app. simpl.
  destruct (string_dec t k) as [->|Hne].
  - rewrite String.eqb_refl. lia.
  - destruct (String.eqb_spec k t); [congruence|lia].
Qed.

Lemma occurrences_absent k tags : ~ In k tags -> occurrences k tags = 0.
Proof.
  intros Hk. unfold occurrences.
  now rewrite (proj1 (count_occ_not_In string_dec tags k) Hk).
Qed.

(** The tally after the loops: the distinct tags in the order of their
    first occurrence, each with the number of its occurrences. *)
Lemma tally_spec (tags : list string) :
  fold_left count_tag tags []
  = entries (fun k => occurrences k tags) (Utils.unique [] tags).
Proof.
  induction tags as [|t pre IH] using rev_ind; [reflexivity|].
  rewrite fold_left_app. simpl. rewrite IH. unfold count_tag.
  destruct (unique_spec pre []) as [Hnd Hin].
  rewrite map_get_entries, map_set_entries by exact Hnd.
  rewrite unique_snoc. simpl.
  assert (Utils.includes t (Utils.unique [] pre) = Utils.includes t pre) as ->.
  { destruct (Utils.includes t pre) eqn:E.
    - apply includes_In. apply Hin. apply includes_In in E. simpl. tauto.
    - apply includes_not_In. apply includes_not_In in E. rewrite Hin. tauto. }
  destruct (Utils.includes t pre) eqn:E; simpl.
  - rewrite app_nil_r. unfold entries. apply map_ext_in. intros k Hk.
    rewrite occurrences_snoc.
    destruct (String.eqb_spec k t) as [->|]; [reflexivity|]. f_equal. lia.
  - apply includes_not_In in E.
    unfold entries. rewrite map_app. simpl. f_equal.
    + apply map_ext_in. intros k Hk. rewrite occurrences_snoc.
      destruct (String.eqb_spec k t) as [->|]; [|f_equal; lia].
      apply Hin in Hk. tauto.
    + rewrite occurrences_snoc, String.eqb_refl, (occurrences_absent t pre E).
      reflexivity.
Qed.

Lemma StronglySorted_impl_in {A} (R R' : A -> A -> Prop) (l : list A) :
  StronglySorted R l ->
  (forall a b, In a l -> In b l -> R a b -> R' a b) ->
  StronglySorted R' l.
Proof.
  induction 1 as [|a l Hl IH Ha]; intros Himpl; constructor.
  - apply IH. intros x y Hx Hy. apply Himpl; now right.
  - rewrite List.Forall_forall in *. intros b Hb.
    apply Himpl; [now left|now right|now apply Ha].
Qed.

(** The distinct tags appear in the order of their first occurrence. *)
Lemma unique_first_index (tags : list string) :
  forall seen,
    StronglySorted (fun a b => (first_index a tags < first_index b tags)%nat)
      (Utils.unique seen tags).
Proof.
  induction tags as [|t rest IH]; intros seen; simpl; [constructor|].
  assert (forall seen',
            In t seen' ->
            StronglySorted
              (fun a b =>
                 ((if String.eqb t a then O else S (first_index a rest))
                  < (if String.eqb t b then O else S (first_index b rest)))%nat)
              (Utils.unique seen' rest)) as Hshift.
  { intros seen' Ht.
    destruct (unique_spec rest seen') as [_ Hin].
    apply (StronglySorted_impl_in _ _ _ (IH seen')).
    intros a b Ha Hb Hab.
    assert (a <> t) as Hat by (intros ->; apply Hin in Ha; tauto).
    assert (b <> t) as Hbt by (intros ->; apply Hin in Hb; tauto).
    destruct (String.eqb_spec t a), (String.eqb_spec t b); try congruence. lia. }
  destruct (Utils.includes t seen) eqn:Et.
  - apply Hshift. now apply includes_In.
  - constructor; [apply Hshift; now left|].
    destruct (unique_spec rest (t :: seen)) as [_ Hin].
    apply List.Forall_forall. intros b Hb. apply Hin in Hb.
    rewrite String.eqb_refl.
    destruct (String.eqb_spec t b) as [->|]; [|lia].
    simpl in Hb. tauto.
Qed.

End TagCounts.

(** ** Ranking tags *)

Section TagRanking.
Import ReportGenerator.

Variable tags : list string.

(** [e1] is ranked before [e2]: a larger count, or the same count and an
    earlier first occurrence of the tag. *)
Definition ranked_before (e1 e2 : string * Z) : Prop :=
  snd e1 > snd e2
  \/ (snd e1 = snd e2
      /\ (first_index (fst e1) tags < first_index (fst e2) tags)%nat).

(** [e1] is first encountered before [e2]. *)
Definition seen_before (e1 e2 : string * Z) : Prop :=
  (first_index (fst e1) tags < first_index (fst e2) tags)%nat.

Lemma sort_insert_perm {A} (cmp : A -> A -> Z) x l :
  Permutation (sort_insert cmp x l) (x :: l).
Proof.
  induction l as [|y l IH]; simpl; [reflexivity|].
  destruct (cmp x y <=? 0); [reflexivity|].
  rewrite IH. apply perm_swap.
Qed.

Lemma Array_sort_perm {A} (cmp : A -> A -> Z) l :
  Permutation (Array_sort cmp l) l.
Proof.
  induction l as [|x l IH]; simpl; [reflexivity|].
  rewrite sort_insert_perm. now constructor.
Qed.

Lemma sort_insert_ranked x s :
  StronglySorted ranked_before s ->
  Forall (seen_before x) s ->
  StronglySorted ranked_before (sort_insert by_count_desc x s).
Proof.
  induction 1 as [|y s Hs IH Hy]; intros Hx; simpl.
  - repeat constructor.
  - apply List.Forall_cons_iff in Hx as [Hxy Hxs].
    unfold by_count_desc at 1.
    destruct (Z.leb_spec (snd y - snd x) 0) as [Hle|Hgt].
    + constructor; [constructor; assumption|].
      constructor.
      * unfold ranked_before, seen_before in *. lia.
      * rewrite List.Forall_forall in *. intros z Hz.
        specialize (Hy z Hz). specialize (Hxs z Hz).
        unfold ranked_before, seen_before in *. lia.
    + constructor; [apply IH, Hxs|].
      rewrite List.Forall_forall in *. intros z Hz.
      apply (Permutation_in _ (sort_insert_perm by_count_desc x s)) in Hz.
      destruct Hz as [<-|Hz]; [|now apply Hy].
      unfold ranked_before. lia.
Qed.

(** Sorting a list that is in order of first encounter ranks it. *)
Lemma Array_sort_ranked l :
  StronglySorted seen_before l ->
  StronglySorted ranked_before (Array_sort by_count_desc l).
Proof.
  induction 1 as [|x l Hl IH Hx]; simpl; [constructor|].
  apply sort_insert_ranked; [exact IH|].
  rewrite List.Forall_forall in *. intros z Hz. apply Hx.
  now apply (Permutation_in _ (Array_sort_perm by_count_desc l)).
Qed.

Lemma strongly_sorted_lookup {A} (R : A -> A -> Prop) (l : list A) :
  StronglySorted R l ->
  forall i j a b, (i < j)%nat -> l !! i = Some a -> l !! j = Some b -> R a b.
Proof.
  induction 1 as [|x l Hl IH Hx]; intros i j a b Hij Ha Hb; [discriminate|].
  destruct j as [|j]; [lia|]. simpl in Hb.
  destruct i as [|i]; simpl in Ha.
  - inversion Ha; subst. rewrite List.Forall_forall in Hx. apply Hx.
    apply list_elem_of_In. eapply list_elem_of_lookup_2. exact Hb.
  - apply (IH i j); [lia|assumption|assumption].
Qed.

Lemma strongly_sorted_app_inv {A} (R : A -> A -> Prop) (l1 l2 : list A) :
  StronglySorted R (l1 ++ l2) ->
  StronglySorted R l1 /\ (forall a b, In a l1 -> In b l2 -> R a b).
Proof.
  induction l1 as [|x l1 IH]; simpl; intros Hs.
  - split; [constructor|]. intros a b [].
  - inversion Hs as [|? ? Hs' Hx]; subst. destruct (IH Hs') as [H1 H2].
    split.
    + constructor; [exact H1|]. apply List.Forall_app in Hx. tauto.
    + intros a b [<-|Ha] Hb; [|now apply H2].
      rewrite List.Forall_forall in Hx. apply Hx, in_or_app. now right.
Qed.

(** The whole ranking, of which the report keeps the first ten. *)
Definition ranking : list (string * Z) :=
  Array_sort by_count_desc (fold_left count_tag tags []).

Lemma tally_in_order : StronglySorted seen_before (fold_left count_tag tags []).
Proof.
  rewrite tally_spec. unfold entries.
  pose proof (unique_first_index tags []) as Hs.
  induction Hs as [|a l Hl IH Ha]; simpl; constructor; [exact IH|].
  rewrite List.Forall_forall in *. intros e He.
  apply in_map_iff in He as (b & <- & Hb). apply (Ha b Hb).
Qed.

Lemma ranking_sorted : StronglySorted ranked_before ranking.
Proof. apply Array_sort_ranked, tally_in_order. Qed.

Lemma ranking_entries e :
  In e ranking <-> In (fst e) tags /\ snd e = occurrences (fst e) tags.
Proof.
  unfold ranking.
  split.
  - intros He. apply (Permutation_in _ (Array_sort_perm by_count_desc _)) in He.
    rewrite tally_spec in He. apply in_map_iff in He as (k & <- & Hk).
    apply (proj2 (unique_spec tags [])) in Hk. simpl. tauto.
  - intros [Hk Hv].
    apply (Permutation_in _ (Permutation_sym (Array_sort_perm by_count_desc _))).
    rewrite tally_spec. apply in_map_iff. exists (fst e). split.
    + destruct e as [k v]. simpl in *. now rewrite Hv.
    + apply (proj2 (unique_spec tags [])). simpl. tauto.
Qed.

Lemma ranking_keys_nodup : List.NoDup (List.map fst ranking).
Proof.
  unfold ranking.
  apply (Permutation_NoDup
           (Permutation_map fst (Permutation_sym (Array_sort_perm by_count_desc _)))).
  rewrite tally_spec. unfold entries. rewrite map_map. simpl. rewrite map_id.
  apply unique_spec.
Qed.

End TagRanking.

(** C6. The report's [tagsTop10] has at most ten entries, no tag twice;
    every entry is a tag of some post with the number of its occurrences
    over all posts; the entries are in descending order of count, and of
    two entries with the same count the one whose tag was encountered
    first while scanning the posts comes first; a tag that is left out is
    left out only because the list is full, and every listed entry then
    ranks before it. *)
Theorem C6_top_tags_ranked
    (posts : list WixBlogPost) (customer : string) (ledger : list ImageDownloadResult) :
  let tags := all_tags posts in
  let top := tagsTop10 (ReportGenerator.generateSummaryReport posts customer ledger) in
  (length top <= 10)%nat
  /\ List.NoDup (List.map fst top)
  /\ (forall e, In e top -> In (fst e) tags /\ snd e = occurrences (fst e) tags)
  /\ (forall i j e1 e2,
        (i < j)%nat -> top !! i = Some e1 -> top !! j = Some e2 ->
        snd e1 > snd e2
        \/ (snd e1 = snd e2
            /\ (first_index (fst e1) tags < first_index (fst e2) tags)%nat))
  /\ (forall tag,
        In tag tags -> ~ In tag (List.map fst top) ->
        length top = 10%nat
        /\ forall e, In e top -> ranked_before tags e (tag, occurrences tag tags)).
Proof.
  cbn zeta. simpl. unfold ReportGenerator.count_tags.
  rewrite count_tags_flat. fold (ranking (all_tags posts)).
  set (tags := all_tags posts). set (r := ranking tags).
  pose proof (ranking_sorted tags) as Hsorted. fold r in Hsorted.
  rewrite <- (take_drop 10 r) in Hsorted.
  destruct (strongly_sorted_app_inv _ _ _ Hsorted) as [Htop Hcross].
  assert (forall e, In e (take 10 r) -> In e r) as Hsub.
  { intros e He. rewrite <- (take_drop 10 r). apply in_or_app. now left. }
  split; [rewrite length_take; lia|].
  split.
  { pose proof (ranking_keys_nodup tags) as Hnd. fold r in Hnd.
    rewrite <- (take_drop 10 r), map_app in Hnd.
    now apply NoDup_app_remove_r in Hnd. }
  split; [intros e He; apply ranking_entries, Hsub, He|].
  split; [exact (strongly_sorted_lookup _ _ Htop)|].
  intros tag Htag Hout.
  assert (In (tag, occurrences tag tags) r) as Hin
    by (apply ranking_entries; simpl; tauto).
  rewrite <- (take_drop 10 r) in Hin. apply in_app_or in Hin as [Hin|Hin].
  { exfalso. apply Hout. apply in_map_iff. now exists (tag, occurrences tag tags). }
  split; [|intros e He; apply Hcross; assumption].
  rewrite length_take. destruct (drop 10 r) eqn:Hd; [destruct Hin|].
  apply (f_equal (@length _)) in Hd. rewrite length_drop in Hd. simpl in Hd. lia.
Qed.

(** The example of the specification: the tags a, a, b, a, b, c, spread
    over two posts, are ranked a (3), b (2), c (1). *)
Lemma top_tags_example :
  tagsTop10
    (ReportGenerator.generateSummaryReport
       [Sample.post "1" "one" "One" None ["a"; "a"; "b"] None None;
        Sample.post "2" "two" "Two" None ["a"; "b"; "c"] None None]
       "customer" [])
  = [("a", 3); ("b", 2); ("c", 1)].
Proof. vm_compute. reflexivity. Qed.

(** Two tags with the same count keep the order of first encounter, also
    when the other one was counted last. *)
Lemma top_tags_tie_example :
  tagsTop10
    (ReportGenerator.generateSummaryReport
       [Sample.post "1" "one" "One" None ["x"; "y"; "z"; "y"; "x"; "z"; "z"] None None]
       "customer" [])
  = [("z", 3); ("x", 2); ("y", 2)].
Proof. vm_compute. reflexivity. Qed.

(** ** Matching image references *)

Section Patterns.
Import Utils.

(** Every character of [s] satisfies [f]. *)
Fixpoint all_chars (f : ascii -> bool) (s : string) : bool :=
  match s with
  | EmptyString => true
  | String c rest => f c && all_chars f rest
  end.

(** [s] does not begin with a character satisfying [f]. *)
Definition stops (f : ascii -> bool) (s : string) : Prop :=
  match s with
  | EmptyString => True
  | String c _ => f c = false
  end.

Lemma strip_prefix_app p r : strip_prefix p (p +:+ r) = Some r.
Proof.
  induction p as [|c p IH]; [now destruct r|].
  rewrite app_cons. simpl. now rewrite Ascii.eqb_refl.
Qed.

Lemma strip_prefix_Some p : forall s r, strip_prefix p s = Some r -> s = p +:+ r.
Proof.
  induction p as [|c p IH]; intros s r E.
  - destruct s; inversion E; reflexivity.
  - destruct s as [|a s]; [discriminate|]. simpl in E.
    destruct (Ascii.eqb_spec c a) as [->|]; [|discriminate].
    rewrite app_cons. f_equal. now apply IH.
Qed.

Lemma span_Some f s run tail :
  span f s = (run, tail) ->
  s = run +:+ tail /\ all_chars f run = true /\ stops f tail.
Proof.
  revert run tail. induction s as [|c s IH]; intros run tail E; simpl in E.
  - inversion E; subst. repeat split.
  - destruct (f c) eqn:Ec.
    + destruct (span f s) as [run' tail'] eqn:Es. inversion E; subst.
      destruct (IH run' tail eq_refl) as (-> & Hall & Hstop).
      rewrite app_cons. simpl. rewrite Ec. auto.
    + inversion E; subst. repeat split. exact Ec.
Qed.

Lemma span_app f run tail :
  all_chars f run = true -> stops f tail -> span f (run +:+ tail) = (run, tail).
Proof.
  induction run as [|c run IH]; intros Hall Hstop.
  - rewrite app_empty_l. destruct tail as [|c tail]; [reflexivity|].
    simpl in *. now rewrite Hstop.
  - simpl in Hall. apply andb_true_iff in Hall as [Hc Hall].
    rewrite app_cons. simpl. now rewrite Hc, IH.
Qed.

Definition is_scheme (scheme : string) : Prop :=
  scheme = "http://" \/ scheme = "https://".

(** A URL the patterns capture: [http://] or [https://] followed by at
    least one character, none of them white space or a closing
    parenthesis. *)
Definition is_image_url (url : string) : Prop :=
  exists scheme host,
    url = scheme +:+ host /\ is_scheme scheme
    /\ host <> EmptyString /\ all_chars is_url_char host = true.

Lemma match_scheme_Some s scheme rest :
  match_scheme s = Some (scheme, rest) -> s = scheme +:+ rest /\ is_scheme scheme.
Proof.
  unfold match_scheme, is_scheme.
  destruct (strip_prefix "https://" s) as [r|] eqn:E1.
  - intros E. inversion E; subst. apply strip_prefix_Some in E1. auto.
  - destruct (strip_prefix "http://" s) as [r|] eqn:E2; [|discriminate].
    intros E. inversion E; subst. apply strip_prefix_Some in E2. auto.
Qed.

Lemma match_scheme_app scheme rest :
  is_scheme scheme -> match_scheme (scheme +:+ rest) = Some (scheme, rest).
Proof.
  unfold match_scheme. intros [-> | ->].
  - destruct rest; reflexivity.
  - now rewrite strip_prefix_app.
Qed.

Lemma falsy_empty s : JS.falsy s = true <-> s = EmptyString.
Proof. destruct s; simpl; split; congruence. Qed.

(** The text of the target part of a reference. *)
Definition target_text (url : string) : string := "](" +:+ url +:+ ")".

Lemma length_target_text url :
  String.length (target_text url) = (String.length url + 3)%nat.
Proof. unfold target_text. rewrite !length_app_s. simpl. lia. Qed.

Lemma match_target_Some s url n :
  match_target s = Some (url, n) ->
  exists rest,
    s = target_text url +:+ rest /\ is_image_url url
    /\ n = String.length (target_text url).
Proof.
  unfold match_target.
  destruct (strip_prefix "](" s) as [s1|] eqn:E1; [|discriminate].
  destruct (match_scheme s1) as [[scheme s2]|] eqn:E2; [|discriminate].
  destruct (span is_url_char s2) as [host s3] eqn:E3.
  destruct (JS.falsy host) eqn:Eh; [discriminate|].
  destruct (strip_prefix ")" s3) as [rest|] eqn:E4; [|discriminate].
  intros E. inversion E; subst. clear E.
  apply strip_prefix_Some in E1, E4. apply match_scheme_Some in E2 as [E2 Hs].
  apply span_Some in E3 as (E3 & Hall & _). subst.
  exists rest. split; [|split].
  - unfold target_text. now rewrite !app_assoc_s.
  - exists scheme, host. repeat split; try assumption.
    intros ->. discriminate.
  - now rewrite length_target_text.
Qed.

Lemma match_target_app url rest :
  is_image_url url ->
  match_target (target_text url +:+ rest)
  = Some (url, String.length (target_text url)).
Proof.
  intros (scheme & host & -> & Hs & Hne & Hall).
  unfold match_target, target_text.
  rewrite !app_assoc_s, strip_prefix_app, match_scheme_app by exact Hs.
  rewrite span_app; [|exact Hall|unfold stops; rewrite app_cons; reflexivity].
  destruct host as [|c host]; [contradiction|]. simpl JS.falsy. cbv iota.
  rewrite strip_prefix_app.
  do 2 f_equal. rewrite !length_app_s. simpl. lia.
Qed.

(** The text of a reference. *)
Definition ref_text (alt url : string) : string := "![" +:+ alt +:+ target_text url.

Definition not_bracket (c : ascii) : bool := negb (Ascii.eqb c "]").

(** [s] begins with an image reference as [rewriteMarkdownImageUrls]
    recognises them: an alt text without closing bracket and a URL as
    above; [rest] follows it. *)
Definition image_ref_at (s alt url rest : string) : Prop :=
  s = ref_text alt url +:+ rest
  /\ all_chars not_bracket alt = true
  /\ is_image_url url.


Lemma match_rewrite_ref_at s alt url rest :
  image_ref_at s alt url rest ->
  match_rewrite_ref s = Some (alt, url, String.length (ref_text alt url)).
Proof.
  intros (-> & Hall & Hurl).
  unfold match_rewrite_ref, ref_text.
  rewrite !app_assoc_s, strip_prefix_app.
  rewrite span_app;
    [|exact Hall|unfold stops, target_text; rewrite !app_cons; reflexivity].
  rewrite match_target_app by exact Hurl.
  do 2 f_equal. rewrite !length_app_s. simpl. lia.
Qed.

(** A reference at the start of a text is unique. *)
Lemma image_ref_at_unique s alt url rest alt' url' rest' :
  image_ref_at s alt url rest -> image_ref_at s alt' url' rest' ->
  alt = alt' /\ url = url' /\ rest = rest'.
Proof.
  intros H1 H2.
  pose proof (match_rewrite_ref_at _ _ _ _ H1) as E1.
  pose proof (match_rewrite_ref_at _ _ _ _ H2) as E2.
  rewrite E1 in E2. inversion E2; subst.
  destruct H1 as (-> & _), H2 as (E & _).
  repeat split. now apply (inj (String.append (ref_text alt' url'))) in E.
Qed.

Lemma all_chars_app f s t :
  all_chars f (s +:+ t) = all_chars f s && all_chars f t.
Proof.
  induction s as [|c s IH]; [reflexivity|].
  rewrite app_cons. simpl. now rewrite IH, andb_assoc.
Qed.



Lemma all_chars_split f s t :
  all_chars f (s +:+ t) = true -> all_chars f s = true /\ all_chars f t = true.
Proof.
  induction s as [|c s IH]; [now split|].
  rewrite app_cons. simpl. intros E. apply andb_true_iff in E as [Hc E].
  destruct (IH E) as [Hs Ht]. now rewrite Hc, Hs, Ht.
Qed.

Lemma strip_prefix_mismatch a p c s :
  Ascii.eqb a c = false -> Utils.strip_prefix (String a p) (String c s) = None.
Proof. intros E. simpl. now rewrite E. Qed.

Lemma image_url_not_data url : is_image_url url -> JS.startsWith "data:" url = false.
Proof.
  intros (scheme & host & -> & [-> | ->] & _); reflexivity.
Qed.

Lemma match_lazy_alt_Some s :
  forall n url k, match_lazy_alt n s = Some (url, k) -> is_image_url url.
Proof.
  induction s as [|c s IH]; intros n url k; simpl.
  - discriminate.
  - destruct (match_target (String c s)) as [[u m]|] eqn:E.
    + intros X. inversion X; subst.
      apply match_target_Some in E as (rest & _ & Hu & _). exact Hu.
    + destruct (is_line_terminator c); [discriminate|]. apply IH.
Qed.

Lemma match_extract_ref_Some s url n :
  match_extract_ref s = Some (url, n) -> is_image_url url.
Proof.
  unfold match_extract_ref. destruct (strip_prefix "![" s); [|discriminate].
  apply match_lazy_alt_Some.
Qed.

Lemma exec_all_urls s :
  forall skip url, In url (exec_all skip s) -> is_image_url url.
Proof.
  induction s as [|c s IH]; intros skip url; simpl; [tauto|].
  destruct skip as [|k]; [|apply IH].
  destruct (match_extract_ref (String c s)) as [[u len]|] eqn:E; [|apply IH].
  destruct (JS.startsWith "data:" u); [apply IH|].
  intros [<-|Hin]; [exact (match_extract_ref_Some _ _ _ E)|exact (IH _ _ Hin)].
Qed.

Definition not_bang (c : ascii) : bool := negb (Ascii.eqb c "!").

Definition not_line_end (c : ascii) : bool := negb (is_line_terminator c).

Lemma match_target_not_bracket c s : not_bracket c = true -> match_target (String c s) = None.
Proof.
  unfold not_bracket, match_target. intros Hc.
  apply negb_true_iff in Hc. rewrite Ascii.eqb_sym in Hc.
  now rewrite (strip_prefix_mismatch "]" "(" c s Hc).
Qed.

Lemma match_lazy_alt_found n s url k :
  match_target s = Some (url, k) -> match_lazy_alt n s = Some (url, (n + k)%nat).
Proof.
  intros E. destruct s as [|c s]; [discriminate E|].
  simpl. now rewrite E.
Qed.

Lemma match_lazy_alt_alt alt url rest :
  all_chars not_bracket alt = true ->
  all_chars not_line_end alt = true ->
  is_image_url url ->
  forall n,
    match_lazy_alt n (alt +:+ target_text url +:+ rest)
    = Some (url, (n + String.length alt + String.length (target_text url))%nat).
Proof.
  intros Hb Hl Hu. induction alt as [|c alt IH]; intros n.
  - rewrite app_empty_l.
    rewrite (match_lazy_alt_found n _ url _ (match_target_app url rest Hu)).
    do 2 f_equal. simpl. lia.
  - simpl in Hb, Hl. apply andb_true_iff in Hb as [Hc Hb].
    apply andb_true_iff in Hl as [Hd Hl].
    rewrite app_cons. simpl match_lazy_alt.
    rewrite (match_target_not_bracket c _ Hc).
    unfold not_line_end in Hd. apply negb_true_iff in Hd. rewrite Hd.
    rewrite (IH Hb Hl). do 2 f_equal. simpl. lia.
Qed.

Lemma exec_all_skip pre rest : exec_all (String.length pre) (pre +:+ rest) = exec_all 0 rest.
Proof.
  induction pre as [|c pre IH]; [rewrite app_empty_l; reflexivity|].
  rewrite app_cons. simpl. exact IH.
Qed.

Lemma exec_all_no_bang pre rest :
  all_chars not_bang pre = true -> exec_all 0 (pre +:+ rest) = exec_all 0 rest.
Proof.
  induction pre as [|c pre IH]; intros Hp; [rewrite app_empty_l; reflexivity|].
  simpl in Hp. apply andb_true_iff in Hp as [Hc Hp].
  rewrite app_cons. simpl exec_all.
  unfold match_extract_ref.
  unfold not_bang in Hc. apply negb_true_iff in Hc.
  rewrite Ascii.eqb_sym in Hc.
  rewrite (strip_prefix_mismatch "!" "[" c _ Hc). apply IH, Hp.
Qed.

Lemma exec_all_match c s url len :
  match_extract_ref (String c s) = Some (url, len) ->
  JS.startsWith "data:" url = false ->
  exec_all 0 (String c s) = url :: exec_all (len - 1) s.
Proof. intros E Hd. simpl. now rewrite E, Hd. Qed.

End Patterns.

(** ** Rewriting image references *)

Section Rewriting.
Import Utils.

Variable m : gmap string string.











End Rewriting.


(** ** References the two patterns disagree on *)

Section Brackets.
Import Utils.







Variable m : gmap string string.




End Brackets.





(** ** File names of downloaded images *)

Section FileNames.
Context `{Platform}.
Variable options : ExportOptions.
Variable net : ImageDownloader.Network.

Import ImageDownloader.

(** An attempt that delivers the bytes [buffer] and meets no disk error. *)
Definition delivers (env : AttemptEnv) (buffer : list Byte.byte) : Prop :=
  (exists status statusText,
      fetched env = FetchResponds true status statusText (BodyBytes buffer))
  /\ buffer <> [] /\ disk env = DiskOk.

(** The path of the image file of task [t], relative to the bundle root. *)
Definition relative_path (t : ImageTask) (buffer : list Byte.byte) : string :=
  "images/" +:+ task_postSlug t +:+ "/"
  +:+ image_filename (task_type t) (task_url t) buffer.

(** The file of task [t] on disk. *)
Definition disk_path (imagesDir : string) (t : ImageTask) (buffer : list Byte.byte)
    : string :=
  Utils.createSafePath
    [Utils.createSafePath [imagesDir; task_postSlug t];
     image_filename (task_type t) (task_url t) buffer].

Definition succeeded (t : ImageTask) (buffer : list Byte.byte) : ImageDownloadResult :=
  {| postId := task_postId t; originalUrl := task_url t;
     localPath := Some (relative_path t buffer); success := true; error := None |}.





(** The bytes a response carries, when it is an ok response with a
    body that is not empty. *)
Definition delivered (env : AttemptEnv) : option (list Byte.byte) :=
  match fetched env with
  | FetchResponds true _ _ (BodyBytes (b :: bs)) => Some (b :: bs)
  | _ => None
  end.

(** One attempt: either it fails and writes no file, or it saves the
    bytes the response delivered. *)
Lemma try_attempt_outcome ix t imagesDir attempt w :
  (exists message w1,
      try_attempt net ix t imagesDir attempt w = (inl message, w1)
      /\ files w1 = files w)
  \/ (exists buffer w1,
        try_attempt net ix t imagesDir attempt w = (inr (relative_path t buffer), w1)
        /\ delivered (net ix attempt) = Some buffer
        /\ files w1 = <[ disk_path imagesDir t buffer := buffer ]> (files w)).
Proof.
  unfold try_attempt, delivered.
  destruct (fetched (net ix attempt)) as [m|[|] status text [m|[|b bs]]]; simpl;
    try (left; eexists _, _; split; [reflexivity|reflexivity]).
  unfold save_image.
  destruct (existsSync _ _); destruct (disk (net ix attempt)); simpl;
    first [ left; eexists _, _; split; reflexivity
          | right; eexists _, _; split; [reflexivity|split; reflexivity] ].
Qed.

Lemma retry_loop_outcome ix t imagesDir (remaining : nat) :
  forall attempt lastError w,
    (exists message w',
        retry_loop options net ix t imagesDir remaining attempt lastError w
        = (failure t message, w')
        /\ files w' = files w)
    \/ (exists buffer w' a,
          retry_loop options net ix t imagesDir remaining attempt lastError w
          = (succeeded t buffer, w')
          /\ (attempt <= a < attempt + remaining)%nat
          /\ delivered (net ix a) = Some buffer
          /\ files w' = <[ disk_path imagesDir t buffer := buffer ]> (files w)).
Proof.
  induction remaining as [|r IH]; intros attempt lastError w.
  - left. exists lastError, w. split; reflexivity.
  - simpl retry_loop.
    destruct (try_attempt_outcome ix t imagesDir attempt w)
      as [(message & w1 & E & Hf)|(buffer & w1 & E & Hd & Hf)]; rewrite E.
    + assert (forall w2, files w2 = files w1 ->
                (exists message' w',
                    retry_loop options net ix t imagesDir r (S attempt) message w2
                    = (failure t message', w') /\ files w' = files w)
                \/ (exists buffer w' a,
                      retry_loop options net ix t imagesDir r (S attempt) message w2
                      = (succeeded t buffer, w')
                      /\ (attempt <= a < attempt + S r)%nat
                      /\ delivered (net ix a) = Some buffer
                      /\ files w' = <[ disk_path imagesDir t buffer := buffer ]> (files w)))
        as Hnext.
      { intros w2 Hw2.
        destruct (IH (S attempt) message w2)
          as [(m' & w' & E' & Hf')|(buffer & w' & a & E' & Ha & Hd & Hf')].
        - left. exists m', w'. split; [exact E'|congruence].
        - right. exists buffer, w', a. repeat split; try assumption; try lia.
          congruence. }
      destruct (attempt =? retry options)%nat; apply Hnext; reflexivity.
    + right. exists buffer, w1, attempt. repeat split; try assumption; lia.
Qed.

End FileNames.

(** ** Names of files and the paths made from them *)



Section RuntimeLaws.
Context `{Platform}.



End RuntimeLaws.


(** ** The reference runtime has the two properties *)

Module NodeRuntimeFacts.
Import NodeRuntime.





















End NodeRuntimeFacts.

(** ** One file for each role *)

Section TwoFiles.
Context `{Platform}.
Variable options : ExportOptions.
Variable net : ImageDownloader.Network.

Import ImageDownloader.



Lemma image_filename_role url buffer buffer' :
  image_filename cover url buffer <> image_filename inline url buffer'.
Proof. discriminate. Qed.







End TwoFiles.





(** ** Numbers: digits *)

Section Digits.
Import Number.

Fixpoint all_digits (s : string) : bool :=
  match s with
  | EmptyString => true
  | String c rest => is_digit c && all_digits rest
  end.

Lemma all_digits_app s t : all_digits (s +:+ t) = all_digits s && all_digits t.
Proof.
  induction s as [|c s IH]; [reflexivity|].
  rewrite app_cons. simpl. now rewrite IH, andb_assoc.
Qed.

Lemma digit_char_digit d : 0 <= d < 10 -> is_digit (digit_char d) = true.
Proof.
  intros Hd. rewrite <- (Z2Nat.id d) by lia.
  assert (Z.to_nat d < 10)%nat as Hk by lia.
  revert Hk. generalize (Z.to_nat d). intros k Hk.
  do 10 (destruct k as [|k]; [reflexivity|]). lia.
Qed.

Lemma digit_value_char d : 0 <= d < 10 -> digit_value (digit_char d) = d.
Proof.
  intros Hd. rewrite <- (Z2Nat.id d) by lia.
  assert (Z.to_nat d < 10)%nat as Hk by lia.
  revert Hk. generalize (Z.to_nat d). intros k Hk.
  do 10 (destruct k as [|k]; [reflexivity|]). lia.
Qed.

Lemma digit_char_zero d : 0 < d < 10 -> Ascii.eqb (digit_char d) "0" = false.
Proof.
  intros Hd. rewrite <- (Z2Nat.id d) by lia.
  assert (0 < Z.to_nat d < 10)%nat as Hk by lia.
  revert Hk. generalize (Z.to_nat d). intros k Hk.
  destruct k as [|k]; [lia|].
  do 9 (destruct k as [|k]; [reflexivity|]). lia.
Qed.

Lemma read_digits_app s t : forall a, read_digits a (s +:+ t) = read_digits (read_digits a s) t.
Proof. induction s as [|c s IH]; intros a; [reflexivity|]. rewrite app_cons. simpl. apply IH. Qed.

Lemma read_digits_zeros t : forall a, read_digits a (zeros t) = a * 10 ^ Z.of_nat t.
Proof.
  induction t as [|t IH]; intros a; [simpl; lia|].
  simpl zeros. simpl read_digits. rewrite IH.
  change (digit_value "0") with 0. rewrite Nat2Z.inj_succ, Z.pow_succ_r by lia. lia.
Qed.

Lemma all_digits_zeros t : all_digits (zeros t) = true.
Proof. induction t as [|t IH]; [reflexivity|exact IH]. Qed.

Lemma length_zeros t : String.length (zeros t) = t.
Proof. induction t as [|t IH]; [reflexivity|]. simpl. now rewrite IH. Qed.

(** What [digits_aux] puts before [acc]. *)
Definition digits_of (n : Z) (D : string) : Prop :=
  all_digits D = true
  /\ (exists c r, D = String c r /\ (0 < n -> Ascii.eqb c "0" = false))
  /\ forall a, read_digits a D = a * 10 ^ Z.of_nat (String.length D) + n.

Lemma one_digit n : 0 <= n < 10 -> digits_of n (String (digit_char n) EmptyString).
Proof.
  intros Hn. split; [|split].
  - simpl. now rewrite digit_char_digit by lia.
  - eexists _, _. split; [reflexivity|]. intros Hp. apply digit_char_zero. lia.
  - intros a. simpl. rewrite digit_value_char by lia. lia.
Qed.

Lemma digits_aux_spec (fuel : nat) :
  forall n acc,
    0 <= n < 10 ^ Z.of_nat (S fuel) ->
    exists D,
      digits_aux (S fuel) n acc = D +:+ acc /\ digits_of n D
      /\ (String.length D <= S fuel)%nat.
Proof.
  induction fuel as [|fuel IH]; intros n acc Hn.
  - change (10 ^ Z.of_nat 1) with 10 in Hn. cbn [digits_aux].
    destruct (Z.ltb_spec n 10) as [Hlt|Hge]; [|lia].
    exists (String (digit_char (n mod 10)) EmptyString).
    rewrite Z.mod_small by lia.
    split; [reflexivity|]. split; [now apply one_digit|simpl; lia].
  - change (digits_aux (S (S fuel)) n acc)
      with (if n <? 10 then String (digit_char (n mod 10)) acc
            else digits_aux (S fuel) (n / 10) (String (digit_char (n mod 10)) acc)).
    destruct (Z.ltb_spec n 10) as [Hlt|Hge].
    + exists (String (digit_char (n mod 10)) EmptyString).
      rewrite Z.mod_small by lia.
      split; [reflexivity|]. split; [now apply one_digit|simpl; lia].
    + assert (0 <= n / 10 < 10 ^ Z.of_nat (S fuel)) as Hq.
      { rewrite (Nat2Z.inj_succ (S fuel)), Z.pow_succ_r in Hn by lia.
        split; [apply Z.div_pos; lia|apply Z.div_lt_upper_bound; lia]. }
      destruct (IH (n / 10) (String (digit_char (n mod 10)) acc) Hq)
        as (D & -> & (Hall & (c & r & -> & Hc) & Hread) & Hlen).
      exists (String c r +:+ String (digit_char (n mod 10)) EmptyString).
      split; [now rewrite app_assoc_s|].
      split; [|rewrite length_app_s; simpl in *; lia].
      pose proof (Z.mod_pos_bound n 10 ltac:(lia)) as Hm.
      split; [|split].
      * rewrite all_digits_app, Hall. simpl. now rewrite digit_char_digit by lia.
      * exists c, (r +:+ String (digit_char (n mod 10)) EmptyString).
        split; [reflexivity|]. intros _. apply Hc.
        apply Z.div_str_pos. lia.
      * intros a. rewrite read_digits_app, Hread. simpl read_digits.
        rewrite digit_value_char by lia. rewrite length_app_s. simpl String.length.
        rewrite Nat2Z.inj_add. change (Z.of_nat 1) with 1.
        rewrite Z.pow_add_r, Z.pow_1_r by lia.
        pose proof (Z.div_mod n 10 ltac:(lia)). lia.
Qed.

Lemma digits_fuel n : 0 <= n -> n < 10 ^ Z.of_nat (S (Z.to_nat (Z.log2 n))).
Proof.
  intros Hn. rewrite Nat2Z.inj_succ, Z2Nat.id by apply Z.log2_nonneg.
  destruct (Z.eq_dec n 0) as [->|Hne]; [reflexivity|].
  pose proof (Z.log2_spec n ltac:(lia)) as [_ Hlt].
  eapply Z.lt_le_trans; [exact Hlt|].
  apply Z.pow_le_mono_l. pose proof (Z.log2_nonneg n). lia.
Qed.

(** The digits of a number: digits only, at least one, no leading zero
    for a positive number, and read back they give the number. *)
Lemma digits_spec n :
  0 <= n ->
  digits_of n (digits n)
  /\ (String.length (digits n) <= S (Z.to_nat (Z.log2 n)))%nat.
Proof.
  intros Hn. unfold digits.
  destruct (digits_aux_spec (Z.to_nat (Z.log2 n)) n EmptyString)
    as (D & E & HD & Hlen); [split; [exact Hn|now apply digits_fuel]|].
  rewrite E, app_empty_r. split; assumption.
Qed.

Lemma read_digits_digits n : 0 <= n -> read_digits 0 (digits n) = n.
Proof. intros Hn. destruct (digits_spec n Hn) as [(_ & _ & Hr) _]. now rewrite Hr. Qed.

(** What may follow a literal for it to end there. *)
Definition ends_literal (rest : string) : Prop :=
  match rest with
  | EmptyString => True
  | String c _ =>
      is_digit c = false /\ Ascii.eqb c "." = false
      /\ Ascii.eqb c "e" = false /\ Ascii.eqb c "E" = false
  end.

Definition no_digit (rest : string) : Prop :=
  match rest with
  | EmptyString => True
  | String c _ => is_digit c = false
  end.

Lemma span_digits_app D rest :
  all_digits D = true -> no_digit rest -> span_digits (D +:+ rest) = (D, rest).
Proof.
  induction D as [|c D IH]; intros HD Hrest.
  - destruct rest as [|c rest]; [reflexivity|]. simpl in *. now rewrite Hrest.
  - simpl in HD. apply andb_true_iff in HD as [Hc HD].
    rewrite app_cons. simpl. now rewrite Hc, IH.
Qed.

End Digits.

(** ** Numbers: a double is the nearest double to itself *)

Section Rounding.
Import Number.

(** [ilog2 a b] is the [L] with [2^L <= a / b < 2^(L+1)], here with
    [L = u - v]. *)
Lemma ilog2_unique a b u v :
  0 < a -> 0 < b -> 0 <= u -> 0 <= v ->
  b * 2 ^ u <= a * 2 ^ v < b * 2 ^ (u + 1) ->
  ilog2 a b = u - v.
Proof.
  intros Ha Hb Hu Hv [Hlo Hhi]. unfold ilog2.
  set (k := Z.log2 b + 1).
  assert (0 < k) as Hk by (pose proof (Z.log2_nonneg b); lia).
  assert (b < 2 ^ k) as Hbk by (apply Z.log2_spec; lia).
  assert (0 < 2 ^ k) as Pk by (apply Z.pow_pos_nonneg; lia).
  assert (0 < 2 ^ u) as Pu by (apply Z.pow_pos_nonneg; lia).
  assert (0 < 2 ^ v) as Pv by (apply Z.pow_pos_nonneg; lia).
  rewrite Z.pow_add_r, Z.pow_1_r in Hhi by lia.
  assert (v < k + u + 1) as Hvk.
  { apply (Z.pow_lt_mono_r_iff 2); [lia|lia|].
    rewrite !Z.pow_add_r, Z.pow_1_r by lia. nia. }
  set (t := u - v + k).
  assert (0 <= t) as Ht by (unfold t; lia).
  assert (0 < 2 ^ t) as Pt by (apply Z.pow_pos_nonneg; lia).
  assert (2 ^ t * 2 ^ v = 2 ^ u * 2 ^ k) as Epow.
  { rewrite <- !Z.pow_add_r by lia. f_equal. unfold t. lia. }
  assert (Z.log2 (a * 2 ^ k / b) = t) as ->; [|unfold t; lia].
  apply Z.log2_unique; [exact Ht|]. split.
  - apply Z.div_le_lower_bound; [exact Hb|]. nia.
  - apply Z.div_lt_upper_bound; [exact Hb|].
    rewrite Z.pow_succ_r by lia. nia.
Qed.

Lemma round_half_even_exact m q : 0 < q -> round_half_even (m * q) q = m.
Proof.
  intros Hq. unfold round_half_even.
  rewrite Z.div_mul, Z.mod_mul by lia.
  destruct (Z.ltb_spec (2 * 0) q); [reflexivity|lia].
Qed.

(** The double [m * 2^e], with [m > 0]. *)
Definition positive_double (m e : Z) : Prop :=
  0 < m < 2 ^ 53 /\ emin <= e <= emax /\ (2 ^ 52 <= m \/ e = emin).

(** [a / b] is [m * 2^e]. *)
Definition is_value (a b m e : Z) : Prop :=
  (0 <= e -> a = m * 2 ^ e * b) /\ (e < 0 -> a * 2 ^ (- e) = m * b).

Lemma ilog2_double a b m e :
  0 < a -> 0 < b -> 0 < m -> is_value a b m e ->
  ilog2 a b = Z.log2 m + e.
Proof.
  intros Ha Hb Hm [Hpos Hneg].
  pose proof (Z.log2_spec m Hm) as [Hlo Hhi].
  pose proof (Z.log2_nonneg m) as Hl.
  set (l := Z.log2 m) in *.
  assert (0 < 2 ^ l) as Pl by (apply Z.pow_pos_nonneg; lia).
  rewrite Z.pow_succ_r in Hhi by lia.
  destruct (Z.lt_ge_cases e 0) as [He|He].
  - specialize (Hneg He). set (j := - e) in *.
    assert (0 < 2 ^ j) as Pj by (apply Z.pow_pos_nonneg; lia).
    destruct (Z.lt_ge_cases l j) as [Hlj|Hlj].
    + replace (l + e) with (0 - (j - l)) by lia.
      apply ilog2_unique; try lia.
      assert (2 ^ j = 2 ^ (j - l) * 2 ^ l) as Ej
        by (rewrite <- Z.pow_add_r by lia; f_equal; lia).
      assert (0 < 2 ^ (j - l)) as Pjl by (apply Z.pow_pos_nonneg; lia).
      change (2 ^ (0 + 1)) with 2. change (2 ^ 0) with 1. nia.
    + replace (l + e) with ((l - j) - 0) by lia.
      apply ilog2_unique; try lia.
      assert (2 ^ l = 2 ^ (l - j) * 2 ^ j) as El
        by (rewrite <- Z.pow_add_r by lia; f_equal; lia).
      assert (0 < 2 ^ (l - j)) as Plj by (apply Z.pow_pos_nonneg; lia).
      rewrite Z.pow_add_r, Z.pow_1_r by lia. change (2 ^ 0) with 1. nia.
  - specialize (Hpos He).
    assert (0 < 2 ^ e) as Pe by (apply Z.pow_pos_nonneg; lia).
    replace (l + e) with ((l + e) - 0) by lia.
    apply ilog2_unique; try lia.
    rewrite !Z.pow_add_r, Z.pow_1_r by lia. change (2 ^ 0) with 1. nia.
Qed.

(** Rounding the exact value of a double gives the double. *)
Lemma round_rational_exact negative a b m e :
  0 < a -> 0 < b -> positive_double m e -> is_value a b m e ->
  round_rational negative a b = Finite negative m e.
Proof.
  intros Ha Hb ([Hm Hm53] & [He1 He2] & Hnorm) Hval.
  unfold round_rational.
  rewrite (ilog2_double a b m e Ha Hb Hm Hval).
  assert (Z.max emin (Z.log2 m + e - 52) = e) as ->.
  { destruct Hnorm as [H52 | ->].
    - assert (Z.log2 m = 52) as ->; [|lia].
      apply Z.log2_unique; [lia|]. split; [exact H52|exact Hm53].
    - assert (Z.log2 m < 53); [|lia].
      apply Z.log2_lt_pow2; [lia|exact Hm53]. }
  destruct Hval as [Hpos Hneg].
  assert ((if 0 <=? e then round_half_even a (b * 2 ^ e)
           else round_half_even (a * 2 ^ (- e)) b) = m) as ->.
  { destruct (Z.leb_spec 0 e) as [He|He].
    - rewrite (Hpos He).
      replace (m * 2 ^ e * b) with (m * (b * 2 ^ e)) by lia.
      apply round_half_even_exact.
      assert (0 < 2 ^ e) by (apply Z.pow_pos_nonneg; lia). nia.
    - rewrite (Hneg He). now apply round_half_even_exact. }
  destruct (Z.eqb_spec m (2 ^ 53)) as [E|_]; [lia|].
  destruct (Z.ltb_spec emax e); [lia|reflexivity].
Qed.

(** The decimal [c * 10^(-t)] that is the double [m * 2^e] exactly, for
    [t] at least the number of binary places of the double. *)
Definition exact_digits (m e t : Z) : Z :=
  if 0 <=? e then m * 2 ^ e * 10 ^ t else m * 5 ^ (- e) * 10 ^ (t + e).

Lemma exact_digits_pos m e t :
  0 < m -> 0 <= t -> - e <= t -> 0 < exact_digits m e t.
Proof.
  intros Hm Ht Het. unfold exact_digits.
  destruct (Z.leb_spec 0 e) as [He|He].
  - assert (0 < 2 ^ e) by (apply Z.pow_pos_nonneg; lia).
    assert (0 < 10 ^ t) by (apply Z.pow_pos_nonneg; lia). nia.
  - assert (0 < 5 ^ (- e)) by (apply Z.pow_pos_nonneg; lia).
    assert (0 < 10 ^ (t + e)) by (apply Z.pow_pos_nonneg; lia). nia.
Qed.

Lemma pow10_split t : 0 <= t -> 10 ^ t = 2 ^ t * 5 ^ t.
Proof. intros Ht. now rewrite <- Z.pow_mul_l. Qed.

Lemma pow_2_le_10 t : 0 <= t -> 2 ^ t <= 10 ^ t.
Proof. intros Ht. apply Z.pow_le_mono_l. lia. Qed.

Lemma exact_digits_log2 m e t :
  0 < m -> 0 <= t -> - e <= t -> t <= Z.log2 (exact_digits m e t).
Proof.
  intros Hm Ht Het.
  rewrite <- (Z.log2_pow2 t Ht) at 1. apply Z.log2_le_mono.
  unfold exact_digits. destruct (Z.leb_spec 0 e) as [He|He].
  - assert (0 < 2 ^ e) by (apply Z.pow_pos_nonneg; lia).
    pose proof (pow_2_le_10 t Ht).
    assert (0 < 2 ^ t) by (apply Z.pow_pos_nonneg; lia).
    assert (1 <= m * 2 ^ e) by nia.
    transitivity (1 * 10 ^ t); [lia|].
    apply Z.mul_le_mono_nonneg_r; lia.
  - set (j := - e) in *.
    replace t with (j + (t - j)) at 1 by lia.
    rewrite Z.pow_add_r by lia. replace (t + e) with (t - j) by lia.
    assert (2 ^ j <= 5 ^ j) by (apply Z.pow_le_mono_l; lia).
    pose proof (pow_2_le_10 (t - j) ltac:(lia)).
    assert (0 < 2 ^ j) by (apply Z.pow_pos_nonneg; lia).
    assert (0 < 2 ^ (t - j)) by (apply Z.pow_pos_nonneg; lia).
    transitivity (5 ^ j * 10 ^ (t - j)); [apply Z.mul_le_mono_nonneg; lia|].
    apply Z.mul_le_mono_nonneg_r; [lia|nia].
Qed.

(** The exact decimal of a double denotes the double. *)
Lemma round_decimal_exact negative m e t :
  positive_double m e -> 0 <= t -> - e <= t ->
  round_decimal negative (exact_digits m e t) (- t) = Finite negative m e.
Proof.
  intros Hd Ht Het. pose proof Hd as ([Hm _] & _ & _).
  pose proof (exact_digits_pos m e t Hm Ht Het) as Hpos.
  pose proof (exact_digits_log2 m e t Hm Ht Het) as Hlog.
  unfold round_decimal.
  destruct (Z.eqb_spec (exact_digits m e t) 0) as [E|_]; [lia|].
  destruct (Z.ltb_spec 400 (- t)); [lia|].
  destruct (Z.ltb_spec (Z.log2 (exact_digits m e t) + 1 + - t) (-400)); [lia|].
  assert (0 < 10 ^ t) as P10 by (apply Z.pow_pos_nonneg; lia).
  assert (is_value (exact_digits m e t) (10 ^ t) m e) as Hval.
  { unfold is_value, exact_digits. split; intros He.
    - destruct (Z.leb_spec 0 e); [reflexivity|lia].
    - destruct (Z.leb_spec 0 e); [lia|]. set (j := - e) in *.
      replace (t + e) with (t - j) by lia.
      replace (10 ^ t) with (10 ^ j * 10 ^ (t - j))
        by (rewrite <- Z.pow_add_r by lia; f_equal; lia).
      rewrite (pow10_split j) by lia. lia. }
  destruct (Z.leb_spec 0 (- t)) as [Hq|Hq].
  - assert (t = 0) as -> by lia. change (10 ^ (- 0)) with 1.
    rewrite Z.mul_1_r. change (10 ^ 0) with 1 in Hval.
    now apply round_rational_exact.
  - rewrite Z.opp_involutive. now apply round_rational_exact.
Qed.

End Rounding.

(** ** Numbers: the shortest decimal of a double *)

Section Shortest.
Import Number.

Lemma number_eqb_eq x y : eqb x y = true -> x = y.
Proof.
  destruct x as [|s|s m e], y as [|s'|s' m' e']; simpl; try discriminate.
  - reflexivity.
  - intros E. apply Bool.eqb_prop in E. now subst.
  - intros E. apply andb_true_iff in E as [E He]. apply andb_true_iff in E as [Hs Hm].
    apply Bool.eqb_prop in Hs. apply Z.eqb_eq in Hm, He. now subst.
Qed.

Lemma number_eqb_refl x : eqb x x = true.
Proof.
  destruct x as [|s|s m e]; simpl; [reflexivity|apply Bool.eqb_reflx|].
  now rewrite Bool.eqb_reflx, !Z.eqb_refl.
Qed.

(** A decimal the search returns has positive digits and denotes [x]. *)
Definition denotes (x : number) (negative : bool) (sq : Z * Z) : Prop :=
  0 < sq.1 /\ round_decimal negative sq.1 sq.2 = x.

Lemma candidate_sound x negative num den n k sq :
  0 <= num -> 0 < den -> 1 <= k ->
  candidate x negative num den n k = Some sq -> denotes x negative sq.
Proof.
  intros Hnum Hden Hk. unfold candidate.
  set (q := n - k).
  assert (exists rnum rden,
             (if q <=? 0 then (num * 10 ^ (- q), den) else (num, den * 10 ^ q))
             = (rnum, rden) /\ 0 <= rnum /\ 0 < rden) as (rnum & rden & -> & Hrn & Hrd).
  { destruct (Z.leb_spec q 0) as [Hq|Hq]; eexists _, _; (split; [reflexivity|]).
    - assert (0 < 10 ^ (- q)) by (apply Z.pow_pos_nonneg; lia). nia.
    - assert (0 < 10 ^ q) by (apply Z.pow_pos_nonneg; lia). nia. }
  set (lo := rnum / rden).
  assert (0 <= lo) as Hlo by (apply Z.div_pos; lia).
  assert (exists hs hq,
             (if lo + 1 =? 10 ^ k then (10 ^ (k - 1), q + 1) else (lo + 1, q)) = (hs, hq)
             /\ 0 < hs) as (hs & hq & -> & Hhs).
  { destruct (lo + 1 =? 10 ^ k); eexists _, _; (split; [reflexivity|]); [|lia].
    apply Z.pow_pos_nonneg; lia. }
  destruct ((0 <? lo) && eqb (round_decimal negative lo q) x) eqn:Elo;
    destruct (eqb (round_decimal negative hs hq) x) eqn:Ehi; simpl.
  - apply andb_true_iff in Elo as [Hpos Elo]. apply Z.ltb_lt in Hpos.
    apply number_eqb_eq in Elo, Ehi.
    destruct (2 * (rnum mod rden) <? rden);
      [|destruct (rden <? 2 * (rnum mod rden)); [|destruct (Z.even lo)]];
      intros E; inversion E; subst sq; split; simpl; assumption.
  - apply andb_true_iff in Elo as [Hpos Elo]. apply Z.ltb_lt in Hpos.
    apply number_eqb_eq in Elo. intros E; inversion E; subst sq; split; simpl; assumption.
  - apply number_eqb_eq in Ehi. intros E; inversion E; subst sq; split; simpl; assumption.
  - discriminate.
Qed.

Lemma shortest_from_sound x negative num den n (fuel : nat) :
  0 <= num -> 0 < den ->
  forall k sq,
    1 <= k ->
    shortest_from fuel x negative num den n k = Some sq -> denotes x negative sq.
Proof.
  intros Hnum Hden. induction fuel as [|fuel IH]; intros k sq Hk; [discriminate|].
  simpl. destruct (candidate x negative num den n k) as [sq'|] eqn:Ec.
  - intros E. inversion E; subst sq'.
    exact (candidate_sound x negative num den n k sq Hnum Hden Hk Ec).
  - apply IH. lia.
Qed.

Lemma shortest_from_complete x negative num den n (fuel : nat) :
  forall k k',
    k <= k' < k + Z.of_nat fuel ->
    candidate x negative num den n k' <> None ->
    shortest_from fuel x negative num den n k <> None.
Proof.
  induction fuel as [|fuel IH]; intros k k' Hk Hc; [lia|].
  simpl. destruct (candidate x negative num den n k) as [sq|] eqn:Ec; [discriminate|].
  destruct (Z.eq_dec k k') as [->|Hne]; [contradiction|].
  apply (IH (k + 1) k'); [lia|exact Hc].
Qed.

(** With enough digits the decimal is exact. *)
Lemma candidate_exact negative m e n k :
  positive_double m e -> 1 <= k -> 0 <= k - n -> - e <= k - n ->
  let '(num, den) := exact m e in
  candidate (Finite negative m e) negative num den n k <> None.
Proof.
  intros Hd Hk Ht Het. pose proof Hd as ([Hm _] & _ & _).
  set (t := k - n) in *.
  pose proof (round_decimal_exact negative m e t Hd Ht Het) as Hround.
  pose proof (exact_digits_pos m e t Hm Ht Het) as Hpos.
  assert (let '(num, den) := exact m e in
          num * 10 ^ t / den = exact_digits m e t) as Hlo.
  { unfold exact, exact_digits. destruct (Z.leb_spec 0 e) as [He|He].
    - now rewrite Z.div_1_r.
    - set (j := - e) in *. replace (t + e) with (t - j) by lia.
      replace (10 ^ t) with (10 ^ j * 10 ^ (t - j))
        by (rewrite <- Z.pow_add_r by lia; f_equal; lia).
      rewrite (pow10_split j) by lia.
      replace (m * (2 ^ j * 5 ^ j * 10 ^ (t - j)))
        with (m * 5 ^ j * 10 ^ (t - j) * 2 ^ j) by lia.
      apply Z.div_mul. assert (0 < 2 ^ j) by (apply Z.pow_pos_nonneg; lia). lia. }
  destruct (exact m e) as [num den]. unfold candidate.
  replace (n - k) with (- t) by (unfold t; lia).
  destruct (Z.leb_spec (- t) 0) as [_|Hq]; [|lia].
  rewrite Z.opp_involutive, Hlo, Hround, number_eqb_refl.
  assert ((0 <? exact_digits m e t) = true) as -> by (apply Z.ltb_lt; exact Hpos).
  simpl andb.
  destruct (if exact_digits m e t + 1 =? 10 ^ k then _ else _) as [hs hq].
  destruct (eqb (round_decimal negative hs hq) (Finite negative m e)); [|discriminate].
  destruct (2 * _ <? den); [discriminate|].
  destruct (den <? 2 * _); [discriminate|].
  destruct (Z.even _); discriminate.
Qed.

Lemma length_digits_bound y b :
  0 <= y -> y < 2 ^ b -> 0 <= b -> Z.of_nat (String.length (digits y)) <= b + 1.
Proof.
  intros Hy Hb H0. destruct (digits_spec y Hy) as [_ Hlen].
  assert (Z.log2 y <= b); [|pose proof (Z.log2_nonneg y); lia].
  destruct (Z.eq_dec y 0) as [->|Hne]; [simpl; lia|].
  assert (Z.log2 y < b); [apply Z.log2_lt_pow2; lia|lia].
Qed.

Lemma decimal_exponent_bound m e :
  positive_double m e ->
  let '(num, den) := exact m e in
  decimal_exponent num den + Z.max 0 (- e) <= 1130.
Proof.
  intros ([Hm Hm53] & [He1 He2] & _). unfold exact, emin, emax in *.
  destruct (Z.leb_spec 0 e) as [He|He]; unfold decimal_exponent.
  - assert (0 < 2 ^ e) by (apply Z.pow_pos_nonneg; lia).
    destruct (Z.leb_spec 1 (m * 2 ^ e)) as [_|Hc]; [|nia].
    rewrite Z.div_1_r.
    assert (m * 2 ^ e < 2 ^ (53 + e)) by (rewrite Z.pow_add_r by lia; nia).
    pose proof (length_digits_bound (m * 2 ^ e) (53 + e) ltac:(nia) H0 ltac:(lia)). lia.
  - assert (0 < 2 ^ (- e)) as P by (apply Z.pow_pos_nonneg; lia).
    destruct (Z.leb_spec (2 ^ (- e)) m) as [Hle|Hlt].
    + assert (0 <= m / 2 ^ (- e) < 2 ^ 53) as [Hq0 Hq1].
      { split; [apply Z.div_pos; lia|].
        apply Z.div_lt_upper_bound; [lia|]. nia. }
      pose proof (length_digits_bound (m / 2 ^ (- e)) 53 Hq0 Hq1 ltac:(lia)). lia.
    + assert (0 <= 2 ^ (- e) / m) as Hq by (apply Z.div_pos; lia).
      destruct (digits_spec _ Hq) as [(_ & (c & r & E & _) & _) _].
      rewrite E. simpl String.length.
      destruct (_ =? _); lia.
Qed.

(** The search finds a decimal for every positive double; it denotes
    the double. *)
Lemma shortest_total negative m e :
  positive_double m e ->
  exists sq,
    shortest negative m e = Some sq /\ denotes (Finite negative m e) negative sq.
Proof.
  intros Hd. pose proof Hd as ([Hm _] & _ & _).
  unfold shortest.
  pose proof (decimal_exponent_bound m e Hd) as Hn.
  assert (let '(num, den) := exact m e in 0 <= num /\ 0 < den) as Hnd.
  { unfold exact. destruct (Z.leb_spec 0 e).
    - assert (0 < 2 ^ e) by (apply Z.pow_pos_nonneg; lia). nia.
    - assert (0 < 2 ^ (- e)) by (apply Z.pow_pos_nonneg; lia). lia. }
  pose proof (fun n k => candidate_exact negative m e n k Hd) as Hex.
  destruct (exact m e) as [num den]. destruct Hnd as [Hnum Hden].
  set (n := decimal_exponent num den) in *.
  set (k' := Z.max 1 (n + Z.max 0 (- e))).
  destruct (shortest_from 1200 (Finite negative m e) negative num den n 1)
    as [sq|] eqn:Es.
  - exists sq. split; [reflexivity|].
    exact (shortest_from_sound _ negative num den n 1200 Hnum Hden 1 sq ltac:(lia) Es).
  - exfalso. revert Es.
    apply (shortest_from_complete _ negative num den n 1200 1 k'); [unfold k'; lia|].
    apply Hex; unfold k'; lia.
Qed.

(** Whatever the search returns for a positive significand has positive
    digits. *)
Lemma shortest_positive negative m e s q :
  0 < m -> shortest negative m e = Some (s, q) -> 0 < s.
Proof.
  intros Hm. unfold shortest.
  assert (let '(num, den) := exact m e in 0 <= num /\ 0 < den) as Hnd.
  { unfold exact. destruct (Z.leb_spec 0 e).
    - assert (0 < 2 ^ e) by (apply Z.pow_pos_nonneg; lia). nia.
    - assert (0 < 2 ^ (- e)) by (apply Z.pow_pos_nonneg; lia). lia. }
  destruct (exact m e) as [num den]. destruct Hnd as [Hnum Hden].
  intros Es.
  exact (proj1 (shortest_from_sound _ negative num den _ 1200 Hnum Hden 1 (s, q)
                  ltac:(lia) Es)).
Qed.

End Shortest.

(** ** Numbers: the text of a number read back *)

Section Reading.
Import Number.

Lemma take_drop_s (n : nat) : forall s, take n s +:+ drop n s = s.
Proof.
  induction n as [|n IH]; intros s; [reflexivity|].
  destruct s as [|c s]; [reflexivity|].
  change (String c (take n s +:+ drop n s) = String c s). now rewrite IH.
Qed.

Lemma length_take_s (n : nat) :
  forall s, (n <= String.length s)%nat -> String.length (take n s) = n.
Proof.
  induction n as [|n IH]; intros s Hn; [reflexivity|].
  destruct s as [|c s]; simpl in *; [lia|]. rewrite IH; lia.
Qed.

Lemma all_digits_split s t :
  all_digits (s +:+ t) = true -> all_digits s = true /\ all_digits t = true.
Proof. rewrite all_digits_app. apply andb_true_iff. Qed.

Lemma round_decimal_zeros negative s q :
  0 < s -> 0 <= q <= 400 ->
  round_decimal negative (s * 10 ^ q) 0 = round_decimal negative s q.
Proof.
  intros Hs Hq. unfold round_decimal.
  assert (0 < 10 ^ q) as P by (apply Z.pow_pos_nonneg; lia).
  destruct (Z.eqb_spec (s * 10 ^ q) 0); [nia|].
  destruct (Z.eqb_spec s 0); [lia|].
  destruct (Z.ltb_spec 400 q); [lia|]. simpl (400 <? 0).
  pose proof (Z.log2_nonneg (s * 10 ^ q)). pose proof (Z.log2_nonneg s).
  destruct (Z.ltb_spec (Z.log2 (s * 10 ^ q) + 1 + 0) (-400)); [lia|].
  destruct (Z.ltb_spec (Z.log2 s + 1 + q) (-400)); [lia|].
  destruct (Z.leb_spec 0 q); [|lia]. simpl (0 <=? 0).
  now rewrite Z.mul_1_r.
Qed.

Lemma ends_literal_no_digit rest : ends_literal rest -> no_digit rest.
Proof. destruct rest as [|c rest]; [easy|]. now intros [H _]. Qed.

Lemma fraction_none rest : ends_literal rest -> fraction rest = Some (EmptyString, rest).
Proof.
  destruct rest as [|c rest]; [reflexivity|]. intros (_ & Hp & _).
  simpl. now rewrite Hp.
Qed.

Lemma exponent_none rest : ends_literal rest -> exponent rest = Some (0, rest).
Proof.
  destruct rest as [|c rest]; [reflexivity|]. intros (_ & _ & He & HE).
  simpl. now rewrite He, HE.
Qed.

Lemma fraction_digits F rest :
  all_digits F = true -> F <> EmptyString -> no_digit rest ->
  fraction ("." +:+ F +:+ rest) = Some (F, rest).
Proof.
  intros HF Hne Hrest.
  change ("." +:+ F +:+ rest) with (String "." (F +:+ rest)).
  cbn [fraction]. rewrite Ascii.eqb_refl, (span_digits_app F rest HF Hrest).
  destruct F; [contradiction|reflexivity].
Qed.

(** The exponent part that [format] writes for the exponent [x]. *)
Definition exponent_text (x : Z) : string :=
  "e" +:+ (if 0 <=? x then "+" else "-") +:+ digits (Z.abs x).

Lemma exponent_digits x rest :
  no_digit rest -> exponent (exponent_text x +:+ rest) = Some (x, rest).
Proof.
  intros Hrest. unfold exponent_text.
  destruct (digits_spec (Z.abs x) (Z.abs_nonneg x))
    as [(Hall & (c & r & E & _) & Hread) _].
  assert (span_digits (digits (Z.abs x) +:+ rest) = (digits (Z.abs x), rest)) as Hspan
    by (now apply span_digits_app).
  assert (read_digits 0 (digits (Z.abs x)) = Z.abs x) as Hval
    by (apply read_digits_digits, Z.abs_nonneg).
  destruct (Z.leb_spec 0 x) as [Hx|Hx].
  - change (("e" +:+ "+" +:+ digits (Z.abs x)) +:+ rest)
      with (String "e" (String "+" (digits (Z.abs x) +:+ rest))).
    cbn [exponent]. change (Ascii.eqb "e" "e" || Ascii.eqb "e" "E") with true.
    cbv iota. change (Ascii.eqb "+" "+") with true. cbv iota.
    rewrite Hspan, Hval, E. f_equal. f_equal. lia.
  - change (("e" +:+ "-" +:+ digits (Z.abs x)) +:+ rest)
      with (String "e" (String "-" (digits (Z.abs x) +:+ rest))).
    cbn [exponent]. change (Ascii.eqb "e" "e" || Ascii.eqb "e" "E") with true.
    cbv iota. change (Ascii.eqb "-" "+") with false. change (Ascii.eqb "-" "-") with true.
    cbv iota. rewrite Hspan, Hval, E. f_equal. f_equal. lia.
Qed.

Lemma exponent_text_start x :
  exists r, exponent_text x = String "e" r.
Proof. unfold exponent_text. eexists. reflexivity. Qed.

Lemma integer_part_digits c r rest :
  is_digit c = true -> Ascii.eqb c "0" = false -> all_digits r = true ->
  no_digit rest ->
  integer_part (String c r +:+ rest) = Some (String c r, rest).
Proof.
  intros Hc H0 Hr Hrest. unfold integer_part. rewrite app_cons, H0, Hc.
  rewrite <- app_cons, span_digits_app; [reflexivity| |exact Hrest].
  simpl. now rewrite Hc, Hr.
Qed.

(** The text [format] writes for [s * 10^q] is read back as the Number
    value of [s * 10^q]. *)
Lemma parse_unsigned_format negative s q rest :
  0 < s -> ends_literal rest ->
  parse_unsigned negative (format s q +:+ rest)
  = Some (round_decimal negative s q, rest).
Proof.
  intros Hs Hrest. pose proof (ends_literal_no_digit rest Hrest) as Hnd.
  destruct (digits_spec s ltac:(lia)) as [(Hall & (c & r & ED & Hc0) & Hread) _].
  specialize (Hc0 Hs). unfold format.
  set (D := digits s) in *. set (k := Z.of_nat (String.length D)).
  assert (1 <= k) as Hk by (unfold k; rewrite ED; simpl; lia).
  assert (is_digit c = true /\ all_digits r = true) as [Hc Hr].
  { rewrite ED in Hall. simpl in Hall. now apply andb_true_iff in Hall. }
  assert (read_digits 0 D = s) as Hval by (rewrite Hread; lia).
  unfold parse_unsigned.
  destruct ((k <=? k + q) && (k + q <=? 21)) eqn:B1.
  { (* digits, then zeros *)
    apply andb_true_iff in B1 as [Hq1 Hq2]. apply Z.leb_le in Hq1, Hq2.
    replace (k + q - k) with q by lia.
    rewrite ED, app_assoc_s, app_cons.
    rewrite <- (app_assoc_s r), <- app_cons.
    rewrite integer_part_digits;
      [|exact Hc|exact Hc0|rewrite all_digits_app, Hr; apply all_digits_zeros|exact Hnd].
    rewrite (fraction_none rest Hrest), (exponent_none rest Hrest).
    rewrite app_empty_r, <- app_cons, <- ED, read_digits_app, Hval, read_digits_zeros.
    rewrite Z2Nat.id by lia. simpl (0 - Z.of_nat (String.length "")).
    now rewrite round_decimal_zeros by lia. }
  destruct ((0 <? k + q) && (k + q <=? 21)) eqn:B2.
  { (* digits with a point among them *)
    apply andb_true_iff in B2 as [Hn1 Hn2]. apply Z.ltb_lt in Hn1. apply Z.leb_le in Hn2.
    assert (k + q < k) as Hnk.
    { apply andb_false_iff in B1 as [B|B]; [apply Z.leb_gt in B; lia|].
      apply Z.leb_gt in B. lia. }
    set (n := Z.to_nat (k + q)).
    assert (1 <= n < String.length D)%nat as Hn by (unfold n, k in *; lia).
    pose proof (take_drop_s n D) as Esplit.
    pose proof (length_take_s n D ltac:(lia)) as Ltake.
    assert (all_digits (take n D) = true /\ all_digits (drop n D) = true) as [Ht Hd]
      by (apply all_digits_split; now rewrite Esplit).
    assert (exists r1, take n D = String c r1 /\ all_digits r1 = true) as (r1 & Et & Hr1).
    { destruct n as [|n']; [lia|]. rewrite ED. simpl. eexists. split; [reflexivity|].
      rewrite ED in Ht. simpl in Ht. now apply andb_true_iff in Ht as [_ Ht]. }
    assert (drop n D <> EmptyString) as Hdne.
    { intros E. rewrite E, app_empty_r in Esplit.
      apply (f_equal String.length) in Esplit. lia. }
    rewrite !app_assoc_s, Et.
    rewrite integer_part_digits; [|exact Hc|exact Hc0|exact Hr1|reflexivity].
    rewrite (fraction_digits (drop n D) rest Hd Hdne Hnd).
    rewrite (exponent_none rest Hrest), <- Et, Esplit, Hval.
    do 3 f_equal.
    apply (f_equal String.length) in Esplit. rewrite length_app_s in Esplit.
    unfold n, k in *. lia. }
  destruct ((-6 <? k + q) && (k + q <=? 0)) eqn:B3.
  { (* zero, point, zeros, digits *)
    apply andb_true_iff in B3 as [Hn1 Hn2]. apply Z.ltb_lt in Hn1. apply Z.leb_le in Hn2.
    set (z := Z.to_nat (- (k + q))).
    change (("0." +:+ zeros z +:+ D) +:+ rest)
      with (String "0" ("." +:+ (zeros z +:+ D) +:+ rest)).
    cbn [integer_part]. rewrite Ascii.eqb_refl.
    rewrite (fraction_digits (zeros z +:+ D) rest);
      [|now rewrite all_digits_app, all_digits_zeros|
       rewrite ED; destruct (zeros z); discriminate|exact Hnd].
    rewrite (exponent_none rest Hrest).
    change ("0" +:+ zeros z +:+ D) with (String "0" (zeros z +:+ D)).
    cbn [read_digits]. change (10 * 0 + digit_value "0") with 0.
    rewrite read_digits_app, read_digits_zeros, Hread, length_app_s, length_zeros.
    do 2 f_equal. f_equal; unfold z, k in *; lia. }
  (* one digit, the others after a point, and an exponent *)
  assert (no_digit (exponent_text (k + q - 1) +:+ rest)) as Hexp
    by (destruct (exponent_text_start (k + q - 1)) as [r0 ->]; reflexivity).
  assert (fraction (exponent_text (k + q - 1) +:+ rest)
          = Some (EmptyString, exponent_text (k + q - 1) +:+ rest)) as Hfrac
    by (destruct (exponent_text_start (k + q - 1)) as [r0 ->]; reflexivity).
  change (((if k =? 1 then D else take 1 D +:+ "." +:+ drop 1 D)
           +:+ "e" +:+ (if 0 <=? k + q - 1 then "+" else "-")
           +:+ digits (Z.abs (k + q - 1))) +:+ rest)
    with (((if k =? 1 then D else take 1 D +:+ "." +:+ drop 1 D)
           +:+ exponent_text (k + q - 1)) +:+ rest).
  rewrite app_assoc_s.
  destruct (Z.eqb_spec k 1) as [Ek|Ek].
  - assert (r = EmptyString) as ->.
    { unfold k in Ek. rewrite ED in Ek. simpl in Ek. destruct r; [reflexivity|].
      simpl in Ek. lia. }
    rewrite ED.
    rewrite integer_part_digits;
      [|exact Hc|exact Hc0|reflexivity|exact Hexp].
    rewrite Hfrac, (exponent_digits _ rest Hnd).
    rewrite app_empty_r, <- ED, Hval. do 3 f_equal. simpl. lia.
  - assert (r <> EmptyString) as Hrne.
    { intros ->. unfold k in Ek. rewrite ED in Ek. simpl in Ek. lia. }
    rewrite ED. change (take 1 (String c r)) with (String c EmptyString).
    change (drop 1 (String c r)) with r. rewrite !app_assoc_s.
    rewrite integer_part_digits; [|exact Hc|exact Hc0|reflexivity|reflexivity].
    rewrite (fraction_digits r _ Hr Hrne Hexp).
    rewrite (exponent_digits _ rest Hnd).
    change (String c EmptyString +:+ r) with (String c r). rewrite <- ED, Hval.
    do 3 f_equal. unfold k. rewrite ED. simpl String.length. lia.
Qed.

Lemma format_start s q :
  0 < s -> exists c r, format s q = String c r /\ is_digit c = true.
Proof.
  intros Hs.
  destruct (digits_spec s ltac:(lia)) as [(Hall & (c & r & ED & _) & _) _].
  assert (is_digit c = true) as Hc.
  { rewrite ED in Hall. simpl in Hall. now apply andb_true_iff in Hall as [Hc _]. }
  unfold format. rewrite ED.
  set (k := Z.of_nat (String.length (String c r))).
  destruct ((k <=? k + q) && (k + q <=? 21)); [now eexists _, _|].
  destruct ((0 <? k + q) && (k + q <=? 21)) eqn:B.
  { apply andb_true_iff in B as [B _]. apply Z.ltb_lt in B.
    destruct (Z.to_nat (k + q)) as [|n] eqn:En; [lia|]. now eexists _, _. }
  destruct ((-6 <? k + q) && (k + q <=? 0)); [now eexists _, _|].
  destruct (k =? 1); now eexists _, _.
Qed.

Definition positive_of (x : number) : Prop :=
  match x with Finite _ m e => positive_double m e | _ => False end.

Lemma reads_back_cases x :
  reads_back x = true ->
  x = zero false \/ positive_of x.
Proof.
  destruct x as [|s|s m e]; try discriminate. unfold reads_back, is_double.
  intros E. apply andb_true_iff in E as [E Hz].
  repeat (apply andb_true_iff in E as [E ?]).
  repeat match goal with
         | H : (_ <=? _) = true |- _ => apply Z.leb_le in H
         | H : (_ <? _) = true |- _ => apply Z.ltb_lt in H
         end.
  destruct (Z.eq_dec m 0) as [->|Hm].
  - left. destruct s; [discriminate Hz|].
    match goal with
    | H : _ || _ = true |- _ => apply orb_true_iff in H as [H|H]
    end; [apply Z.leb_le in H; lia|apply Z.eqb_eq in H; now subst].
  - right. simpl. unfold positive_double. split; [lia|]. split; [lia|].
    match goal with
    | H : _ || _ = true |- _ => apply orb_true_iff in H as [H|H]
    end; [left; now apply Z.leb_le in H|right; now apply Z.eqb_eq in H].
Qed.

(** A finite double other than negative zero is read back from the text
    [toString] writes for it. *)
Lemma parse_toString x rest :
  reads_back x = true -> ends_literal rest ->
  parse (toString x +:+ rest) = Some (x, rest).
Proof.
  intros Hx Hrest. destruct (reads_back_cases x Hx) as [->|Hpos].
  - change (toString (zero false) +:+ rest) with (String "0" rest).
    unfold parse. change (Ascii.eqb "0" "-") with false. cbv iota.
    unfold parse_unsigned. cbn [integer_part]. rewrite Ascii.eqb_refl.
    now rewrite (fraction_none rest Hrest), (exponent_none rest Hrest).
  - destruct x as [|sg|negative m e]; try contradiction. simpl in Hpos.
    destruct (shortest_total negative m e Hpos) as ([s q] & Es & Hs & Hround).
    simpl in Hs, Hround. unfold toString.
    destruct Hpos as ([Hm _] & _). destruct (Z.leb_spec m 0); [lia|].
    rewrite Es. destruct (format_start s q Hs) as (c & r & Ef & Hc).
    pose proof (parse_unsigned_format negative s q rest Hs Hrest) as Hp.
    rewrite Hround in Hp. destruct negative.
    + change (("-" +:+ format s q) +:+ rest) with (String "-" (format s q +:+ rest)).
      unfold parse. rewrite Ascii.eqb_refl. exact Hp.
    + rewrite app_assoc_s. change (EmptyString +:+ format s q +:+ rest)
        with (format s q +:+ rest).
      rewrite Ef, app_cons in *. unfold parse.
      assert (Ascii.eqb c "-" = false) as ->; [|exact Hp].
      destruct (Ascii.eqb_spec c "-") as [->|]; [discriminate Hc|reflexivity].
Qed.

End Reading.

(** ** Numbers: the characters of their text *)

Section NumberText.
Import Number.

(** The characters [toString] writes: digits, the point, the exponent
    mark, the signs, and the letters of [NaN] and [Infinity]. *)
Definition number_text_char (c : ascii) : bool :=
  is_digit c || occurs c ".e+-NaInfity".

Lemma all_digits_text s :
  all_digits s = true -> all_chars number_text_char s = true.
Proof.
  induction s as [|c s IH]; [reflexivity|]. simpl.
  intros E. apply andb_true_iff in E as [Hc Hs].
  unfold number_text_char at 1. now rewrite Hc, IH.
Qed.

Lemma digits_text n : 0 <= n -> all_chars number_text_char (digits n) = true.
Proof.
  intros Hn. apply all_digits_text.
  now destruct (digits_spec n Hn) as [(Hall & _) _].
Qed.

Lemma zeros_text n : all_chars number_text_char (zeros n) = true.
Proof. apply all_digits_text, all_digits_zeros. Qed.

Lemma take_text n s :
  all_chars number_text_char s = true ->
  all_chars number_text_char (take n s) = true
  /\ all_chars number_text_char (drop n s) = true.
Proof.
  intros Hs. apply all_chars_split. now rewrite take_drop_s.
Qed.

Lemma format_text s q : 0 < s -> all_chars number_text_char (format s q) = true.
Proof.
  intros Hs. pose proof (digits_text s ltac:(lia)) as HD.
  pose proof (digits_text (Z.abs (Z.of_nat (String.length (digits s)) + q - 1))
                (Z.abs_nonneg _)) as HE.
  unfold format.
  set (D := digits s) in *. set (k := Z.of_nat (String.length D)) in *.
  destruct (take_text (Z.to_nat (k + q)) D HD) as [Ht Hd].
  destruct (take_text 1 D HD) as [Ht1 Hd1].
  destruct ((k <=? k + q) && (k + q <=? 21));
    [now rewrite all_chars_app, HD, zeros_text|].
  destruct ((0 <? k + q) && (k + q <=? 21));
    [now rewrite !all_chars_app, Ht, Hd|].
  destruct ((-6 <? k + q) && (k + q <=? 0));
    [now rewrite !all_chars_app, zeros_text, HD|].
  rewrite !all_chars_app, HE.
  destruct (k =? 1), (0 <=? k + q - 1);
    rewrite ?all_chars_app, ?HD, ?Ht1, ?Hd1; reflexivity.
Qed.

(** The text of a number, whatever the number, is made of these
    characters, and it is not empty. *)
Lemma toString_text x :
  all_chars number_text_char (toString x) = true
  /\ exists c r, toString x = String c r.
Proof.
  destruct x as [|[]|negative m e]; try (split; [reflexivity|now eexists _, _]).
  unfold toString. destruct (Z.leb_spec m 0) as [Hm|Hm];
    [split; [reflexivity|now eexists _, _]|].
  destruct (shortest negative m e) as [[s q]|] eqn:Es;
    [|split; [reflexivity|now eexists _, _]].
  pose proof (shortest_positive negative m e s q Hm Es) as Hs.
  destruct (format_start s q Hs) as (c & r & Ef & _).
  split.
  - rewrite all_chars_app, (format_text s q Hs). now destruct negative.
  - rewrite Ef. destruct negative; now eexists _, _.
Qed.

End NumberText.

(** ** JSON: strings and numbers read back *)

Section JsonScalars.
Import JSON.

(** The characters a number literal starts with: a digit or the minus
    sign. *)
Definition is_number_char (c : ascii) : bool :=
  let n := code c in ((48 <=? n) && (n <=? 57) || (n =? 45))%N.

(** The characters that continue a number literal with a fraction or an
    exponent. *)
Definition is_fraction_char (c : ascii) : bool :=
  let n := code c in ((n =? 46) || (n =? 101) || (n =? 69) || (n =? 43))%N.

Lemma parse_chars_quote_char c s :
  forall out rest,
    parse_chars s = Some (out, rest) ->
    parse_chars (quote_char c +:+ s) = Some (String c out, rest).
Proof.
  intros out rest E.
  destruct c as [[] [] [] [] [] [] [] []];
    vm_compute quote_char; rewrite ?app_cons, ?app_empty_l;
    simpl; rewrite E; reflexivity.
Qed.

(** A quoted string is read back as the string. *)
Lemma parse_chars_quote s rest :
  parse_chars (quote_body s +:+ String JS.DQUOTE rest) = Some (s, rest).
Proof.
  induction s as [|c s IH]; [reflexivity|].
  simpl quote_body. rewrite app_assoc_s.
  now apply parse_chars_quote_char.
Qed.

Lemma digit_number_char c : Number.is_digit c = true -> is_number_char c = true.
Proof. unfold Number.is_digit, is_number_char, code. now intros ->. Qed.

(** The text of a finite double other than negative zero starts with a
    digit or a minus sign. *)
Lemma number_first_char x :
  Number.reads_back x = true ->
  exists c r, Number.toString x = String c r /\ is_number_char c = true.
Proof.
  intros Hx. destruct (reads_back_cases x Hx) as [->|Hpos].
  - exists "0"%char, EmptyString. now split.
  - destruct x as [|sg|negative m e]; try contradiction. simpl in Hpos.
    destruct (shortest_total negative m e Hpos) as ([s q] & Es & Hs & _).
    simpl in Hs. unfold Number.toString.
    destruct Hpos as ([Hm _] & _). destruct (Z.leb_spec m 0); [lia|].
    rewrite Es. destruct (format_start s q Hs) as (c & r & Ef & Hc).
    destruct negative.
    + eexists _, _. split; [reflexivity|reflexivity].
    + exists c, r. split; [exact Ef|now apply digit_number_char].
Qed.

(** What may follow a value in a text for the number before it to end
    where it should: nothing, or a character that is no part of a number. *)
Definition ends_number (rest : string) : Prop :=
  stops (fun c => is_number_char c || is_fraction_char c) rest.

Lemma ends_number_literal rest : ends_number rest -> ends_literal rest.
Proof.
  destruct rest as [|c rest]; [easy|]. simpl.
  destruct c as [[] [] [] [] [] [] [] []]; vm_compute; intros E;
    try discriminate E; repeat split.
Qed.

(** The text [JSON.stringify] writes for such a number is read back as
    the number. *)
Lemma parse_number_toString x rest :
  Number.reads_back x = true -> ends_number rest ->
  Number.parse (Number.toString x +:+ rest) = Some (x, rest).
Proof.
  intros Hx Hrest. apply parse_toString; [exact Hx|now apply ends_number_literal].
Qed.

Lemma skip_ws_indent n s : skip_ws (indent n +:+ s) = skip_ws s.
Proof. induction n as [|n IH]; [reflexivity|]. simpl indent. now rewrite app_assoc_s. Qed.

Lemma skip_ws_line n s : skip_ws (NL +:+ indent n +:+ s) = skip_ws s.
Proof. change (skip_ws (indent n +:+ s) = skip_ws s). apply skip_ws_indent. Qed.

Lemma skip_ws_idem s : skip_ws (skip_ws s) = skip_ws s.
Proof.
  induction s as [|c s IH]; [reflexivity|]. simpl.
  destruct (is_ws c) eqn:E; [exact IH|]. simpl. now rewrite E.
Qed.

Lemma length_indent n : String.length (indent n) = (2 * n)%nat.
Proof.
  induction n as [|n IH]; [reflexivity|].
  simpl indent. rewrite length_app_s, IH. simpl. lia.
Qed.

End JsonScalars.

(** ** JSON: values read back *)

Section JsonInduction.
Variable P : json -> Prop.
Hypothesis Hnull : P JNull.
Hypothesis Hbool : forall b, P (JBool b).
Hypothesis Hnumber : forall x, P (JNumber x).
Hypothesis Hstring : forall s, P (JString s).
Hypothesis Harray : forall items, Forall P items -> P (JArray items).
Hypothesis Hobject : forall props, Forall (fun kv => P (snd kv)) props -> P (JObject props).

(** Induction over values, with the elements of arrays and the values
    of objects as smaller. *)
Fixpoint json_nested_ind (v : json) : P v :=
  match v with
  | JNull => Hnull
  | JBool b => Hbool b
  | JNumber n => Hnumber n
  | JString s => Hstring s
  | JArray items =>
      Harray items
        ((fix all (l : list json) : Forall P l :=
            match l with
            | [] => @List.Forall_nil _ P
            | x :: rest => @List.Forall_cons _ P x rest (json_nested_ind x) (all rest)
            end) items)
  | JObject props =>
      Hobject props
        ((fix all (l : list (string * json)) : Forall (fun kv => P (snd kv)) l :=
            match l with
            | [] => @List.Forall_nil _ _
            | kv :: rest =>
                @List.Forall_cons _ (fun kv => P (snd kv)) kv rest
                  (json_nested_ind (snd kv)) (all rest)
            end) props)
  end.

End JsonInduction.

Section JsonRoundTrip.
Import JSON.

(** A value that [JSON.stringify] writes in full: no object has the same
    key twice, as every object of the runtime, and every number is a
    finite double other than negative zero. *)
Inductive valid_json : json -> Prop :=
| valid_null : valid_json JNull
| valid_bool b : valid_json (JBool b)
| valid_number x : Number.reads_back x = true -> valid_json (JNumber x)
| valid_string s : valid_json (JString s)
| valid_array items : Forall valid_json items -> valid_json (JArray items)
| valid_object props :
    List.NoDup (List.map fst props) ->
    Forall (fun kv => valid_json (snd kv)) props ->
    valid_json (JObject props).

(** Fuel that suffices to read a value back. *)
Fixpoint weight (v : json) : nat :=
  match v with
  | JArray items => S (fold_right (fun x acc => S (weight x + acc)) 0 items)%nat
  | JObject props => S (fold_right (fun kv acc => S (weight (snd kv) + acc)) 0 props)%nat
  | _ => 1%nat
  end.

(** A character a value can start with is no white space and closes
    nothing. *)
Definition value_start (c : ascii) : Prop :=
  is_ws c = false /\ Ascii.eqb c "]" = false /\ Ascii.eqb c "}" = false.

Lemma number_char_start c :
  is_number_char c = true ->
  value_start c
  /\ Ascii.eqb c JS.DQUOTE = false /\ Ascii.eqb c "[" = false /\ Ascii.eqb c "{" = false
  /\ Ascii.eqb "n" c = false /\ Ascii.eqb "t" c = false /\ Ascii.eqb "f" c = false.
Proof.
  destruct c as [[] [] [] [] [] [] [] []]; vm_compute; intros E;
    try discriminate E; repeat split.
Qed.

Lemma skip_ws_start c s : is_ws c = false -> skip_ws (String c s) = String c s.
Proof. intros E. simpl. now rewrite E. Qed.

Lemma number_text_start c : number_text_char c = true -> value_start c.
Proof.
  destruct c as [[] [] [] [] [] [] [] []]; vm_compute; intros E;
    try discriminate E; repeat split.
Qed.

Lemma stringify_start lvl v :
  exists c r, stringify lvl v = String c r /\ value_start c.
Proof.
  destruct v as [|[]|x|s|[|y items]|[|kv props]];
    try (eexists _, _; split; [reflexivity|repeat split]).
  simpl. destruct (Number.isFinite x);
    [|eexists _, _; split; [reflexivity|repeat split]].
  destruct (toString_text x) as [Hall (c & r & E)].
  exists c, r. split; [exact E|]. apply number_text_start.
  rewrite E in Hall. simpl in Hall. now apply andb_true_iff in Hall as [Hc _].
Qed.

Section OneStep.
Variable elements : string -> option (list json * string).
Variable members : string -> option (list (string * json) * string).

Lemma value_step_skip s :
  value_step elements members (skip_ws s) = value_step elements members s.
Proof. unfold value_step. now rewrite skip_ws_idem. Qed.

Lemma value_step_line n s :
  value_step elements members (NL +:+ indent n +:+ s) = value_step elements members s.
Proof.
  rewrite <- value_step_skip, skip_ws_line. apply value_step_skip.
Qed.

Lemma value_step_scalar lvl v rest :
  match v with
  | JArray _ | JObject _ => False
  | JNumber x => Number.reads_back x = true
  | _ => True
  end ->
  ends_number rest ->
  value_step elements members (stringify lvl v +:+ rest) = Some (v, rest).
Proof.
  intros Hscalar Hrest. destruct v as [|[]|x|s| |]; try contradiction.
  - reflexivity.
  - reflexivity.
  - reflexivity.
  - simpl stringify.
    assert (Number.isFinite x = true) as ->
      by (destruct x; [discriminate Hscalar..|reflexivity]).
    pose proof (parse_number_toString x rest Hscalar Hrest) as Hn.
    destruct (number_first_char x Hscalar) as (c & r & E & Hc).
    rewrite E in *. rewrite app_cons in *.
    destruct (number_char_start c Hc) as ((Hws & _) & Hq & Ha & Ho & H1 & H2 & H3).
    unfold value_step. simpl skip_ws. rewrite Hws, Hq, Ha, Ho.
    rewrite !strip_prefix_mismatch by assumption. rewrite Hn. reflexivity.
  - simpl stringify. unfold quote. rewrite app_cons, app_assoc_s.
    rewrite (app_cons JS.DQUOTE EmptyString rest), app_empty_l.
    unfold value_step. rewrite skip_ws_start by reflexivity.
    rewrite Ascii.eqb_refl. now rewrite parse_chars_quote.
Qed.

(** An array or object that is not empty: after the opening bracket
    comes a line break, and the parser of the parts takes over. *)
Lemma value_step_array s c r rest :
  skip_ws s = String c r -> Ascii.eqb c "]" = false ->
  value_step elements members ("[" +:+ s +:+ rest)
  = match elements (skip_ws (s +:+ rest)) with
    | Some (items, r) => Some (JArray items, r)
    | None => None
    end.
Proof.
  intros Hs Hc. unfold value_step. rewrite app_cons, app_empty_l.
  simpl skip_ws. simpl Ascii.eqb. cbv iota.
  assert (skip_ws (s +:+ rest) = String c (r +:+ rest)) as ->.
  { clear Hc. induction s as [|a s IH]; [discriminate|].
    rewrite app_cons. simpl in *. destruct (is_ws a); [now apply IH|].
    inversion Hs; subst. reflexivity. }
  now rewrite Hc.
Qed.

Lemma value_step_object s c r rest :
  skip_ws s = String c r -> Ascii.eqb c "}" = false ->
  value_step elements members ("{" +:+ s +:+ rest)
  = match members (skip_ws (s +:+ rest)) with
    | Some (ms, r) => Some (JObject (build_object ms), r)
    | None => None
    end.
Proof.
  intros Hs Hc. unfold value_step. rewrite app_cons, app_empty_l.
  simpl skip_ws. simpl Ascii.eqb. cbv iota.
  assert (skip_ws (s +:+ rest) = String c (r +:+ rest)) as ->.
  { clear Hc. induction s as [|a s IH]; [discriminate|].
    rewrite app_cons. simpl in *. destruct (is_ws a); [now apply IH|].
    inversion Hs; subst. reflexivity. }
  now rewrite Hc.
Qed.

End OneStep.

Lemma parse_value_skip fuel s : parse_value fuel (skip_ws s) = parse_value fuel s.
Proof. destruct fuel; [reflexivity|]. simpl. apply value_step_skip. Qed.

Lemma parse_elements_skip fuel s :
  parse_elements fuel (skip_ws s) = parse_elements fuel s.
Proof.
  destruct fuel; [reflexivity|]. simpl. unfold elements_step.
  now rewrite parse_value_skip.
Qed.

Lemma parse_members_skip fuel s :
  parse_members fuel (skip_ws s) = parse_members fuel s.
Proof.
  destruct fuel; [reflexivity|]. simpl. unfold members_step.
  now rewrite skip_ws_idem.
Qed.

(** Without repeated keys the object built from the members is the list
    of members. *)
Lemma set_property_fresh k v props :
  ~ In k (List.map fst props) -> set_property k v props = (props ++ [(k, v)])%list.
Proof.
  induction props as [|[k' v'] props IH]; simpl; intros Hk; [reflexivity|].
  destruct (String.eqb_spec k' k) as [->|]; [tauto|].
  rewrite IH; [reflexivity|tauto].
Qed.

Lemma build_object_nodup (members : list (string * json)) :
  List.NoDup (List.map fst members) -> build_object members = members.
Proof.
  unfold build_object.
  assert (forall acc,
            List.NoDup (List.map fst (acc ++ members)) ->
            fold_left (fun props kv => set_property (fst kv) (snd kv) props) members acc
            = (acc ++ members)%list) as Hgen.
  { induction members as [|[k v] ms IH]; intros acc Hnd; simpl.
    - now rewrite app_nil_r.
    - rewrite set_property_fresh.
      + rewrite IH; rewrite <- app_assoc; [reflexivity|exact Hnd].
      + rewrite map_app in Hnd. simpl in Hnd.
        apply NoDup_remove_2 in Hnd. intros Hin. apply Hnd, in_or_app. now left. }
  intros Hnd. apply (Hgen [] Hnd).
Qed.

End JsonRoundTrip.

Section JsonValues.
Import JSON.

#[local] Arguments JS.join : simpl never.
#[local] Arguments stringify : simpl never.

Definition weight_all (items : list json) : nat :=
  fold_right (fun x acc => S (weight x + acc))%nat O items.

Definition weight_props (props : list (string * json)) : nat :=
  fold_right (fun kv acc => S (weight (snd kv) + acc))%nat O props.

(** [v], printed at any nesting level and followed by anything a number
    cannot run into, is read back with enough fuel. *)
Definition reads_back (v : json) : Prop :=
  forall lvl fuel rest,
    (weight v <= fuel)%nat -> ends_number rest ->
    parse_value fuel (stringify lvl v +:+ rest) = Some (v, rest).

Definition separator (lvl : nat) : string := "," +:+ NL +:+ indent (S lvl).

Definition member_text (lvl : nat) (kv : string * json) : string :=
  quote (fst kv) +:+ ": " +:+ stringify (S lvl) (snd kv).

Lemma join_cons2 sep x y l :
  JS.join sep (x :: y :: l) = x +:+ sep +:+ JS.join sep (y :: l).
Proof. reflexivity. Qed.

Lemma join_single sep x : JS.join sep [x] = x.
Proof. reflexivity. Qed.

Lemma ends_number_line n s : ends_number (NL +:+ indent n +:+ s).
Proof. reflexivity. Qed.

Lemma ends_number_separator lvl s : ends_number (separator lvl +:+ s).
Proof. reflexivity. Qed.

Lemma elements_read_back lvl (items : list json) :
  Forall reads_back items -> items <> [] ->
  forall fuel rest,
    (weight_all items <= fuel)%nat ->
    parse_elements fuel
      (JS.join (separator lvl) (List.map (stringify (S lvl)) items)
       +:+ NL +:+ indent lvl +:+ "]" +:+ rest)
    = Some (items, rest).
Proof.
  induction 1 as [|v vs Hv Hvs IH]; intros Hne fuel rest Hfuel; [contradiction|].
  simpl in Hfuel. destruct fuel as [|f]; [lia|].
  simpl parse_elements. unfold elements_step.
  destruct vs as [|v' vs'].
  - simpl List.map. rewrite join_single.
    rewrite (Hv (S lvl) f _ ltac:(lia) (ends_number_line lvl _)).
    rewrite skip_ws_line, (app_cons "]" EmptyString rest), app_empty_l.
    rewrite skip_ws_start by reflexivity.
    reflexivity.
  - simpl List.map. rewrite join_cons2, !app_assoc_s.
    rewrite (Hv (S lvl) f _ ltac:(lia) (ends_number_separator lvl _)).
    unfold separator at 1. rewrite !app_assoc_s, app_cons, app_empty_l.
    rewrite skip_ws_start by reflexivity.
    change (Ascii.eqb "," ",") with true. cbv iota.
    rewrite <- parse_elements_skip, skip_ws_line, parse_elements_skip.
    specialize (IH ltac:(discriminate) f rest ltac:(simpl in *; lia)).
    simpl List.map in IH. rewrite IH. reflexivity.
Qed.

Lemma members_read_back lvl (props : list (string * json)) :
  Forall (fun kv => reads_back (snd kv)) props -> props <> [] ->
  forall fuel rest,
    (weight_props props <= fuel)%nat ->
    parse_members fuel
      (JS.join (separator lvl) (List.map (member_text lvl) props)
       +:+ NL +:+ indent lvl +:+ "}" +:+ rest)
    = Some (props, rest).
Proof.
  induction 1 as [|[k v] ps Hv Hps IH]; intros Hne fuel rest Hfuel; [contradiction|].
  simpl in Hfuel. destruct fuel as [|f]; [lia|].
  simpl parse_members. unfold members_step.
  assert (forall tail,
            member_text lvl (k, v) +:+ tail
            = String JS.DQUOTE
                (quote_body k +:+ String JS.DQUOTE (": " +:+ stringify (S lvl) v +:+ tail)))
    as Hmember.
  { intros tail. unfold member_text, quote. simpl fst. simpl snd.
    rewrite !app_cons, !app_assoc_s. reflexivity. }
  assert (forall tail,
            ends_number tail ->
            parse_value f (" " +:+ stringify (S lvl) v +:+ tail) = Some (v, tail))
    as Hvalue.
  { intros tail Htail. rewrite <- parse_value_skip.
    change (skip_ws (" " +:+ stringify (S lvl) v +:+ tail))
      with (skip_ws (stringify (S lvl) v +:+ tail)).
    rewrite parse_value_skip. apply Hv; [simpl; lia|exact Htail]. }
  destruct ps as [|kv' ps'].
  - simpl List.map. rewrite join_single, Hmember.
    rewrite skip_ws_start by reflexivity. rewrite Ascii.eqb_refl.
    rewrite parse_chars_quote.
    change (skip_ws (": " +:+ stringify (S lvl) v +:+ NL +:+ indent lvl +:+ "}" +:+ rest))
      with (String ":" (" " +:+ stringify (S lvl) v +:+ NL +:+ indent lvl +:+ "}" +:+ rest)).
    change (Ascii.eqb ":" ":") with true. cbv iota.
    rewrite (Hvalue _ (ends_number_line lvl _)).
    rewrite skip_ws_line, (app_cons "}" EmptyString rest), app_empty_l.
    rewrite skip_ws_start by reflexivity.
    reflexivity.
  - simpl List.map. rewrite join_cons2, !app_assoc_s. rewrite Hmember.
    rewrite skip_ws_start by reflexivity. rewrite Ascii.eqb_refl.
    rewrite parse_chars_quote.
    match goal with
    | |- context [skip_ws (": " +:+ ?x)] =>
        change (skip_ws (": " +:+ x)) with (String ":" (" " +:+ x))
    end.
    change (Ascii.eqb ":" ":") with true. cbv iota.
    rewrite (Hvalue _ (ends_number_separator lvl _)).
    unfold separator at 1. rewrite !app_assoc_s, app_cons, app_empty_l.
    rewrite skip_ws_start by reflexivity.
    change (Ascii.eqb "," ",") with true. cbv iota.
    rewrite <- parse_members_skip, skip_ws_line, parse_members_skip.
    specialize (IH ltac:(discriminate) f rest ltac:(simpl in *; lia)).
    simpl List.map in IH. rewrite IH. reflexivity.
Qed.

Lemma join_start sep (parts : list string) c r :
  hd EmptyString parts = String c r ->
  exists r', JS.join sep parts = String c r'.
Proof.
  destruct parts as [|x [|y l]]; simpl; intros E; [discriminate| |].
  - rewrite join_single. eauto.
  - subst x. rewrite join_cons2, app_cons. eauto.
Qed.

(** Every value without repeated keys is read back. *)
Lemma valid_reads_back (v : json) : valid_json v -> reads_back v.
Proof.
  induction v as [|b|x|s|items IH|props IH] using json_nested_ind;
    intros Hvalid lvl fuel rest Hfuel Hrest;
    try (destruct fuel as [|f]; [simpl in Hfuel; lia|]; simpl parse_value;
         apply value_step_scalar;
         [first [exact I|now inversion Hvalid]|exact Hrest]).
  - inversion Hvalid as [| | | |? Hitems|]; subst.
    assert (Forall reads_back items) as Hback.
    { rewrite List.Forall_forall in *. intros x Hx. now apply IH, Hitems. }
    destruct fuel as [|f]; [simpl in Hfuel; lia|]. simpl parse_value.
    destruct items as [|x l]; [reflexivity|].
    change (stringify lvl (JArray (x :: l)))
      with (block lvl "[" "]" (List.map (stringify (S lvl)) (x :: l))).
    unfold block. rewrite !app_assoc_s.
    destruct (stringify_start (S lvl) x) as (c & r & Ex & Hws & Hc & _).
    destruct (join_start (separator lvl) (List.map (stringify (S lvl)) (x :: l)) c r Ex)
      as [r' Ejoin].
    fold (separator lvl).
    rewrite <- (app_assoc_s (indent (S lvl))), <- (app_assoc_s NL).
    rewrite (value_step_array _ _ (NL +:+ indent (S lvl)
               +:+ JS.join (separator lvl) (List.map (stringify (S lvl)) (x :: l))) c r').
    + rewrite parse_elements_skip, !app_assoc_s.
      rewrite <- parse_elements_skip, skip_ws_line, parse_elements_skip.
      rewrite (elements_read_back lvl (x :: l) Hback ltac:(discriminate) f rest);
        [reflexivity|].
      simpl in Hfuel. unfold weight_all. simpl. lia.
    + rewrite skip_ws_line, Ejoin. now apply skip_ws_start.
    + exact Hc.
  - inversion Hvalid as [| | | | |? Hnodup Hprops]; subst.
    assert (Forall (fun kv => reads_back (snd kv)) props) as Hback.
    { rewrite List.Forall_forall in *. intros x Hx. now apply IH, Hprops. }
    destruct fuel as [|f]; [simpl in Hfuel; lia|]. simpl parse_value.
    destruct props as [|kv l]; [reflexivity|].
    change (stringify lvl (JObject (kv :: l)))
      with (block lvl "{" "}" (List.map (member_text lvl) (kv :: l))).
    unfold block. rewrite !app_assoc_s.
    destruct (join_start (separator lvl) (List.map (member_text lvl) (kv :: l))
                JS.DQUOTE (quote_body (fst kv) +:+ String JS.DQUOTE EmptyString
                           +:+ ": " +:+ stringify (S lvl) (snd kv)))
      as [r' Ejoin].
    { simpl. unfold member_text, quote. now rewrite !app_cons, !app_assoc_s. }
    fold (separator lvl).
    rewrite <- (app_assoc_s (indent (S lvl))), <- (app_assoc_s NL).
    rewrite (value_step_object _ _ (NL +:+ indent (S lvl)
               +:+ JS.join (separator lvl) (List.map (member_text lvl) (kv :: l)))
               JS.DQUOTE r').
    + rewrite parse_members_skip, !app_assoc_s.
      rewrite <- parse_members_skip, skip_ws_line, parse_members_skip.
      rewrite (members_read_back lvl (kv :: l) Hback ltac:(discriminate) f rest).
      * now rewrite build_object_nodup.
      * simpl in Hfuel. unfold weight_props. simpl. lia.
    + rewrite skip_ws_line, Ejoin. now apply skip_ws_start.
    + reflexivity.
Qed.

End JsonValues.

Section JsonFuel.
Import JSON.

#[local] Arguments JS.join : simpl never.

Lemma join_length_parts {A} (text : A -> string) (w : A -> nat) sep (l : list A) :
  (1 <= String.length sep)%nat ->
  Forall (fun x => (w x <= String.length (text x))%nat) l ->
  (fold_right (fun x acc => S (w x + acc)) O l
   <= String.length (JS.join sep (List.map text l)) + 1)%nat.
Proof.
  intros Hsep. induction 1 as [|x l Hx Hl IH]; simpl; [lia|].
  destruct l as [|y l].
  - simpl. rewrite join_single. lia.
  - simpl List.map in *. rewrite join_cons2, !length_app_s. lia.
Qed.

Lemma length_separator lvl : (1 <= String.length (separator lvl))%nat.
Proof. unfold separator. rewrite length_app_s. simpl. lia. Qed.

Lemma length_block lvl open close parts :
  String.length (block lvl open close parts)
  = (String.length open + 1 + 2 * S lvl
     + String.length (JS.join (separator lvl) parts)
     + 1 + 2 * lvl + String.length close)%nat.
Proof.
  unfold block. fold (separator lvl).
  rewrite !length_app_s, !length_indent. simpl String.length. lia.
Qed.

(** A value weighs no more than its text is long. *)
Lemma weight_le_length (v : json) :
  forall lvl, (weight v <= String.length (stringify lvl v))%nat.
Proof.
  induction v as [|b|n|s|items IH|props IH] using json_nested_ind; intros lvl.
  - simpl. lia.
  - destruct b; simpl; lia.
  - simpl. destruct (Number.isFinite n); [|simpl; lia].
    destruct (toString_text n) as [_ (c & r & E)]. rewrite E. simpl. lia.
  - simpl. lia.
  - destruct items as [|x l]; [simpl; lia|].
    change (stringify lvl (JArray (x :: l)))
      with (block lvl "[" "]" (List.map (stringify (S lvl)) (x :: l))).
    rewrite length_block.
    pose proof (join_length_parts (stringify (S lvl)) weight (separator lvl) (x :: l)
                  (length_separator lvl)) as Hj.
    assert (Forall (fun x => (weight x <= String.length (stringify (S lvl) x))%nat) (x :: l))
      as Hall by (rewrite List.Forall_forall in *; intros y Hy; now apply IH).
    specialize (Hj Hall).
    change (weight (JArray (x :: l)))
      with (S (fold_right (fun x acc => S (weight x + acc)) O (x :: l))).
    simpl String.length. simpl List.map in *. lia.
  - destruct props as [|kv l]; [simpl; lia|].
    change (stringify lvl (JObject (kv :: l)))
      with (block lvl "{" "}" (List.map (member_text lvl) (kv :: l))).
    rewrite length_block.
    pose proof (join_length_parts (member_text lvl) (fun kv => weight (snd kv))
                  (separator lvl) (kv :: l) (length_separator lvl)) as Hj.
    assert (Forall (fun kv => (weight (snd kv) <= String.length (member_text lvl kv))%nat)
              (kv :: l)) as Hall.
    { rewrite List.Forall_forall in *. intros y Hy.
      unfold member_text. rewrite !length_app_s. specialize (IH y Hy (S lvl)). lia. }
    specialize (Hj Hall).
    change (weight (JObject (kv :: l)))
      with (S (fold_right (fun kv acc => S (weight (snd kv) + acc)) O (kv :: l))).
    simpl String.length. simpl List.map in *. lia.
Qed.

(** [JSON.parse(JSON.stringify(v, null, 2))] is [v]. *)
Lemma parse_stringify (v : json) :
  valid_json v -> JSON.parse (stringify 0 v) = Some v.
Proof.
  intros Hvalid. unfold JSON.parse.
  pose proof (weight_le_length v 0) as Hw.
  rewrite <- (app_empty_r (stringify 0 v)) at 2.
  rewrite (valid_reads_back v Hvalid 0%nat _ EmptyString); [reflexivity|lia|exact I].
Qed.

End JsonFuel.

(** ** Posts read back from parsed JSON *)

Section PostsReadBack.
Import Exporters.

(** [obj[k]] *)
Fixpoint get (k : string) (props : list (string * json)) : option json :=
  match props with
  | [] => None
  | (k', v) :: rest => if String.eqb k' k then Some v else get k rest
  end.

Definition as_string (v : json) : option string :=
  match v with JString s => Some s | _ => None end.

Definition as_bool (v : json) : option bool :=
  match v with JBool b => Some b | _ => None end.

Definition as_number (v : json) : option Number.number :=
  match v with JNumber x => Some x | _ => None end.

Definition as_strings (v : json) : option (list string) :=
  match v with JArray items => mapM as_string items | _ => None end.

(** A property that has to be there. *)
Definition required {A} (dec : json -> option A) (o : option json) : option A :=
  match o with Some v => dec v | None => None end.

(** A property that may be missing. *)
Definition optional {A} (dec : json -> option A) (o : option json) : option (option A) :=
  match o with
  | Some v => match dec v with Some x => Some (Some x) | None => None end
  | None => Some None
  end.

Definition image_of_json (v : json) : option Image :=
  match v with
  | JObject props =>
      u ← required as_string (get "url" props);
      a ← optional as_string (get "altText" props);
      h ← optional as_number (get "height" props);
      w ← optional as_number (get "width" props);
      Some {| image_url := u; altText := a; height := h; width := w |}
  | _ => None
  end.

Definition wixMedia_of_json (v : json) : option WixMedia :=
  match v with
  | JObject props =>
      i ← optional image_of_json (get "image" props);
      Some {| image := i |}
  | _ => None
  end.

Definition media_of_json (v : json) : option Media :=
  match v with
  | JObject props =>
      w ← optional wixMedia_of_json (get "wixMedia" props);
      d ← required as_bool (get "displayed" props);
      Some {| wixMedia := w; displayed := d |}
  | _ => None
  end.

(** The parsed object seen as a post again. *)
Definition post_of_json (v : json) : option WixBlogPost :=
  match v with
  | JObject props =>
      f1 ← required as_string (get "id" props);
      f2 ← required as_string (get "title" props);
      f3 ← required as_string (get "excerpt" props);
      f4 ← optional as_string (get "contentText" props);
      f5 ← optional as_string (get "url" props);
      f6 ← required as_string (get "firstPublishedDate" props);
      f7 ← required as_string (get "lastPublishedDate" props);
      f8 ← optional as_string (get "status" props);
      f9 ← required as_string (get "slug" props);
      f10 ← required as_bool (get "featured" props);
      f11 ← required as_strings (get "categoryIds" props);
      f12 ← required as_strings (get "tagIds" props);
      f13 ← required as_strings (get "relatedPostIds" props);
      f14 ← optional as_bool (get "membersOnly" props);
      f15 ← required as_strings (get "hashtags" props);
      f16 ← required as_bool (get "commentingEnabled" props);
      f17 ← required as_number (get "minutesToRead" props);
      f18 ← optional as_number (get "viewCount" props);
      f19 ← optional as_number (get "likeCount" props);
      f20 ← required as_string (get "language" props);
      f21 ← optional media_of_json (get "media" props);
      f22 ← optional Some (get "seoData" props);
      f23 ← optional as_string (get "coverImageLocalPath" props);
      f24 ← optional as_strings (get "localImagePaths" props);
      Some {| id := f1; title := f2; excerpt := f3; contentText := f4; url := f5;
              firstPublishedDate := f6; lastPublishedDate := f7; status := f8;
              slug := f9; featured := f10; categoryIds := f11; tagIds := f12;
              relatedPostIds := f13; membersOnly := f14; hashtags := f15;
              commentingEnabled := f16; minutesToRead := f17; viewCount := f18;
              likeCount := f19; language := f20; media := f21; seoData := f22;
              localImagePaths := f24; coverImageLocalPath := f23 |}
  | _ => None
  end.

Definition posts_of_json (v : json) : option (list WixBlogPost) :=
  match v with JArray items => mapM post_of_json items | _ => None end.

(** The first defined value under a key. *)
Fixpoint get_raw (k : string) (props : list (string * option json)) : option json :=
  match props with
  | [] => None
  | (k', o) :: rest =>
      if String.eqb k' k
      then match o with Some v => Some v | None => get_raw k rest end
      else get_raw k rest
  end.

Lemma get_defined k props : get k (defined props) = get_raw k props.
Proof.
  induction props as [|[k' [v|]] rest IH]; simpl; [reflexivity| |].
  - now rewrite IH.
  - rewrite IH. now destruct (String.eqb k' k).
Qed.

Lemma optional_field {A} (dec : json -> option A) (enc : A -> json) (o : option A) :
  (forall x, dec (enc x) = Some x) ->
  optional dec (match enc <$> o with Some v => Some v | None => None end) = Some o.
Proof. intros Hdec. destruct o as [x|]; simpl; [now rewrite Hdec|reflexivity]. Qed.

Lemma optional_any (o : option json) :
  optional Some (match o with Some v => Some v | None => None end) = Some o.
Proof. now destruct o. Qed.

Lemma mapM_read_back {A} (dec : json -> option A) (enc : A -> json) (l : list A) :
  (forall x, dec (enc x) = Some x) -> mapM dec (List.map enc l) = Some l.
Proof.
  intros Hdec. induction l as [|x l IH]; [reflexivity|].
  simpl. rewrite Hdec. simpl in *. now rewrite IH.
Qed.

Lemma mapM_as_string l : mapM as_string (List.map JString l) = Some l.
Proof. now apply mapM_read_back. Qed.

Lemma as_strings_strings l : as_strings (strings l) = Some l.
Proof. apply mapM_as_string. Qed.

Lemma image_read_back i : image_of_json (image_object i) = Some i.
Proof.
  destruct i as [u a h w]. unfold image_of_json, image_object.
  rewrite !get_defined. simpl get_raw.
  rewrite !(optional_field as_string JString), !(optional_field as_number JNumber)
    by reflexivity.
  reflexivity.
Qed.

Lemma wixMedia_read_back w : wixMedia_of_json (wixMedia_object w) = Some w.
Proof.
  destruct w as [i]. unfold wixMedia_of_json, wixMedia_object.
  rewrite !get_defined. simpl get_raw.
  rewrite (optional_field image_of_json image_object) by apply image_read_back.
  reflexivity.
Qed.

Lemma media_read_back m : media_of_json (media_object m) = Some m.
Proof.
  destruct m as [w d]. unfold media_of_json, media_object.
  rewrite !get_defined. simpl get_raw.
  rewrite (optional_field wixMedia_of_json wixMedia_object) by apply wixMedia_read_back.
  reflexivity.
Qed.

Lemma post_read_back p : post_of_json (post_object p) = Some p.
Proof.
  destruct p. unfold post_of_json, post_object.
  rewrite !get_defined. simpl get_raw. simpl required.
  rewrite !mapM_as_string.
  rewrite !(optional_field as_string JString) by reflexivity.
  rewrite !(optional_field as_bool JBool) by reflexivity.
  rewrite !(optional_field as_number JNumber) by reflexivity.
  rewrite (optional_field media_of_json media_object) by apply media_read_back.
  rewrite (optional_field as_strings strings) by apply as_strings_strings.
  rewrite optional_any.
  reflexivity.
Qed.

Lemma posts_read_back posts :
  posts_of_json (JArray (List.map post_object posts)) = Some posts.
Proof.
  unfold posts_of_json. apply mapM_read_back, post_read_back.
Qed.

End PostsReadBack.

(** ** The JSON export read back *)

Section JsonExport.
Import Exporters.

Fixpoint distinct (l : list string) : bool :=
  match l with
  | [] => true
  | x :: rest => negb (Utils.includes x rest) && distinct rest
  end.

Lemma distinct_NoDup l : distinct l = true -> List.NoDup l.
Proof.
  induction l as [|x l IH]; simpl; intros E; constructor;
    apply andb_true_iff in E as [Hx Hl].
  - apply includes_not_In. now destruct (Utils.includes x l).
  - now apply IH.
Qed.

Lemma defined_keys props k : In k (List.map fst (defined props)) -> In k (List.map fst props).
Proof.
  induction props as [|[k' [v|]] rest IH]; simpl; [tauto| |]; intuition.
Qed.

(** An object built from distinct keys and valid values is valid. *)
Lemma valid_defined props :
  List.NoDup (List.map fst props) ->
  Forall (fun kv => match snd kv with Some v => valid_json v | None => True end) props ->
  valid_json (JObject (defined props)).
Proof.
  intros Hnd Hall. constructor.
  - induction props as [|[k [v|]] rest IH]; simpl in *.
    + constructor.
    + inversion Hnd; inversion Hall; subst. constructor; [|now apply IH].
      intros Hin. now apply defined_keys in Hin.
    + inversion Hnd; inversion Hall; subst. now apply IH.
  - induction Hall as [|[k [v|]] rest Hv Hrest IH]; simpl in *.
    + constructor.
    + inversion Hnd; subst. constructor; [exact Hv|now apply IH].
    + inversion Hnd; subst. now apply IH.
Qed.

Lemma valid_strings l : valid_json (strings l).
Proof.
  constructor. induction l as [|x l IH]; simpl; constructor; [constructor|exact IH].
Qed.

Ltac valid_object :=
  apply valid_defined;
  [apply distinct_NoDup; reflexivity
  |repeat (apply List.Forall_cons;
           [simpl; first [exact I|apply valid_strings|solve [constructor]|idtac]|]);
   try apply List.Forall_nil].

(** An optional number that [JSON.stringify] writes in full: it is
    missing, or a finite double other than negative zero. *)
Definition written_in_full (o : option Number.number) : Prop :=
  match o with Some x => Number.reads_back x = true | None => True end.

Definition image_numbers (i : Image) : Prop :=
  written_in_full (height i) /\ written_in_full (width i).

Definition media_numbers (m : Media) : Prop :=
  match wixMedia m with
  | Some w => match image w with Some i => image_numbers i | None => True end
  | None => True
  end.

Lemma valid_written (o : option Number.number) :
  written_in_full o ->
  match JNumber <$> o with Some v => valid_json v | None => True end.
Proof. destruct o; simpl; [now constructor|easy]. Qed.

Lemma valid_image i : image_numbers i -> valid_json (image_object i).
Proof.
  intros [Hh Hw]. unfold image_object. valid_object.
  - destruct (altText i); simpl; constructor.
  - now apply valid_written.
  - now apply valid_written.
Qed.

Lemma valid_wixMedia w :
  match image w with Some i => image_numbers i | None => True end ->
  valid_json (wixMedia_object w).
Proof.
  intros Hi. unfold wixMedia_object. valid_object.
  destruct (image w); simpl; [now apply valid_image|exact I].
Qed.

Lemma valid_media m : media_numbers m -> valid_json (media_object m).
Proof.
  unfold media_numbers. intros Hm. unfold media_object. valid_object.
  destruct (wixMedia m); simpl; [now apply valid_wixMedia|exact I].
Qed.

(** A post that [JSON.stringify] writes in full.  Every number of it (the
    reading time, the counts, the size of the cover image, the numbers
    inside [seoData]) is a finite double other than negative zero, and the
    untyped [seoData] is a value whose objects have no key twice. *)
Definition valid_post (p : WixBlogPost) : Prop :=
  Number.reads_back (minutesToRead p) = true
  /\ written_in_full (viewCount p)
  /\ written_in_full (likeCount p)
  /\ match media p with Some m => media_numbers m | None => True end
  /\ match seoData p with Some v => valid_json v | None => True end.

Lemma valid_post_object p : valid_post p -> valid_json (post_object p).
Proof.
  intros (Hminutes & Hviews & Hlikes & Hmedia & Hseo).
  unfold post_object. valid_object.
  - destruct (contentText p); simpl; constructor.
  - destruct (url p); simpl; constructor.
  - destruct (status p); simpl; constructor.
  - destruct (membersOnly p); simpl; constructor.
  - now constructor.
  - now apply valid_written.
  - now apply valid_written.
  - destruct (media p); simpl; [now apply valid_media|exact I].
  - exact Hseo.
  - destruct (coverImageLocalPath p); simpl; constructor.
  - destruct (localImagePaths p); simpl; [apply valid_strings|exact I].
Qed.

(** [processPost] changes the two local-path fields only. *)
Lemma processPost_keeps {A} (f : WixBlogPost -> A) m p :
  (forall v q, f (set_coverImageLocalPath v q) = f q) ->
  (forall v q, f (set_localImagePaths v q) = f q) ->
  f (processPost m p) = f p.
Proof.
  intros Hcover Hlocal. unfold processPost.
  assert (f match cover_url p with
            | Some u =>
                if JS.falsy u then p
                else match truthy_path m u with
                     | Some localPath => set_coverImageLocalPath localPath p
                     | None => p
                     end
            | None => p
            end = f p) as Hp1.
  { destruct (cover_url p) as [u|]; [|reflexivity].
    destruct (JS.falsy u); [reflexivity|].
    destruct (truthy_path m u); [apply Hcover|reflexivity]. }
  destruct (contentText p) as [text|]; [|exact Hp1].
  destruct (JS.falsy text); [exact Hp1|].
  destruct (0 <? length _)%nat; [|exact Hp1].
  now rewrite Hlocal.
Qed.

Lemma processPost_valid m p : valid_post p -> valid_post (processPost m p).
Proof.
  unfold valid_post.
  rewrite (processPost_keeps minutesToRead), (processPost_keeps viewCount),
    (processPost_keeps likeCount), (processPost_keeps media),
    (processPost_keeps seoData) by reflexivity.
  easy.
Qed.

Lemma json_text_read_back posts :
  Forall valid_post posts ->
  JSON.parse (json_text posts) = Some (JArray (List.map post_object posts)).
Proof.
  intros Hvalid. unfold json_text. apply parse_stringify. constructor.
  induction Hvalid as [|p l Hp _ IH]; simpl; constructor;
    [now apply valid_post_object|exact IH].
Qed.

Context `{Platform}.

(** What [JSON.parse] reads from the text of a number: the number itself
    when it is a finite double other than negative zero, positive zero for
    negative zero, and [null] for [NaN] and the infinities. *)
Lemma parse_stringify_number x :
  Number.is_double x = true ->
  JSON.parse (JSON.stringify 0 (JNumber x))
  = Some (if Number.reads_back x then JNumber x
          else if Number.isFinite x then JNumber (Number.zero false)
          else JNull).
Proof.
  intros Hx. destruct (Number.reads_back x) eqn:Hback.
  - apply parse_stringify. now constructor.
  - destruct x as [|sg|negative m e]; [reflexivity|reflexivity|].
    unfold Number.reads_back in Hback. rewrite Hx in Hback. simpl in Hback.
    apply negb_false_iff, andb_true_iff in Hback as [_ Hm].
    apply Z.eqb_eq in Hm. subst m. reflexivity.
Qed.

(** C7. The text the JSON exporter writes for a collection of posts is
    accepted by [JSON.parse], and the parsed array, read as posts again,
    is the collection itself, provided every number of the collection is
    a finite double other than negative zero (and the untyped [seoData] is
    a value whose objects have no key twice, as every object of the
    runtime).  The same holds for the collection after
    [processPostsWithLocalImages] has added the local-path fields.  The
    proviso is needed: what is read back for a number that is a double is
    the number only if it is finite and not negative zero; negative zero
    comes back as zero, [NaN] and the infinities as [null]. *)
Theorem C7_json_round_trip
    (posts : list WixBlogPost) (filename outputDir : string)
    (urlToLocalPath : gmap string string) :
  Forall valid_post posts ->
  (exists parsed,
      JSON.parse (exportJSON posts filename outputDir).2 = Some parsed
      /\ posts_of_json parsed = Some posts)
  /\ (let processed := processPostsWithLocalImages posts urlToLocalPath in
      exists parsed,
        JSON.parse (exportJSON processed filename outputDir).2 = Some parsed
        /\ posts_of_json parsed = Some processed)
  /\ (forall x,
        Number.is_double x = true ->
        (JSON.parse (JSON.stringify 0 (JNumber x)) = Some (JNumber x)
         <-> Number.reads_back x = true)).
Proof.
  intros Hvalid. split; [|split].
  - exists (JArray (List.map post_object posts)). simpl.
    split; [now apply json_text_read_back|apply posts_read_back].
  - cbn zeta. exists (JArray (List.map post_object
                                 (processPostsWithLocalImages posts urlToLocalPath))).
    simpl. split; [|apply posts_read_back].
    apply json_text_read_back. unfold processPostsWithLocalImages.
    rewrite List.Forall_forall in *. intros p Hp.
    apply in_map_iff in Hp as (q & <- & Hq).
    now apply processPost_valid, Hvalid.
  - intros x Hx. rewrite (parse_stringify_number x Hx).
    destruct (Number.reads_back x) eqn:Hback; [easy|].
    split; [|discriminate]. intros E.
    destruct x as [|sg|negative m e]; [discriminate E|discriminate E|].
    simpl in E. inversion E; subst. discriminate Hback.
Qed.

End JsonExport.

(** The Number value of the decimal literal [d * 10^q]. *)
Definition decimal (d q : Z) : Number.number :=
  Number.round_decimal (d <? 0) (Z.abs d) q.

(** The model of numbers on literals the behaviour of which is known:
    fractions, the switch to the exponent form at [1e21] and [1e-7], the
    rounding of integers beyond [2^53], the least and the greatest double,
    and the values that are not written as they are. *)
Lemma number_examples :
  List.map Number.toString
    [decimal 15 (-1); decimal 1 21; decimal 123456789012345680000 0;
     decimal 1 (-7); decimal 1 (-6); decimal 9007199254740993 0;
     decimal 5 (-324); decimal 17976931348623157 292; decimal 1 400;
     decimal (-125) (-1); decimal 30000000000000004 (-17);
     Number.zero true; Number.NaN; Number.Infinity true]
  = ["1.5"; "1e+21"; "123456789012345680000";
     "1e-7"; "0.000001"; "9007199254740992";
     "5e-324"; "1.7976931348623157e+308"; "Infinity";
     "-12.5"; "0.30000000000000004";
     "0"; "NaN"; "-Infinity"]
  /\ Number.parse "1.5e3," = Some (decimal 1500 0, ",")
  /\ Number.parse "-0" = Some (Number.zero true, EmptyString)
  /\ Number.parse "1E+21]" = Some (decimal 1 21, "]")
  /\ Number.parse "01" = Some (Number.zero false, "1")
  /\ Number.parse "1." = None /\ Number.parse ".5" = None
  /\ Number.parse "-" = None /\ Number.parse "1e" = None
  /\ Number.of_Z 5 = Number.Finite false (5 * 2 ^ 50) (-50).
Proof. vm_compute. repeat split. Qed.

(** Untyped data with numbers of every form, nested. *)
Definition seo_sample : json :=
  JObject
    [("title", JString "First");
     ("priority", JNumber (decimal 15 (-1)));
     ("reach", JNumber (decimal 1 21));
     ("scores", JArray [JNumber (decimal (-3) 0); JNumber (decimal 1 (-7)); JNull;
                        JBool true; JArray []]);
     ("settings", JObject [("ratio", JNumber (decimal 30000000000000004 (-17)));
                           ("none", JObject [])])].

(** Two posts.  One has a cover that was downloaded, with its size, a tag
    list, counts and untyped data; the other is a draft without any of
    them. *)
Definition round_trip_posts : list WixBlogPost :=
  [{| id := "p1"; title := great_title; excerpt := "An excerpt";
      contentText := Some "Look: ![x](https://example.com/a.png)";
      url := Some "https://example.com/first-post";
      firstPublishedDate := "2024-01-15T10:00:00Z";
      lastPublishedDate := "2024-01-16T10:00:00Z"; status := Some "PUBLISHED";
      slug := "first-post"; featured := true; categoryIds := ["c1"];
      tagIds := []; relatedPostIds := []; membersOnly := Some false;
      hashtags := ["test"; "blog"]; commentingEnabled := true;
      minutesToRead := decimal 25 (-1); viewCount := Some (decimal 1234 0);
      likeCount := Some (Number.zero false); language := "en";
      media :=
        Some {| wixMedia :=
                  Some {| image :=
                            Some {| image_url := "https://example.com/a.png";
                                    altText := Some "A";
                                    height := Some (decimal 480 0);
                                    width := Some (decimal 6405 (-1)) |} |};
                displayed := true |};
      seoData := Some seo_sample;
      localImagePaths := Some ["images/first-post/image-5289df73.png"];
      coverImageLocalPath := Some "images/first-post/cover-5289df73.png" |};
   Sample.post "p2" "second-post" "Second" (Some "DRAFT") [] None None].

Lemma C7_json_round_trip_witness :
  Forall valid_post round_trip_posts
  /\ exists parsed,
       JSON.parse (Exporters.json_text round_trip_posts) = Some parsed
       /\ posts_of_json parsed = Some round_trip_posts.
Proof.
  assert (valid_json seo_sample) as Hseo.
  { repeat first
      [ apply valid_null | apply valid_bool | apply valid_string
      | apply valid_number; vm_compute; reflexivity
      | apply valid_array
      | apply valid_object; [apply distinct_NoDup; reflexivity|]
      | apply List.Forall_nil | apply List.Forall_cons ]. }
  assert (Forall valid_post round_trip_posts) as Hvalid.
  { apply List.Forall_cons; [|apply List.Forall_cons; [|apply List.Forall_nil]].
    - split; [vm_compute; reflexivity|].
      split; [vm_compute; reflexivity|].
      split; [vm_compute; reflexivity|].
      split; [split; vm_compute; reflexivity|exact Hseo].
    - split; [vm_compute; reflexivity|]. repeat split. }
  split; [exact Hvalid|].
  exact (proj1 (@C7_json_round_trip NodeRuntime.platform round_trip_posts
                  "posts.json" "/out" ∅ Hvalid)).
Defined.

(** A post with a view count. *)
Definition counted_post (views : Number.number) : WixBlogPost :=
  {| id := "p"; title := "T"; excerpt := EmptyString; contentText := None; url := None;
     firstPublishedDate := "2024-01-15T10:00:00Z";
     lastPublishedDate := "2024-01-15T10:00:00Z"; status := None;
     slug := "p"; featured := false; categoryIds := []; tagIds := [];
     relatedPostIds := []; membersOnly := None; hashtags := [];
     commentingEnabled := true; minutesToRead := Number.of_Z 1;
     viewCount := Some views; likeCount := None; language := "en";
     media := None; seoData := None;
     localImagePaths := None; coverImageLocalPath := None |}.

(** The claim as the specification words it, for every collection.  A
    view count that is not a number is written as [null], and the parsed
    object is no post with that count; a view count of negative zero, which
    the JSON of a response can carry, is written as [0] and read back as
    positive zero. *)
Lemma C7_counterexample :
  (exists props,
      JSON.parse (@Exporters.exportJSON NodeRuntime.platform
                    [counted_post Number.NaN] "posts.json" "/out").2
      = Some (JArray [JObject props])
      /\ get "viewCount" props = Some JNull
      /\ posts_of_json (JArray [JObject props]) <> Some [counted_post Number.NaN])
  /\ Number.parse "-0" = Some (Number.zero true, EmptyString)
  /\ (exists parsed,
        JSON.parse (@Exporters.exportJSON NodeRuntime.platform
                      [counted_post (Number.zero true)] "posts.json" "/out").2
        = Some parsed
        /\ posts_of_json parsed = Some [counted_post (Number.zero false)]
        /\ posts_of_json parsed <> Some [counted_post (Number.zero true)]).
Proof.
  split; [|split].
  - eexists. split; [vm_compute; reflexivity|].
    split; [reflexivity|]. vm_compute. discriminate.
  - reflexivity.
  - eexists. split; [vm_compute; reflexivity|].
    split; [vm_compute; reflexivity|]. vm_compute. discriminate.
Qed.

(** ** CSV: the export read back *)

(** *** A reader of CSV

    Records end at a line feed and fields at a comma.  A field that
    starts with a double quote runs to the next double quote that is not
    followed by another one; inside it a pair of double quotes stands for
    one, and commas and line feeds are part of the field.  After the
    closing quote only a comma, a line feed or the end of the text may
    follow, and a field that does not start with a double quote holds
    none. *)

(** Where the reader is: in a field without quotes or at the start of a
    field, inside a quoted field, or behind a double quote inside a quoted
    field. *)
Inductive reader_state := Plain | Quoted | QuoteSeen.

Definition cons_record (record : list string) (o : option (list (list string)))
    : option (list (list string)) :=
  match o with Some records => Some (record :: records) | None => None end.

(** The records of [s], read in state [st] after the characters [field]
    of the current field and the fields [record], last first, of the
    current record; [None] for a text that is not CSV. *)
Fixpoint read_from (st : reader_state) (field : string) (record : list string)
    (s : string) : option (list (list string)) :=
  match s with
  | EmptyString =>
      match st with
      | Plain =>
          match field, record with
          | EmptyString, [] => Some []
          | _, _ => Some [rev (field :: record)]
          end
      | Quoted => None
      | QuoteSeen => Some [rev (field :: record)]
      end
  | String c rest =>
      match st with
      | Plain =>
          if Ascii.eqb c JS.DQUOTE then
            match field with
            | EmptyString => read_from Quoted EmptyString record rest
            | _ => None
            end
          else if Ascii.eqb c "," then read_from Plain EmptyString (field :: record) rest
          else if Ascii.eqb c JS.LF then
            cons_record (rev (field :: record)) (read_from Plain EmptyString [] rest)
          else read_from Plain (field +:+ String c EmptyString) record rest
      | Quoted =>
          if Ascii.eqb c JS.DQUOTE then read_from QuoteSeen field record rest
          else read_from Quoted (field +:+ String c EmptyString) record rest
      | QuoteSeen =>
          if Ascii.eqb c JS.DQUOTE
          then read_from Quoted (field +:+ String JS.DQUOTE EmptyString) record rest
          else if Ascii.eqb c "," then read_from Plain EmptyString (field :: record) rest
          else if Ascii.eqb c JS.LF then
            cons_record (rev (field :: record)) (read_from Plain EmptyString [] rest)
          else None
      end
  end.

Definition read_csv (text : string) : option (list (list string)) :=
  read_from Plain EmptyString [] text.

(** The way to write a value as a field that this reader reads back:
    every double quote doubled, and the whole between double quotes. *)
Definition encode (v : string) : string := Exporters.quoted (escape_quotes v).

(** A character of a field written without quotes. *)
Definition plain_char (c : ascii) : bool :=
  negb (Ascii.eqb c JS.DQUOTE) && negb (Ascii.eqb c ",") && negb (Ascii.eqb c JS.LF).

Section Reader.

Lemma read_quoted_text v :
  forall field record tail,
    read_from Quoted field record (escape_quotes v +:+ String JS.DQUOTE tail)
    = read_from QuoteSeen (field +:+ v) record tail.
Proof.
  unfold escape_quotes.
  induction v as [|c v IH]; intros field record tail.
  - rewrite app_empty_r. reflexivity.
  - simpl JS.replace_char. destruct (Ascii.eqb_spec c JS.DQUOTE) as [->|Hc].
    + rewrite app_assoc_s.
      change (JS.DQUOTE2 +:+ JS.replace_char JS.DQUOTE JS.DQUOTE2 v +:+ String JS.DQUOTE tail)
        with (String JS.DQUOTE
                (String JS.DQUOTE
                   (JS.replace_char JS.DQUOTE JS.DQUOTE2 v +:+ String JS.DQUOTE tail))).
      cbn [read_from]. change (Ascii.eqb JS.DQUOTE JS.DQUOTE) with true. cbv iota.
      rewrite IH, app_assoc_s. reflexivity.
    + rewrite app_cons. cbn [read_from].
      destruct (Ascii.eqb_spec c JS.DQUOTE); [contradiction|].
      rewrite IH, app_assoc_s. reflexivity.
Qed.

(** A field written by [encode] is read as its value, whatever follows
    the closing quote. *)
Lemma read_encoded v record tail :
  read_from Plain EmptyString record (encode v +:+ tail)
  = read_from QuoteSeen v record tail.
Proof.
  unfold encode, Exporters.quoted.
  rewrite !app_cons, app_assoc_s, app_cons, app_empty_l.
  cbn [read_from]. change (Ascii.eqb JS.DQUOTE JS.DQUOTE) with true. cbv iota.
  now rewrite read_quoted_text, app_empty_l.
Qed.

(** A row of encoded values, ended by a line feed, is read as the
    values. *)
Lemma read_row (values : list string) :
  values <> [] ->
  forall record tail,
    read_from Plain EmptyString record
      (JS.join "," (List.map encode values) +:+ Exporters.NL +:+ tail)
    = cons_record (rev record ++ values) (read_from Plain EmptyString [] tail).
Proof.
  destruct values as [|v vs]; [contradiction|]. intros _.
  revert v. induction vs as [|w vs IH]; intros v record tail.
  - simpl List.map. rewrite join_single, read_encoded. reflexivity.
  - simpl List.map. rewrite join_cons2, !app_assoc_s, read_encoded.
    change (read_from QuoteSeen v record
              ("," +:+ JS.join "," (encode w :: List.map encode vs)
               +:+ Exporters.NL +:+ tail))
      with (read_from Plain EmptyString (v :: record)
              (JS.join "," (List.map encode (w :: vs)) +:+ Exporters.NL +:+ tail)).
    rewrite IH. simpl rev. now rewrite <- app_assoc.
Qed.

Lemma read_plain_text name :
  all_chars plain_char name = true ->
  forall field record tail,
    read_from Plain field record (name +:+ tail)
    = read_from Plain (field +:+ name) record tail.
Proof.
  induction name as [|c name IH]; intros Hname field record tail.
  - now rewrite app_empty_r.
  - simpl in Hname. apply andb_true_iff in Hname as [Hc Hname].
    unfold plain_char in Hc.
    apply andb_true_iff in Hc as [Hc Hlf]. apply andb_true_iff in Hc as [Hq Hcomma].
    apply negb_true_iff in Hq, Hcomma, Hlf.
    rewrite app_cons. cbn [read_from]. rewrite Hq, Hcomma, Hlf.
    rewrite (IH Hname), app_assoc_s. reflexivity.
Qed.

(** A row of names written as they are, ended by a line feed, is read
    as the names. *)
Lemma read_plain_row (names : list string) :
  names <> [] ->
  Forall (fun name => all_chars plain_char name = true) names ->
  forall record tail,
    read_from Plain EmptyString record (JS.join "," names +:+ Exporters.NL +:+ tail)
    = cons_record (rev record ++ names) (read_from Plain EmptyString [] tail).
Proof.
  destruct names as [|v vs]; [contradiction|]. intros _ Hall.
  revert v Hall. induction vs as [|w vs IH]; intros v Hall record tail;
    apply List.Forall_cons_iff in Hall as [Hv Hall].
  - rewrite join_single, (read_plain_text v Hv). reflexivity.
  - rewrite join_cons2, !app_assoc_s, (read_plain_text v Hv).
    change (read_from Plain (EmptyString +:+ v) record
              ("," +:+ JS.join "," (w :: vs) +:+ Exporters.NL +:+ tail))
      with (read_from Plain EmptyString (v :: record)
              (JS.join "," (w :: vs) +:+ Exporters.NL +:+ tail)).
    rewrite (IH w Hall). simpl rev. now rewrite <- app_assoc.
Qed.

Lemma all_chars_absent f c s :
  all_chars f s = true -> f c = false -> occurs c s = false.
Proof.
  intros Hall Hc. induction s as [|a s IH]; [reflexivity|].
  simpl in *. apply andb_true_iff in Hall as [Ha Hall]. rewrite (IH Hall).
  destruct (Ascii.eqb_spec a c) as [->|]; [congruence|reflexivity].
Qed.

Lemma replace_char_absent c a rep s :
  occurs c rep = false -> occurs c s = false ->
  occurs c (JS.replace_char a rep s) = false.
Proof.
  intros Hrep. induction s as [|b s IH]; simpl; [reflexivity|]. intros E.
  apply orb_false_iff in E as [Eb E].
  destruct (Ascii.eqb b a).
  - now rewrite occurs_app, Hrep, IH.
  - simpl. now rewrite Eb, IH.
Qed.

Lemma join_absent c sep l :
  occurs c sep = false ->
  Forall (fun s => occurs c s = false) l ->
  occurs c (JS.join sep l) = false.
Proof.
  intros Hsep. induction 1 as [|x l Hx Hl IH]; [reflexivity|].
  destruct l as [|y l]; [exact Hx|].
  rewrite join_cons2. now rewrite !occurs_app, Hx, Hsep, IH.
Qed.

Lemma uint_digits d :
  all_chars is_number_char (NilEmpty.string_of_uint d) = true.
Proof. induction d; simpl; auto. Qed.

(** The decimal text of an integer holds digits and the minus sign
    only. *)
Lemma integer_absent c n :
  is_number_char c = false -> occurs c (JS.Number_toString n) = false.
Proof.
  apply all_chars_absent. unfold JS.Number_toString.
  destruct (Z.to_int n) as [d|d]; simpl; apply uint_digits.
Qed.

Lemma number_absent c x :
  number_text_char c = false -> occurs c (Number.toString x) = false.
Proof. apply all_chars_absent. now destruct (toString_text x). Qed.

Lemma escape_quotes_id s : occurs JS.DQUOTE s = false -> escape_quotes s = s.
Proof.
  unfold escape_quotes. induction s as [|c s IH]; [reflexivity|]. simpl.
  intros E. apply orb_false_iff in E as [-> E]. now rewrite IH.
Qed.

Lemma replace_char_app c rep s t :
  JS.replace_char c rep (s +:+ t) = JS.replace_char c rep s +:+ JS.replace_char c rep t.
Proof.
  induction s as [|a s IH]; [reflexivity|]. rewrite app_cons. simpl.
  destruct (Ascii.eqb a c); rewrite IH; [now rewrite app_assoc_s|reflexivity].
Qed.

(** Doubling the quotes and replacing the line feeds can be done in
    either order. *)
Lemma replace_LF_escape s :
  JS.replace_char JS.LF "\n" (escape_quotes s)
  = escape_quotes (JS.replace_char JS.LF "\n" s).
Proof.
  unfold escape_quotes. induction s as [|c s IH]; [reflexivity|]. simpl.
  destruct (Ascii.eqb_spec c JS.DQUOTE) as [->|Hq].
  - change (Ascii.eqb JS.DQUOTE JS.LF) with false. cbv iota.
    rewrite replace_char_app. simpl. now rewrite IH.
  - destruct (Ascii.eqb_spec c JS.LF) as [->|Hl].
    + rewrite replace_char_app. simpl. now rewrite IH.
    + simpl. destruct (Ascii.eqb_spec c JS.LF); [contradiction|].
      destruct (Ascii.eqb_spec c JS.DQUOTE); [contradiction|]. now rewrite IH.
Qed.

End Reader.

Section CsvReading.
Variable options : ExportOptions.
Import Exporters.

(** The values of the columns for one post. *)
Definition row_values (post : WixBlogPost) : list string :=
  [ id post; slug post; title post; JS.or_else (status post) "PUBLISHED";
    firstPublishedDate post; lastPublishedDate post;
    (if featured post then "true" else "false");
    JS.or_else (url post) EmptyString;
    piped (hashtags post); piped (categoryIds post);
    Number.toString (minutesToRead post);
    JS.or_else (cover_url post) EmptyString;
    JS.or_else (coverImageLocalPath post) EmptyString;
    length_or_0 (contentText post);
    JS.Number_toString (Z.of_nat (String.length (excerpt post))) ]
  ++ (if includeContent options
      then [ JS.replace_char JS.LF "\n" (JS.or_else (contentText post) EmptyString) ]
      else []).

(** The texts of a post that the exporter writes as they are: all but
    the title and the content. *)
Definition raw_fields (post : WixBlogPost) : list string :=
  [ id post; slug post; JS.or_else (status post) "PUBLISHED";
    firstPublishedDate post; lastPublishedDate post;
    JS.or_else (url post) EmptyString; JS.or_else (cover_url post) EmptyString;
    JS.or_else (coverImageLocalPath post) EmptyString ]
  ++ hashtags post ++ categoryIds post.

(** None of them holds the character [c]. *)
Definition free_of (c : ascii) (post : WixBlogPost) : Prop :=
  Forall (fun s => occurs c s = false) (raw_fields post).

Lemma cons_eq {A} (x y : A) (l l' : list A) : x = y -> l = l' -> x :: l = y :: l'.
Proof. now intros -> ->. Qed.

(** Without a double quote in the fields written as they are, the row is
    the encoding of the values. *)
Lemma csv_row_encoded (post : WixBlogPost) :
  free_of JS.DQUOTE post ->
  csv_row options post = List.map encode (row_values post).
Proof.
  unfold free_of, raw_fields. intros Hfree.
  apply List.Forall_app in Hfree as [Hf Hlists].
  apply List.Forall_app in Hlists as [Htags Hcats].
  repeat match goal with
         | H : Forall _ (_ :: _) |- _ => apply List.Forall_cons_iff in H as [? H]
         end.
  assert (forall s, occurs JS.DQUOTE s = false -> quoted s = encode s) as Hq
    by (intros s Hs; unfold encode; now rewrite escape_quotes_id).
  unfold csv_row, row_values. rewrite List.map_app. f_equal.
  - simpl List.map.
    repeat (apply cons_eq;
            [first [ reflexivity
                   | apply Hq;
                     first [ assumption
                           | apply join_absent; [reflexivity|assumption]
                           | apply number_absent; reflexivity
                           | apply integer_absent; reflexivity
                           | idtac ] ]|]); [| |reflexivity].
    + now destruct (featured post).
    + unfold length_or_0.
      destruct (contentText post); [apply integer_absent|]; reflexivity.
  - destruct (includeContent options); [|reflexivity]. simpl.
    unfold encode. now rewrite <- replace_LF_escape.
Qed.

Lemma row_values_not_nil post : row_values post <> [].
Proof. unfold row_values. discriminate. Qed.

Lemma csv_headers_plain :
  csv_headers options <> []
  /\ Forall (fun name => all_chars plain_char name = true) (csv_headers options).
Proof.
  unfold csv_headers. split; [discriminate|].
  destruct (includeContent options); repeat constructor.
Qed.

Lemma csv_rows_read (posts : list WixBlogPost) :
  Forall (free_of JS.DQUOTE) posts ->
  read_from Plain EmptyString [] (csv_rows options posts)
  = Some (List.map row_values posts).
Proof.
  induction 1 as [|post rest Hpost _ IH]; [reflexivity|].
  change (csv_rows options (post :: rest))
    with (JS.join "," (csv_row options post) +:+ NL +:+ csv_rows options rest).
  rewrite (csv_row_encoded post Hpost).
  rewrite (read_row _ (row_values_not_nil post)), IH. reflexivity.
Qed.

(** Read as CSV, the text of the export is the header and the values of
    each post. *)
Lemma csv_text_read (posts : list WixBlogPost) :
  Forall (free_of JS.DQUOTE) posts ->
  read_csv (csv_text options posts)
  = Some (csv_headers options :: List.map row_values posts).
Proof.
  intros Hfree. unfold read_csv. rewrite csv_text_rows.
  destruct csv_headers_plain as [Hne Hplain].
  rewrite (read_plain_row _ Hne Hplain), (csv_rows_read posts Hfree). reflexivity.
Qed.

Context `{Platform}.

(** C8. The file the CSV exporter writes is the header line, which holds
    no line feed, and after it the row of each post in the order of the
    posts, each followed by a line feed.  Every field of a row is wrapped
    in double quotes.  The third field is the title with every double quote
    doubled, so that a reader which takes a pair of quotes for one quote
    gets the title back.  With content included the row has a sixteenth
    field, the content with quotes doubled and every line feed replaced by
    a backslash and the letter n, and no line feed is left in that field.
    Only the title and the content have their quotes doubled: when no other
    field of any post holds a double quote, a reader of CSV gets from the
    file the header and, for each post, the values of its columns. *)
Theorem C8_csv_quoting (posts : list WixBlogPost) (filename outputDir : string) :
  let text := (exportCSV options posts filename outputDir).2 in
  let header := JS.join "," (csv_headers options) in
  let line := fun post => JS.join "," (csv_row options post) in
  text = header +:+ NL +:+ csv_rows options posts
  /\ occurs JS.LF header = false
  /\ (forall (i : nat) (post : WixBlogPost),
        posts !! i = Some post ->
        text = (header +:+ NL +:+ csv_rows options (take i posts))
               +:+ line post +:+ NL +:+ csv_rows options (drop (S i) posts)
        /\ Forall (fun field => exists x, field = quoted x) (csv_row options post)
        /\ (exists escaped,
              csv_row options post !! 2%nat = Some (quoted escaped)
              /\ quotes_doubled (title post) escaped
              /\ undouble escaped = title post)
        /\ (includeContent options = true ->
              exists field,
                csv_row options post !! 15%nat = Some (quoted field)
                /\ field = JS.replace_char JS.LF "\n"
                             (escape_quotes (JS.or_else (contentText post) EmptyString))
                /\ occurs JS.LF (quoted field) = false))
  /\ (Forall (free_of JS.DQUOTE) posts ->
      read_csv text = Some (csv_headers options :: List.map row_values posts)).
Proof.
  cbn zeta. simpl snd. split; [apply csv_text_rows|].
  split; [apply header_no_LF|]. split.
  - intros i post Hi. split; [|split; [|split]].
    + rewrite csv_text_rows. rewrite <- (take_drop_middle posts i post Hi) at 1.
      rewrite csv_rows_app.
      change (csv_rows options (post :: drop (S i) posts))
        with (JS.join "," (csv_row options post) +:+ NL
              +:+ csv_rows options (drop (S i) posts)).
      now rewrite !app_assoc_s.
    + apply csv_row_quoted.
    + exists (escape_quotes (title post)). split; [reflexivity|].
      pose proof (escape_quotes_doubled (title post)) as Hd.
      split; [exact Hd|]. apply undouble_doubled, Hd.
    + intros Hinc. eexists. unfold csv_row. rewrite Hinc. simpl.
      split; [reflexivity|]. split; [reflexivity|].
      apply quoted_no_LF, replace_LF_no_LF.
  - apply csv_text_read.
Qed.

End CsvReading.

(** Two posts, content included.  The first has the title of the
    specification's example and a content of two lines with a quote. *)
Definition csv_posts : list WixBlogPost :=
  [Sample.post "p1" "great" great_title None ["a"; "b"]
     (Some ("line one" +:+ String JS.LF "say " +:+ String JS.DQUOTE "hi")) None;
   Sample.post "p2" "second" "Second" (Some "DRAFT") [] None
     (Some "https://example.com/a.png")].

Lemma C8_csv_quoting_witness :
  let options := Sample.options false false true 3 in
  let text := Exporters.csv_text options csv_posts in
  Forall (free_of JS.DQUOTE) csv_posts
  /\ read_csv text
     = Some [Exporters.csv_headers options;
             ["p1"; "great"; great_title; "PUBLISHED"; "2023-01-15T10:00:00Z";
              "2023-01-15T10:00:00Z"; "false"; EmptyString; "a|b"; EmptyString; "5";
              EmptyString; EmptyString; "16"; "0";
              "line one\nsay " +:+ String JS.DQUOTE "hi"];
             ["p2"; "second"; "Second"; "DRAFT"; "2023-01-15T10:00:00Z";
              "2023-01-15T10:00:00Z"; "false"; EmptyString; EmptyString; EmptyString;
              "5"; "https://example.com/a.png"; EmptyString; "0"; "0"; EmptyString]].
Proof.
  cbn zeta.
  assert (Forall (free_of JS.DQUOTE) csv_posts) as Hfree
    by (repeat (apply List.Forall_cons; [repeat constructor|]); apply List.Forall_nil).
  destruct (@C8_csv_quoting (Sample.options false false true 3) NodeRuntime.platform
              csv_posts "posts.csv" "/out") as (_ & _ & _ & Hread).
  split; [exact Hfree|].
  simpl snd in Hread. rewrite (Hread Hfree). vm_compute. reflexivity.
Defined.

(** * Further properties of the code *)

(** ** File names made from slugs *)

Section SafeNames.
Import Utils.

Definition first_is_dash (s : string) : bool :=
  match s with
  | EmptyString => false
  | String c _ => is_dash c
  end.

Fixpoint last_is_dash (s : string) : bool :=
  match s with
  | EmptyString => false
  | String c EmptyString => is_dash c
  | String _ rest => last_is_dash rest
  end.

(** Two dashes in a row somewhere in [s]. *)
Fixpoint dash_run (s : string) : bool :=
  match s with
  | EmptyString => false
  | String c rest => is_dash c && first_is_dash rest || dash_run rest
  end.

(** A name as [sanitizeFilename] leaves it: lower-case letters, digits,
    dash, underscore and dot only, no dash at either end and no two
    dashes in a row. *)
Definition clean_name (s : string) : bool :=
  all_chars is_safe_char s
  && negb (first_is_dash s) && negb (last_is_dash s) && negb (dash_run s).

Lemma safe_char_lower c : is_safe_char c = true -> lower_char c = c.
Proof.
  destruct c as [[|] [|] [|] [|] [|] [|] [|] [|]]; vm_compute;
    first [reflexivity | discriminate].
Qed.

Lemma safe_char_not_space c : is_safe_char c = true -> is_space c = false.
Proof.
  destruct c as [[|] [|] [|] [|] [|] [|] [|] [|]]; vm_compute;
    first [reflexivity | discriminate].
Qed.

Lemma keep_safe_all s : all_chars is_safe_char (keep_safe s) = true.
Proof.
  induction s as [|c s IH]; simpl; [reflexivity|].
  destruct (is_safe_char c) eqn:Ec; simpl; [rewrite Ec|]; exact IH.
Qed.

Lemma collapse_dashes_all s :
  forall b, all_chars is_safe_char s = true ->
            all_chars is_safe_char (collapse_dashes b s) = true.
Proof.
  induction s as [|c s IH]; intros b Hs; simpl in *; [reflexivity|].
  apply andb_true_iff in Hs as [Hc Hs].
  destruct (is_dash c), b; simpl; rewrite ?Hc; simpl; auto.
Qed.

Lemma collapse_dashes_no_run s :
  forall b,
    dash_run (collapse_dashes b s) = false
    /\ (b = true -> first_is_dash (collapse_dashes b s) = false).
Proof.
  induction s as [|c s IH]; intros b; simpl; [auto|].
  destruct (is_dash c) eqn:Ec.
  - destruct (IH true) as [Hrun Hfirst]. destruct b; simpl.
    + auto.
    + rewrite Hfirst, Hrun by reflexivity. split; [reflexivity|discriminate].
  - destruct (IH false) as [Hrun _]. simpl. rewrite Ec, Hrun. auto.
Qed.

Lemma dash_run_tail c s : dash_run (String c s) = false -> dash_run s = false.
Proof. simpl. intros E. apply orb_false_iff in E. tauto. Qed.

Lemma strip_leading_dashes_spec s :
  all_chars is_safe_char s = true -> dash_run s = false ->
  all_chars is_safe_char (strip_leading_dashes s) = true
  /\ dash_run (strip_leading_dashes s) = false
  /\ first_is_dash (strip_leading_dashes s) = false.
Proof.
  induction s as [|c s IH]; intros Hs Hr; [auto|].
  simpl strip_leading_dashes. destruct (is_dash c) eqn:Ec.
  - simpl in Hs. apply andb_true_iff in Hs as [_ Hs].
    apply IH; [exact Hs|exact (dash_run_tail _ _ Hr)].
  - repeat split; [exact Hs|exact Hr|exact Ec].
Qed.

Lemma strip_trailing_dashes_first s :
  first_is_dash (strip_trailing_dashes s) = true -> first_is_dash s = true.
Proof.
  destruct s as [|c s]; simpl; [auto|].
  destruct (is_dash c && JS.falsy (strip_trailing_dashes s)); simpl; [discriminate|auto].
Qed.

Lemma strip_trailing_dashes_spec s :
  all_chars is_safe_char s = true -> dash_run s = false ->
  all_chars is_safe_char (strip_trailing_dashes s) = true
  /\ dash_run (strip_trailing_dashes s) = false
  /\ last_is_dash (strip_trailing_dashes s) = false.
Proof.
  induction s as [|c s IH]; intros Hs Hr; [auto|].
  simpl in Hs. apply andb_true_iff in Hs as [Hc Hs].
  pose proof Hr as Hr'. simpl in Hr'. apply orb_false_iff in Hr' as [Hcs Hrs].
  destruct (IH Hs Hrs) as (Ha & Hd & Hl).
  simpl strip_trailing_dashes.
  destruct (is_dash c && JS.falsy (strip_trailing_dashes s)) eqn:E; [auto|].
  split; [simpl; now rewrite Hc|]. split.
  - simpl. rewrite Hd, orb_false_r.
    destruct (is_dash c) eqn:Ec; [|reflexivity]. simpl in *.
    destruct (first_is_dash (strip_trailing_dashes s)) eqn:Ef; [|reflexivity].
    apply strip_trailing_dashes_first in Ef. congruence.
  - destruct (strip_trailing_dashes s) as [|d r] eqn:Es.
    + simpl in *. now rewrite andb_true_r in E.
    + exact Hl.
Qed.

(** X1 *)
(** What the last stage of [sanitizeFilename] returns. *)
Lemma sanitizeFilename_stages (input : string) :
  all_chars is_safe_char (sanitizeFilename input) = true
  /\ first_is_dash (sanitizeFilename input) = false
  /\ last_is_dash (sanitizeFilename input) = false
  /\ dash_run (sanitizeFilename input) = false.
Proof.
  unfold sanitizeFilename, trim_dashes.
  set (s := keep_safe (dash_whitespace false (toLowerCase input))).
  pose proof (collapse_dashes_all s false (keep_safe_all _)) as Ha.
  destruct (collapse_dashes_no_run s false) as [Hr _].
  destruct (strip_leading_dashes_spec _ Ha Hr) as (Ha1 & Hr1 & Hf1).
  destruct (strip_trailing_dashes_spec _ Ha1 Hr1) as (Ha2 & Hr2 & Hl2).
  repeat split; try assumption.
  destruct (first_is_dash (strip_trailing_dashes _)) eqn:Ef; [|reflexivity].
  apply strip_trailing_dashes_first in Ef. congruence.
Qed.

Lemma toLowerCase_safe s : all_chars is_safe_char s = true -> toLowerCase s = s.
Proof.
  induction s as [|c s IH]; simpl; [reflexivity|]. intros Hs.
  apply andb_true_iff in Hs as [Hc Hs]. now rewrite safe_char_lower, IH.
Qed.

Lemma dash_whitespace_safe s :
  forall b, all_chars is_safe_char s = true -> dash_whitespace b s = s.
Proof.
  induction s as [|c s IH]; intros b Hs; simpl in *; [reflexivity|].
  apply andb_true_iff in Hs as [Hc Hs].
  now rewrite (safe_char_not_space c Hc), IH.
Qed.

Lemma keep_safe_safe s : all_chars is_safe_char s = true -> keep_safe s = s.
Proof.
  induction s as [|c s IH]; simpl; [reflexivity|]. intros Hs.
  apply andb_true_iff in Hs as [Hc Hs]. now rewrite Hc, IH.
Qed.

Lemma collapse_dashes_fixed s :
  forall b, dash_run s = false -> (b = true -> first_is_dash s = false) ->
            collapse_dashes b s = s.
Proof.
  induction s as [|c s IH]; intros b Hr Hb; simpl in *; [reflexivity|].
  apply orb_false_iff in Hr as [Hcs Hr].
  destruct (is_dash c) eqn:Ec; simpl in *.
  - destruct b; [now specialize (Hb eq_refl)|].
    unfold is_dash in Ec. apply Ascii.eqb_eq in Ec. subst c.
    now rewrite IH.
  - now rewrite IH.
Qed.

Lemma strip_leading_dashes_fixed s :
  first_is_dash s = false -> strip_leading_dashes s = s.
Proof. destruct s as [|c s]; simpl; [reflexivity|]. now intros ->. Qed.

Lemma strip_trailing_dashes_fixed s :
  last_is_dash s = false -> strip_trailing_dashes s = s.
Proof.
  induction s as [|c s IH]; [reflexivity|]. intros Hl.
  simpl strip_trailing_dashes. destruct s as [|d s].
  - simpl in *. now rewrite Hl.
  - rewrite IH by exact Hl. simpl. now rewrite andb_false_r.
Qed.

Lemma clean_name_fixed s : clean_name s = true -> sanitizeFilename s = s.
Proof.
  unfold clean_name. intros Hc.
  apply andb_true_iff in Hc as [Hc Hr]. apply andb_true_iff in Hc as [Hc Hl].
  apply andb_true_iff in Hc as [Ha Hf].
  apply negb_true_iff in Hr, Hl, Hf.
  unfold sanitizeFilename, trim_dashes.
  rewrite (toLowerCase_safe s Ha), (dash_whitespace_safe s false Ha), (keep_safe_safe s Ha).
  rewrite (collapse_dashes_fixed s false Hr) by discriminate.
  now rewrite (strip_leading_dashes_fixed s Hf), (strip_trailing_dashes_fixed s Hl).
Qed.

Lemma sanitizeFilename_stages_clean (input : string) :
  clean_name (sanitizeFilename input) = true.
Proof.
  destruct (sanitizeFilename_stages input) as (Ha & Hf & Hl & Hr).
  unfold clean_name. now rewrite Ha, Hf, Hl, Hr.
Qed.

(** X1. Whatever the input, [sanitizeFilename] returns a name made of
    lower-case ASCII letters, digits, dash, underscore and dot only,
    which neither starts nor ends with a dash and has no two dashes in a
    row; the names it returns unchanged are exactly the names of that
    form, so sanitizing twice is the same as sanitizing once. *)
Theorem sanitizeFilename_clean (input : string) :
  clean_name (sanitizeFilename input) = true
  /\ (sanitizeFilename input = input <-> clean_name input = true)
  /\ sanitizeFilename (sanitizeFilename input) = sanitizeFilename input.
Proof.
  assert (forall s, clean_name (sanitizeFilename s) = true) as Hclean.
  { intros s. destruct (sanitizeFilename_stages s) as (Ha & Hf & Hl & Hr).
    unfold clean_name. now rewrite Ha, Hf, Hl, Hr. }
  split; [apply Hclean|]. split; [split|].
  - intros E. rewrite <- E. apply Hclean.
  - apply clean_name_fixed.
  - apply clean_name_fixed, Hclean.
Qed.

(** X2. The customer part of a bundle name is never empty: it is the
    sanitized customer name, or [unknown] when nothing of the name
    survives, and in both cases a clean name. *)
Theorem sanitizeCustomerSlug_never_empty (customer : string) :
  sanitizeCustomerSlug customer <> EmptyString
  /\ clean_name (sanitizeCustomerSlug customer) = true
  /\ (sanitizeFilename customer = EmptyString ->
        sanitizeCustomerSlug customer = "unknown")
  /\ (sanitizeFilename customer <> EmptyString ->
        sanitizeCustomerSlug customer = sanitizeFilename customer).
Proof.
  unfold sanitizeCustomerSlug.
  destruct (sanitizeFilename_stages customer) as (Ha & Hf & Hl & Hr).
  destruct (sanitizeFilename customer) as [|c s] eqn:E; simpl JS.falsy; cbv iota.
  - repeat split; [discriminate|intros X; now contradiction X].
  - split; [discriminate|]. split; [|split; [discriminate|reflexivity]].
    unfold clean_name. now rewrite Ha, Hf, Hl, Hr.
Qed.

End SafeNames.

(** ** Extensions of image files *)

Section Extensions.
Context `{Platform}.
Import Utils.

(** X3. The extension given to an image file is always one of the seven
    image extensions of the list, in lower case; a URL that does not
    parse, or whose path has another extension or none, gets [.jpg]. *)
Theorem getFileExtensionFromUrl_valid (url : string) :
  In (getFileExtensionFromUrl url) validExts
  /\ (URL_parse url = None -> getFileExtensionFromUrl url = ".jpg")
  /\ (forall urlObj,
        URL_parse url = Some urlObj ->
        ~ In (toLowerCase (path_extname (pathname urlObj))) validExts ->
        getFileExtensionFromUrl url = ".jpg")
  /\ (forall urlObj,
        URL_parse url = Some urlObj ->
        In (toLowerCase (path_extname (pathname urlObj))) validExts ->
        getFileExtensionFromUrl url = toLowerCase (path_extname (pathname urlObj))).
Proof.
  unfold getFileExtensionFromUrl.
  destruct (URL_parse url) as [urlObj|].
  - destruct (includes _ validExts) eqn:E.
    + apply includes_In in E. split; [exact E|].
      split; [discriminate|]. split; intros u Hu; inversion Hu; subst; tauto.
    + apply includes_not_In in E. split; [simpl; tauto|].
      split; [discriminate|]. split; intros u Hu; inversion Hu; subst; tauto.
  - split; [simpl; tauto|]. split; [reflexivity|]. split; discriminate.
Qed.

End Extensions.

(** ** Extracting image references *)

Section Extraction.
Import Utils.

(** X4. The URLs extracted from a text are pairwise different, each
    starts with [http://] or [https://] and goes on with at least one
    character, none of them white space or a closing parenthesis.  A URL
    the pattern captures therefore never starts with [data:], and the
    test for that prefix excludes nothing. *)
Theorem extractInlineImageUrls_urls (markdown : string) :
  List.NoDup (extractInlineImageUrls markdown)
  /\ (forall url, In url (extractInlineImageUrls markdown) -> is_image_url url)
  /\ (forall s url n,
        match_extract_ref s = Some (url, n) -> JS.startsWith "data:" url = false).
Proof.
  unfold extractInlineImageUrls.
  destruct (unique_spec (exec_all 0 markdown) []) as [Hnd Hin].
  split; [exact Hnd|]. split.
  - intros url Hu. apply Hin in Hu as [Hu _]. exact (exec_all_urls _ _ _ Hu).
  - intros s url n E. apply image_url_not_data. exact (match_extract_ref_Some _ _ _ E).
Qed.

(** X5. An image reference whose alternative text has no closing bracket
    and no line break, and which follows text without an exclamation
    mark, is found: its URL is the first one extracted, and the search
    goes on behind the reference. *)
Theorem extractInlineImageUrls_finds (pre alt url rest : string) :
  all_chars not_bang pre = true ->
  all_chars not_bracket alt = true ->
  all_chars not_line_end alt = true ->
  is_image_url url ->
  exec_all 0 (pre +:+ ref_text alt url +:+ rest) = url :: exec_all 0 rest
  /\ extractInlineImageUrls (pre +:+ ref_text alt url +:+ rest)
     = url :: unique [url] (exec_all 0 rest).
Proof.
  intros Hp Hb Hl Hu.
  assert (exec_all 0 (pre +:+ ref_text alt url +:+ rest) = url :: exec_all 0 rest) as E.
  { rewrite (exec_all_no_bang pre _ Hp).
    unfold ref_text. rewrite !app_assoc_s.
    rewrite (app_cons "!" "[" _), (app_cons "[" EmptyString _), app_empty_l.
    set (body := alt +:+ target_text url +:+ rest).
    assert (match_extract_ref (String "!" (String "[" body))
            = Some (url, (2 + String.length alt + String.length (target_text url))%nat))
      as Em by apply (match_lazy_alt_alt alt url rest Hb Hl Hu 2).
    rewrite (exec_all_match _ _ _ _ Em (image_url_not_data url Hu)). f_equal.
    replace (2 + String.length alt + String.length (target_text url) - 1)%nat
      with (String.length ("[" +:+ alt +:+ target_text url))
      by (rewrite !length_app_s; simpl; lia).
    rewrite <- (exec_all_skip ("[" +:+ alt +:+ target_text url) rest).
    unfold body. now rewrite !app_assoc_s. }
  split; [exact E|].
  unfold extractInlineImageUrls. rewrite E. reflexivity.
Qed.

End Extraction.

Lemma extractInlineImageUrls_finds_witness :
  Utils.extractInlineImageUrls
    ("Look: " +:+ ref_text "a cat" "https://example.com/cat.png" +:+ " and more")
  = ["https://example.com/cat.png"].
Proof.
  refine (eq_trans (proj2 (extractInlineImageUrls_finds
            "Look: " "a cat" "https://example.com/cat.png" " and more"
            eq_refl eq_refl eq_refl _)) eq_refl).
  exists "https://", "example.com/cat.png".
  repeat split; [now right|discriminate].
Defined.

(** ** What one download returns and leaves on disk *)

Section Downloads.
Context `{Platform}.
Variable options : ExportOptions.
Variable net : ImageDownloader.Network.

Import ImageDownloader.

(** The post directory of a task. *)
Definition post_dir (imagesDir : string) (t : ImageTask) : string :=
  Utils.createSafePath [imagesDir; task_postSlug t].

(** X6. A download ends in one of two ways.  Either it fails: the
    result carries the post and the URL of the task, success = false, an
    error text and no local path, and no file has changed.  Or it
    succeeds: some attempt within the configured number got an ok
    response with a body that is not empty, the result carries success =
    true, no error and the local path [images/<slug>/<file>], and the one
    change on disk is the image file, which holds exactly the bytes of
    that response. *)
Theorem downloadSingleImage_outcome ix t imagesDir w :
  let '(r, w') := downloadSingleImage options net ix t imagesDir w in
  postId r = task_postId t /\ originalUrl r = task_url t
  /\ ((success r = false /\ localPath r = None
       /\ (exists message, error r = Some message)
       /\ files w' = files w)
      \/ (success r = true /\ error r = None
          /\ exists buffer a,
               (1 <= a <= retry options)%nat
               /\ delivered (net ix a) = Some buffer
               /\ localPath r = Some (relative_path t buffer)
               /\ files w' = <[ disk_path imagesDir t buffer := buffer ]> (files w))).
Proof.
  unfold downloadSingleImage.
  destruct (retry_loop_outcome options net ix t imagesDir (retry options) 1 EmptyString w)
    as [(message & w' & E & Hf)|(buffer & w' & a & E & Ha & Hd & Hf)]; rewrite E.
  - split; [reflexivity|]. split; [reflexivity|]. left.
    repeat split; [|exact Hf]. now exists message.
  - split; [reflexivity|]. split; [reflexivity|]. right.
    split; [reflexivity|]. split; [reflexivity|].
    exists buffer, a. repeat split; try assumption; lia.
Qed.

Lemma existsSync_emit p e w : existsSync p (emit e w) = existsSync p w.
Proof. reflexivity. Qed.

(** The world after the post directory has been made if it was missing. *)
Definition ensure_dir (dir : string) (w : World) : World :=
  if existsSync dir w then w else mkdirSync dir w.

Lemma try_attempt_delivers ix t imagesDir attempt w buffer :
  delivers (net ix attempt) buffer ->
  try_attempt net ix t imagesDir attempt w
  = (inr (relative_path t buffer),
     writeFileSync (disk_path imagesDir t buffer) buffer
       (ensure_dir (post_dir imagesDir t) (emit (EvFetch ix (task_url t) attempt) w))).
Proof.
  intros ((status & statusText & Hfetch) & Hne & Hdisk).
  unfold try_attempt. rewrite Hfetch. simpl negb. cbv iota.
  destruct buffer as [|b0 bs]; [contradiction|]. simpl Nat.eqb. cbv iota.
  unfold save_image, ensure_dir, post_dir. rewrite Hdisk.
  destruct (existsSync _ _); reflexivity.
Qed.

(** The effects of the failing attempts [a], ..., [a + j - 1], none of
    them the last one allowed: a fetch and the wait after it, each. *)
Definition waits (ix : nat) (t : ImageTask) (a j : nat) : list Event :=
  flat_map (fun k => [EvFetch ix (task_url t) k; EvSleep (2 ^ Z.of_nat k * 1000)])
    (seq a j).

Lemma retry_loop_fail_prefix ix t imagesDir (j : nat) :
  forall (a : nat) lastError w (remaining : nat),
    (forall k, (a <= k < a + j)%nat -> is_Some (fetch_error (net ix k))) ->
    (a + j <= retry options)%nat ->
    exists message,
      retry_loop options net ix t imagesDir (j + remaining) a lastError w
      = retry_loop options net ix t imagesDir remaining (a + j) message
          (with_trace w (waits ix t a j)).
Proof.
  induction j as [|j IH]; intros a lastError w remaining Hfail Hle.
  - exists lastError. unfold waits. simpl. now rewrite Nat.add_0_r, with_trace_nil.
  - destruct (Hfail a ltac:(lia)) as [message E].
    change (S j + remaining)%nat with (S (j + remaining)). simpl retry_loop.
    rewrite (try_attempt_fetch_error net ix t imagesDir a w message E).
    destruct (Nat.eqb_spec a (retry options)) as [Ea|_]; [lia|].
    destruct (IH (S a) message
                (emit (EvSleep (2 ^ Z.of_nat a * 1000))
                   (with_trace w [EvFetch ix (task_url t) a]))
                remaining ltac:(intros k Hk; apply Hfail; lia) ltac:(lia))
      as [message' E'].
    exists message'. rewrite E'. replace (S a + j)%nat with (a + S j)%nat by lia.
    f_equal. rewrite emit_with_trace, !with_trace_app. reflexivity.
Qed.

(** X7. A download whose attempts 1 to k-1 fail and whose attempt k, one
    of the configured ones, delivers the bytes stops there: it has made
    exactly the fetches 1 to k, has waited 2^a seconds after each failed
    attempt a, makes the post directory if it is missing, writes the
    file, and reports success with the file's relative path. *)
Theorem downloadSingleImage_retry_then_success ix t imagesDir w (k : nat) buffer :
  (1 <= k <= retry options)%nat ->
  (forall a, (1 <= a < k)%nat -> is_Some (fetch_error (net ix a))) ->
  delivers (net ix k) buffer ->
  let '(r, w') := downloadSingleImage options net ix t imagesDir w in
  r = succeeded t buffer
  /\ files w' = <[ disk_path imagesDir t buffer := buffer ]> (files w)
  /\ trace w'
     = (trace w ++ waits ix t 1 (k - 1)
        ++ [EvFetch ix (task_url t) k]
        ++ (if existsSync (post_dir imagesDir t) w then []
            else [EvMkdir (post_dir imagesDir t)])
        ++ [EvWrite (disk_path imagesDir t buffer)])%list.
Proof.
  intros Hk Hfail Hd. unfold downloadSingleImage.
  destruct (retry_loop_fail_prefix ix t imagesDir (k - 1) 1 EmptyString w
              (S (retry options - k))
              ltac:(intros a Ha; apply Hfail; lia) ltac:(lia)) as [message E].
  replace (k - 1 + S (retry options - k))%nat with (retry options) in E by lia.
  rewrite E. replace (1 + (k - 1))%nat with k by lia.
  simpl retry_loop. rewrite (try_attempt_delivers ix t imagesDir k _ buffer Hd).
  split; [reflexivity|]. unfold ensure_dir. rewrite existsSync_emit.
  change (existsSync (post_dir imagesDir t) (with_trace w (waits ix t 1 (k - 1))))
    with (existsSync (post_dir imagesDir t) w).
  destruct (existsSync (post_dir imagesDir t) w); simpl;
    (split; [reflexivity|]); rewrite <- ?app_assoc; reflexivity.
Qed.

(** ** A run that is allowed no attempt *)

Lemma run_tasks_no_retry (tasks : list ImageTask) :
  retry options = 0%nat ->
  forall ix imagesDir w,
    run_tasks options net ix tasks imagesDir w
    = (List.map (fun t => failure t EmptyString) tasks, w).
Proof.
  intros HR. induction tasks as [|t rest IH]; intros ix imagesDir w; simpl; [reflexivity|].
  unfold downloadSingleImage at 1. rewrite HR. simpl. now rewrite IH.
Qed.

Lemma record_failures (tasks : list ImageTask) (m : gmap string string) :
  fold_left record_result (List.map (fun t => failure t EmptyString) tasks) m = m.
Proof. induction tasks as [|t rest IH]; simpl; [reflexivity|exact IH]. Qed.

(** X8. With the retry count set to 0 the loop body never runs: no
    image is fetched, every task is entered in the ledger as failed with
    an empty error text, the mapping stays empty, and the only change on
    disk is the images directory.  The failure list then shows [Unknown
    error] for each of them. *)
Theorem downloadAllImages_no_attempts
    (posts : list WixBlogPost) (outputDir : string) (ledger : Ledger) (w : World) :
  downloadImages options = true ->
  dryRun options = false ->
  retry options = 0%nat ->
  let tasks := collect_tasks posts in
  downloadAllImages options net posts outputDir ledger w
  = (∅, (ledger ++ List.map (fun t => failure t EmptyString) tasks)%list,
     ensure_dir (Utils.createSafePath [outputDir; "images"]) w)
  /\ getFailedDownloads (List.map (fun t => failure t EmptyString) tasks)
     = List.map
         (fun t => {| fd_postId := task_postId t; fd_url := task_url t;
                      fd_error := "Unknown error" |})
         tasks.
Proof.
  intros Hdl Hdry HR. cbn zeta. split.
  - unfold downloadAllImages, ensure_dir. rewrite Hdl, Hdry. simpl.
    destruct (collect_tasks posts) as [|t rest] eqn:Et.
    + simpl. now rewrite app_nil_r.
    + simpl length. simpl Nat.eqb. cbv iota.
      rewrite (run_tasks_no_retry (t :: rest) HR).
      now rewrite record_failures.
  - unfold getFailedDownloads.
    induction (collect_tasks posts) as [|t rest IH]; simpl; [reflexivity|].
    now rewrite IH.
Qed.

(** ** The mapping from URLs to local paths *)

(** The result of a task is a failure or a success record of that task. *)
Definition result_of (t : ImageTask) (r : ImageDownloadResult) : Prop :=
  (exists message, r = failure t message)
  \/ (exists buffer, r = succeeded t buffer).

Lemma run_tasks_results (tasks : list ImageTask) :
  forall ix imagesDir w,
    Forall2 result_of tasks (run_tasks options net ix tasks imagesDir w).1.
Proof.
  induction tasks as [|t rest IH]; intros ix imagesDir w; simpl; [constructor|].
  pose proof (retry_loop_outcome options net ix t imagesDir (retry options) 1
                EmptyString w) as Ho.
  fold (downloadSingleImage options net ix t imagesDir w) in Ho.
  destruct (downloadSingleImage options net ix t imagesDir w) as [r w1].
  specialize (IH (S ix) imagesDir w1).
  destruct (run_tasks options net (S ix) rest imagesDir w1) as [rs w2].
  simpl in *. constructor; [|exact IH].
  destruct Ho as [(message & w' & E & _)|(buffer & w' & a & E & _)];
    inversion E; subst; [left|right]; eauto.
Qed.

Lemma record_result_lookup (results : list ImageDownloadResult) :
  forall (m : gmap string string) u p,
    fold_left record_result results m !! u = Some p ->
    m !! u = Some p
    \/ exists r, In r results /\ success r = true /\ originalUrl r = u
                 /\ localPath r = Some p /\ p <> EmptyString.
Proof.
  induction results as [|r rest IH]; intros m u p E; simpl in E; [now left|].
  apply IH in E as [E|(r' & Hin & Hr')]; [|right; exists r'; simpl; tauto].
  unfold record_result in E.
  destruct (localPath r) as [q|] eqn:Eq; [|now left].
  destruct (success r) eqn:Es; simpl in E; [|now left].
  destruct (JS.falsy q) eqn:Ef; simpl in E; [now left|].
  destruct (decide (originalUrl r = u)) as [<-|Hne].
  - rewrite lookup_insert_eq in E. inversion E; subst q. right. exists r.
    simpl. repeat split; auto. intros ->. discriminate.
  - rewrite lookup_insert_ne in E by exact Hne. now left.
Qed.

Lemma record_result_keeps (results : list ImageDownloadResult) :
  forall (m : gmap string string) u,
    is_Some (m !! u) -> is_Some (fold_left record_result results m !! u).
Proof.
  induction results as [|r rest IH]; intros m u Hu; simpl; [exact Hu|].
  apply IH. unfold record_result.
  destruct (localPath r) as [q|]; [|exact Hu].
  destruct (success r && negb (JS.falsy q)); [|exact Hu].
  destruct (decide (originalUrl r = u)) as [<-|Hne].
  - rewrite lookup_insert_eq. eauto.
  - now rewrite lookup_insert_ne.
Qed.

Lemma record_result_recorded (results : list ImageDownloadResult) :
  forall (m : gmap string string) r p,
    In r results -> success r = true -> localPath r = Some p -> p <> EmptyString ->
    is_Some (fold_left record_result results m !! originalUrl r).
Proof.
  induction results as [|r0 rest IH]; intros m r p Hin Hs Hp Hne; [destruct Hin|].
  simpl. destruct Hin as [->|Hin]; [|now apply (IH _ r p)].
  apply record_result_keeps. unfold record_result. rewrite Hp, Hs.
  destruct p as [|c p]; [contradiction|]. simpl.
  rewrite lookup_insert_eq. eauto.
Qed.

(** X9. The mapping a run returns and the ledger entries it adds agree:
    the mapping sends a URL to a path only if an added entry records a
    successful download of that URL to that path, every successfully
    downloaded URL is in the mapping, and every path in it starts with
    [images/]. *)
Theorem downloadAllImages_mapping
    (posts : list WixBlogPost) (outputDir : string) (ledger : Ledger) (w : World) :
  let '(m, ledger', w') := downloadAllImages options net posts outputDir ledger w in
  exists results,
    ledger' = (ledger ++ results)%list
    /\ (forall u p,
          m !! u = Some p ->
          (exists r, In r results /\ success r = true /\ originalUrl r = u
                     /\ localPath r = Some p)
          /\ exists rest, p = "images/" +:+ rest)
    /\ (forall r, In r results -> success r = true -> is_Some (m !! originalUrl r)).
Proof.
  unfold downloadAllImages.
  destruct (negb (downloadImages options) || dryRun options).
  { exists []. rewrite app_nil_r. split; [reflexivity|].
    split; [intros u p E; rewrite lookup_empty in E; discriminate|intros r []]. }
  cbv zeta.
  destruct (length (collect_tasks posts) =? 0)%nat.
  { exists []. rewrite app_nil_r. split; [reflexivity|].
    split; [intros u p E; rewrite lookup_empty in E; discriminate|intros r []]. }
  pose proof (run_tasks_results (collect_tasks posts) 0
                (Utils.createSafePath [outputDir; "images"])
                (if existsSync (Utils.createSafePath [outputDir; "images"]) w then w
                 else mkdirSync (Utils.createSafePath [outputDir; "images"]) w)) as Hres.
  destruct (run_tasks options net 0 (collect_tasks posts) _ _) as [results w2].
  simpl in Hres. exists results. split; [reflexivity|].
  assert (forall r, In r results -> success r = true ->
            exists t buffer, r = succeeded t buffer) as Hsucc.
  { intros r Hin Hs.
    apply list_elem_of_In, list_elem_of_lookup in Hin as [i Hi].
    destruct (Forall2_lookup_r _ _ _ _ _ Hres Hi) as (t & _ & [(m & ->)|(b & ->)]).
    - discriminate Hs.
    - eauto. }
  split.
  - intros u p E. apply record_result_lookup in E as [E|(r & Hin & Hs & Hu & Hp & Hne)].
    { rewrite lookup_empty in E. discriminate. }
    split; [exists r; auto|].
    destruct (Hsucc r Hin Hs) as (t & buffer & ->). simpl in Hp. inversion Hp.
    unfold relative_path. eexists. reflexivity.
  - intros r Hin Hs. destruct (Hsucc r Hin Hs) as (t & buffer & ->).
    apply (record_result_recorded results ∅ _ (relative_path t buffer) Hin);
      [reflexivity|reflexivity|discriminate].
Qed.

(** ** Nothing is taken away *)

(** [w'] has every file and directory of [w], and its effects continue
    those of [w]. *)
Definition grows (w w' : World) : Prop :=
  (forall p, is_Some (files w !! p) -> is_Some (files w' !! p))
  /\ dirs w ⊆ dirs w'
  /\ exists evs, trace w' = (trace w ++ evs)%list.

Lemma grows_refl w : grows w w.
Proof.
  split; [auto|]. split; [set_solver|]. exists []. now rewrite app_nil_r.
Qed.

Lemma grows_trans w1 w2 w3 : grows w1 w2 -> grows w2 w3 -> grows w1 w3.
Proof.
  intros (F1 & D1 & e1 & T1) (F2 & D2 & e2 & T2).
  split; [auto|]. split; [set_solver|].
  exists (e1 ++ e2)%list. now rewrite T2, T1, app_assoc.
Qed.

Lemma grows_emit e w : grows w (emit e w).
Proof. split; [auto|]. split; [set_solver|]. now exists [e]. Qed.

Lemma grows_mkdirSync p w : grows w (mkdirSync p w).
Proof.
  split; [auto|]. split; [simpl; set_solver|]. now exists [EvMkdir p].
Qed.

Lemma grows_writeFileSync p buffer w : grows w (writeFileSync p buffer w).
Proof.
  split; [|split; [set_solver|now exists [EvWrite p]]].
  intros q Hq. simpl. destruct (decide (p = q)) as [->|Hne].
  - rewrite lookup_insert_eq. eauto.
  - now rewrite lookup_insert_ne.
Qed.

Lemma grows_ensure_dir p w : grows w (ensure_dir p w).
Proof.
  unfold ensure_dir. destruct (existsSync p w); [apply grows_refl|apply grows_mkdirSync].
Qed.

Lemma grows_save_image t imagesDir buffer d w :
  grows w (save_image t imagesDir buffer d w).2.
Proof.
  unfold save_image.
  destruct (existsSync _ w), d; simpl;
    first [ apply grows_refl
          | apply grows_mkdirSync
          | apply grows_writeFileSync
          | eapply grows_trans; [apply grows_mkdirSync|apply grows_writeFileSync] ].
Qed.

Lemma grows_try_attempt ix t imagesDir attempt w :
  grows w (try_attempt net ix t imagesDir attempt w).2.
Proof.
  unfold try_attempt.
  pose proof (grows_emit (EvFetch ix (task_url t) attempt) w) as H0.
  destruct (fetched (net ix attempt)) as [m|ok status text body]; simpl; [exact H0|].
  destruct ok; simpl; [|exact H0].
  destruct body as [m|buffer]; [exact H0|].
  destruct (length buffer =? 0)%nat; [exact H0|].
  eapply grows_trans; [exact H0|apply grows_save_image].
Qed.

Lemma grows_retry_loop ix t imagesDir (remaining : nat) :
  forall attempt lastError w,
    grows w (retry_loop options net ix t imagesDir remaining attempt lastError w).2.
Proof.
  induction remaining as [|r IH]; intros attempt lastError w; simpl;
    [apply grows_refl|].
  pose proof (grows_try_attempt ix t imagesDir attempt w) as Htry.
  destruct (try_attempt net ix t imagesDir attempt w) as [[message|path] w1];
    simpl in *; [|exact Htry].
  destruct (attempt =? retry options)%nat.
  - eapply grows_trans; [exact Htry|apply IH].
  - eapply grows_trans; [exact Htry|].
    eapply grows_trans; [apply grows_emit|apply IH].
Qed.

Lemma grows_run_tasks (tasks : list ImageTask) :
  forall ix imagesDir w, grows w (run_tasks options net ix tasks imagesDir w).2.
Proof.
  induction tasks as [|t rest IH]; intros ix imagesDir w; simpl; [apply grows_refl|].
  pose proof (grows_retry_loop ix t imagesDir (retry options) 1 EmptyString w) as H1.
  fold (downloadSingleImage options net ix t imagesDir w) in H1.
  destruct (downloadSingleImage options net ix t imagesDir w) as [r w1].
  specialize (IH (S ix) imagesDir w1).
  destruct (run_tasks options net (S ix) rest imagesDir w1) as [rs w2].
  simpl in *. eapply grows_trans; eassumption.
Qed.

(** X10. The acquisition phase only adds: whatever the options, the
    network and the disk do, every path that existed before the run
    exists after it, the ledger keeps its entries in front of the new
    ones, and the effects performed before the run stay the beginning of
    the effects performed. *)
Theorem downloadAllImages_only_adds
    (posts : list WixBlogPost) (outputDir : string) (ledger : Ledger) (w : World) :
  let '(m, ledger', w') := downloadAllImages options net posts outputDir ledger w in
  (forall p, existsSync p w = true -> existsSync p w' = true)
  /\ (forall p, is_Some (files w !! p) -> is_Some (files w' !! p))
  /\ (exists results, ledger' = (ledger ++ results)%list)
  /\ (exists evs, trace w' = (trace w ++ evs)%list).
Proof.
  assert (forall w', grows w w' ->
            (forall p, existsSync p w = true -> existsSync p w' = true)
            /\ (forall p, is_Some (files w !! p) -> is_Some (files w' !! p))
            /\ (exists evs, trace w' = (trace w ++ evs)%list)) as Hgrows.
  { intros w' (Hf & Hd & Ht). split; [|split; assumption].
    intros p Hp. unfold existsSync in *. apply orb_true_iff in Hp. apply orb_true_iff.
    destruct Hp as [Hp|Hp]; [left|right]; apply bool_decide_eq_true;
      apply bool_decide_eq_true in Hp; [apply Hd, Hp|auto]. }
  unfold downloadAllImages.
  destruct (negb (downloadImages options) || dryRun options).
  { destruct (Hgrows w (grows_refl w)) as (A & B & C).
    repeat split; try assumption. exists []. now rewrite app_nil_r. }
  cbv zeta. fold (ensure_dir (Utils.createSafePath [outputDir; "images"]) w).
  pose proof (grows_ensure_dir (Utils.createSafePath [outputDir; "images"]) w) as H1.
  destruct (length (collect_tasks posts) =? 0)%nat.
  { destruct (Hgrows _ H1) as (A & B & C).
    repeat split; try assumption. exists []. now rewrite app_nil_r. }
  pose proof (grows_run_tasks (collect_tasks posts) 0
                (Utils.createSafePath [outputDir; "images"])
                (ensure_dir (Utils.createSafePath [outputDir; "images"]) w)) as H2.
  destruct (run_tasks options net 0 (collect_tasks posts) _ _) as [results w2].
  simpl in H2. destruct (Hgrows _ (grows_trans _ _ _ H1 H2)) as (A & B & C).
  repeat split; try assumption. now exists results.
Qed.

(** ** Time spent waiting *)

(** The milliseconds slept in a sequence of effects. *)
Fixpoint total_sleep (evs : list Event) : Z :=
  match evs with
  | [] => 0
  | EvSleep ms :: rest => ms + total_sleep rest
  | _ :: rest => total_sleep rest
  end.

Lemma total_sleep_app a b : total_sleep (a ++ b) = total_sleep a + total_sleep b.
Proof.
  induction a as [|e a IH]; simpl; [reflexivity|]. destruct e; rewrite IH; lia.
Qed.

Lemma slept_save_image t imagesDir buffer d w :
  total_sleep (trace (save_image t imagesDir buffer d w).2) = total_sleep (trace w).
Proof.
  unfold save_image.
  destruct (existsSync _ w), d; simpl; rewrite ?total_sleep_app; simpl; lia.
Qed.

Lemma slept_try_attempt ix t imagesDir attempt w :
  total_sleep (trace (try_attempt net ix t imagesDir attempt w).2) = total_sleep (trace w).
Proof.
  unfold try_attempt.
  assert (total_sleep (trace (emit (EvFetch ix (task_url t) attempt) w))
          = total_sleep (trace w)) as H0
    by (simpl; rewrite total_sleep_app; simpl; lia).
  destruct (fetched (net ix attempt)) as [m|ok status text body]; simpl fst; simpl snd;
    [exact H0|].
  destruct ok; simpl negb; cbv iota; [|exact H0].
  destruct body as [m|buffer]; [exact H0|].
  destruct (length buffer =? 0)%nat; [exact H0|].
  now rewrite slept_save_image.
Qed.

(** The longest a download can wait from attempt [a] on. *)
Definition backoff_left (a : nat) : Z :=
  Z.max 0 ((2 ^ Z.of_nat (retry options) - 2 ^ Z.of_nat a) * 1000).

Lemma backoff_left_step (a : nat) :
  (a < retry options)%nat ->
  backoff_left a = 2 ^ Z.of_nat a * 1000 + backoff_left (S a).
Proof.
  intros Ha. unfold backoff_left.
  assert (2 ^ Z.of_nat (S a) = 2 * 2 ^ Z.of_nat a) as E
    by (rewrite Nat2Z.inj_succ, Z.pow_succ_r by lia; reflexivity).
  assert (2 ^ Z.of_nat (S a) <= 2 ^ Z.of_nat (retry options)) as Hle
    by (apply Z.pow_le_mono_r; lia).
  assert (0 < 2 ^ Z.of_nat a) by (apply Z.pow_pos_nonneg; lia).
  lia.
Qed.

Lemma slept_retry_loop ix t imagesDir (remaining : nat) :
  forall (attempt : nat) lastError w,
    (attempt + remaining = S (retry options))%nat ->
    let w' := (retry_loop options net ix t imagesDir remaining attempt lastError w).2 in
    0 <= total_sleep (trace w') - total_sleep (trace w) <= backoff_left attempt.
Proof.
  induction remaining as [|r IH]; intros attempt lastError w Ha; cbn zeta.
  - simpl. unfold backoff_left. lia.
  - simpl retry_loop.
    pose proof (slept_try_attempt ix t imagesDir attempt w) as Htry.
    destruct (try_attempt net ix t imagesDir attempt w) as [[message|path] w1];
      simpl in Htry.
    + destruct (Nat.eqb_spec attempt (retry options)) as [Ea|Hne].
      * specialize (IH (S attempt) message w1 ltac:(lia)). cbn zeta in IH.
        assert (backoff_left (S attempt) = 0) as E0.
        { unfold backoff_left. subst attempt.
          assert (2 ^ Z.of_nat (retry options) <= 2 ^ Z.of_nat (S (retry options)))
            by (apply Z.pow_le_mono_r; lia).
          lia. }
        unfold backoff_left in *. lia.
      * specialize (IH (S attempt) message
                      (emit (EvSleep (2 ^ Z.of_nat attempt * 1000)) w1) ltac:(lia)).
        cbn zeta in IH. simpl trace in IH. rewrite total_sleep_app in IH. simpl in IH.
        rewrite (backoff_left_step attempt) by lia.
        assert (0 < 2 ^ Z.of_nat attempt) by (apply Z.pow_pos_nonneg; lia).
        lia.
    + simpl. unfold backoff_left. lia.
Qed.

Lemma slept_events_from ix t (remaining : nat) :
  forall a : nat, (a + remaining = S (retry options))%nat ->
    total_sleep (events_from options ix t a remaining) = backoff_left a.
Proof.
  induction remaining as [|r IH]; intros a Ha; simpl.
  - unfold backoff_left.
    assert (2 ^ Z.of_nat (retry options) <= 2 ^ Z.of_nat a)
      by (apply Z.pow_le_mono_r; lia).
    lia.
  - destruct (Nat.eqb_spec a (retry options)) as [Ea|Hne]; simpl.
    + rewrite IH by lia. unfold backoff_left. subst a.
      assert (2 ^ Z.of_nat (retry options) <= 2 ^ Z.of_nat (S (retry options)))
        by (apply Z.pow_le_mono_r; lia).
      lia.
    + rewrite IH by lia. rewrite (backoff_left_step a) by lia. reflexivity.
Qed.

(** X11. Whatever the network does, one download waits between its
    attempts for at most 2^R - 2 seconds in total, R being the configured
    number of attempts (and not at all for R = 0); it waits exactly that
    long when every fetch fails. *)
Theorem downloadSingleImage_backoff_bound ix t imagesDir w :
  let w' := (downloadSingleImage options net ix t imagesDir w).2 in
  let slept := total_sleep (trace w') - total_sleep (trace w) in
  0 <= slept <= Z.max 0 ((2 ^ Z.of_nat (retry options) - 2) * 1000)
  /\ ((forall a, (1 <= a <= retry options)%nat -> is_Some (fetch_error (net ix a))) ->
      slept = Z.max 0 ((2 ^ Z.of_nat (retry options) - 2) * 1000)).
Proof.
  cbn zeta. unfold downloadSingleImage. split.
  - apply (slept_retry_loop ix t imagesDir (retry options) 1 EmptyString w). lia.
  - intros Hfail.
    rewrite (retry_loop_all_fail options net ix t imagesDir (retry options) 1 EmptyString w)
      by (intros k Hk; apply Hfail; lia).
    simpl trace. rewrite total_sleep_app, slept_events_from by lia.
    unfold backoff_left. simpl Z.of_nat. lia.
Qed.

(** ** The download tasks of a collection of posts *)

(** [t] is a download task of [post]: for its cover, when the post has a
    cover URL that is not empty, or for an image reference of its
    content; in both cases only if the URL is a valid image URL. *)
Definition task_of_post (post : WixBlogPost) (t : ImageTask) : Prop :=
  task_postId t = id post
  /\ task_postSlug t
     = Utils.sanitizeFilename (if JS.falsy (slug post) then id post else slug post)
  /\ Utils.isValidImageUrl (task_url t) = true
  /\ match task_type t with
     | cover => cover_url post = Some (task_url t) /\ task_url t <> EmptyString
     | inline =>
         exists text,
           contentText post = Some text
           /\ In (task_url t) (Utils.extractInlineImageUrls text)
     end.

Lemma tasks_of_post_spec (post : WixBlogPost) (t : ImageTask) :
  In t (tasks_of_post post) <-> task_of_post post t.
Proof.
  unfold tasks_of_post, task_of_post. rewrite in_app_iff. split.
  - intros [Hc|Hi].
    + destruct (cover_url post) as [u|] eqn:Eu; [|destruct Hc].
      destruct (JS.falsy u) eqn:Ef; [destruct Hc|].
      destruct (Utils.isValidImageUrl u) eqn:Ev; [|destruct Hc].
      destruct Hc as [<-|[]]. simpl. repeat split; try assumption.
      intros ->. discriminate.
    + destruct (contentText post) as [text|] eqn:Et; [|destruct Hi].
      destruct (JS.falsy text) eqn:Ef; [destruct Hi|].
      apply in_map_iff in Hi as (u & <- & Hu). apply filter_In in Hu as [Hu Hv].
      simpl. repeat split; try assumption. now exists text.
  - intros (Hid & Hslug & Hv & Ht). destruct t as [pid pslug u ty]. simpl in *. subst.
    destruct ty.
    + left. destruct Ht as [Hc Hne]. rewrite Hc.
      destruct u as [|c u]; [contradiction|]. simpl JS.falsy. cbv iota.
      rewrite Hv. now left.
    + right. destruct Ht as (text & Et & Hu). rewrite Et.
      destruct text as [|c text]; [destruct Hu|]. simpl JS.falsy. cbv iota.
      apply in_map_iff. exists u. split; [reflexivity|].
      apply filter_In. split; assumption.
Qed.

(** The task of [post] for the URL [url] in the role [type]. *)
Definition task_for (post : WixBlogPost) (type : ImageType) (url : string) : ImageTask :=
  {| task_postId := id post;
     task_postSlug :=
       Utils.sanitizeFilename (if JS.falsy (slug post) then id post else slug post);
     task_url := url; task_type := type |}.

(** The cover URL of a post, when it is not empty and is a valid image
    URL. *)
Definition cover_to_download (post : WixBlogPost) : option string :=
  match cover_url post with
  | Some u => if negb (JS.falsy u) && Utils.isValidImageUrl u then Some u else None
  | None => None
  end.

(** The valid image URLs of the content of a post: each once, in the
    order of their first reference. *)
Definition inline_to_download (post : WixBlogPost) : list string :=
  match contentText post with
  | Some text => List.filter Utils.isValidImageUrl (Utils.extractInlineImageUrls text)
  | None => []
  end.

Lemma tasks_of_post_list (post : WixBlogPost) :
  tasks_of_post post
  = (match cover_to_download post with
     | Some u => [task_for post cover u]
     | None => []
     end ++ List.map (task_for post inline) (inline_to_download post))%list.
Proof.
  unfold tasks_of_post, cover_to_download, inline_to_download. f_equal.
  - destruct (cover_url post) as [u|]; [|reflexivity].
    destruct (JS.falsy u); [reflexivity|]. simpl.
    destruct (Utils.isValidImageUrl u); reflexivity.
  - destruct (contentText post) as [text|]; [|reflexivity].
    destruct text; reflexivity.
Qed.

Lemma NoDup_filter {A} (f : A -> bool) (l : list A) :
  List.NoDup l -> List.NoDup (List.filter f l).
Proof.
  induction 1 as [|x l Hx _ IH]; simpl; [constructor|].
  destruct (f x); [|exact IH]. constructor; [|exact IH].
  intros Hin. apply filter_In in Hin as [Hin _]. contradiction.
Qed.

Lemma inline_to_download_NoDup (post : WixBlogPost) :
  List.NoDup (inline_to_download post).
Proof.
  unfold inline_to_download. destruct (contentText post) as [text|]; [|constructor].
  apply NoDup_filter. unfold Utils.extractInlineImageUrls.
  exact (proj1 (unique_spec (Utils.exec_all 0 text) [])).
Qed.

Lemma tasks_of_post_NoDup (post : WixBlogPost) : List.NoDup (tasks_of_post post).
Proof.
  rewrite tasks_of_post_list.
  assert (List.NoDup (List.map (task_for post inline) (inline_to_download post))) as Hi.
  { induction (inline_to_download_NoDup post) as [|u l Hu _ IH]; simpl; constructor;
      [|exact IH].
    intros Hin. apply in_map_iff in Hin as (v & E & Hv). inversion E; subst.
    contradiction. }
  destruct (cover_to_download post) as [u|]; [|exact Hi].
  simpl. constructor; [|exact Hi].
  intros Hin. apply in_map_iff in Hin as (v & E & _). discriminate E.
Qed.

Lemma collect_tasks_app (ps1 ps2 : list WixBlogPost) :
  collect_tasks (ps1 ++ ps2) = (collect_tasks ps1 ++ collect_tasks ps2)%list.
Proof. unfold collect_tasks. now rewrite List.map_app, concat_app. Qed.

(** The number of downloads a post asks for. *)
Definition downloads_of (post : WixBlogPost) : nat :=
  (match cover_to_download post with Some _ => 1 | None => 0 end
   + length (inline_to_download post))%nat.

(** X12. The tasks of an acquisition run are, post after post in the
    order of the collection, the task for the cover of the post, when
    its cover URL is not empty and is a valid image URL, followed by one
    task for each valid image URL extracted from its content, in the
    order of first reference.  No post has a task twice: a URL referenced
    several times in the content is downloaded once in the inline role,
    and once more in the cover role only when it is the cover as well.
    The number of tasks is the sum over the posts.  Every task carries
    the identifier of its post and a clean directory name, and no task
    has a URL that the validity test rejects. *)
Theorem collect_tasks_spec (posts : list WixBlogPost) :
  collect_tasks posts
  = flat_map
      (fun post =>
         match cover_to_download post with
         | Some u => [task_for post cover u]
         | None => []
         end ++ List.map (task_for post inline) (inline_to_download post))%list
      posts
  /\ Forall (fun post =>
               List.NoDup (inline_to_download post)
               /\ List.NoDup (tasks_of_post post)
               /\ forall u,
                    In u (inline_to_download post)
                    <-> Utils.isValidImageUrl u = true
                        /\ exists text,
                             contentText post = Some text
                             /\ In u (Utils.extractInlineImageUrls text))
       posts
  /\ length (collect_tasks posts) = list_sum (List.map downloads_of posts)
  /\ (forall t, In t (collect_tasks posts)
                <-> exists post, In post posts /\ task_of_post post t)
  /\ Forall (fun t => Utils.isValidImageUrl (task_url t) = true
                      /\ clean_name (task_postSlug t) = true)
       (collect_tasks posts).
Proof.
  assert (forall t, In t (collect_tasks posts)
                    <-> exists post, In post posts /\ task_of_post post t) as Hspec.
  { intros t. unfold collect_tasks. rewrite in_concat. split.
    - intros (l & Hl & Ht). apply in_map_iff in Hl as (post & <- & Hp).
      exists post. split; [exact Hp|]. now apply tasks_of_post_spec.
    - intros (post & Hp & Ht). exists (tasks_of_post post).
      split; [now apply in_map|]. now apply tasks_of_post_spec. }
  split; [|split; [|split; [|split]]].
  - unfold collect_tasks. rewrite flat_map_concat_map. f_equal.
    apply map_ext. intros post. apply tasks_of_post_list.
  - apply List.Forall_forall. intros post _.
    split; [apply inline_to_download_NoDup|]. split; [apply tasks_of_post_NoDup|].
    intros u. unfold inline_to_download.
    destruct (contentText post) as [text|].
    + rewrite filter_In. split.
      * intros [Hu Hv]. split; [exact Hv|]. now exists text.
      * intros [Hv (text' & E & Hu)]. inversion E; subst. now split.
    + simpl. split; [tauto|]. intros [_ (text & E & _)]. discriminate E.
  - induction posts as [|post rest IH]; [reflexivity|].
    change (collect_tasks (post :: rest))
      with (tasks_of_post post ++ collect_tasks rest)%list.
    assert ((forall t, In t (collect_tasks rest)
                       <-> exists post, In post rest /\ task_of_post post t)) as Hrest.
    { intros t. unfold collect_tasks. rewrite in_concat. split.
      - intros (l & Hl & Ht). apply in_map_iff in Hl as (p & <- & Hp).
        exists p. split; [exact Hp|]. now apply tasks_of_post_spec.
      - intros (p & Hp & Ht). exists (tasks_of_post p).
        split; [now apply in_map|]. now apply tasks_of_post_spec. }
    rewrite length_app, (IH Hrest). simpl. f_equal.
    rewrite tasks_of_post_list, length_app, length_map. unfold downloads_of.
    now destruct (cover_to_download post).
  - exact Hspec.
  - apply List.Forall_forall. intros t Ht.
    apply Hspec in Ht as (post & _ & _ & Hslug & Hv & _).
    split; [exact Hv|]. rewrite Hslug. apply sanitizeFilename_stages_clean.
Qed.

(** ** Posts without images *)

(** A post that refers to no image: it has no cover, and its content,
    if it has one, has no exclamation mark. *)
Definition no_image (post : WixBlogPost) : Prop :=
  cover_url post = None
  /\ forall text, contentText post = Some text -> all_chars not_bang text = true.

Lemma extract_no_bang text :
  all_chars not_bang text = true -> Utils.extractInlineImageUrls text = [].
Proof.
  intros Hb. unfold Utils.extractInlineImageUrls.
  rewrite <- (app_empty_r text), (exec_all_no_bang text EmptyString Hb). reflexivity.
Qed.

(** X13. When no post refers to an image there is nothing to download:
    the run has no task, makes no request, returns the empty mapping and
    leaves the ledger as it is; if downloading is enabled it still makes
    sure the images directory exists. *)
Theorem downloadAllImages_no_images
    (posts : list WixBlogPost) (outputDir : string) (ledger : Ledger) (w : World) :
  Forall no_image posts ->
  collect_tasks posts = []
  /\ downloadAllImages options net posts outputDir ledger w
     = (∅, ledger,
        if negb (downloadImages options) || dryRun options then w
        else ensure_dir (Utils.createSafePath [outputDir; "images"]) w).
Proof.
  intros Hno.
  assert (collect_tasks posts = []) as Et.
  { unfold collect_tasks. induction Hno as [|post rest [Hc Ht] _ IH]; [reflexivity|].
    simpl. rewrite IH, app_nil_r. unfold tasks_of_post. rewrite Hc. simpl.
    destruct (contentText post) as [text|]; [|reflexivity].
    rewrite (extract_no_bang text (Ht text eq_refl)).
    destruct (JS.falsy text); reflexivity. }
  split; [exact Et|].
  unfold downloadAllImages, ensure_dir. rewrite Et.
  destruct (negb (downloadImages options) || dryRun options); reflexivity.
Qed.

End Downloads.

(** ** The failure list of the report *)

Section Failures.
Variable ledger : list ImageDownloadResult.

(** The entry of the failure list for a ledger entry. *)
Definition failure_entry (r : ImageDownloadResult) : FailedDownload :=
  {| fd_postId := postId r; fd_url := originalUrl r;
     fd_error := JS.or_else (error r) "Unknown error" |}.

Lemma or_else_not_empty o d : d <> EmptyString -> JS.or_else o d <> EmptyString.
Proof.
  intros Hd. unfold JS.or_else. destruct o as [[|c s]|]; simpl; auto.
Qed.

(** X14. The failure list of the summary report and the list the
    downloader's [getFailedDownloads] returns are the same list: one
    entry for every ledger entry with success = false, in ledger order,
    none for a successful one, as many as the [failed] count says, and
    never with an empty error text, since a missing or empty one is
    replaced by [Unknown error]. *)
Theorem report_failures (posts : list WixBlogPost) (customer : string) :
  let rep := ReportGenerator.generateSummaryReport posts customer ledger in
  failures rep = ImageDownloader.getFailedDownloads ledger
  /\ failures rep
     = List.map failure_entry (List.filter (fun r => negb (success r)) ledger)
  /\ Z.of_nat (length (failures rep)) = failed (images rep)
  /\ (forall f, In f (failures rep) <->
                exists r, In r ledger /\ success r = false /\ f = failure_entry r)
  /\ Forall (fun f => fd_error f <> EmptyString) (failures rep).
Proof.
  cbn zeta. simpl.
  split; [reflexivity|]. split; [reflexivity|].
  split; [now rewrite length_map|]. split.
  - intros f. rewrite in_map_iff. split.
    + intros (r & <- & Hr). apply filter_In in Hr as [Hr Hs].
      exists r. apply negb_true_iff in Hs. auto.
    + intros (r & Hr & Hs & ->). exists r. split; [reflexivity|].
      apply filter_In. split; [exact Hr|]. now rewrite Hs.
  - apply List.Forall_forall. intros f Hf. apply in_map_iff in Hf as (r & <- & _).
    apply or_else_not_empty. discriminate.
Qed.

End Failures.

(** ** Posts with local image paths *)

Section LocalPaths.
Import Exporters.

(** The properties of a post the blog API delivers. *)
Definition api_fields (p : WixBlogPost) :=
  (id p, title p, excerpt p, contentText p, url p, firstPublishedDate p,
   lastPublishedDate p, status p, slug p, featured p, categoryIds p, tagIds p,
   relatedPostIds p, membersOnly p, hashtags p, commentingEnabled p,
   minutesToRead p, viewCount p, likeCount p, language p, media p, seoData p).

Lemma truthy_path_Some m u lp :
  truthy_path m u = Some lp <-> m !! u = Some lp /\ lp <> EmptyString.
Proof.
  unfold truthy_path. destruct (m !! u) as [p|]; [|split; [discriminate|intros [X _]; discriminate]].
  destruct p as [|c p]; simpl.
  - split; [discriminate|]. intros [X Y]. inversion X; subst. contradiction.
  - split.
    + intros X. inversion X; subst. split; [reflexivity|discriminate].
    + intros [X _]. exact X.
Qed.

Lemma omap_truthy_path m (urls : list string) :
  Forall (fun lp => lp <> EmptyString /\ exists u, In u urls /\ m !! u = Some lp)
    (omap (truthy_path m) urls).
Proof.
  induction urls as [|u urls IH]; simpl; [constructor|].
  assert (Forall (fun lp => lp <> EmptyString
                            /\ exists u0, In u0 (u :: urls) /\ m !! u0 = Some lp)
            (omap (truthy_path m) urls)) as IH'.
  { eapply List.Forall_impl; [|exact IH]. intros lp (Hne & u0 & Hin & E).
    split; [exact Hne|]. exists u0. simpl. auto. }
  destruct (truthy_path m u) as [lp|] eqn:E; [|exact IH'].
  apply truthy_path_Some in E as [E Hne].
  apply List.Forall_cons; [|exact IH'].
  split; [exact Hne|]. exists u. simpl. auto.
Qed.

(** X15. Processing a post changes nothing the blog API delivered.  Of
    the two fields it may set, the cover path is set only to the path
    the mapping holds for the cover URL, the list of local paths only to
    a list of paths the mapping holds for URLs extracted from the
    content; an empty path or an empty list is never stored, and posts
    keep their number and order. *)
Theorem processPost_fields (m : gmap string string) (post : WixBlogPost)
    (posts : list WixBlogPost) :
  let p' := processPost m post in
  api_fields p' = api_fields post
  /\ (coverImageLocalPath p' = coverImageLocalPath post
      \/ exists u lp,
           cover_url post = Some u /\ m !! u = Some lp /\ lp <> EmptyString
           /\ coverImageLocalPath p' = Some lp)
  /\ (localImagePaths p' = localImagePaths post
      \/ exists text paths,
           contentText post = Some text /\ paths <> []
           /\ localImagePaths p' = Some paths
           /\ Forall (fun lp => lp <> EmptyString
                                /\ exists u, In u (extractInlineImageUrls text)
                                             /\ m !! u = Some lp) paths)
  /\ List.map api_fields (processPostsWithLocalImages posts m) = List.map api_fields posts.
Proof.
  assert (forall post,
            api_fields (processPost m post) = api_fields post
            /\ (coverImageLocalPath (processPost m post) = coverImageLocalPath post
                \/ exists u lp,
                     cover_url post = Some u /\ m !! u = Some lp /\ lp <> EmptyString
                     /\ coverImageLocalPath (processPost m post) = Some lp)
            /\ (localImagePaths (processPost m post) = localImagePaths post
                \/ exists text paths,
                     contentText post = Some text /\ paths <> []
                     /\ localImagePaths (processPost m post) = Some paths
                     /\ Forall (fun lp => lp <> EmptyString
                                          /\ exists u, In u (extractInlineImageUrls text)
                                                       /\ m !! u = Some lp) paths)) as Hone.
  { clear post. intros post. unfold processPost.
    set (p1 := match cover_url post with
               | Some u =>
                   if JS.falsy u then post
                   else match truthy_path m u with
                        | Some localPath => set_coverImageLocalPath localPath post
                        | None => post
                        end
               | None => post
               end).
    assert (api_fields p1 = api_fields post
            /\ localImagePaths p1 = localImagePaths post
            /\ (coverImageLocalPath p1 = coverImageLocalPath post
                \/ exists u lp,
                     cover_url post = Some u /\ m !! u = Some lp /\ lp <> EmptyString
                     /\ coverImageLocalPath p1 = Some lp)) as (Ha & Hl & Hc).
    { unfold p1. destruct (cover_url post) as [u|] eqn:Eu; [|auto].
      destruct (JS.falsy u); [auto|].
      destruct (truthy_path m u) as [lp|] eqn:Et; [|auto].
      apply truthy_path_Some in Et as [Et Hne].
      repeat split. right. exists u, lp. auto. }
    destruct (contentText post) as [text|] eqn:Etext; [|now auto].
    destruct (JS.falsy text); [now auto|].
    pose proof (omap_truthy_path m (extractInlineImageUrls text)) as Hpaths.
    destruct (omap (truthy_path m) (extractInlineImageUrls text)) as [|lp paths] eqn:Eo;
      [now auto|].
    simpl Nat.ltb. cbv iota. split; [exact Ha|]. split; [exact Hc|].
    right. exists text, (lp :: paths). repeat split; [discriminate|exact Hpaths]. }
  cbn zeta. destruct (Hone post) as (A & B & C).
  split; [exact A|]. split; [exact B|]. split; [exact C|].
  unfold processPostsWithLocalImages. rewrite map_map.
  apply map_ext. intros p. apply Hone.
Qed.

(** X16. A post none of whose image URLs has a path in the mapping comes
    out of the processing as it went in; in particular, with the empty
    mapping that a skipped acquisition returns, the posts exported are
    the posts fetched. *)
Theorem processPosts_without_paths (m : gmap string string) (posts : list WixBlogPost) :
  (forall post u,
      In post posts ->
      cover_url post = Some u
      \/ (exists text, contentText post = Some text /\ In u (extractInlineImageUrls text)) ->
      truthy_path m u = None) ->
  processPostsWithLocalImages posts m = posts.
Proof.
  intros Hnone. unfold processPostsWithLocalImages.
  rewrite <- (map_id posts) at 2. apply map_ext_in. intros post Hin.
  unfold processPost.
  assert (match cover_url post with
          | Some u =>
              if JS.falsy u then post
              else match truthy_path m u with
                   | Some localPath => set_coverImageLocalPath localPath post
                   | None => post
                   end
          | None => post
          end = post) as ->.
  { destruct (cover_url post) as [u|] eqn:Eu; [|reflexivity].
    rewrite (Hnone post u Hin (or_introl Eu)). now destruct (JS.falsy u). }
  destruct (contentText post) as [text|] eqn:Et; [|reflexivity].
  destruct (JS.falsy text); [reflexivity|].
  assert (omap (truthy_path m) (extractInlineImageUrls text) = []) as ->; [|reflexivity].
  assert (forall u, In u (extractInlineImageUrls text) -> truthy_path m u = None) as Hu
    by (intros u Hu; apply (Hnone post u Hin); right; eauto).
  induction (extractInlineImageUrls text) as [|u urls IH]; [reflexivity|].
  simpl. rewrite (Hu u (or_introl eq_refl)). apply IH.
  intros u' Hu'. apply Hu. now right.
Qed.

End LocalPaths.

(** ** Lines of the CSV export *)

Section CsvLines.
Variable options : ExportOptions.
Import Exporters.

Fixpoint count_char (c : ascii) (s : string) : nat :=
  match s with
  | EmptyString => 0%nat
  | String a rest => ((if Ascii.eqb a c then 1 else 0) + count_char c rest)%nat
  end.

Lemma count_char_app c s t :
  count_char c (s +:+ t) = (count_char c s + count_char c t)%nat.
Proof.
  induction s as [|a s IH]; [reflexivity|].
  rewrite app_cons. simpl. rewrite IH. lia.
Qed.

Lemma count_char_absent c s : occurs c s = false -> count_char c s = 0%nat.
Proof.
  induction s as [|a s IH]; simpl; [reflexivity|]. intros E.
  apply orb_false_iff in E as [-> E]. now rewrite IH.
Qed.

(** A text without line feed. *)
Definition one_line (s : string) : Prop := occurs JS.LF s = false.

(** A post whose exported fields, the content apart, are free of line
    feeds. *)
Definition line_free (post : WixBlogPost) : Prop :=
  one_line (title post) /\ free_of JS.LF post.

Lemma csv_row_one_line (post : WixBlogPost) :
  line_free post -> one_line (JS.join "," (csv_row options post)).
Proof.
  unfold line_free, free_of, raw_fields. intros (Htitle & Hfree).
  apply List.Forall_app in Hfree as [Hf Hlists].
  apply List.Forall_app in Hlists as [Htags Hcats].
  repeat match goal with
         | H : Forall _ (_ :: _) |- _ => apply List.Forall_cons_iff in H as [? H]
         end.
  apply join_no_LF; [reflexivity|]. unfold csv_row.
  repeat (apply List.Forall_cons;
          [apply quoted_no_LF;
           first [ assumption
                 | apply number_absent; reflexivity
                 | apply integer_absent; reflexivity
                 | apply replace_char_absent; [reflexivity|assumption]
                 | apply join_absent; [reflexivity|assumption]
                 | idtac ]|]).
  - now destruct (featured post).
  - unfold length_or_0.
    destruct (contentText post); [apply integer_absent|]; reflexivity.
  - destruct (includeContent options); [|constructor].
    apply List.Forall_cons; [|constructor].
    apply quoted_no_LF, replace_LF_no_LF.
Qed.

(** The lines of a text: the pieces between its line feeds. *)
Definition lines (text : string) : list string := Credentials.split JS.LF text.

Lemma lines_first line rest :
  one_line line -> lines (line +:+ NL +:+ rest) = line :: lines rest.
Proof.
  unfold lines, one_line. induction line as [|c line IH]; intros Hline.
  - rewrite app_empty_l. reflexivity.
  - simpl in Hline. apply orb_false_iff in Hline as [Hc Hline].
    rewrite app_cons. simpl. rewrite Hc, (IH Hline). reflexivity.
Qed.

Lemma lines_rows (posts : list WixBlogPost) :
  Forall line_free posts ->
  lines (csv_rows options posts)
  = (List.map (fun post => JS.join "," (csv_row options post)) posts
     ++ [EmptyString])%list.
Proof.
  induction 1 as [|post rest Hpost _ IH]; [reflexivity|].
  change (csv_rows options (post :: rest))
    with (JS.join "," (csv_row options post) +:+ NL +:+ csv_rows options rest).
  rewrite (lines_first _ _ (csv_row_one_line post Hpost)), IH. reflexivity.
Qed.

(** X17. What a reader of CSV gets from the export has one record for
    the header and one for each post, in the order of the posts, and every
    record has as many fields as the header has columns; this holds when
    no field other than the title and the content holds a double quote,
    the only two fields in which the exporter doubles the quotes.  When no
    exported field of a post other than the content holds a line feed, the
    lines of the file are the header line, then the row of each post in
    order, and nothing after the last line feed; so every post is written
    on one line and the file has one line feed for the header and one for
    each post: the content's own line feeds never split a row. *)
Theorem csv_one_line_per_post (posts : list WixBlogPost) :
  (Forall (free_of JS.DQUOTE) posts ->
   exists records,
     read_csv (csv_text options posts) = Some (csv_headers options :: records)
     /\ length records = length posts
     /\ Forall (fun record => length record = length (csv_headers options)) records
     /\ forall (i : nat) (post : WixBlogPost),
          posts !! i = Some post ->
          exists record,
            records !! i = Some record
            /\ record !! 0%nat = Some (id post)
            /\ record !! 1%nat = Some (slug post)
            /\ record !! 2%nat = Some (title post))
  /\ (Forall line_free posts ->
      lines (csv_text options posts)
      = (JS.join "," (csv_headers options)
         :: List.map (fun post => JS.join "," (csv_row options post)) posts
         ++ [EmptyString])%list
      /\ Forall (fun post => one_line (JS.join "," (csv_row options post))) posts
      /\ count_char JS.LF (csv_text options posts) = S (length posts)).
Proof.
  split.
  - intros Hfree. exists (List.map (row_values options) posts).
    split; [now apply csv_text_read|].
    split; [apply length_map|]. split.
    + apply List.Forall_forall. intros record Hin.
      apply in_map_iff in Hin as (post & <- & _).
      unfold row_values, csv_headers. rewrite !length_app.
      destruct (includeContent options); reflexivity.
    + intros i post Hi. exists (row_values options post).
      split; [|now split].
      rewrite list_lookup_fmap_Some. now exists post.
  - intros Hfree. split; [|split].
    + rewrite csv_text_rows.
      rewrite (lines_first _ _ (header_no_LF options)).
      now rewrite (lines_rows posts Hfree).
    + eapply List.Forall_impl; [|exact Hfree]. intros post. apply csv_row_one_line.
    + unfold csv_text. rewrite csv_fold, !count_char_app.
      rewrite (count_char_absent _ _ (header_no_LF options)).
      change (count_char JS.LF NL) with 1%nat.
      assert (count_char JS.LF (csv_rows options posts) = length posts) as ->; [|lia].
      induction Hfree as [|post rest Hp _ IH]; [reflexivity|].
      change (csv_rows options (post :: rest))
        with (JS.join "," (csv_row options post) +:+ NL +:+ csv_rows options rest).
      rewrite !count_char_app, IH.
      rewrite (count_char_absent _ _ (csv_row_one_line post Hp)).
      change (count_char JS.LF NL) with 1%nat. simpl. lia.
Qed.

End CsvLines.

(** A double quote in a field other than the title and the content is
    written as it is.  With one in the slug the row is no CSV; with a
    quote, a comma and a quote in it the row is read with one field more
    than the header has columns. *)
Lemma csv_slug_with_quote :
  let options := Sample.options false false false 3 in
  let post := fun slug => Sample.post "p1" slug "T" None [] None None in
  read_csv (Exporters.csv_text options
              [post ("a" +:+ String JS.DQUOTE "b")]) = None
  /\ exists record,
       read_csv (Exporters.csv_text options
                   [post ("a" +:+ String JS.DQUOTE "," +:+ String JS.DQUOTE "b")])
       = Some [Exporters.csv_headers options; record]
       /\ length (Exporters.csv_headers options) = 15%nat
       /\ length record = 16%nat.
Proof.
  cbn zeta. split; [vm_compute; reflexivity|].
  eexists. split; [vm_compute; reflexivity|]. split; reflexivity.
Qed.

(** ** Loading the credentials *)

Section LoadingCredentials.
Import Credentials.

Lemma split_not_nil sep s : split sep s <> [].
Proof.
  destruct s as [|c s]; simpl; [discriminate|].
  destruct (Ascii.eqb c sep); [discriminate|].
  destruct (split sep s); discriminate.
Qed.

Lemma split_app sep a b :
  split sep (a +:+ String sep b) = (split sep a ++ split sep b)%list.
Proof.
  induction a as [|c a IH].
  - rewrite app_empty_l. simpl. now rewrite Ascii.eqb_refl.
  - rewrite app_cons. simpl. rewrite IH.
    destruct (Ascii.eqb c sep); [reflexivity|].
    destruct (split sep a) as [|piece pieces] eqn:Ea; [|reflexivity].
    exfalso. exact (split_not_nil sep a Ea).
Qed.

Lemma split_absent sep s : occurs sep s = false -> split sep s = [s].
Proof.
  induction s as [|c s IH]; simpl; [reflexivity|]. intros E.
  apply orb_false_iff in E as [Ec E]. now rewrite Ec, IH.
Qed.

(** No piece holds the separator, and none holds a character the text
    does not hold. *)
Lemma split_pieces sep d s :
  Forall (fun piece => occurs sep piece = false
                       /\ (occurs d s = false -> occurs d piece = false))
    (split sep s).
Proof.
  induction s as [|c s IH]; simpl.
  - constructor; [split; reflexivity|constructor].
  - destruct (Ascii.eqb_spec c sep) as [->|Hne].
    + constructor; [split; reflexivity|].
      eapply List.Forall_impl; [|exact IH]. intros piece [H1 H2].
      split; [exact H1|]. intros E. apply orb_false_iff in E as [_ E]. auto.
    + destruct (split sep s) as [|piece pieces] eqn:Es.
      { exfalso. exact (split_not_nil sep s Es). }
      apply List.Forall_cons_iff in IH as [[H1 H2] IH].
      constructor.
      * simpl. split.
        -- rewrite H1. destruct (Ascii.eqb_spec c sep); [contradiction|reflexivity].
        -- intros E. apply orb_false_iff in E as [-> E]. simpl. auto.
      * eapply List.Forall_impl; [|exact IH]. intros q [H3 H4].
        split; [exact H3|]. intros E. apply orb_false_iff in E as [_ E]. auto.
Qed.

(** *** Trimming *)

Definition starts_with_space (s : string) : bool :=
  match s with
  | EmptyString => false
  | String c _ => Utils.is_space c
  end.

Fixpoint ends_with_space (s : string) : bool :=
  match s with
  | EmptyString => false
  | String c EmptyString => Utils.is_space c
  | String _ rest => ends_with_space rest
  end.

Lemma trim_start_fixed s : starts_with_space s = false -> trim_start s = s.
Proof. destruct s as [|c s]; simpl; [reflexivity|]. now intros ->. Qed.

Lemma trim_end_fixed s : ends_with_space s = false -> trim_end s = s.
Proof.
  induction s as [|c s IH]; [reflexivity|]. intros E.
  simpl trim_end. destruct s as [|d s].
  - simpl in *. now rewrite E.
  - rewrite IH by exact E. simpl. now rewrite andb_false_r.
Qed.

Lemma trim_start_starts s : starts_with_space (trim_start s) = false.
Proof.
  induction s as [|c s IH]; simpl; [reflexivity|].
  destruct (Utils.is_space c) eqn:Ec; [exact IH|]. simpl. exact Ec.
Qed.

Lemma trim_end_starts s :
  starts_with_space s = false -> starts_with_space (trim_end s) = false.
Proof.
  destruct s as [|c s]; simpl; [reflexivity|]. intros E. rewrite E. simpl. exact E.
Qed.

Lemma trim_end_ends s : ends_with_space (trim_end s) = false.
Proof.
  induction s as [|c s IH]; simpl; [reflexivity|].
  destruct (Utils.is_space c && JS.falsy (trim_end s)) eqn:E; [reflexivity|].
  destruct (trim_end s) as [|d r] eqn:Es.
  - simpl in *. now rewrite andb_true_r in E.
  - exact IH.
Qed.

(** A text neither empty nor starting or ending with white space is what
    [trim] returns, and what it returns unchanged. *)
Lemma trim_fixed s :
  starts_with_space s = false -> ends_with_space s = false -> trim s = s.
Proof.
  intros Hs He. unfold trim. now rewrite (trim_start_fixed s Hs), (trim_end_fixed s He).
Qed.

Lemma trim_trimmed s :
  starts_with_space (trim s) = false /\ ends_with_space (trim s) = false.
Proof.
  unfold trim. split; [apply trim_end_starts, trim_start_starts|apply trim_end_ends].
Qed.

Lemma trim_start_absent c s : occurs c s = false -> occurs c (trim_start s) = false.
Proof.
  induction s as [|a s IH]; simpl; [reflexivity|]. intros E.
  destruct (Utils.is_space a); [|exact E].
  apply orb_false_iff in E as [_ E]. auto.
Qed.

Lemma trim_end_absent c s : occurs c s = false -> occurs c (trim_end s) = false.
Proof.
  induction s as [|a s IH]; simpl; [reflexivity|]. intros E.
  apply orb_false_iff in E as [Ea E].
  destruct (Utils.is_space a && JS.falsy (trim_end s)); [reflexivity|].
  simpl. now rewrite Ea, IH.
Qed.

Lemma trim_absent c s : occurs c s = false -> occurs c (trim s) = false.
Proof. intros E. unfold trim. now apply trim_end_absent, trim_start_absent. Qed.

Lemma trim_end_not_empty c s : Utils.is_space c = false -> trim_end (String c s) <> EmptyString.
Proof. intros Hc. simpl. rewrite Hc. discriminate. Qed.

(** *** Assignments *)

(** A value as a credentials file can hold it: not empty, no white
    space at either end, no equals sign and no line feed. *)
Definition plain (v : string) : bool :=
  negb (JS.falsy v) && negb (starts_with_space v) && negb (ends_with_space v)
  && negb (occurs "=" v) && negb (occurs JS.LF v).

Lemma plain_spec v :
  plain v = true <->
  v <> EmptyString /\ starts_with_space v = false /\ ends_with_space v = false
  /\ occurs "=" v = false /\ occurs JS.LF v = false.
Proof.
  unfold plain. rewrite !andb_true_iff, !negb_true_iff.
  destruct v as [|c v]; simpl; intuition congruence.
Qed.

(** What may follow a value on its line: nothing, or an equals sign and
    any text. *)
Definition value_end (tail : string) : Prop :=
  tail = EmptyString \/ exists rest, tail = String "=" rest.

Lemma split_value v tail :
  occurs "=" v = false -> value_end tail ->
  exists more, split "=" (v +:+ tail) = v :: more.
Proof.
  intros Hv [->|(rest & ->)].
  - exists []. rewrite app_empty_r. now apply split_absent.
  - exists (split "=" rest). rewrite split_app, (split_absent _ _ Hv). reflexivity.
Qed.

Lemma startsWith_first p c s t :
  JS.startsWith (String p EmptyString) (String c s)
  = JS.startsWith (String p EmptyString) (String c t).
Proof.
  unfold JS.startsWith. cbn [String.prefix].
  destruct (ascii_dec p c); [now destruct s, t|reflexivity].
Qed.

(** The line [key=value], followed by [tail]. *)
Definition assignment (key v tail : string) : string :=
  key +:+ String "=" (v +:+ tail).

(** A line [key=value], possibly continued after a second equals sign,
    assigns the value to the key. *)
Lemma parse_line_assignment env key v tail :
  plain key = true -> JS.startsWith "#" key = false ->
  plain v = true -> value_end tail ->
  parse_line env (assignment key v tail) = <[ key := v ]> env.
Proof.
  intros Hk Hc Hv Ht. unfold assignment.
  apply plain_spec in Hk as (Hk0 & Hk1 & Hk2 & Hk3 & _).
  apply plain_spec in Hv as (Hv0 & Hv1 & Hv2 & Hv3 & _).
  unfold parse_line.
  destruct key as [|c key]; [contradiction|]. rewrite app_cons.
  assert (JS.falsy (trim (String c (key +:+ String "=" (v +:+ tail)))) = false) as ->.
  { assert (Utils.is_space c = false) as Hsp by exact Hk1.
    unfold trim. simpl trim_start. rewrite Hsp.
    pose proof (trim_end_not_empty c (key +:+ String "=" (v +:+ tail)) Hsp) as Hne.
    destruct (trim_end _); [contradiction|reflexivity]. }
  assert (JS.startsWith "#" (String c (key +:+ String "=" (v +:+ tail))) = false) as ->
    by (rewrite (startsWith_first "#" c _ key); exact Hc).
  rewrite <- app_cons, split_app, (split_absent _ _ Hk3).
  destruct (split_value v tail Hv3 Ht) as [more ->]. simpl app.
  destruct v as [|d v]; [contradiction|]. simpl JS.falsy. simpl negb. simpl andb. cbv iota.
  now rewrite (trim_fixed _ Hk1 Hk2), (trim_fixed _ Hv1 Hv2).
Qed.

(** The text of a credentials file: the three assignments, each value
    possibly continued after a further equals sign. *)
Definition env_lines (c : WixCredentials) (t1 t2 t3 : string) : string :=
  assignment "WIX_API_KEY" (apiKey c) t1
  +:+ String JS.LF
        (assignment "WIX_ACCOUNT_ID" (accountId c) t2
         +:+ String JS.LF (assignment "WIX_SITE_ID" (siteId c) t3)).

Definition env_text (c : WixCredentials) : string :=
  env_lines c EmptyString EmptyString EmptyString.

Definition plain_credentials (c : WixCredentials) : Prop :=
  plain (apiKey c) = true /\ plain (accountId c) = true /\ plain (siteId c) = true.

Lemma value_end_one_line tail : value_end tail -> occurs JS.LF tail = false ->
  forall key v, occurs JS.LF key = false -> plain v = true ->
    occurs JS.LF (assignment key v tail) = false.
Proof.
  intros _ Ht key v Hk Hv. apply plain_spec in Hv as (_ & _ & _ & _ & Hv).
  unfold assignment. rewrite occurs_app, Hk. simpl. now rewrite occurs_app, Hv, Ht.
Qed.

Lemma loadCredentials_lines (c : WixCredentials) (t1 t2 t3 : string) :
  plain_credentials c ->
  value_end t1 -> value_end t2 -> value_end t3 ->
  occurs JS.LF t1 = false -> occurs JS.LF t2 = false -> occurs JS.LF t3 = false ->
  loadCredentials (Some (env_lines c t1 t2 t3)) = inr c.
Proof.
  intros (Ha & Hb & Hc) E1 E2 E3 L1 L2 L3.
  unfold loadCredentials, parse_env, env_lines.
  rewrite !split_app.
  rewrite (split_absent JS.LF _ (value_end_one_line t1 E1 L1 "WIX_API_KEY" _ eq_refl Ha)).
  rewrite (split_absent JS.LF _ (value_end_one_line t2 E2 L2 "WIX_ACCOUNT_ID" _ eq_refl Hb)).
  rewrite (split_absent JS.LF _ (value_end_one_line t3 E3 L3 "WIX_SITE_ID" _ eq_refl Hc)).
  simpl fold_left.
  rewrite !parse_line_assignment by (assumption || reflexivity).
  assert (forall v, plain v = true -> JS.falsy v = false) as Hf
    by (intros v Hv; apply plain_spec in Hv as (Hv & _); now destruct v).
  set (env := <[ "WIX_SITE_ID" := siteId c ]>
                (<[ "WIX_ACCOUNT_ID" := accountId c ]>
                   (<[ "WIX_API_KEY" := apiKey c ]> (∅ : gmap string string)))).
  assert (env !! "WIX_API_KEY" = Some (apiKey c)) as G1
    by (unfold env; rewrite !lookup_insert_ne by discriminate; apply lookup_insert_eq).
  assert (env !! "WIX_ACCOUNT_ID" = Some (accountId c)) as G2
    by (unfold env; rewrite lookup_insert_ne by discriminate; apply lookup_insert_eq).
  assert (env !! "WIX_SITE_ID" = Some (siteId c)) as G3
    by (unfold env; apply lookup_insert_eq).
  unfold required, is_missing, field. simpl List.filter.
  rewrite G1, G2, G3, (Hf _ Ha), (Hf _ Hb), (Hf _ Hc). simpl. now destruct c.
Qed.

(** X18. Credentials whose three values are plain (not empty, without
    white space at the ends, equals sign or line feed) come back as they
    are from the file that assigns them to the three keys, one
    assignment per line. *)
Theorem loadCredentials_round_trip (c : WixCredentials) :
  plain_credentials c ->
  loadCredentials (Some (env_text c)) = inr c.
Proof.
  intros Hc. unfold env_text.
  apply loadCredentials_lines; first [exact Hc | now left | reflexivity].
Qed.

(** X19. Only the text between the first and the second equals sign of
    a line is the value: when the file gives a key the value [v=rest],
    with [v] plain, what is loaded is [v], and [=rest] is dropped without
    an error. *)
Theorem loadCredentials_value_cut (c : WixCredentials) (rest : string) :
  plain_credentials c ->
  occurs JS.LF rest = false ->
  loadCredentials
    (Some (env_text {| apiKey := apiKey c +:+ String "=" rest;
                       accountId := accountId c; siteId := siteId c |}))
  = inr c.
Proof.
  intros Hc Hr. unfold env_text.
  rewrite <- (loadCredentials_lines c (String "=" rest) EmptyString EmptyString Hc);
    first [ reflexivity | now left | right; now exists rest | idtac ].
  - unfold env_lines, assignment. simpl apiKey. simpl accountId. simpl siteId.
    now rewrite !app_empty_r.
  - simpl. exact Hr.
Qed.

(** *** What can be loaded *)

(** A value as [parse_line] stores it. *)
Definition stored (v : string) : Prop :=
  starts_with_space v = false /\ ends_with_space v = false
  /\ occurs "=" v = false /\ occurs JS.LF v = false.

Lemma parse_line_stored env line :
  occurs JS.LF line = false ->
  map_Forall (fun _ v => stored v) env ->
  map_Forall (fun _ v => stored v) (parse_line env line).
Proof.
  intros Hl Henv. unfold parse_line.
  destruct (negb (JS.falsy (trim line)) && negb (JS.startsWith "#" line)); [|exact Henv].
  pose proof (split_pieces "=" JS.LF line) as Hp.
  destruct (split "=" line) as [|key [|value more]]; try exact Henv.
  destruct (negb (JS.falsy key) && negb (JS.falsy value)); [|exact Henv].
  apply List.Forall_cons_iff in Hp as [_ Hp].
  apply List.Forall_cons_iff in Hp as [[Hv1 Hv2] _].
  apply map_Forall_insert_2; [|exact Henv].
  destruct (trim_trimmed value) as [Hs He].
  repeat split; [exact Hs|exact He|apply trim_absent, Hv1|apply trim_absent, Hv2, Hl].
Qed.

Lemma parse_env_stored envContent : map_Forall (fun _ v => stored v) (parse_env envContent).
Proof.
  unfold parse_env.
  assert (Forall (fun line => occurs JS.LF line = false) (split JS.LF envContent)) as Hlines.
  { eapply List.Forall_impl; [|exact (split_pieces JS.LF JS.LF envContent)].
    intros line [Hl _]. exact Hl. }
  assert (map_Forall (fun _ v => stored v) (∅ : gmap string string)) as Hempty
    by apply map_Forall_empty.
  revert Hempty. generalize (∅ : gmap string string).
  induction Hlines as [|line lines Hl _ IH]; intros env Henv; [exact Henv|].
  simpl. apply IH, parse_line_stored; assumption.
Qed.

Lemma field_plain env name :
  map_Forall (fun _ v => stored v) env ->
  is_missing env name = false -> plain (field env name) = true.
Proof.
  intros Henv Hm. unfold is_missing, field in *.
  destruct (env !! name) as [v|] eqn:E; [|discriminate]. simpl.
  destruct (Henv name v E) as (H1 & H2 & H3 & H4).
  apply plain_spec. repeat split; try assumption. intros ->. discriminate.
Qed.

(** X20. Loading either fails with a message or returns credentials
    whose three values are all plain: never an empty one, never one with
    white space at an end, an equals sign or a line feed.  Without the
    file the message is [Missing .env.wix file]; with it, the message
    lists the required keys that have no value, in their fixed order. *)
Theorem loadCredentials_result (envFile : option string) :
  match loadCredentials envFile with
  | inr c => plain_credentials c /\ exists envContent, envFile = Some envContent
  | inl message =>
      (envFile = None /\ message = "Missing .env.wix file")
      \/ exists envContent missing,
           envFile = Some envContent
           /\ missing = List.filter (is_missing (parse_env envContent)) required
           /\ missing <> []
           /\ message = "Missing required fields: " +:+ JS.join ", " missing
  end.
Proof.
  destruct envFile as [envContent|]; [|now left].
  pose proof (parse_env_stored envContent) as Henv.
  unfold loadCredentials. cbv zeta.
  destruct (List.filter (is_missing (parse_env envContent)) required) as [|k ks] eqn:Em.
  - simpl Nat.ltb. cbv iota. split; [|now exists envContent].
    unfold required in Em. simpl in Em.
    destruct (is_missing (parse_env envContent) "WIX_API_KEY") eqn:M1; [discriminate|].
    destruct (is_missing (parse_env envContent) "WIX_ACCOUNT_ID") eqn:M2; [discriminate|].
    destruct (is_missing (parse_env envContent) "WIX_SITE_ID") eqn:M3; [discriminate|].
    repeat split; simpl; apply field_plain; assumption.
  - simpl Nat.ltb. cbv iota. right. exists envContent, (k :: ks).
    repeat split; [now rewrite Em|discriminate].
Qed.

(** *** Lines that assign nothing *)

(** A blank line, a line that starts with [#], or a line without equals
    sign. *)
Definition ignored (line : string) : Prop :=
  trim line = EmptyString \/ JS.startsWith "#" line = true \/ occurs "=" line = false.

Lemma parse_line_ignored env line : ignored line -> parse_line env line = env.
Proof.
  unfold parse_line. intros [Hb|[Hc|He]].
  - now rewrite Hb.
  - rewrite Hc. now rewrite andb_false_r.
  - rewrite (split_absent _ _ He). now destruct (_ && _).
Qed.

(** X21. A line that is blank, starts with [#] or has no equals sign
    assigns nothing: putting such a line between two lines of the file,
    or taking it out, changes neither the credentials loaded nor the
    error reported. *)
Theorem loadCredentials_ignores (before line after : string) :
  occurs JS.LF line = false ->
  ignored line ->
  loadCredentials (Some (before +:+ String JS.LF (line +:+ String JS.LF after)))
  = loadCredentials (Some (before +:+ String JS.LF after)).
Proof.
  intros Hl Hi.
  assert (parse_env (before +:+ String JS.LF (line +:+ String JS.LF after))
          = parse_env (before +:+ String JS.LF after)) as E.
  { unfold parse_env. rewrite !split_app, (split_absent _ _ Hl), !fold_left_app.
    simpl. now rewrite (parse_line_ignored _ line Hi). }
  unfold loadCredentials. now rewrite E.
Qed.

End LoadingCredentials.

(** ** Fetching the posts page by page *)

Section Pagination.
Import WixApi.

Variable server : Server.

(** The answer to the request for page [k]. *)
Definition page (k : nat) : string + WixApiResponse :=
  makeRequest (server k (100 * Z.of_nat k)).

(** Page [k] arrives and announces posts beyond it. *)
Definition announces_more (k : nat) : Prop :=
  exists r, page k = inr r /\ 100 * (Z.of_nat k + 1) < md_total (metaData r).

(** The posts of page [k]. *)
Definition page_posts (k : nat) : list WixBlogPost :=
  match page k with
  | inr r => res_posts r
  | inl _ => []
  end.

(** The effects of a run of [n + 1] requests, from page [k] on: the
    requests, with half a second of sleep between two of them. *)
Fixpoint requests (k n : nat) : list Event :=
  match n with
  | O => [EvRequest (100 * Z.of_nat k)]
  | S n' => EvRequest (100 * Z.of_nat k) :: EvSleep 500 :: requests (S k) n'
  end.

Lemma offset_next (k : nat) : 100 * Z.of_nat k + limit = 100 * Z.of_nat (S k).
Proof. unfold limit. lia. Qed.

(** The loop from page [k] on, when it ends after [n] more pages. *)
Lemma fetch_loop_pages (fuel : nat) :
  forall (k : nat) allPosts trace res tr,
    fetch_loop fuel server k (100 * Z.of_nat k) allPosts trace = Some (res, tr) ->
    exists n : nat,
      (n < fuel)%nat
      /\ tr = (trace ++ requests k n)%list
      /\ (forall j, (k <= j < k + n)%nat -> announces_more j)
      /\ match res with
         | inl message => page (k + n) = inl message
         | inr all =>
             (exists r, page (k + n) = inr r
                        /\ md_total (metaData r) <= 100 * (Z.of_nat (k + n) + 1))
             /\ all = (allPosts ++ concat (List.map page_posts (seq k (S n))))%list
         end.
Proof.
  induction fuel as [|fuel IH]; intros k allPosts trace res tr E; [discriminate|].
  simpl in E. fold (page k) in E.
  destruct (page k) as [message|r] eqn:Ek.
  - inversion E; subst. exists 0%nat. rewrite Nat.add_0_r.
    split; [lia|]. split; [reflexivity|]. split; [intros j Hj; lia|exact Ek].
  - rewrite offset_next in E.
    destruct (Z.ltb_spec (100 * Z.of_nat (S k)) (md_total (metaData r))) as [Hmore|Hlast].
    + apply IH in E as (n & Hn & Htr & Hpages & Hres).
      exists (S n). split; [lia|]. split.
      { rewrite Htr, <- !app_assoc. reflexivity. }
      split.
      { intros j Hj. destruct (decide (j = k)) as [->|Hne].
        - exists r. split; [exact Ek|lia].
        - apply Hpages. lia. }
      replace (k + S n)%nat with (S k + n)%nat by lia.
      destruct res as [message|all]; [exact Hres|].
      destruct Hres as [Hr ->]. split; [exact Hr|].
      rewrite <- app_assoc. f_equal.
      change (seq k (S (S n))) with (k :: seq (S k) (S n)).
      change (concat (List.map page_posts (k :: seq (S k) (S n))))
        with (page_posts k ++ concat (List.map page_posts (seq (S k) (S n))))%list.
      unfold page_posts at 2. now rewrite Ek.
    + inversion E; subst. exists 0%nat. rewrite Nat.add_0_r.
      split; [lia|]. split; [reflexivity|]. split; [intros j Hj; lia|].
      split; [exists r; split; [exact Ek|lia]|].
      simpl. unfold page_posts. now rewrite Ek, app_nil_r.
Qed.

(** X22. When the fetch of all posts ends, it has requested the pages 0
    to n, one hundred posts apart, for some n, and has slept half a
    second between two requests; every page before the last announced a
    total beyond it.  If it ends with an error, that is the error of
    page n, and the posts of the pages before are not returned.  If it
    ends with posts, page n announced a total within it, and the posts
    are those of the pages 0 to n in that order. *)
Theorem fetchAllPosts_pages (fuel : nat) res tr :
  fetchAllPosts fuel server = Some (res, tr) ->
  exists n : nat,
    (n < fuel)%nat
    /\ tr = requests 0 n
    /\ (forall j, (j < n)%nat -> announces_more j)
    /\ match res with
       | inl message => page n = inl message
       | inr all =>
           (exists r, page n = inr r
                      /\ md_total (metaData r) <= 100 * (Z.of_nat n + 1))
           /\ all = concat (List.map page_posts (seq 0 (S n)))
       end.
Proof.
  unfold fetchAllPosts. intros E.
  apply (fetch_loop_pages fuel 0 [] [] res tr) in E as (n & Hn & Htr & Hpages & Hres).
  exists n. split; [exact Hn|]. split; [exact Htr|].
  split; [intros j Hj; apply Hpages; lia|exact Hres].
Qed.

(** The loop runs out of fuel exactly when every page it gets announces
    more. *)
Lemma fetch_loop_None (fuel : nat) :
  forall (k : nat) allPosts trace,
    fetch_loop fuel server k (100 * Z.of_nat k) allPosts trace = None
    <-> forall j, (k <= j < k + fuel)%nat -> announces_more j.
Proof.
  induction fuel as [|fuel IH]; intros k allPosts trace.
  - split; [intros _ j Hj; lia|reflexivity].
  - simpl. fold (page k).
    destruct (page k) as [message|r] eqn:Ek.
    + split; [discriminate|]. intros Hall.
      destruct (Hall k ltac:(lia)) as (r & Er & _). congruence.
    + rewrite offset_next.
      destruct (Z.ltb_spec (100 * Z.of_nat (S k)) (md_total (metaData r))) as [Hmore|Hlast].
      * rewrite IH. split.
        -- intros Hall j Hj. destruct (decide (j = k)) as [->|Hne].
           ++ exists r. split; [exact Ek|lia].
           ++ apply Hall. lia.
        -- intros Hall j Hj. apply Hall. lia.
      * split; [discriminate|]. intros Hall.
        destruct (Hall k ltac:(lia)) as (r' & Er & Hr). rewrite Ek in Er.
        inversion Er; subst. lia.
Qed.

(** X23. The fetch ends as soon as a page fails or announces a total
    within it: if page [n] is such a page, every bound above [n] on the
    number of iterations is enough for the loop to end.  It can go on
    for ever only against a server every page of which announces more
    posts. *)
Theorem fetchAllPosts_ends (n : nat) :
  ~ announces_more n ->
  forall fuel, (n < fuel)%nat -> fetchAllPosts fuel server <> None.
Proof.
  intros Hn fuel Hfuel E. unfold fetchAllPosts in E.
  pose proof (proj1 (fetch_loop_None fuel 0 [] []) E) as Hall.
  apply Hn, Hall. lia.
Qed.

End Pagination.

(** *** A server that holds a fixed collection *)

Section HonestServer.
Import WixApi.

Variable all : list WixBlogPost.

(** A server that answers every request with the hundred posts from
    the offset on, and with the size of the collection as the total. *)
Definition honest (server : Server) : Prop :=
  forall n off,
    0 <= off ->
    server n off
    = Json {| res_posts := take 100 (drop (Z.to_nat off) all);
              metaData :=
                {| md_count := Z.of_nat (length (take 100 (drop (Z.to_nat off) all)));
                   md_offset := off;
                   md_total := Z.of_nat (length all) |} |}.

(** The number of pages of the collection, at least one. *)
Definition pages : nat := Nat.max 1 ((length all + 99) / 100).

Lemma honest_loop server (fuel : nat) :
  honest server ->
  forall (k : nat) trace,
    (k = 0 \/ 100 * k < length all)%nat ->
    (length all <= 100 * (k + fuel))%nat -> (1 <= fuel)%nat ->
    exists n : nat,
      (length all <= 100 * (k + S n))%nat
      /\ (n = 0 \/ 100 * (k + n) < length all)%nat
      /\ fetch_loop fuel server k (100 * Z.of_nat k) (take (100 * k) all) trace
         = Some (inr all, (trace ++ requests k n)%list).
Proof.
  intros Hs. induction fuel as [|fuel IH]; intros k trace Hk Hfuel H1; [lia|].
  simpl fetch_loop. rewrite (Hs k (100 * Z.of_nat k)) by lia. simpl makeRequest.
  cbv zeta. cbn [res_posts metaData md_total]. rewrite offset_next.
  replace (Z.to_nat (100 * Z.of_nat k)) with (100 * k)%nat by lia.
  rewrite take_take_drop.
  destruct (Z.ltb_spec (100 * Z.of_nat (S k)) (Z.of_nat (length all))) as [Hmore|Hlast].
  - replace (100 * k + 100)%nat with (100 * S k)%nat by lia.
    destruct (IH (S k) ((trace ++ [EvRequest (100 * Z.of_nat k)]) ++ [EvSleep 500])%list
                ltac:(lia) ltac:(lia) ltac:(lia)) as (n & Hn1 & Hn2 & E).
    exists (S n). split; [lia|]. split; [lia|].
    rewrite E. rewrite <- !app_assoc. reflexivity.
  - exists 0%nat. split; [lia|]. split; [now left|].
    rewrite take_ge by lia. reflexivity.
Qed.

(** X24. Against a server that holds a fixed collection of posts and
    answers every request with the hundred posts from the offset on and
    the size of the collection, the fetch returns the whole collection
    in order, each post once.  It makes one request per page of a
    hundred, at least one, sleeps half a second between two requests,
    and ends within any bound of at least that many iterations. *)
Theorem fetchAllPosts_complete (server : Server) (fuel : nat) :
  honest server ->
  (pages <= fuel)%nat ->
  fetchAllPosts fuel server = Some (inr all, requests 0 (pages - 1)).
Proof.
  intros Hs Hfuel. unfold fetchAllPosts, pages in *.
  assert (length all <= 100 * ((length all + 99) / 100))%nat as Hdiv.
  { pose proof (Nat.div_mod_eq (length all + 99) 100) as E.
    pose proof (Nat.mod_upper_bound (length all + 99) 100 ltac:(lia)). lia. }
  assert (100 * ((length all + 99) / 100) < length all + 100)%nat as Hdiv2.
  { pose proof (Nat.div_mod_eq (length all + 99) 100) as E. lia. }
  destruct (honest_loop server fuel Hs 0 [] ltac:(now left) ltac:(lia) ltac:(lia))
    as (n & Hn1 & Hn2 & E).
  change (take (100 * 0) all) with (@nil WixBlogPost) in E.
  change (100 * Z.of_nat 0) with 0 in E. rewrite E. simpl app.
  do 3 f_equal. lia.
Qed.

End HonestServer.

(** ** The combined Markdown document *)

Section CombinedMarkdown.
Context `{Clock}.
Variable options : ExportOptions.
Import MarkdownExport.

(** A post that one of the three groups takes. *)
Definition listed (p : WixBlogPost) : bool :=
  Exporters.in_published p || Exporters.in_drafts p || Exporters.in_scheduled p.

Lemma filter_filter_impl {A} (f g : A -> bool) (l : list A) :
  (forall x, f x = true -> g x = true) ->
  List.filter f (List.filter g l) = List.filter f l.
Proof.
  intros Himp. induction l as [|x l IH]; simpl; [reflexivity|].
  destruct (g x) eqn:Eg; simpl.
  - now rewrite IH.
  - rewrite IH. destruct (f x) eqn:Ef; [|reflexivity].
    apply Himp in Ef. congruence.
Qed.

Lemma categorizePosts_listed (posts : list WixBlogPost) :
  Exporters.categorizePosts (List.filter listed posts) = Exporters.categorizePosts posts.
Proof.
  unfold Exporters.categorizePosts, listed.
  rewrite !filter_filter_impl; [reflexivity| | |]; intros p ->;
    rewrite ?orb_true_r; reflexivity.
Qed.

Lemma listed_statuses (p : WixBlogPost) :
  listed p = true
  <-> status p = None \/ status p = Some EmptyString \/ status p = Some "PUBLISHED"
      \/ status p = Some "DRAFT" \/ status p = Some "SCHEDULED".
Proof.
  unfold listed, Exporters.in_published, Exporters.in_drafts, Exporters.in_scheduled.
  destruct (status p) as [s|]; [|simpl; tauto].
  rewrite !orb_true_iff, !String.eqb_eq, falsy_empty.
  split.
  - intros [[[->| ->]| ->]| ->]; auto 6.
  - intros [X|[X|[X|[X|X]]]]; inversion X; subst; auto.
Qed.

(** X25. The combined Markdown document shows only the posts whose
    status is PUBLISHED, DRAFT, SCHEDULED, empty or absent.  A post with
    any other status is in no section and is not counted, not even in
    the total of the header: the document is the one that would be
    written without these posts. *)
Theorem markdown_text_listed_only (posts : list WixBlogPost)
    (urlToLocalPath : gmap string string) :
  markdown_text options posts urlToLocalPath
  = markdown_text options (List.filter listed posts) urlToLocalPath
  /\ (forall p, listed p = true
                <-> status p = None \/ status p = Some EmptyString
                    \/ status p = Some "PUBLISHED" \/ status p = Some "DRAFT"
                    \/ status p = Some "SCHEDULED")
  /\ (let g := Exporters.categorizePosts posts in
      length (Exporters.cat_published g) + length (Exporters.cat_drafts g)
      + length (Exporters.cat_scheduled g)
      = length (List.filter listed posts))%nat.
Proof.
  split; [|split; [exact listed_statuses|]].
  - unfold markdown_text. now rewrite categorizePosts_listed.
  - cbn zeta. unfold Exporters.categorizePosts. simpl.
    induction posts as [|p l IH]; [reflexivity|].
    unfold listed in *. simpl.
    destruct (groups_exclusive p) as (X1 & X2 & X3).
    destruct (Exporters.in_published p) eqn:E1, (Exporters.in_drafts p) eqn:E2,
      (Exporters.in_scheduled p) eqn:E3; simpl in *; try discriminate;
      rewrite ?length_app in *; simpl; lia.
Qed.

End CombinedMarkdown.

(** ** One Markdown file per post *)

Section IndividualMarkdown.
Context `{Clock} `{Platform}.
Variable options : ExportOptions.
Import MarkdownExport ImageDownloader.

(** The name a post's file is made from. *)
Definition post_name (post : WixBlogPost) : string :=
  if JS.falsy (slug post) then id post else slug post.

(** The bytes written for a post. *)
Definition markdown_bytes (m : gmap string string) (post : WixBlogPost) : list Byte.byte :=
  utf8_encode (formatSinglePostAsMarkdown options post m).

Lemma export_app (pre post : list WixBlogPost) outputDir m w :
  exportIndividualMarkdownFiles options (pre ++ post) outputDir m w
  = exportIndividualMarkdownFiles options post outputDir m
      (exportIndividualMarkdownFiles options pre outputDir m w).
Proof. unfold exportIndividualMarkdownFiles. apply fold_left_app. Qed.

Lemma export_other_path (posts : list WixBlogPost) outputDir m path :
  forall w,
    Forall (fun q => markdown_path outputDir q <> path) posts ->
    files (exportIndividualMarkdownFiles options posts outputDir m w) !! path
    = files w !! path.
Proof.
  induction posts as [|q posts IH]; intros w Hq; [reflexivity|].
  apply List.Forall_cons_iff in Hq as [Hne Hq].
  change (exportIndividualMarkdownFiles options (q :: posts) outputDir m w)
    with (exportIndividualMarkdownFiles options posts outputDir m
            (writeFileSync (markdown_path outputDir q) (markdown_bytes m q) w)).
  rewrite (IH _ Hq). simpl. now rewrite lookup_insert_ne.
Qed.

(** X26. The Markdown files of a bundle are named after the sanitized
    slugs, so posts share a file when their slugs differ only in letter
    case, and more generally whenever the slugs sanitize to the same
    name.  Each post is written to its file in turn: when the export is
    over, a file holds the text of the last post written to it, the
    earlier texts are gone, and no other file has been touched. *)
Theorem exportIndividualMarkdownFiles_last_wins
    (posts : list WixBlogPost) (outputDir : string) (m : gmap string string) (w : World) :
  let w' := exportIndividualMarkdownFiles options posts outputDir m w in
  (forall p q,
      Utils.toLowerCase (post_name p) = Utils.toLowerCase (post_name q)
      \/ Utils.sanitizeFilename (post_name p) = Utils.sanitizeFilename (post_name q) ->
      markdown_path outputDir p = markdown_path outputDir q)
  /\ (forall pre p post,
        posts = (pre ++ p :: post)%list ->
        Forall (fun q => markdown_path outputDir q <> markdown_path outputDir p) post ->
        files w' !! markdown_path outputDir p = Some (markdown_bytes m p))
  /\ (forall path,
        Forall (fun q => markdown_path outputDir q <> path) posts ->
        files w' !! path = files w !! path).
Proof.
  cbn zeta. split; [|split].
  - intros p q [E|E]; unfold markdown_path; fold (post_name p); fold (post_name q).
    + unfold Utils.sanitizeFilename. now rewrite E.
    + now rewrite E.
  - intros pre p post -> Hlater. rewrite export_app.
    change (exportIndividualMarkdownFiles options (p :: post) outputDir m
              (exportIndividualMarkdownFiles options pre outputDir m w))
      with (exportIndividualMarkdownFiles options post outputDir m
              (writeFileSync (markdown_path outputDir p) (markdown_bytes m p)
                 (exportIndividualMarkdownFiles options pre outputDir m w))).
    rewrite (export_other_path post outputDir m _ _ Hlater). simpl.
    apply lookup_insert_eq.
  - intros path. apply export_other_path.
Qed.

End IndividualMarkdown.

(** ** Posts by year *)

Section YearTally.
Import ReportByYear.

(** Counting one more occurrence of a key. *)
Definition tally (m : list (option Z * Z)) (k : option Z) : list (option Z * Z) :=
  map_set k (default 0 (map_get k m) + 1) m.

Definition year_eq_dec (a b : option Z) : {a = b} + {a <> b} := decide (a = b).

(** How often the key [k] occurs in [ks]. *)
Definition times (k : option Z) (ks : list (option Z)) : Z :=
  Z.of_nat (count_occ year_eq_dec ks k).

Definition sum_counts (m : list (option Z * Z)) : Z :=
  fold_right Z.add 0 (List.map snd m).

Lemma map_get_set k v m k' :
  map_get k' (map_set k v m) = if bool_decide (k = k') then Some v else map_get k' m.
Proof.
  induction m as [|[k0 v0] m IH]; simpl.
  - reflexivity.
  - destruct (bool_decide_reflect (k0 = k)) as [->|Hne]; simpl.
    + destruct (bool_decide (k = k')); reflexivity.
    + rewrite IH. destruct (bool_decide_reflect (k0 = k')) as [->|Hne'].
      * destruct (bool_decide_reflect (k = k')) as [->|]; [contradiction|reflexivity].
      * reflexivity.
Qed.

Lemma map_set_keys k v m k' :
  In k' (List.map fst (map_set k v m)) <-> k' = k \/ In k' (List.map fst m).
Proof.
  induction m as [|[k0 v0] m IH]; simpl; [intuition congruence|].
  destruct (bool_decide_reflect (k0 = k)) as [->|Hne]; simpl; [intuition congruence|].
  rewrite IH. tauto.
Qed.

Lemma map_set_nodup k v m :
  List.NoDup (List.map fst m) -> List.NoDup (List.map fst (map_set k v m)).
Proof.
  induction m as [|[k0 v0] m IH]; simpl; intros Hnd.
  - constructor; [tauto|constructor].
  - inversion Hnd as [|? ? Hnot Hrest]; subst.
    destruct (bool_decide_reflect (k0 = k)) as [->|Hne]; simpl.
    + constructor; assumption.
    + constructor; [|apply IH, Hrest].
      rewrite map_set_keys. intros [->|Hin]; [contradiction|]. contradiction.
Qed.

Lemma map_get_missing k m : ~ In k (List.map fst m) -> map_get k m = None.
Proof.
  induction m as [|[k0 v0] m IH]; simpl; [reflexivity|]. intros Hnot.
  destruct (bool_decide_reflect (k0 = k)) as [->|Hne]; [tauto|]. apply IH. tauto.
Qed.

Lemma map_get_In k v m :
  List.NoDup (List.map fst m) -> (In (k, v) m <-> map_get k m = Some v).
Proof.
  induction m as [|[k0 v0] m IH]; simpl; intros Hnd.
  - split; [tauto|discriminate].
  - inversion Hnd as [|? ? Hnot Hrest]; subst.
    destruct (bool_decide_reflect (k0 = k)) as [->|Hne].
    + split.
      * intros [E|Hin]; [now inversion E|].
        exfalso. apply Hnot. apply in_map_iff. now exists (k, v).
      * intros E. inversion E; subst. now left.
    + rewrite <- (IH Hrest). split; [|tauto].
      intros [E|Hin]; [inversion E; subst; contradiction|exact Hin].
Qed.

Lemma sum_counts_set k m :
  sum_counts (tally m k) = sum_counts m + 1.
Proof.
  unfold tally, sum_counts. induction m as [|[k0 v0] m IH]; simpl; [lia|].
  destruct (bool_decide_reflect (k0 = k)) as [->|Hne]; simpl; lia.
Qed.

Lemma times_snoc k ks k' :
  times k' (ks ++ [k]) = times k' ks + (if bool_decide (k = k') then 1 else 0).
Proof.
  unfold times. rewrite count_occ_app. simpl.
  destruct (year_eq_dec k k') as [->|Hne].
  - rewrite bool_decide_eq_true_2 by reflexivity. lia.
  - rewrite bool_decide_eq_false_2 by exact Hne. lia.
Qed.

(** The tally of a list of keys: every key once, with the number of its
    occurrences, and the counts add up to the length of the list. *)
Lemma tally_counts (ks : list (option Z)) :
  let m := fold_left tally ks [] in
  List.NoDup (List.map fst m)
  /\ (forall k, In k (List.map fst m) <-> In k ks)
  /\ (forall k, In k ks -> map_get k m = Some (times k ks))
  /\ sum_counts m = Z.of_nat (length ks).
Proof.
  induction ks as [|k ks IH] using rev_ind; cbn zeta.
  - simpl. repeat split; try tauto; constructor.
  - rewrite fold_left_app. simpl fold_left.
    cbn zeta in IH. destruct IH as (Hnd & Hkeys & Hget & Hsum).
    set (m := fold_left tally ks []) in *.
    split; [apply map_set_nodup, Hnd|]. split; [|split].
    + intros k'. unfold tally. rewrite map_set_keys, Hkeys, in_app_iff. simpl.
      intuition congruence.
    + intros k' Hin. unfold tally. rewrite map_get_set, times_snoc.
      destruct (bool_decide_reflect (k = k')) as [->|Hne].
      * f_equal. destruct (in_dec year_eq_dec k' ks) as [Hk|Hk].
        -- rewrite (Hget k' Hk). simpl. lia.
        -- rewrite map_get_missing by (now rewrite Hkeys). simpl.
           unfold times. rewrite (proj1 (count_occ_not_In _ ks k') Hk). lia.
      * rewrite Z.add_0_r. apply Hget.
        apply in_app_iff in Hin as [Hin|[E|[]]]; [exact Hin|contradiction].
    + rewrite sum_counts_set, Hsum, length_app. simpl. lia.
Qed.

(** *** Sorting by year *)

(** The year of an entry whose key is a number. *)
Definition year_of (e : option Z * Z) : Z := default 0 (fst e).

Definition numbered (e : option Z * Z) : Prop := is_Some (fst e).

Lemma by_year_asc_numbered a b :
  numbered a -> numbered b -> by_year_asc a b = year_of a - year_of b.
Proof.
  unfold numbered, by_year_asc, year_of. intros [x ->] [y ->]. reflexivity.
Qed.

Lemma sort_insert_years x s :
  numbered x -> Forall numbered s ->
  StronglySorted (fun a b => year_of a <= year_of b) s ->
  StronglySorted (fun a b => year_of a <= year_of b)
    (ReportGenerator.sort_insert by_year_asc x s).
Proof.
  intros Hx Hs Hsorted. induction Hsorted as [|y s Hsorted IH Hy]; simpl.
  - repeat constructor.
  - apply List.Forall_cons_iff in Hs as [Hny Hs].
    rewrite (by_year_asc_numbered x y Hx Hny).
    destruct (Z.leb_spec (year_of x - year_of y) 0) as [Hle|Hgt].
    + constructor; [constructor; assumption|].
      constructor; [lia|].
      rewrite List.Forall_forall in *. intros z Hz. specialize (Hy z Hz). lia.
    + constructor; [apply IH, Hs|].
      rewrite List.Forall_forall in *. intros z Hz.
      apply (Permutation_in _ (sort_insert_perm by_year_asc x s)) in Hz.
      destruct Hz as [<-|Hz]; [lia|now apply Hy].
Qed.

Lemma Array_sort_years l :
  Forall numbered l ->
  StronglySorted (fun a b => year_of a <= year_of b)
    (ReportGenerator.Array_sort by_year_asc l).
Proof.
  induction 1 as [|x l Hx Hl IH]; simpl; [constructor|].
  apply sort_insert_years; [exact Hx| |exact IH].
  rewrite List.Forall_forall in *. intros z Hz. apply Hl.
  now apply (Permutation_in _ (Array_sort_perm by_year_asc l)).
Qed.

Lemma sorted_distinct_strict (l : list (option Z * Z)) :
  Forall numbered l ->
  List.NoDup (List.map fst l) ->
  StronglySorted (fun a b => year_of a <= year_of b) l ->
  StronglySorted (fun a b => year_of a < year_of b) l.
Proof.
  intros Hn Hnd Hs. induction Hs as [|x l Hs IH Hx]; [constructor|].
  apply List.Forall_cons_iff in Hn as [Hnx Hn].
  simpl in Hnd. inversion Hnd as [|? ? Hnot Hrest]; subst.
  constructor; [apply IH; assumption|].
  rewrite List.Forall_forall in *. intros z Hz.
  specialize (Hx z Hz). specialize (Hn z Hz).
  assert (year_of x <> year_of z); [|lia].
  intros E. apply Hnot. apply in_map_iff. exists z. split; [|exact Hz].
  destruct Hnx as [a Ha], Hn as [b Hb]. unfold year_of in E.
  rewrite Ha, Hb in *. simpl in E. now subst.
Qed.

Lemma sum_counts_perm l l' : Permutation l l' -> sum_counts l = sum_counts l'.
Proof.
  unfold sum_counts. induction 1; simpl; lia.
Qed.

End YearTally.

Section PostsByYear.
Context `{Clock}.
Import ReportByYear.

(** The posts with a publication date, and the years of these dates. *)
Definition dated (posts : list WixBlogPost) : list WixBlogPost :=
  List.filter (fun post => negb (JS.falsy (firstPublishedDate post))) posts.

Definition years (posts : list WixBlogPost) : list (option Z) :=
  List.map (fun post => Date_getFullYear (firstPublishedDate post)) (dated posts).

Lemma count_years_tally (posts : list WixBlogPost) :
  count_years posts = fold_left tally (years posts) [].
Proof.
  unfold count_years, years, dated. generalize (@nil (option Z * Z)).
  induction posts as [|post posts IH]; intros m; simpl; [reflexivity|].
  unfold count_year at 2.
  destruct (JS.falsy (firstPublishedDate post)); simpl; apply IH.
Qed.

(** X27. When the date of every dated post can be read, the table of
    posts by year lists the years in strictly ascending order, each year
    once; a year is listed exactly when a dated post falls in it, with
    the number of these posts as its count, which is at least 1; and the
    counts add up to the number of dated posts.  Posts without a date
    are not counted. *)
Theorem byYear_table (posts : list WixBlogPost) :
  Forall is_Some (years posts) ->
  let table := byYear posts in
  StronglySorted (fun a b => year_of a < year_of b) table
  /\ Forall numbered table
  /\ (forall y c,
        In (Some y, c) table
        <-> In (Some y) (years posts) /\ c = times (Some y) (years posts))
  /\ Forall (fun e => 1 <= snd e) table
  /\ sum_counts table = Z.of_nat (length (dated posts)).
Proof.
  intros Hyears. cbn zeta. unfold byYear. rewrite count_years_tally.
  destruct (tally_counts (years posts)) as (Hnd & Hkeys & Hget & Hsum).
  set (m := fold_left tally (years posts) []) in *.
  pose proof (Array_sort_perm by_year_asc m) as Hperm.
  assert (forall e, In e (ReportGenerator.Array_sort by_year_asc m) <-> In e m) as Hin.
  { intros e. split; apply Permutation_in; [exact Hperm|now symmetry]. }
  assert (Forall numbered m) as Hnum.
  { apply List.Forall_forall. intros [k v] He. unfold numbered. simpl.
    rewrite List.Forall_forall in Hyears. apply Hyears, Hkeys.
    apply in_map_iff. now exists (k, v). }
  assert (Forall numbered (ReportGenerator.Array_sort by_year_asc m)) as Hnum'.
  { rewrite List.Forall_forall in *. intros e He. apply Hnum, Hin, He. }
  assert (forall k v, In (k, v) m <-> In k (years posts) /\ v = times k (years posts))
    as Hentries.
  { intros k v. rewrite (map_get_In k v m Hnd). split.
    - intros E. assert (In k (years posts)) as Hk.
      { apply Hkeys. destruct (in_dec year_eq_dec k (List.map fst m));
          [assumption|]. rewrite map_get_missing in E by assumption. discriminate. }
      split; [exact Hk|]. rewrite (Hget k Hk) in E. now inversion E.
    - intros [Hk ->]. apply Hget, Hk. }
  split; [|split; [exact Hnum'|split; [|split]]].
  - apply sorted_distinct_strict; [exact Hnum'| |apply Array_sort_years, Hnum].
    apply (Permutation_NoDup (l := List.map fst m)); [|exact Hnd].
    apply Permutation_map. now symmetry.
  - intros y c. rewrite Hin. apply Hentries.
  - apply List.Forall_forall. intros [k v] He. apply Hin, Hentries in He as [Hk ->].
    simpl. unfold times.
    apply (count_occ_In year_eq_dec) in Hk. lia.
  - rewrite (sum_counts_perm _ _ Hperm), Hsum. unfold years. now rewrite length_map.
Qed.

End PostsByYear.

(** ** Time stamps in bundle names *)

Section TimeStamps.
Import BundleNames.

(** A date whose month, day, hour and minute are in their ranges. *)
Definition in_range (d : UtcDate) : Prop :=
  0 <= utcMonth d <= 11 /\ 1 <= utcDate d <= 31
  /\ 0 <= utcHours d <= 23 /\ 0 <= utcMinutes d <= 59.

Definition digit (n : Z) : ascii := ascii_of_N (Z.to_N (48 + n)).

Definition two_digits (n : Z) : string :=
  String (digit (n / 10)) (String (digit (n mod 10)) EmptyString).

(** A property checked for each of the numbers below [count]. *)
Lemma checked_range (P : Z -> bool) (count : nat) :
  forallb (fun k => P (Z.of_nat k)) (seq 0 count) = true ->
  forall n, 0 <= n < Z.of_nat count -> P n = true.
Proof.
  intros Hall n Hn. rewrite forallb_forall in Hall.
  specialize (Hall (Z.to_nat n)). rewrite Z2Nat.id in Hall by lia.
  apply Hall, in_seq. lia.
Qed.

Lemma padStart2_two_digits n :
  0 <= n < 100 -> padStart2 (JS.Number_toString n) = two_digits n.
Proof.
  intros Hn. apply String.eqb_eq.
  apply (checked_range
           (fun n => String.eqb (padStart2 (JS.Number_toString n)) (two_digits n)) 100);
    [vm_compute; reflexivity|lia].
Qed.

Lemma digit_inj a b : 0 <= a <= 9 -> 0 <= b <= 9 -> digit a = digit b -> a = b.
Proof.
  intros Ha Hb E. unfold digit in E.
  apply (f_equal N_of_ascii) in E.
  rewrite !N_ascii_embedding in E by lia. lia.
Qed.

Lemma two_digits_inj a b :
  0 <= a < 100 -> 0 <= b < 100 -> two_digits a = two_digits b -> a = b.
Proof.
  intros Ha Hb E. unfold two_digits in E. inversion E as [[E1 E2]].
  pose proof (Z.div_pos a 10). pose proof (Z.div_lt_upper_bound a 10 10).
  pose proof (Z.div_pos b 10). pose proof (Z.div_lt_upper_bound b 10 10).
  pose proof (Z.mod_pos_bound a 10). pose proof (Z.mod_pos_bound b 10).
  apply digit_inj in E1; [|lia|lia].
  apply digit_inj in E2; [|lia|lia].
  rewrite (Z.div_mod a 10), (Z.div_mod b 10) by lia. lia.
Qed.

Lemma Number_toString_inj a b : JS.Number_toString a = JS.Number_toString b -> a = b.
Proof.
  unfold JS.Number_toString. intros E.
  apply (f_equal NilEmpty.int_of_string) in E. rewrite !NilEmpty.isi in E.
  inversion E as [E']. apply (f_equal Z.of_int) in E'.
  now rewrite !DecimalZ.of_to in E'.
Qed.

(** The part of the time stamp after the year. *)
Definition month_to_minute (d : UtcDate) : string :=
  two_digits (utcMonth d + 1) +:+ two_digits (utcDate d) +:+ "-"
  +:+ two_digits (utcHours d) +:+ two_digits (utcMinutes d).

Lemma createTimestamp_digits (d : UtcDate) :
  in_range d ->
  createTimestamp d = JS.Number_toString (utcFullYear d) +:+ month_to_minute d.
Proof.
  intros (Hm & Hd & Hh & Hmin). unfold createTimestamp, month_to_minute. cbv zeta.
  now rewrite !padStart2_two_digits by lia.
Qed.

(** Texts that end in parts of the same length agree part by part. *)
Lemma app_inj_tail (a b x y : string) :
  String.length x = String.length y -> a +:+ x = b +:+ y -> a = b /\ x = y.
Proof.
  intros Hlen. revert b. induction a as [|c a IH]; intros [|c' b] E.
  - auto.
  - rewrite app_empty_l in E. apply (f_equal String.length) in E.
    rewrite length_app_s in E. simpl in E. lia.
  - rewrite app_empty_l in E. apply (f_equal String.length) in E.
    rewrite length_app_s in E. simpl in E. lia.
  - rewrite !app_cons in E. inversion E; subst.
    destruct (IH b) as [-> ->]; auto.
Qed.

(** X28. A time stamp is the year followed by nine characters: two
    digits each for month and day, a dash, two digits each for hour and
    minute.  Two dates have the same time stamp only if they agree in
    year, month, day, hour and minute, so two bundles with the same
    title get the same file name exactly when they are made within the
    same minute. *)
Theorem createTimestamp_injective (options : ExportOptions) (d1 d2 : UtcDate) :
  in_range d1 -> in_range d2 ->
  String.length (createTimestamp d1)
  = (String.length (JS.Number_toString (utcFullYear d1)) + 9)%nat
  /\ (createTimestamp d1 = createTimestamp d2 <-> d1 = d2)
  /\ (bundleZip options = true ->
      (getZipFilename options d1 = getZipFilename options d2 <-> d1 = d2)).
Proof.
  intros H1 H2.
  assert (createTimestamp d1 = createTimestamp d2 -> d1 = d2) as Hinj.
  { rewrite (createTimestamp_digits d1 H1), (createTimestamp_digits d2 H2).
    destruct H1 as (Hm1 & Hd1 & Hh1 & Hn1), H2 as (Hm2 & Hd2 & Hh2 & Hn2).
    intros E. apply app_inj_tail in E as [Ey E]; [|reflexivity].
    apply Number_toString_inj in Ey.
    assert (two_digits (utcMonth d1 + 1) = two_digits (utcMonth d2 + 1)
            /\ two_digits (utcDate d1) = two_digits (utcDate d2)
            /\ two_digits (utcHours d1) = two_digits (utcHours d2)
            /\ two_digits (utcMinutes d1) = two_digits (utcMinutes d2))
      as (Em & Ed & Eh & En).
    { unfold month_to_minute, two_digits in *. rewrite !app_cons, !app_empty_l in E.
      inversion E. repeat split; congruence. }
    apply two_digits_inj in Em; [|lia|lia].
    apply two_digits_inj in Ed; [|lia|lia].
    apply two_digits_inj in Eh; [|lia|lia].
    apply two_digits_inj in En; [|lia|lia].
    destruct d1, d2. simpl in *. f_equal; lia. }
  split; [|split].
  - rewrite (createTimestamp_digits d1 H1), length_app_s. reflexivity.
  - split; [exact Hinj|now intros ->].
  - intros Hzip. split; [|now intros ->].
    unfold getZipFilename. rewrite Hzip. simpl negb. cbv iota zeta.
    intros E. apply (inj (String.append _)) in E.
    apply (inj (String.append "-")) in E.
    apply app_inj_tail in E as [E _]; [|reflexivity]. exact (Hinj E).
Qed.

End TimeStamps.

(** ** What goes into the archive *)


Section Archive.
Context `{Platform}.
Import ZipBundler.

(** The files below a directory, by the names of the items that lead to
    them, joined by slashes. *)
Fixpoint files_below (dir : Node) : list string :=
  match dir with
  | Directory items =>
      flat_map
        (fun '(item, node) =>
           match node with
           | Directory _ => List.map (fun rel => item +:+ "/" +:+ rel) (files_below node)
           | File _ => [item]
           | _ => []
           end)
        items
  | _ => []
  end.

(** Everything below a directory can be looked at: no item is one that
    [fs.statSync] throws on, and no directory one that cannot be
    listed. *)
Fixpoint readable (dir : Node) : bool :=
  match dir with
  | Directory items =>
      forallb
        (fun '(item, node) =>
           match node with
           | Directory _ => readable node
           | File _ | Other => true
           | Locked | Broken => false
           end)
        items
  | _ => false
  end.

Section NodeInduction.
Variable P : Node -> Prop.
Hypothesis P_file : forall size, P (File size).
Hypothesis P_locked : P Locked.
Hypothesis P_other : P Other.
Hypothesis P_broken : P Broken.
Hypothesis P_directory : forall items, Forall (fun e => P (snd e)) items -> P (Directory items).

Fixpoint node_ind' (n : Node) : P n :=
  match n with
  | File size => P_file size
  | Locked => P_locked
  | Other => P_other
  | Broken => P_broken
  | Directory items =>
      P_directory items
        ((fix all (l : list (string * Node)) : Forall (fun e => P (snd e)) l :=
            match l with
            | [] => List.Forall_nil _
            | e :: rest => @List.Forall_cons _ (fun e => P (snd e)) e rest
                             (node_ind' (snd e)) (all rest)
            end) items)
  end.

End NodeInduction.

(** The names of the entries added for [dir] are the first files below
    it, all of them when the call returns; it returns exactly when
    everything below [dir] can be looked at. *)
Lemma add_directory_names (dir : Node) :
  forall sourceDir archivePath,
    let '(entries, returned) := add_directory dir sourceDir archivePath in
    returned = readable dir
    /\ exists rest,
         List.map (fun rel => archivePath +:+ "/" +:+ rel) (files_below dir)
         = (List.map entry_name entries ++ rest)%list
         /\ (returned = true -> rest = []).
Proof.
  induction dir as [size| | | |items IH] using node_ind'; intros sourceDir archivePath;
    try (split; [reflexivity|exists []; split; [reflexivity|discriminate]]).
  cbn [add_directory files_below readable].
  induction IH as [|[item node] rest Hnode _ IHrest].
  { split; [reflexivity|]. exists []. split; reflexivity. }
  cbn [flat_map forallb]. cbn [snd] in Hnode.
  match type of IHrest with
  | match ?tail with _ => _ end => destruct tail as [entries returned]
  end.
  destruct IHrest as (Hret & more & Hnames & Hmore).
  rewrite map_app, Hnames.
  destruct node as [size|sub| | |].
  - split; [exact Hret|]. exists more. split; [reflexivity|exact Hmore].
  - specialize (Hnode (Utils.createSafePath [sourceDir; item])
                  (archivePath +:+ "/" +:+ item)).
    destruct (add_directory (Directory sub) _ _) as [below returned0].
    destruct Hnode as (Hret0 & more0 & Hnames0 & Hmore0).
    assert (List.map (fun rel => archivePath +:+ "/" +:+ rel)
              (List.map (fun rel => item +:+ "/" +:+ rel) (files_below (Directory sub)))
            = (List.map entry_name below ++ more0)%list) as ->.
    { rewrite <- Hnames0, !map_map. apply map_ext. intros rel.
      now rewrite !app_assoc_s. }
    rewrite <- Hret0. destruct returned0.
    + rewrite (Hmore0 eq_refl), app_nil_r. split; [exact Hret|].
      exists more. rewrite map_app, <- app_assoc. split; [reflexivity|exact Hmore].
    + split; [reflexivity|].
      exists (more0 ++ List.map entry_name entries ++ more)%list.
      rewrite <- app_assoc. split; [reflexivity|discriminate].
  - split; [reflexivity|].
    exists (List.map entry_name entries ++ more)%list. split; [reflexivity|discriminate].
  - split; [exact Hret|]. exists more. split; [reflexivity|exact Hmore].
  - split; [reflexivity|].
    exists (List.map entry_name entries ++ more)%list. split; [reflexivity|discriminate].
Qed.

(** X29. For a bundle directory in which everything can be looked at,
    the call returns and the archive gets one entry for every file below
    the directory and for nothing else.  The name of an entry is the
    archive folder, a slash, and the names of the directories that lead
    to the file and of the file itself, joined by slashes: it does not
    depend on where the bundle directory lies on disk.  When an item is
    met that [fs.statSync] throws on, or a directory that cannot be
    listed, the call ends with that exception, and exactly then; the
    entries added up to there are those of the first files below the
    directory.  A directory that does not exist adds nothing, and the
    call returns. *)
Theorem addDirectoryToArchive_entries (items : list (string * Node))
    (sourceDir archivePath : string) :
  addDirectoryToArchive None sourceDir archivePath = ([], true)
  /\ addDirectoryToArchive (Some Broken) sourceDir archivePath = ([], true)
  /\ let '(entries, returned) :=
       addDirectoryToArchive (Some (Directory items)) sourceDir archivePath in
     let names :=
       List.map (fun rel => archivePath +:+ "/" +:+ rel) (files_below (Directory items)) in
     returned = readable (Directory items)
     /\ (exists rest, names = (List.map entry_name entries ++ rest)%list)
     /\ (returned = true ->
         List.map entry_name entries = names
         /\ length entries = length (files_below (Directory items))).
Proof.
  split; [reflexivity|]. split; [reflexivity|].
  unfold addDirectoryToArchive.
  pose proof (add_directory_names (Directory items) sourceDir archivePath) as Hnames.
  destruct (add_directory (Directory items) sourceDir archivePath) as [entries returned].
  destruct Hnames as (Hret & rest & Hnames & Hrest). cbn zeta.
  split; [exact Hret|]. split; [now exists rest|].
  intros Hr. rewrite (Hrest Hr), app_nil_r in Hnames. split; [now symmetry|].
  apply (f_equal (@length _)) in Hnames. now rewrite !length_map in Hnames.
Qed.

End Archive.

(** A bundle directory with a dangling link between two files. *)
Definition bundle_with_dangling_link : list (string * ZipBundler.Node) :=
  [("posts", ZipBundler.Directory [("posts.json", ZipBundler.File 10)]);
   ("link", ZipBundler.Broken);
   ("README.md", ZipBundler.File 5)].

Lemma addDirectoryToArchive_dangling_link :
  List.map ZipBundler.entry_name
    (@ZipBundler.addDirectoryToArchive NodeRuntime.platform
       (Some (ZipBundler.Directory bundle_with_dangling_link)) "/tmp/b" "bundle").1
  = ["bundle/posts/posts.json"]
  /\ (@ZipBundler.addDirectoryToArchive NodeRuntime.platform
        (Some (ZipBundler.Directory bundle_with_dangling_link)) "/tmp/b" "bundle").2
     = false
  /\ files_below (ZipBundler.Directory bundle_with_dangling_link)
     = ["posts/posts.json"; "README.md"].
Proof. repeat split. Qed.

(** ** The directories of a bundle *)

Section Bundle.
Context `{Platform}.
Import ZipBundler ImageDownloader.

Lemma ensure_dir_exists dir w : existsSync dir (ensure_dir dir w) = true.
Proof.
  unfold ensure_dir. destruct (existsSync dir w) eqn:E; [exact E|].
  unfold existsSync, mkdirSync. simpl.
  rewrite bool_decide_eq_true_2 by set_solver. reflexivity.
Qed.

Lemma ensure_dir_files dir w : files (ensure_dir dir w) = files w.
Proof. unfold ensure_dir. now destruct (existsSync dir w). Qed.

Lemma grows_exists w w' p : grows w w' -> existsSync p w = true -> existsSync p w' = true.
Proof.
  intros (Hf & Hd & _) Hp. unfold existsSync in *.
  apply orb_true_iff in Hp. apply orb_true_iff.
  destruct Hp as [Hp|Hp]; [left|right]; apply bool_decide_eq_true;
    apply bool_decide_eq_true in Hp; [apply Hd, Hp|auto].
Qed.

Lemma ensure_dirs_spec (dirs : list string) :
  forall w,
    let w' := fold_left (fun w dir => ensure_dir dir w) dirs w in
    grows w w' /\ files w' = files w
    /\ Forall (fun dir => existsSync dir w' = true) dirs.
Proof.
  induction dirs as [|dir dirs IH]; intros w; cbn zeta.
  - split; [apply grows_refl|]. split; [reflexivity|constructor].
  - simpl fold_left. destruct (IH (ensure_dir dir w)) as (Hg & Hf & Hall).
    split; [eapply grows_trans; [apply grows_ensure_dir|exact Hg]|].
    split; [now rewrite Hf, ensure_dir_files|].
    constructor; [|exact Hall].
    apply (grows_exists _ _ dir Hg), ensure_dir_exists.
Qed.

(** X30. After the bundle structure has been made, each of its six
    directories exists, no file has changed, and whatever existed before
    still exists.  The images directory of the structure is the one the
    acquisition phase looks for under the same base directory, so that
    phase finds it and makes none. *)
Theorem createBundleStructure_directories (baseDir : string) (w : World) :
  let '(structure, w') := createBundleStructure baseDir w in
  Forall (fun dir => existsSync dir w' = true)
    [postsDir structure; markdownDir structure; csvDir structure;
     jsonDir structure; imagesDir structure; reportsDir structure]
  /\ files w' = files w
  /\ (forall p, existsSync p w = true -> existsSync p w' = true)
  /\ imagesDir structure = Utils.createSafePath [baseDir; "images"]
  /\ ensure_dir (Utils.createSafePath [baseDir; "images"]) w' = w'.
Proof.
  unfold createBundleStructure. cbv zeta.
  set (dirs := [_; _; _; _; _; _]).
  destruct (ensure_dirs_spec dirs w) as (Hg & Hf & Hall).
  change (fold_left _ dirs w) with (fold_left (fun w dir => ensure_dir dir w) dirs w).
  split; [exact Hall|]. split; [exact Hf|].
  split; [intros p; apply (grows_exists _ _ p Hg)|]. split; [reflexivity|].
  unfold ensure_dir at 1.
  assert (existsSync (Utils.createSafePath [baseDir; "images"])
            (fold_left (fun w dir => ensure_dir dir w) dirs w) = true) as ->; [|reflexivity].
  rewrite List.Forall_forall in Hall. apply Hall. unfold dirs. simpl. tauto.
Qed.

End Bundle.

(** ** The properties above at sample inputs *)

(** A server that fails the first attempt of every task and delivers
    three bytes from the second on. *)
Definition second_try : ImageDownloader.Network :=
  fun _ attempt =>
    if (attempt =? 1)%nat
    then {| ImageDownloader.fetched :=
              ImageDownloader.FetchResponds false 503 "Service Unavailable"
                (ImageDownloader.BodyBytes []);
            ImageDownloader.disk := ImageDownloader.DiskOk |}
    else {| ImageDownloader.fetched :=
              ImageDownloader.FetchResponds true 200 "OK"
                (ImageDownloader.BodyBytes [Byte.x01; Byte.x02; Byte.x03]);
            ImageDownloader.disk := ImageDownloader.DiskOk |}.

Definition cover_task : ImageDownloader.ImageTask :=
  {| ImageDownloader.task_postId := "p1";
     ImageDownloader.task_postSlug := "first-post";
     ImageDownloader.task_url := "https://example.com/a.png";
     ImageDownloader.task_type := ImageDownloader.cover |}.

(** Three attempts allowed, the first fails, the second delivers: two
    fetches with two seconds between them, the directory, the file. *)
Lemma downloadSingleImage_retry_then_success_witness :
  ImageDownloader.trace
    (@ImageDownloader.downloadSingleImage NodeRuntime.platform
       (Sample.options true false true 3) second_try 0 cover_task "/out/images"
       Sample.empty_world).2
  = [ImageDownloader.EvFetch 0 "https://example.com/a.png" 1;
     ImageDownloader.EvSleep 2000;
     ImageDownloader.EvFetch 0 "https://example.com/a.png" 2;
     ImageDownloader.EvMkdir "/out/images/first-post";
     ImageDownloader.EvWrite "/out/images/first-post/cover-5289df73.png"].
Proof.
  pose proof (@downloadSingleImage_retry_then_success NodeRuntime.platform
                (Sample.options true false true 3) second_try 0 cover_task "/out/images"
                Sample.empty_world 2 [Byte.x01; Byte.x02; Byte.x03]
                ltac:(simpl; lia)
                ltac:(intros a Ha; assert (a = 1%nat) as -> by lia; eexists; reflexivity)
                ltac:(split; [eexists _, _; reflexivity|split; [discriminate|reflexivity]]))
    as Hrun.
  destruct (@ImageDownloader.downloadSingleImage NodeRuntime.platform
              (Sample.options true false true 3) second_try 0 cover_task "/out/images"
              Sample.empty_world) as [r w'].
  destruct Hrun as (_ & _ & Htrace). simpl snd. rewrite Htrace.
  vm_compute. reflexivity.
Defined.

Definition cover_post : WixBlogPost :=
  Sample.post "p1" "first-post" "First" None [] None (Some "https://example.com/a.png").

(** No attempt allowed: the cover of the post is recorded as failed
    without a request. *)
Lemma downloadAllImages_no_attempts_witness :
  @ImageDownloader.downloadAllImages NodeRuntime.platform
    (Sample.options true false true 0) Sample.always_bytes [cover_post] "/out" []
    Sample.empty_world
  = (∅, [failure cover_task EmptyString],
     ImageDownloader.mkdirSync "/out/images" Sample.empty_world).
Proof.
  exact (proj1 (@downloadAllImages_no_attempts NodeRuntime.platform
                  (Sample.options true false true 0) Sample.always_bytes [cover_post]
                  "/out" [] Sample.empty_world eq_refl eq_refl eq_refl)).
Defined.

Definition plain_post : WixBlogPost :=
  Sample.post "p2" "second-post" "Second" (Some "DRAFT") []
    (Some "Text with [a link](https://example.com) only.") None.

(** A post with a link and no image: no task. *)
Lemma downloadAllImages_no_images_witness :
  @ImageDownloader.collect_tasks NodeRuntime.platform [plain_post] = []
  /\ @ImageDownloader.downloadAllImages NodeRuntime.platform
       (Sample.options true false true 3) Sample.always_bytes [plain_post] "/out" []
       Sample.empty_world
     = (∅, [], ImageDownloader.mkdirSync "/out/images" Sample.empty_world).
Proof.
  apply (@downloadAllImages_no_images NodeRuntime.platform
           (Sample.options true false true 3) Sample.always_bytes [plain_post]
           "/out" [] Sample.empty_world).
  apply List.Forall_cons; [|apply List.Forall_nil].
  split; [reflexivity|]. intros text E. inversion E. reflexivity.
Defined.

(** With the empty mapping a post with a cover comes out as it went in. *)
Lemma processPosts_without_paths_witness :
  Exporters.processPostsWithLocalImages [cover_post; plain_post] ∅
  = [cover_post; plain_post].
Proof.
  apply (processPosts_without_paths ∅ [cover_post; plain_post]).
  intros post u _ _. unfold Exporters.truthy_path. now rewrite lookup_empty.
Defined.

Definition sample_credentials : Credentials.WixCredentials :=
  {| Credentials.apiKey := "IST.key-123";
     Credentials.accountId := "account-1";
     Credentials.siteId := "site-1" |}.

Lemma loadCredentials_round_trip_witness :
  Credentials.loadCredentials (Some (env_text sample_credentials))
  = inr sample_credentials.
Proof.
  apply (loadCredentials_round_trip sample_credentials).
  repeat split; reflexivity.
Defined.

(** A key that ends in the padding of a base-64 text loses it. *)
Lemma loadCredentials_value_cut_witness :
  Credentials.loadCredentials
    (Some (env_text {| Credentials.apiKey := "IST.key-123==";
                       Credentials.accountId := "account-1";
                       Credentials.siteId := "site-1" |}))
  = inr sample_credentials.
Proof.
  apply (loadCredentials_value_cut sample_credentials "=").
  - repeat split; reflexivity.
  - reflexivity.
Defined.

Lemma loadCredentials_ignores_witness :
  Credentials.loadCredentials
    (Some ("WIX_API_KEY=k" +:+ String JS.LF
             ("# the account" +:+ String JS.LF "WIX_ACCOUNT_ID=a")))
  = Credentials.loadCredentials
      (Some ("WIX_API_KEY=k" +:+ String JS.LF "WIX_ACCOUNT_ID=a")).
Proof.
  apply (loadCredentials_ignores "WIX_API_KEY=k" "# the account" "WIX_ACCOUNT_ID=a").
  - reflexivity.
  - right. left. reflexivity.
Defined.

(** A server that holds [all]. *)
Definition serving (all : list WixBlogPost) : WixApi.Server :=
  fun _ off =>
    WixApi.Json
      {| WixApi.res_posts := take 100 (drop (Z.to_nat off) all);
         WixApi.metaData :=
           {| WixApi.md_count := Z.of_nat (length (take 100 (drop (Z.to_nat off) all)));
              WixApi.md_offset := off;
              WixApi.md_total := Z.of_nat (length all) |} |}.

Definition many_posts : list WixBlogPost := List.repeat plain_post 250.

(** 250 posts are fetched with three requests. *)
Lemma fetchAllPosts_complete_witness :
  WixApi.fetchAllPosts 3 (serving many_posts)
  = Some (inr many_posts,
          [WixApi.EvRequest 0; WixApi.EvSleep 500; WixApi.EvRequest 100;
           WixApi.EvSleep 500; WixApi.EvRequest 200]).
Proof.
  apply (fetchAllPosts_complete many_posts (serving many_posts) 3).
  - intros n off _. reflexivity.
  - vm_compute. lia.
Defined.

(** A server whose second page fails. *)
Definition failing_second : WixApi.Server :=
  fun n off =>
    if (n =? 1)%nat then WixApi.NotOk 500 "Internal Server Error" "try later"
    else serving many_posts n off.

Lemma fetchAllPosts_pages_witness :
  exists n : nat,
    (n < 5)%nat
    /\ [WixApi.EvRequest 0; WixApi.EvSleep 500; WixApi.EvRequest 100] = requests 0 n
    /\ (forall j, (j < n)%nat -> announces_more failing_second j)
    /\ page failing_second n
       = inl (WixApi.WixApiError 500 "Internal Server Error" "try later").
Proof.
  apply (fetchAllPosts_pages failing_second 5
           (inl (WixApi.WixApiError 500 "Internal Server Error" "try later"))
           [WixApi.EvRequest 0; WixApi.EvSleep 500; WixApi.EvRequest 100]).
  vm_compute. reflexivity.
Defined.

Lemma fetchAllPosts_ends_witness :
  WixApi.fetchAllPosts 2 failing_second <> None.
Proof.
  apply (fetchAllPosts_ends failing_second 1); [|lia].
  intros (r & E & _). discriminate E.
Defined.

(** A clock that reads the year from the first four characters of an
    ISO date. *)
Definition iso_clock : Clock :=
  {| Date_now_toISOString := "2024-05-01T12:00:00.000Z";
     Date_toLocaleDateString := JS.substring0 10;
     Date_getFullYear := fun s =>
       let year := JS.substring0 4 s in
       if (String.length year =? 4)%nat && all_chars Number.is_digit year
       then Some (Number.read_digits 0 year) else None |}.

Definition dated_post (date : string) : WixBlogPost :=
  {| id := "p"; title := "T"; excerpt := EmptyString; contentText := None; url := None;
     firstPublishedDate := date; lastPublishedDate := date; status := None;
     slug := "p"; featured := false; categoryIds := []; tagIds := [];
     relatedPostIds := []; membersOnly := None; hashtags := [];
     commentingEnabled := true; minutesToRead := Number.of_Z 1; viewCount := None;
     likeCount := None; language := "en"; media := None; seoData := None;
     localImagePaths := None; coverImageLocalPath := None |}.

Definition posts_of_three_years : list WixBlogPost :=
  [dated_post "2024-02-01T10:00:00Z"; dated_post "2022-07-15T10:00:00Z";
   dated_post EmptyString; dated_post "2024-11-30T10:00:00Z";
   dated_post "2023-01-01T10:00:00Z"].

Lemma byYear_table_witness :
  @ReportByYear.byYear iso_clock posts_of_three_years
  = [(Some 2022, 1); (Some 2023, 1); (Some 2024, 2)]
  /\ sum_counts (@ReportByYear.byYear iso_clock posts_of_three_years) = 4.
Proof.
  split; [vm_compute; reflexivity|].
  apply (@byYear_table iso_clock posts_of_three_years).
  vm_compute. repeat (apply List.Forall_cons; [eexists; reflexivity|]).
  apply List.Forall_nil.
Defined.

Definition new_year_eve : BundleNames.UtcDate :=
  {| BundleNames.utcFullYear := 2024; BundleNames.utcMonth := 11;
     BundleNames.utcDate := 31; BundleNames.utcHours := 23;
     BundleNames.utcMinutes := 59 |}.

Definition new_year : BundleNames.UtcDate :=
  {| BundleNames.utcFullYear := 2025; BundleNames.utcMonth := 0;
     BundleNames.utcDate := 1; BundleNames.utcHours := 0;
     BundleNames.utcMinutes := 0 |}.

Lemma createTimestamp_injective_witness :
  BundleNames.createTimestamp new_year_eve = "20241231-2359"
  /\ BundleNames.createTimestamp new_year = "20250101-0000"
  /\ (BundleNames.createTimestamp new_year_eve = BundleNames.createTimestamp new_year
      <-> new_year_eve = new_year).
Proof.
  split; [vm_compute; reflexivity|]. split; [vm_compute; reflexivity|].
  apply (createTimestamp_injective (Sample.options true false true 3)
           new_year_eve new_year);
    unfold in_range; simpl; lia.
Defined.
